(* ===== verification/_CoqProject ===== *)
-Q . S2P
Prelude.v
GoStrings.v
GoPath.v
Tracing.v
Config.v
Leaf.v
Sds.v
Guard.v
Json.v
Envoy.v
Opa.v
Fs.v
Ca.v
Progress.v
Daemon.v
Startup.v
Enrollment.v
Main.v
Fixture.v
Environment.v
