(* ===== verification/Prelude.v ===== *)
(** * Egress gateway: a verification library

    The program is an egress gateway for Kubernetes workloads.  A daemon
    ([cmd/gateway-daemon]) owns a policy runtime (OPA) and a proxy (Envoy, alone or
    under Istio); a Lua guard in the proxy pins down each request's target before and
    after authorization; an inspection CA issues short-lived leaf certificates that
    an SDS server hands to the proxy; and [enrollment] composes all of it into
    business Pods.  The library translates that code into executable definitions
    and proves what each part promises and how the parts agree.

    ** Files, in the order in which they build on each other

    - [Prelude]: results of fallible Go functions ([result]: a value, an error, a
      panic), early-return notation, loops with early return, postconditions and
      the tactics of the library.
    - [GoStrings], [GoPath]: the parts of Go's [strings], [unicode/utf8], [strconv],
      [net/url] unescaping and [path/filepath] that the sources use, as functions on
      byte strings with their laws.
    - [Tracing] ([config/tracing.go]), [Config] ([config/config.go]): the environment
      contract.  [LoadTracing], [Load] and [Validate] keep their names; an
      environment is a lookup function, a configuration a record with the fields of
      the struct.
    - [Leaf] ([internal/inspection/leaf.go]): server names and leaf issuance.  Key
      generation, signing and encodings are the class [Signer]; randomness is an
      explicit state.
    - [Sds] ([internal/inspection/sds.go]): the secret server.  Its state has the Go
      fields: the [entries] map, the [lru] list of element references, the heap of
      cached elements and the registered watches with their bounded channels.
      [updateLocked] and [process] are the critical sections; [sds_step] is the step
      relation of all streams over them, and [sds_reachable] its closure.
    - [Guard] ([internal/request/guard.lua]): [envoy_on_request] on a handle with
      headers, dynamic metadata and connection facts; a run-time Lua error is
      [Panic].
    - [Json], [Envoy] ([internal/daemon/envoy.go], [internal/request/filter.go]),
      [Opa] ([internal/daemon/tracing.go], [opa.go]): rewrites of decoded documents.
    - [Fs], [Ca] ([internal/inspection/ca.go]): a file system with faults, crashes and
      durable state, a crash logic over it, and the CA's state files, atomic
      writes, directories and trust bundle.
    - [Progress]: the CA without faults, where a first [Open] must succeed.
    - [Daemon] ([internal/daemon/daemon.go]): start-up, supervision and shutdown as a
      trace of actions, driven by the host's answers and the order of events.
    - [Startup]: the same start-up on the file system of [Fs], composed from the
      operations of [Ca], [Opa] and [Envoy].  [start_files] runs them in the order of
      [Run] with its deferred closes; [host_of] turns the outcome into the answers
      that [Daemon.Run] gets from its host, which ties the two views together.
    - [Enrollment] ([enrollment/compose.go] and [managed.json]): [ComposePod].
    - [Main] ([cmd/gateway-daemon/main.go]): the command line and [trust-init].
    - [Fixture] ([cmd/gateway-e2e-compose]), [Environment] ([test/e2e/environment],
      [cmd/gateway-e2e]): the trusted consumer of enrollment and the owner of the
      acceptance cluster.

    ** How the parts interact, and where that is proved

    [Main.run] reads the environment through [Config.Load] and calls the daemon;
    [Enrollment.composed_daemon_config], [Main.composed_command_lines] and
    [Fixture.attached_inputs_private] show that the Pods composed by enrollment
    give the daemon the environment, arguments and mounts it expects.  The daemon
    starts the proxy only after everything the proxy depends on
    ([Daemon.proxy_starts_last]), exactly when all of that succeeds
    ([Daemon.daemon_comes_up]), and gives back all it acquired
    ([Daemon.run_releases_everything]).  What is then on disk and locked, with the
    guards, the CA, OPA's and Envoy's inputs each in the form its component
    promises, is [Startup.gateway_serving]; that this enforces the policy, with the
    policy extension on exactly when OPA's configuration file lists its plugin and the
    CA's own certificate published, is [Startup.gateway_enforces]; and that two daemons do not share a runtime
    directory or a CA, and touch nothing else, are [Startup.gateway_owns] and
    [Startup.gateway_footprint].  What the guard authorizes is what it
    forwards ([Guard.authorized_target_forwarded]) and each of its names can be
    issued by the SDS server ([Guard.guard_name_issuable]).  [Main.trustInit] uses
    the atomic write and the bundle of [Ca].

    ** Groups of theorems

    - Types and well-formedness: the tracing configuration, the configuration
      contract, server names and leaf templates.
    - Invariants: the SDS stream invariant by induction over [sds_reachable]; the
      on-disk states of the CA in every intermediate and crashed state.
    - Refinement and equivalence: the pointer-based cache against a list LRU;
      [Validate], [Load], [Bundle] and the fixture command against declarative
      specifications.
    - Functional behaviour on every branch: one SDS response, with removals only by
      eviction or for invalid names, its fan-out to every watcher whose channel has
      room, and the overlap of resources and removals that eviction within one request
      causes ([Sds.multi_response_overlap]); the two passes of the guard, the
      bootstrap rewrite, the tracing export, supervision, composition.
    - Liveness: the exact conditions under which a daemon comes up, and the success of
      a first and of a later start of the CA without faults.
    - Safety and errors: authorization that fails closed when the policy extension is
      on, isolation of the Gateway's secrets and identity in composed Pods, exclusive
      and atomic CA state, release of resources, diagnostics before the acceptance
      cluster is deleted.

    ** Parameters

    Code outside the repository's sources is a parameter: x509, key and PEM
    encodings ([Signer], [Pki]), protobuf ([SecretCodec]), [url.Parse],
    [strconv.ParseFloat], [netip.ParseAddr], the Unicode case table outside ASCII,
    YAML and JSON text formats (documents are decoded values; in [Startup] and
    [Fixture] decoding and encoding are functions on file contents), the OPA runtime,
    the networking and policy modules, the kubelet's expansion of environment
    variables and the environment of the base image, the shell phases and the suite
    of the acceptance run.  A theorem that relies on one names what it
    relies on as a hypothesis and has a witness with a concrete instance.

    ** Fuel

    [Ca.bundle_input] runs with one more than the length of its input and each round
    consumes at least the marker; [GoStrings.runes_fuel] and [strip] run with the
    length of the string and each round consumes at least one byte.
    [Daemon.wait_opa] and [Daemon.supervise] recurse over the events that arrive and
    return nothing while the loop still waits.

    ** Not modelled

    [internal/opa/register.go] and [cmd/gateway-opa] only call into OPA; the
    [process_*.go] files set platform constants; [examples/] is an echo server;
    the acceptance suite and its probes are test code.  Time-outs are events or host
    answers rather than clocks; goroutines of the SDS server are interleaved at
    their critical sections, which the server's mutex makes atomic. *)
From Stdlib Require Export Ascii String ZArith Lia.
From stdpp Require Export base strings gmap numbers list.

Declare Scope go_scope.
Delimit Scope go_scope with go.
#[global] Open Scope Z_scope.
#[global] Arguments String.append !_ _ / : simpl nomatch.
#[global] Arguments Ascii.eqb : simpl never.
#[global] Arguments String.eqb : simpl never.

(** ** Results of Go functions: [(value, nil)], [(_, err)] or a run-time panic. *)
Inductive result (E A : Type) : Type :=
| Ok (a : A)
| Err (e : E)
| Panic.
Arguments Ok {_ _} _.
Arguments Err {_ _} _.
Arguments Panic {_ _}.

#[export] Instance result_ret {E} : MRet (result E) := fun _ a => Ok a.
#[export] Instance result_bind {E} : MBind (result E) := fun _ _ f r =>
  match r with Ok a => f a | Err e => Err e | Panic => Panic end.
#[export] Instance result_fmap {E} : FMap (result E) := fun _ _ f r =>
  match r with Ok a => Ok (f a) | Err e => Err e | Panic => Panic end.

(** [if cond { return err }; k]. *)
Definition guard_err {E A} (b : bool) (e : E) (k : result E A) : result E A :=
  if b then Err e else k.
Notation "'fail_if' b 'with' e ';;' k" := (guard_err b e k)
  (at level 100, b at next level, e at next level, k at level 200, right associativity) : go_scope.
#[global] Open Scope go_scope.

(** [for _, x := range l { ... }] whose body may return early with an error. *)
Fixpoint for_each {E A S} (f : S -> A -> result E S) (s : S) (l : list A) : result E S :=
  match l with
  | [] => Ok s
  | x :: r => match f s x with Ok s' => for_each f s' r | Err e => Err e | Panic => Panic end
  end.

Notation "x =s= y" := (String.eqb x y) (at level 70, no associativity) : go_scope.

(** ** Inversion of results. *)
Lemma bind_Ok {E A B} (m : result E A) (f : A -> result E B) b :
  m ≫= f = Ok b <-> exists a, m = Ok a /\ f a = Ok b.
Proof. destruct m; cbn; naive_solver. Qed.

Lemma guard_err_Ok {E A} b (e : E) (k : result E A) a :
  guard_err b e k = Ok a <-> b = false /\ k = Ok a.
Proof. destruct b; cbn; naive_solver. Qed.

Lemma for_each_app {E A S} (f : S -> A -> result E S) s l1 l2 :
  for_each f s (l1 ++ l2) = for_each f s l1 ≫= fun s' => for_each f s' l2.
Proof. revert s; induction l1 as [|x l1 IH]; intros s; cbn; [done|]. destruct (f s x); cbn; auto. Qed.

(** A loop invariant over the processed elements. *)
Lemma for_each_inv {E A S} (f : S -> A -> result E S) (I : list A -> S -> Prop) l :
  forall done s s',
    I done s ->
    (forall d x s1 s2, I d s1 -> x ∈ l -> f s1 x = Ok s2 -> I (d ++ [x]) s2) ->
    for_each f s l = Ok s' -> I (done ++ l) s'.
Proof.
  induction l as [|x l IH]; intros d s s' HI Hstep H; cbn in H.
  - simplify_eq. by rewrite app_nil_r.
  - destruct (f s x) as [s1| |] eqn:Hf; try discriminate.
    replace (d ++ x :: l) with ((d ++ [x]) ++ l) by by rewrite <- app_assoc.
    apply (IH _ s1); auto.
    + eapply Hstep; eauto. set_solver.
    + intros. eapply Hstep; eauto. set_solver.
Qed.

(** ** Tactics of the development. *)
Ltac inv_result :=
  repeat match goal with
  | H : Ok _ = Ok _ |- _ => injection H as H; subst
  | H : Err _ = Err _ |- _ => injection H as H; subst
  | H : Ok _ = Err _ |- _ => discriminate H
  | H : Err _ = Ok _ |- _ => discriminate H
  | H : Panic = _ |- _ => discriminate H
  | H : _ = Panic |- _ => discriminate H
  | H : guard_err _ _ _ = Ok _ |- _ => apply guard_err_Ok in H as [? H]
  | H : _ ≫= _ = Ok _ |- _ => apply bind_Ok in H as (? & ? & H)
  end.

(** Split boolean conjunctions and negated disjunctions in the context. *)
Ltac bool_hyps :=
  repeat match goal with
  | H : _ && _ = true |- _ => apply andb_true_iff in H as [? ?]
  | H : _ || _ = false |- _ => apply orb_false_iff in H as [? ?]
  | H : negb _ = true |- _ => apply negb_true_iff in H
  | H : negb _ = false |- _ => apply negb_false_iff in H
  | H : String.eqb _ _ = true |- _ => apply String.eqb_eq in H
  | H : String.eqb _ _ = false |- _ => apply String.eqb_neq in H
  | H : Z.ltb _ _ = true |- _ => apply Z.ltb_lt in H
  | H : Z.ltb _ _ = false |- _ => apply Z.ltb_ge in H
  | H : Z.leb _ _ = true |- _ => apply Z.leb_le in H
  | H : Z.leb _ _ = false |- _ => apply Z.leb_gt in H
  | H : Z.eqb _ _ = true |- _ => apply Z.eqb_eq in H
  | H : Z.eqb _ _ = false |- _ => apply Z.eqb_neq in H
  end.

(** Case analysis on the next match or if of a hypothesis. *)
Ltac split_match H :=
  match type of H with
  | context [match ?x with _ => _ end] =>
      first [ is_var x; destruct x | let E := fresh "E" in destruct x eqn:E ]
  end.

Create HintDb gateway.
#[export] Hint Resolve String.eqb_refl Z.ltb_irrefl : gateway.

(** ** Generic lemmas *)
Lemma filter_all {A} (P : A -> Prop) `{!forall x, Decision (P x)} l :
  Forall P l -> filter P l = l.
Proof.
  induction 1 as [|x l Hx Hl IH]; [done|]. by rewrite filter_cons_True, IH.
Qed.

Lemma for_each_ext {E A S} (f g : S -> A -> result E S) l :
  (forall s x, x ∈ l -> f s x = g s x) -> forall s, for_each f s l = for_each g s l.
Proof.
  induction l as [|x l IH]; intros H s; cbn; [done|].
  rewrite (H s x) by set_solver. destruct (g s x); auto. apply IH. set_solver.
Qed.

(** ** A postcondition for every outcome: [P] of a value, [Q] of an error, no panic. *)
Definition outcome {E A} (Q : E -> Prop) (r : result E A) (P : A -> Prop) : Prop :=
  match r with Ok a => P a | Err e => Q e | Panic => False end.

Section outcome.
Context {E : Type} (Q : E -> Prop).

Lemma outcome_mono {A} (P P' : A -> Prop) r :
  outcome Q r P -> (forall a, P a -> P' a) -> outcome Q r P'.
Proof. destruct r; cbn; auto. Qed.

Lemma outcome_bind {A B} (m : result E A) (f : A -> result E B) P :
  outcome Q m (fun a => outcome Q (f a) P) -> outcome Q (m ≫= f) P.
Proof. by destruct m. Qed.

Lemma outcome_fmap {A B} (m : result E A) (f : A -> B) P :
  outcome Q m (fun a => P (f a)) -> outcome Q (f <$> m) P.
Proof. by destruct m. Qed.

Lemma outcome_guard {A} b e (k : result E A) P :
  Q e -> (b = false -> outcome Q k P) -> outcome Q (guard_err b e k) P.
Proof. destruct b; cbn; auto. Qed.

Lemma outcome_for_each {A S} (f : S -> A -> result E S) (I : list A -> S -> Prop) l s :
  I [] s ->
  (forall d x s1, I d s1 -> x ∈ l -> outcome Q (f s1 x) (I (d ++ [x]))) ->
  outcome Q (for_each f s l) (I l).
Proof.
  intros H0 HS. enough (forall l' d s1, d ++ l' = l -> I d s1 ->
    outcome Q (for_each f s1 l') (I l)) by (by eapply (H l [])).
  induction l' as [|x l' IH]; intros d s1 <- Hd; cbn.
  - by rewrite app_nil_r.
  - specialize (HS d x s1 Hd). destruct (f s1 x) as [s2|e|]; cbn in *.
    + apply (IH (d ++ [x])); [by rewrite <- app_assoc|]. apply HS. set_solver.
    + apply HS. set_solver.
    + apply HS. set_solver.
Qed.

Lemma outcome_Ok {A} (r : result E A) P a : outcome Q r P -> r = Ok a -> P a.
Proof. by intros H ->. Qed.
Lemma outcome_Err {A} (r : result E A) P e : outcome Q r P -> r = Err e -> Q e.
Proof. by intros H ->. Qed.
End outcome.

Lemma existsb_ext_in {A} (f g : A -> bool) l :
  (forall x, x ∈ l -> f x = g x) -> existsb f l = existsb g l.
Proof.
  induction l as [|x l IH]; intros H; cbn; [done|]. rewrite H by set_solver.
  rewrite IH; [done|]. set_solver.
Qed.
