(* ===== verification/GoStrings.v ===== *)
(** The parts of Go's [strings], [unicode/utf8], [strconv] and [net/url] string
    functions that the gateway uses, on byte strings ([String.string]): prefix
    and suffix tests, [Split]/[Cut]/[Join], [TrimSpace], UTF-8 decoding (the
    [range] loop over a string), [ToLower], [EqualFold], [Atoi] and
    [PathUnescape].  Nothing here models code of the repository; the components
    require it. *)
From S2P Require Import Prelude.

(** ** Bytes *)
Definition ord (c : ascii) : Z := Z.of_N (N_of_ascii c).
Definition chr (z : Z) : ascii := ascii_of_N (Z.to_N z).

Lemma ord_range c : 0 <= ord c < 256.
Proof. unfold ord. pose proof (N_ascii_bounded c). lia. Qed.
Lemma chr_ord c : chr (ord c) = c.
Proof. unfold chr, ord. rewrite N2Z.id. apply ascii_N_embedding. Qed.
Lemma ord_chr z : 0 <= z < 256 -> ord (chr z) = z.
Proof. intros. unfold chr, ord. rewrite N_ascii_embedding; lia. Qed.
Lemma ord_inj c d : ord c = ord d -> c = d.
Proof. intros H. by rewrite <- (chr_ord c), H, chr_ord. Qed.

(** A property of all 256 byte values, decided by enumeration. *)
Definition all_bytes (f : ascii -> bool) : bool :=
  forallb (fun n => f (chr (Z.of_nat n))) (seq 0 256).
Lemma all_bytes_spec f : all_bytes f = true -> forall c, f c = true.
Proof.
  unfold all_bytes. rewrite forallb_forall. intros H c.
  rewrite <- (chr_ord c), <- (Z2Nat.id (ord c)) by apply ord_range.
  apply H, in_seq. pose proof (ord_range c). lia.
Qed.

Definition is_lower (c : ascii) : bool := (97 <=? ord c) && (ord c <=? 122).
Definition is_upper (c : ascii) : bool := (65 <=? ord c) && (ord c <=? 90).
Definition is_digit (c : ascii) : bool := (48 <=? ord c) && (ord c <=? 57).
Definition is_ascii (c : ascii) : bool := ord c <? 128.
Definition lower_ascii (c : ascii) : ascii := if is_upper c then chr (ord c + 32) else c.

(** ** Structure of strings *)
Fixpoint smap (f : ascii -> ascii) (s : string) : string :=
  match s with EmptyString => EmptyString | String c r => String (f c) (smap f r) end.
Fixpoint sforall (p : ascii -> bool) (s : string) : bool :=
  match s with EmptyString => true | String c r => p c && sforall p r end.
Fixpoint srev_append (s acc : string) : string :=
  match s with EmptyString => acc | String c r => srev_append r (String c acc) end.
Definition srev (s : string) : string := srev_append s EmptyString.
Definition slen (s : string) : Z := Z.of_nat (String.length s).
Definition first_byte (s : string) : option ascii :=
  match s with EmptyString => None | String c _ => Some c end.
Fixpoint last_byte (s : string) : option ascii :=
  match s with
  | EmptyString => None
  | String c EmptyString => Some c
  | String _ r => last_byte r
  end.

(** [strings.HasPrefix], returning the rest ([strings.CutPrefix]). *)
Fixpoint cut_prefix (p s : string) : option string :=
  match p, s with
  | EmptyString, _ => Some s
  | String a p', String b s' => if Ascii.eqb a b then cut_prefix p' s' else None
  | String _ _, EmptyString => None
  end.
Definition has_prefix (s p : string) : bool :=
  match cut_prefix p s with Some _ => true | None => false end.
Definition has_suffix (s p : string) : bool := has_prefix (srev s) (srev p).

(** [strings.Contains]. *)
Fixpoint contains_str (s sub : string) : bool :=
  has_prefix s sub || match s with EmptyString => false | String _ r => contains_str r sub end.
Fixpoint contains_byte (c : ascii) (s : string) : bool :=
  match s with EmptyString => false | String d r => Ascii.eqb c d || contains_byte c r end.

(** [strings.Split]/[SplitSeq] with a one-byte separator; never empty. *)
Fixpoint split (sep : ascii) (s : string) : list string :=
  match s with
  | EmptyString => [EmptyString]
  | String c r =>
      if Ascii.eqb c sep then EmptyString :: split sep r
      else match split sep r with h :: t => String c h :: t | [] => [String c EmptyString] end
  end.
Fixpoint join (sep : string) (l : list string) : string :=
  match l with [] => EmptyString | [x] => x | x :: r => x +:+ sep +:+ join sep r end.

(** [strings.Cut] with a one-byte separator. *)
Fixpoint cut (sep : ascii) (s : string) : option (string * string) :=
  match s with
  | EmptyString => None
  | String c r =>
      if Ascii.eqb c sep then Some (EmptyString, r)
      else match cut sep r with Some (a, b) => Some (String c a, b) | None => None end
  end.

(** ** [strings.TrimSpace]: the UTF-8 encodings of [unicode.IsSpace]. *)
Definition bytes (l : list Z) : string := string_of_list_ascii (map chr l).
Definition spaces : list string :=
  map bytes [[9]; [10]; [11]; [12]; [13]; [32]; [194;133]; [194;160]; [225;154;128];
    [226;128;128]; [226;128;129]; [226;128;130]; [226;128;131]; [226;128;132]; [226;128;133];
    [226;128;134]; [226;128;135]; [226;128;136]; [226;128;137]; [226;128;138]; [226;128;168];
    [226;128;169]; [226;128;175]; [226;129;159]; [227;128;128]].

Fixpoint strip_one (l : list string) (s : string) : option string :=
  match l with
  | [] => None
  | p :: l' => match cut_prefix p s with Some r => Some r | None => strip_one l' s end
  end.
Fixpoint strip (fuel : nat) (l : list string) (s : string) : string :=
  match fuel with
  | O => s
  | S n => match strip_one l s with Some r => strip n l r | None => s end
  end.
Definition trim_left (s : string) : string := strip (String.length s) spaces s.
Definition trim_right (s : string) : string :=
  srev (strip (String.length s) (map srev spaces) (srev s)).
Definition trim_space (s : string) : string := trim_right (trim_left s).

(** ** UTF-8 *)
Definition rune_error : Z := 65533.

(** First rune and the remaining bytes, as [utf8.DecodeRune]; an invalid
    sequence yields [rune_error] and consumes one byte. *)
Definition cont (c : ascii) : bool := (128 <=? ord c) && (ord c <? 192).
Definition between (lo hi : Z) (c : ascii) : bool := (lo <=? ord c) && (ord c <=? hi).

Definition decode_rune (c : ascii) (r : string) : Z * string :=
  let bad := (rune_error, r) in
  let x := ord c in
  if x <? 128 then (x, r)
  else if (194 <=? x) && (x <=? 223) then
    match r with
    | String c1 r1 =>
        if cont c1 then ((x - 192) * 64 + (ord c1 - 128), r1) else bad
    | _ => bad
    end
  else if (224 <=? x) && (x <=? 239) then
    match r with
    | String c1 (String c2 r2) =>
        if between (if x =? 224 then 160 else 128) (if x =? 237 then 159 else 191) c1 && cont c2
        then ((x - 224) * 4096 + (ord c1 - 128) * 64 + (ord c2 - 128), r2) else bad
    | _ => bad
    end
  else if (240 <=? x) && (x <=? 244) then
    match r with
    | String c1 (String c2 (String c3 r3)) =>
        if between (if x =? 240 then 144 else 128) (if x =? 244 then 143 else 191) c1 && cont c2 && cont c3
        then ((x - 240) * 262144 + (ord c1 - 128) * 4096 + (ord c2 - 128) * 64 + (ord c3 - 128), r3)
        else bad
    | _ => bad
    end
  else bad.

Fixpoint runes_fuel (fuel : nat) (s : string) : list Z :=
  match fuel, s with
  | S n, String c r => let '(x, r') := decode_rune c r in x :: runes_fuel n r'
  | _, _ => []
  end.
(** The runes a [range] loop over [s] yields. *)
Definition runes (s : string) : list Z := runes_fuel (String.length s) s.
#[global] Arguments runes : simpl never.
#[global] Arguments decode_rune : simpl never.

(** [utf8.AppendRune]. *)
Definition encode_rune (r : Z) : string :=
  let e3 x := bytes [224 + x / 4096; 128 + (x / 64) mod 64; 128 + x mod 64] in
  if (r <? 0) || (1114111 <? r) || ((55296 <=? r) && (r <=? 57343)) then e3 rune_error
  else if r <? 128 then bytes [r]
  else if r <? 2048 then bytes [192 + r / 64; 128 + r mod 64]
  else if r <? 65536 then e3 r
  else bytes [240 + r / 262144; 128 + (r / 4096) mod 64; 128 + (r / 64) mod 64; 128 + r mod 64].

(** ** Case. [unicode_lower] is the [unicode.ToLower] table above ASCII. *)
Definition lower_rune (unicode_lower : Z -> Z) (r : Z) : Z :=
  if r <? 128 then (if (65 <=? r) && (r <=? 90) then r + 32 else r) else unicode_lower r.
Definition to_lower (unicode_lower : Z -> Z) (s : string) : string :=
  if sforall is_ascii s then smap lower_ascii s
  else foldr (fun r acc => encode_rune (lower_rune unicode_lower r) +:+ acc) EmptyString (runes s).

(** [strings.EqualFold s t] for an ASCII [t]: the only non-ASCII runes that fold
    to ASCII are the long s (17F) and the Kelvin sign (212A). *)
Definition fold_rune (r : Z) : Z :=
  if (65 <=? r) && (r <=? 90) then r + 32
  else if r =? 383 then 115 else if r =? 8490 then 107 else r.
Definition equal_fold (s t : string) : bool :=
  bool_decide (map fold_rune (runes s) = map fold_rune (runes t)).

(** ** Numbers *)
Definition max_int64 : Z := 9223372036854775807.
Fixpoint digits (s : string) (acc : Z) : option Z :=
  match s with
  | EmptyString => Some acc
  | String c r => if is_digit c then digits r (acc * 10 + (ord c - 48)) else None
  end.
Definition digits1 (s : string) : option Z :=
  match s with EmptyString => None | _ => digits s 0 end.
(** [strconv.Atoi] on a 64-bit platform; [None] is any error. *)
Definition atoi (s : string) : option Z :=
  let in_range z := if (- max_int64 - 1 <=? z) && (z <=? max_int64) then Some z else None in
  match s with
  | String c r =>
      if Ascii.eqb c "-" then digits1 r ≫= fun z => in_range (- z)
      else if Ascii.eqb c "+" then digits1 r ≫= in_range
      else digits1 s ≫= in_range
  | EmptyString => None
  end.

(** ** [url.PathUnescape]; [None] is the malformed-escape error. *)
Definition hex (c : ascii) : option Z :=
  let x := ord c in
  if is_digit c then Some (x - 48)
  else if (97 <=? x) && (x <=? 102) then Some (x - 87)
  else if (65 <=? x) && (x <=? 70) then Some (x - 55) else None.
Fixpoint path_unescape (s : string) : option string :=
  match s with
  | EmptyString => Some EmptyString
  | String c r =>
      if Ascii.eqb c "%" then
        match r with
        | String a (String b r') =>
            x ← hex a; y ← hex b; t ← path_unescape r'; Some (String (chr (16 * x + y)) t)
        | _ => None
        end
      else t ← path_unescape r; Some (String c t)
  end.

(** ** Lemmas: concatenation, split and join *)
Lemma sapp_nil_r s : s +:+ EmptyString = s.
Proof. induction s as [|c s IH]; cbn; [done|by rewrite IH]. Qed.
Lemma sapp_assoc a b c : (a +:+ b) +:+ c = a +:+ (b +:+ c).
Proof. induction a as [|x a IH]; cbn; [done|by rewrite IH]. Qed.
Lemma slen_app a b : slen (a +:+ b) = slen a + slen b.
Proof. unfold slen. induction a; cbn [String.length String.append]; lia. Qed.

Lemma contains_byte_app c a b : contains_byte c (a +:+ b) = contains_byte c a || contains_byte c b.
Proof. induction a as [|x a IH]; cbn; [done|]. rewrite IH. by destruct (Ascii.eqb c x). Qed.

Lemma split_nonempty sep s : split sep s <> [].
Proof. destruct s; cbn; [done|]. destruct (Ascii.eqb _ _), (split sep s); done. Qed.

Lemma split_no_sep sep s x : x ∈ split sep s -> contains_byte sep x = false.
Proof.
  revert x; induction s as [|c s IH]; intros x; cbn.
  - rewrite list_elem_of_singleton. by intros ->.
  - destruct (Ascii.eqb c sep) eqn:E.
    + rewrite elem_of_cons. intros [->|H]; auto.
    + destruct (split sep s) as [|h t] eqn:Hs; [by destruct (split_nonempty sep s)|].
      rewrite elem_of_cons. intros [->|H].
      * cbn. rewrite Ascii.eqb_sym, E. cbn. apply (IH h). set_solver.
      * apply (IH x). set_solver.
Qed.

Lemma split_clean sep x : contains_byte sep x = false -> split sep x = [x].
Proof.
  induction x as [|c x IH]; cbn; [done|]. rewrite Ascii.eqb_sym.
  destruct (Ascii.eqb c sep); cbn; [done|]. intros H. by rewrite (IH H).
Qed.

Lemma split_app sep x s :
  contains_byte sep x = false -> split sep (x +:+ String sep s) = x :: split sep s.
Proof.
  induction x as [|c x IH]; cbn.
  - by rewrite Ascii.eqb_refl.
  - rewrite Ascii.eqb_sym. destruct (Ascii.eqb c sep); cbn; [done|]. intros H. by rewrite (IH H).
Qed.

Lemma split_join sep l :
  l <> [] -> Forall (fun x => contains_byte sep x = false) l ->
  split sep (join (String sep EmptyString) l) = l.
Proof.
  induction l as [|x l IH]; [done|]. intros _ [Hx Hl]%Forall_cons.
  destruct l as [|y l]; cbn [join].
  - by apply split_clean.
  - transitivity (split sep (x +:+ String sep (join (String sep EmptyString) (y :: l)))); [done|].
    by rewrite split_app, IH.
Qed.

Lemma cut_prefix_app p s : cut_prefix p (p +:+ s) = Some s.
Proof. induction p as [|c p IH]; cbn; [done|]. by rewrite Ascii.eqb_refl. Qed.
Lemma cut_prefix_Some p s r : cut_prefix p s = Some r <-> s = p +:+ r.
Proof.
  split.
  - revert s; induction p as [|c p IH]; intros s; cbn.
    + naive_solver.
    + destruct s as [|d s]; [done|]. destruct (Ascii.eqb_spec c d) as [->|]; [|done].
      intros H. by rewrite (IH _ H).
  - intros ->. apply cut_prefix_app.
Qed.
Lemma has_prefix_spec s p : has_prefix s p = true <-> exists r, s = p +:+ r.
Proof.
  unfold has_prefix. split.
  - destruct (cut_prefix p s) as [r|] eqn:E; [|done]. intros _. exists r. by apply cut_prefix_Some.
  - intros [r ->]. by rewrite cut_prefix_app.
Qed.

(** ** UTF-8: ASCII runes are exactly the ASCII bytes *)
Lemma sforall_app p a b : sforall p (a +:+ b) = sforall p a && sforall p b.
Proof. induction a as [|x a IH]; cbn; [done|]. by rewrite IH, andb_assoc. Qed.

Ltac byte_hyps := unfold cont, between in *; bool_hyps.

Lemma decode_rune_spec c r x r' :
  decode_rune c r = (x, r') ->
  (ord c < 128 /\ x = ord c /\ r' = r) \/
  (128 <= ord c /\ 128 <= x <= 1114111 /\
   exists p, r = p +:+ r' /\ sforall (fun d => negb (is_ascii d)) p = true).
Proof.
  unfold decode_rune. pose proof (ord_range c) as Hc.
  destruct (ord c <? 128) eqn:E0; bool_hyps; [naive_solver|].
  assert (Hbad : (rune_error, r) = (x, r') ->
    128 <= ord c /\ 128 <= x <= 1114111 /\
    exists p, r = p +:+ r' /\ sforall (fun d => negb (is_ascii d)) p = true).
  { intros [= <- <-]. split_and!; [lia|by vm_compute|by vm_compute|]. by exists EmptyString. }
  assert (Hone : forall d, 128 <= ord d -> negb (is_ascii d) = true).
  { intros d Hd. unfold is_ascii. apply negb_true_iff, Z.ltb_ge. lia. }
  intros H; right.
  destruct ((194 <=? ord c) && (ord c <=? 223)) eqn:E1.
  { destruct r as [|c1 r1]; [auto|]. destruct (cont c1) eqn:Ec; [|auto].
    injection H as <- <-. byte_hyps. split_and!; [lia..|].
    exists (String c1 EmptyString). cbn. by rewrite Hone. }
  destruct ((224 <=? ord c) && (ord c <=? 239)) eqn:E2.
  { destruct r as [|c1 [|c2 r2]]; [auto..|].
    destruct (between _ _ c1 && cont c2) eqn:Ec; [|auto].
    injection H as <- <-. byte_hyps.
    destruct (ord c =? 224) eqn:E3, (ord c =? 237) eqn:E4; bool_hyps.
    all: split_and!; [lia..|]; exists (String c1 (String c2 EmptyString)); cbn;
      rewrite !Hone by lia; done. }
  destruct ((240 <=? ord c) && (ord c <=? 244)) eqn:E3; [|auto].
  destruct r as [|c1 [|c2 [|c3 r3]]]; [auto..|].
  destruct (between _ _ c1 && cont c2 && cont c3) eqn:Ec; [|auto].
  injection H as <- <-. byte_hyps.
  destruct (ord c =? 240) eqn:E4, (ord c =? 244) eqn:E5; bool_hyps.
  all: split_and!; [lia..|]; exists (String c1 (String c2 (String c3 EmptyString))); cbn;
    rewrite !Hone by lia; done.
Qed.

Lemma decode_rune_length c r x r' :
  decode_rune c r = (x, r') -> (String.length r' <= String.length r)%nat.
Proof.
  intros H. apply decode_rune_spec in H as [(_ & _ & ->)|(_ & _ & p & -> & _)]; [done|].
  pose proof (slen_app p r'). unfold slen in *. lia.
Qed.

(** Induction over the runes of a string. *)
Lemma runes_cons c r : runes (String c r) = (decode_rune c r).1 :: runes (decode_rune c r).2.
Proof.
  assert (Hf : forall n m s, (String.length s <= n)%nat -> (String.length s <= m)%nat ->
    runes_fuel n s = runes_fuel m s).
  { intros n; induction n as [|n IH]; intros m s Hn Hm; destruct s as [|d s]; cbn in *;
      [by destruct m|lia|by destruct m|].
    destruct m as [|m]; [lia|]. cbn. destruct (decode_rune d s) as [x s'] eqn:E.
    f_equal. apply decode_rune_length in E. apply IH; lia. }
  unfold runes at 1. cbn. destruct (decode_rune c r) as [x r'] eqn:E. cbn. f_equal.
  apply decode_rune_length in E. by apply Hf.
Qed.

Lemma string_rune_ind (P : string -> Prop) :
  P EmptyString -> (forall c r, P (decode_rune c r).2 -> P (String c r)) -> forall s, P s.
Proof.
  intros H0 HS s. induction s as [s IH] using (induction_ltof1 _ String.length).
  destruct s as [|c r]; [done|]. apply HS, IH. unfold ltof. cbn.
  destruct (decode_rune c r) as [x r'] eqn:E. apply decode_rune_length in E. cbn. lia.
Qed.

(** A predicate that holds of every non-ASCII rune holds of all runes of [s]
    exactly when it holds of every ASCII byte of [s]. *)
Lemma forallb_runes f s :
  (forall x, 128 <= x -> f x = true) ->
  forallb f (runes s) = sforall (fun c => negb (is_ascii c) || f (ord c)) s.
Proof.
  intros Hf. induction s as [|c r IH] using string_rune_ind; [done|].
  rewrite runes_cons. cbn. rewrite IH. destruct (decode_rune c r) as [x r'] eqn:E. cbn.
  apply decode_rune_spec in E as [(H & -> & ->)|(H & Hx & p & -> & Hp)]; unfold is_ascii at 2.
  - replace (ord c <? 128) with true by lia. done.
  - replace (ord c <? 128) with false by lia. rewrite (Hf x) by lia. cbn.
    rewrite sforall_app. replace (sforall _ p) with true; [done|]. symmetry.
    clear -Hp. induction p as [|d p IH]; cbn in *; [done|]. bool_hyps. rewrite H.
    by rewrite IH.
Qed.

Lemma runes_ascii s : sforall is_ascii s = true -> runes s = map ord (list_ascii_of_string s).
Proof.
  induction s as [|c s IH]; [done|]. cbn [sforall]. intros H. bool_hyps.
  rewrite runes_cons. unfold is_ascii in H. unfold decode_rune. rewrite H. cbn. by rewrite IH.
Qed.

Lemma sforall_spec p s : sforall p s = true <-> forall c, c ∈ list_ascii_of_string s -> p c = true.
Proof.
  induction s as [|c s IH]; cbn; [split; [intros _ d Hd; by apply not_elem_of_nil in Hd|done]|].
  rewrite andb_true_iff, IH. set_solver.
Qed.

(** A predicate that fails on every non-ASCII rune forces an ASCII string. *)
Lemma forallb_runes_ascii f s :
  (forall x, 128 <= x -> f x = false) ->
  forallb f (runes s) = sforall (fun c => is_ascii c && f (ord c)) s.
Proof.
  intros Hf. induction s as [|c r IH] using string_rune_ind; [done|].
  rewrite runes_cons. cbn. rewrite IH. destruct (decode_rune c r) as [x r'] eqn:E. cbn.
  apply decode_rune_spec in E as [(H & -> & ->)|(H & Hx & p & -> & Hp)]; unfold is_ascii at 2.
  - replace (ord c <? 128) with true by lia. done.
  - replace (ord c <? 128) with false by lia. by rewrite (Hf x) by lia.
Qed.

Lemma sforall_impl (p q : ascii -> bool) s :
  (forall c, p c = true -> q c = true) -> sforall p s = true -> sforall q s = true.
Proof. rewrite !sforall_spec. auto. Qed.

(** ** Lower case *)
(** Decide a boolean fact about a byte by enumeration. *)
Ltac by_bytes c := lazymatch goal with |- ?b = true => pattern c; lazymatch goal with
  |- ?P _ => let f := eval cbv beta in (fun c => ltac:(let t := eval cbv beta in (P c) in
      lazymatch t with ?g = true => exact g end)) in
    exact (all_bytes_spec f (eq_refl true <: all_bytes f = true) c) end end.

Lemma lower_ascii_idem c : lower_ascii (lower_ascii c) = lower_ascii c.
Proof. apply Ascii.eqb_eq. by_bytes c. Qed.
Lemma lower_ascii_ascii c : is_ascii (lower_ascii c) = is_ascii c.
Proof. apply eqb_prop. by_bytes c. Qed.
Lemma smap_length f s : String.length (smap f s) = String.length s.
Proof. induction s as [|c s IH]; cbn; [done|]. by rewrite IH. Qed.
Lemma smap_idem f s : (forall c, f (f c) = f c) -> smap f (smap f s) = smap f s.
Proof. intros H. induction s as [|c s IH]; cbn; [done|]. by rewrite H, IH. Qed.
Lemma sforall_smap p f s : sforall p (smap f s) = sforall (fun c => p (f c)) s.
Proof. induction s as [|c s IH]; cbn; [done|]. by rewrite IH. Qed.
Lemma sforall_ext p q s : (forall c, p c = q c) -> sforall p s = sforall q s.
Proof. intros H. induction s as [|c s IH]; cbn; [done|]. by rewrite H, IH. Qed.
Lemma smap_id f s : sforall (fun c => Ascii.eqb (f c) c) s = true -> smap f s = s.
Proof.
  induction s as [|c s IH]; cbn; [done|]. intros H. bool_hyps.
  rewrite IH by done. f_equal. by apply Ascii.eqb_eq.
Qed.

(** An encoding made of ASCII bytes is one byte long. *)
Lemma encode_rune_nonempty r : encode_rune r <> EmptyString.
Proof. unfold encode_rune. repeat case_match; done. Qed.
Lemma encode_rune_ascii r : sforall is_ascii (encode_rune r) = true -> String.length (encode_rune r) = 1%nat.
Proof.
  assert (Hhi : forall z s, 192 <= z < 256 -> sforall is_ascii (String (chr z) s) = true -> False).
  { intros z s Hz. cbn. unfold is_ascii at 1. rewrite ord_chr by lia.
    by replace (z <? 128) with false by lia. }
  unfold encode_rune, bytes.
  destruct (_ || _ || _) eqn:E0; [intros H; exfalso; vm_compute in H; discriminate|]. bool_hyps.
  assert (0 <= r <= 1114111) by lia.
  destruct (r <? 128) eqn:E1; [done|].
  destruct (r <? 2048) eqn:E2; cbn [map string_of_list_ascii].
  { intros []%Hhi. bool_hyps. Z.to_euclidean_division_equations; lia. }
  destruct (r <? 65536) eqn:E3; cbn [map string_of_list_ascii].
  { intros []%Hhi. bool_hyps. Z.to_euclidean_division_equations; lia. }
  intros []%Hhi. bool_hyps. Z.to_euclidean_division_equations; lia.
Qed.

Lemma runes_length s : (length (runes s) <= String.length s)%nat.
Proof.
  induction s as [|c r IH] using string_rune_ind; [done|].
  rewrite runes_cons. destruct (decode_rune c r) as [x r'] eqn:E. cbn in *.
  apply decode_rune_length in E. lia.
Qed.

Lemma to_lower_length ul s :
  sforall is_ascii (to_lower ul s) = true -> (String.length (to_lower ul s) <= String.length s)%nat.
Proof.
  unfold to_lower. destruct (sforall is_ascii s) eqn:E; [by rewrite smap_length|].
  intros H. transitivity (length (runes s)); [|apply runes_length].
  induction (runes s) as [|x l IH]; cbn in *; [done|]. rewrite sforall_app in H. bool_hyps.
  pose proof (slen_app (encode_rune (lower_rune ul x))
    (foldr (fun r acc => encode_rune (lower_rune ul r) +:+ acc) EmptyString l)) as Hl.
  unfold slen in Hl. apply encode_rune_ascii in H. apply IH in H0. lia.
Qed.

Lemma to_lower_ascii ul s : sforall is_ascii s = true -> to_lower ul s = smap lower_ascii s.
Proof. unfold to_lower. by intros ->. Qed.

(** ** Reversal and suffixes *)
Lemma srev_append_spec s acc : srev_append s acc = srev s +:+ acc.
Proof.
  unfold srev. revert acc; induction s as [|c s IH]; intros acc; cbn; [done|].
  by rewrite IH, (IH (String c EmptyString)), sapp_assoc.
Qed.
Lemma srev_app a b : srev (a +:+ b) = srev b +:+ srev a.
Proof.
  induction a as [|c a IH]; cbn; [by rewrite sapp_nil_r|].
  change (srev_append (a +:+ b) (String c EmptyString) = srev b +:+ srev_append a (String c EmptyString)).
  by rewrite !srev_append_spec, IH, sapp_assoc.
Qed.
Lemma srev_involutive s : srev (srev s) = s.
Proof.
  induction s as [|c s IH]; [done|].
  change (srev (srev_append s (String c EmptyString)) = String c s).
  by rewrite srev_append_spec, srev_app, IH.
Qed.
Lemma has_suffix_spec s p : has_suffix s p = true <-> exists r, s = r +:+ p.
Proof.
  unfold has_suffix. rewrite has_prefix_spec. split; intros [r Hr].
  - exists (srev r). by rewrite <- (srev_involutive s), Hr, srev_app, srev_involutive.
  - exists (srev r). by rewrite Hr, srev_app.
Qed.

Lemma split_sep_end sep p :
  split sep (p +:+ String sep EmptyString) = split sep p ++ [EmptyString].
Proof.
  induction p as [|c p IH]; cbn; [by rewrite Ascii.eqb_refl|].
  destruct (Ascii.eqb c sep); rewrite IH; [done|].
  destruct (split sep p) eqn:E; [by apply split_nonempty in E|done].
Qed.
