(* ===== verification/GoPath.v ===== *)
(** Go's [path/filepath] on Unix: [IsAbs], [Clean], [Join], [Rel] and [IsLocal],
    through the list of path elements; and the component view of a clean absolute
    path that the configuration's containment tests rest on. *)
From S2P Require Import Prelude GoStrings.

Definition slash : ascii := "/".
Definition sep1 : string := String slash EmptyString.

Definition is_abs (p : string) : bool :=
  match p with String c _ => Ascii.eqb c slash | EmptyString => false end.

(** The element stack of [Clean]: [stack] holds the kept elements, last first. *)
Fixpoint clean_stack (rooted : bool) (stack l : list string) : list string :=
  match l with
  | [] => stack
  | e :: r =>
      if (e =s= "") || (e =s= ".") then clean_stack rooted stack r
      else if e =s= ".." then
        match stack with
        | t :: st => if t =s= ".." then clean_stack rooted (e :: stack) r
                     else clean_stack rooted st r
        | [] => if rooted then clean_stack rooted [] r else clean_stack rooted [e] r
        end
      else clean_stack rooted (e :: stack) r
  end.

Definition clean (p : string) : string :=
  let out := rev (clean_stack (is_abs p) [] (split slash p)) in
  if is_abs p then String slash (join sep1 out)
  else match out with [] => "." | _ => join sep1 out end.

(** [filepath.Join(a, b)]. *)
Definition path_join (a b : string) : string :=
  match filter (fun e => e <> EmptyString) [a; b] with
  | [] => EmptyString
  | l => clean (join sep1 l)
  end.

(** The elements of a cleaned path. *)
Definition elements (p : string) : list string :=
  filter (fun e => e <> EmptyString) (split slash (if p =s= "." then EmptyString else p)).

Fixpoint drop_common (a b : list string) : list string * list string :=
  match a, b with
  | x :: a', y :: b' => if x =s= y then drop_common a' b' else (a, b)
  | _, _ => (a, b)
  end.

(** [filepath.Rel]; [None] is its error. *)
Definition rel (base targ : string) : option string :=
  let b := clean base in
  let t := clean targ in
  if b =s= t then Some "."
  else if Bool.eqb (is_abs b) (is_abs t) then
    let '(br, tr) := drop_common (elements b) (elements t) in
    match br, tr with
    | e :: _, _ :: _ => if e =s= ".." then None
                        else Some (join sep1 (replicate (length br) ".." ++ tr))
    | _, _ => Some (join sep1 (replicate (length br) ".." ++ tr))
    end
  else None.

(** [filepath.IsLocal]. *)
Definition is_local (p : string) : bool :=
  if is_abs p || (p =s= "") then false
  else
    let dots := existsb (fun e => (e =s= ".") || (e =s= "..")) (split slash p) in
    let p' := if dots then clean p else p in
    negb ((p' =s= "..") || has_prefix p' "../").

(** ** Elements of clean paths *)
Definition normal (e : string) : bool :=
  negb (e =s= "") && negb (e =s= ".") && negb (e =s= "..") && negb (contains_byte slash e).
Definition abs_path (l : list string) : string := String slash (join sep1 l).

Lemma normal_spec e : normal e = true <->
  e <> "" /\ e <> "." /\ e <> ".." /\ contains_byte slash e = false.
Proof.
  unfold normal. rewrite !andb_true_iff, !negb_true_iff, !String.eqb_neq. tauto.
Qed.

Lemma clean_stack_normal r st l :
  Forall (fun e => normal e = true) l -> clean_stack r st l = rev l ++ st.
Proof.
  revert st; induction l as [|e l IH]; intros st; cbn; [done|].
  intros [(H1 & H2 & H3 & _)%normal_spec Hl]%Forall_cons.
  apply String.eqb_neq in H1, H2, H3. rewrite H1, H2, H3. cbn.
  rewrite IH by done. by rewrite <- app_assoc.
Qed.

Lemma clean_stack_rooted_normal l st :
  Forall (fun e => contains_byte slash e = false) l ->
  Forall (fun e => normal e = true) st ->
  Forall (fun e => normal e = true) (clean_stack true st l).
Proof.
  revert st; induction l as [|e l IH]; intros st; cbn; [done|].
  intros [He Hl]%Forall_cons Hst.
  destruct (e =s= "") eqn:E1; cbn; [by apply IH|].
  destruct (e =s= ".") eqn:E2; cbn; [by apply IH|].
  destruct (e =s= "..") eqn:E3.
  - destruct st as [|t st]; [by apply IH|]. apply Forall_cons in Hst as [Ht Hst].
    destruct (t =s= "..") eqn:E4; [|by apply IH].
    apply String.eqb_eq in E4. subst. done.
  - apply IH; [done|]. constructor; [|done]. apply normal_spec. bool_hyps. auto.
Qed.

Lemma normal_no_slash l :
  Forall (fun e => normal e = true) l -> Forall (fun e => contains_byte slash e = false) l.
Proof. intros H. eapply Forall_impl; [exact H|]. intros e He%normal_spec. tauto. Qed.

Lemma split_abs_path l : Forall (fun e => normal e = true) l ->
  split slash (abs_path l) = "" :: match l with [] => [""] | _ => l end.
Proof.
  intros Hl. unfold abs_path. cbn [split]. rewrite Ascii.eqb_refl. f_equal.
  destruct l as [|e l]; [done|]. apply split_join; [done|]. by apply normal_no_slash.
Qed.

Lemma clean_abs_path l : Forall (fun e => normal e = true) l -> clean (abs_path l) = abs_path l.
Proof.
  intros Hl. unfold clean. rewrite split_abs_path by done. cbn [is_abs abs_path].
  rewrite Ascii.eqb_refl. unfold abs_path. do 2 f_equal.
  destruct l as [|e l]; [done|]. change (rev (clean_stack true [] (e :: l)) = e :: l).
  rewrite clean_stack_normal by done. by rewrite app_nil_r, rev_involutive.
Qed.

Lemma elements_abs_path l : Forall (fun e => normal e = true) l -> elements (abs_path l) = l.
Proof.
  intros Hl. unfold elements.
  replace (abs_path l =s= ".") with false by done.
  rewrite split_abs_path by done. cbn.
  destruct l as [|e l]; [done|].
  apply filter_all. eapply Forall_impl; [done|]. intros x Hx%normal_spec. tauto.
Qed.

(** Every clean absolute path is [abs_path] of its elements. *)
Lemma clean_abs_elements p : is_abs p = true -> clean p = p ->
  p = abs_path (elements p) /\ Forall (fun e => normal e = true) (elements p).
Proof.
  intros Habs Hc.
  set (l := rev (clean_stack true [] (split slash p))).
  assert (Hl : Forall (fun e => normal e = true) l).
  { apply Forall_rev, clean_stack_rooted_normal; [|done].
    apply Forall_forall. intros x Hx. by eapply split_no_sep. }
  assert (Hp : p = abs_path l).
  { rewrite <- Hc at 1. unfold clean. by rewrite Habs. }
  rewrite Hp, elements_abs_path by done. done.
Qed.

(** ** [Rel] and [IsLocal] on clean absolute paths *)
Lemma drop_common_spec a b :
  exists p, a = p ++ (drop_common a b).1 /\ b = p ++ (drop_common a b).2 /\
    ((drop_common a b).1 = [] \/ ~ a `prefix_of` b).
Proof.
  revert b; induction a as [|x a IH]; intros [|y b]; cbn.
  - exists []. auto.
  - exists []. auto.
  - exists []. split_and!; auto. right. by intros ?%prefix_nil_not.
  - destruct (x =s= y) eqn:E; bool_hyps; subst.
    + destruct (IH b) as (p & Ha & Hb & Hp). exists (y :: p). cbn. rewrite <- Ha, <- Hb.
      split_and!; auto. destruct Hp as [|Hp]; [auto|]. right. contradict Hp.
      by apply prefix_cons_inv_2 in Hp.
    + exists []. split_and!; auto. right. intros ?%prefix_cons_inv_1. auto.
Qed.

Lemma abs_path_inj l1 l2 :
  Forall (fun e => normal e = true) l1 -> Forall (fun e => normal e = true) l2 ->
  abs_path l1 = abs_path l2 -> l1 = l2.
Proof. intros H1 H2 H. by rewrite <- (elements_abs_path l1), H, elements_abs_path. Qed.

Lemma clean_stack_ups m n l :
  Forall (fun e => normal e = true) l ->
  clean_stack false (replicate m "..") (replicate n ".." ++ l) = rev l ++ replicate (n + m) "..".
Proof.
  intros Hl. revert m; induction n as [|n IH]; intros m.
  - by apply clean_stack_normal.
  - transitivity (clean_stack false (replicate (S m) "..") (replicate n ".." ++ l)).
    + by destruct m.
    + rewrite IH. by rewrite Nat.add_succ_r.
Qed.

(** A path that climbs out of its base is not local. *)
Lemma is_local_climb n l :
  Forall (fun e => normal e = true) l ->
  is_local (join sep1 (replicate (S n) ".." ++ l)) = false.
Proof.
  intros Hl. set (p := join sep1 _).
  assert (Hs : split slash p = replicate (S n) ".." ++ l).
  { apply split_join; [done|]. apply Forall_app. split.
    - apply Forall_replicate. done.
    - by apply normal_no_slash. }
  assert (Ha : is_abs p = false). { unfold p. cbn. by destruct (replicate n ".." ++ l). }
  assert (Hp : (p =s= "") = false). { unfold p. cbn. by destruct (replicate n ".." ++ l). }
  unfold is_local. rewrite Ha, Hp, Hs. cbn [orb].
  replace (existsb _ _) with true by done.
  unfold clean. rewrite Ha, Hs, (clean_stack_ups 0) by done.
  rewrite rev_app_distr, rev_involutive, Nat.add_0_r.
  replace (rev (replicate (S n) "..")) with (replicate (S n) "..")
    by (rewrite rev_alt; symmetry; apply reverse_replicate).
  cbn. by destruct (replicate n ".." ++ l).
Qed.

(** A path of ordinary elements is local. *)
Lemma is_local_normal l :
  l <> [] -> Forall (fun e => normal e = true) l -> is_local (join sep1 l) = true.
Proof.
  intros Hne Hl. destruct l as [|e l]; [done|].
  assert (Hs : split slash (join sep1 (e :: l)) = e :: l).
  { apply split_join; [done|]. by apply normal_no_slash. }
  assert (He := Hl). apply Forall_cons in He as [(H1 & H2 & H3 & H4)%normal_spec Hl'].
  set (p := join sep1 (e :: l)) in *.
  assert (Hp : exists t, p = e +:+ t /\ (t = "" \/ exists u, t = String slash u)).
  { unfold p. destruct l as [|x l]; cbn.
    - exists "". rewrite sapp_nil_r. auto.
    - eexists. split; [done|]. right. eauto. }
  destruct Hp as (t & Hp & Ht).
  destruct e as [|c e]; [done|]. cbn in H4. apply orb_false_iff in H4 as [H4 H4'].
  unfold is_local. rewrite Hs.
  replace (existsb _ _) with false.
  2:{ symmetry. apply not_true_iff_false. rewrite existsb_exists. intros (x & Hx & Hd).
      rewrite Forall_forall in Hl. apply list_elem_of_In, Hl, normal_spec in Hx.
      apply orb_true_iff in Hd as [Hd|Hd]; apply String.eqb_eq in Hd; naive_solver. }
  rewrite Hp. cbn. rewrite Ascii.eqb_sym, H4. cbn.
  apply negb_true_iff, orb_false_iff. split.
  - apply String.eqb_neq. intros Heq.
    destruct Ht as [->|[u ->]]; [by rewrite sapp_nil_r in Heq|].
    destruct e as [|c' e]; cbn in Heq; [done|].
    injection Heq as -> -> Heq. by destruct e.
  - apply not_true_iff_false. rewrite has_prefix_spec. intros [r Hr].
    destruct e as [|c' e]; cbn in *.
    { destruct Ht as [->|[u ->]]; cbn in *; [done|]. by injection Hr as -> ?. }
    injection Hr as -> -> Hr.
    destruct e as [|c'' e]; cbn in *; [done|]. injection Hr as -> ?.
    by rewrite orb_true_r in H4'.
Qed.

(** Containment by [Rel] and [IsLocal] is the prefix order on elements. *)
Lemma rel_local_abs a b :
  Forall (fun e => normal e = true) a -> Forall (fun e => normal e = true) b ->
  match rel (abs_path a) (abs_path b) with Some r => is_local r | None => false end = true
  <-> a `prefix_of` b.
Proof.
  intros Ha Hb. unfold rel. rewrite !clean_abs_path by done.
  destruct (abs_path a =s= abs_path b) eqn:E.
  { apply String.eqb_eq, abs_path_inj in E as ->; done. }
  assert (Hab : a <> b) by (intros ->; by rewrite String.eqb_refl in E).
  cbn [is_abs abs_path]. rewrite Ascii.eqb_refl. cbn [Bool.eqb].
  change (String slash (join sep1 a)) with (abs_path a).
  change (String slash (join sep1 b)) with (abs_path b).
  rewrite !elements_abs_path by done.
  pose proof (drop_common_spec a b) as (p & Hpa & Hpb & Hp).
  destruct (drop_common a b) as [br tr] eqn:Hd. cbn [fst snd] in *.
  rewrite Hpb in Hb. apply Forall_app in Hb as [_ Htr].
  destruct br as [|e br].
  - rewrite app_nil_r in Hpa. subst p. cbn.
    rewrite is_local_normal; [|intros ->; rewrite app_nil_r in Hpb; congruence|done].
    split; [|done]. intros _. rewrite Hpb. by exists tr.
  - destruct Hp as [|Hp]; [done|].
    assert (He : (e =s= "..") = false).
    { rewrite Hpa, Forall_app, Forall_cons in Ha.
      destruct Ha as (_ & Ha%normal_spec & _). apply String.eqb_neq. tauto. }
    rewrite He. split; [|done].
    destruct tr; cbn [length]; rewrite is_local_climb; done.
Qed.

(** [Join] of a clean absolute directory and an ordinary file name. *)
Lemma path_join_abs l f :
  Forall (fun e => normal e = true) l -> normal f = true ->
  path_join (abs_path l) f = abs_path (l ++ [f]).
Proof.
  intros Hl Hf. assert (Hf' := Hf). apply normal_spec in Hf' as (H1 & H2 & H3 & H4).
  unfold path_join. rewrite filter_cons_True by done.
  rewrite filter_cons_True by done. cbn [filter list_filter join].
  unfold clean. cbn [is_abs abs_path String.append]. rewrite Ascii.eqb_refl. cbn [join].
  unfold abs_path. do 2 f_equal.
  transitivity (rev (clean_stack true []
    ("" :: (match l with [] => [""] | _ => l end) ++ [f]))).
  - do 2 f_equal. cbn [split]. rewrite Ascii.eqb_refl. f_equal.
    destruct l as [|x l].
    + cbn. rewrite Ascii.eqb_refl. by rewrite split_clean.
    + transitivity (split slash (join sep1 ((x :: l) ++ [f]))).
      * f_equal. clear -x. revert x; induction l as [|y l IH]; intros x; [done|].
        cbn [join app]. rewrite !sapp_assoc. do 2 f_equal. apply IH.
      * apply split_join; [done|]. apply Forall_app. split; [by apply normal_no_slash|auto].
  - assert (Hc : rev (clean_stack true [] (l ++ [f])) = l ++ [f]).
    { rewrite clean_stack_normal by (apply Forall_app; auto).
      by rewrite app_nil_r, rev_involutive. }
    by destruct l.
Qed.
