(* ===== verification/Tracing.v ===== *)
(** [config/tracing.go]: the startup-only OpenTelemetry input of the embedded
    OPA.  [LoadTracing] is translated branch by branch; [net/url.Parse],
    [strconv.ParseFloat] and the [unicode.ToLower] table above ASCII are
    parameters of the section.  An environment is a function from names to
    optional values ([os.LookupEnv]). *)
From Stdlib Require Import SpecFloat.
From S2P Require Import Prelude GoStrings.

(** The fields of [url.URL] the code reads. *)
Record URL := {
  Scheme : string;
  User : option string;
  Host : string;
  Path : string;
  RawQuery : string;
  Fragment : string;
}.

(** [URL.Hostname]: the host without an optional port and IPv6 brackets. *)
Definition valid_optional_port (s : string) : bool :=
  match s with
  | EmptyString => true
  | String c r => Ascii.eqb c ":" && sforall is_digit r
  end.
Fixpoint cut_last (sep : ascii) (s : string) : option (string * string) :=
  match s with
  | EmptyString => None
  | String c r =>
      match cut_last sep r with
      | Some (a, b) => Some (String c a, b)
      | None => if Ascii.eqb c sep then Some (EmptyString, r) else None
      end
  end.
Definition drop_last (s : string) : string :=
  match srev s with EmptyString => EmptyString | String _ r => srev r end.
Definition Hostname (u : URL) : string :=
  let host :=
    match cut_last ":" (Host u) with
    | Some (a, b) => if valid_optional_port (String ":" b) then a else Host u
    | None => Host u
    end in
  if has_prefix host "[" && has_suffix host "]"
  then match host with String _ r => drop_last r | _ => host end else host.

Record Tracing := {
  Disabled : bool;
  Protocol : string;
  Address : string;
  TLS : bool;
  Certificate : string;
  ClientCertificate : string;
  ClientKey : string;
  ServiceName : string;
  Resource : gmap string string;
  SampleRatio : spec_float;
  Batch : gmap string Z;
}.

Definition env := string -> option string.

Definition float_zero : spec_float := S754_zero false.
Definition float_one : spec_float := S754_finite false 4503599627370496 (-52).
Definition is_nan (f : spec_float) : bool := match f with S754_nan => true | _ => false end.

Definition otlpPrefix : string := "OTEL_EXPORTER_OTLP_".
Definition max_timeout : Z := max_int64 / 1000000.

(** The [get] and [effective] closures of [LoadTracing]. *)
Definition get (lookup : env) (name : string) : string :=
  trim_space (default "" (lookup name)).
Definition effective (lookup : env) (suffix : string) : string :=
  let v := get lookup (otlpPrefix +:+ "TRACES_" +:+ suffix) in
  if negb (v =s= "") then v else get lookup (otlpPrefix +:+ suffix).

Definition otlp_suffixes : list string :=
  ["ENDPOINT"; "PROTOCOL"; "HEADERS"; "CERTIFICATE"; "CLIENT_CERTIFICATE"; "CLIENT_KEY";
   "INSECURE"; "TIMEOUT"; "COMPRESSION"].
Definition tracing_names : list string :=
  ["OTEL_SDK_DISABLED"; "OTEL_TRACES_EXPORTER"; "OTEL_SERVICE_NAME"; "OTEL_RESOURCE_ATTRIBUTES";
   "OTEL_TRACES_SAMPLER"; "OTEL_TRACES_SAMPLER_ARG"; "OTEL_PROPAGATORS"; "OTEL_BSP_SCHEDULE_DELAY";
   "OTEL_BSP_EXPORT_TIMEOUT"; "OTEL_BSP_MAX_QUEUE_SIZE"; "OTEL_BSP_MAX_EXPORT_BATCH_SIZE"] ++
  concat (map (fun s => [otlpPrefix +:+ s; otlpPrefix +:+ "TRACES_" +:+ s]) otlp_suffixes).
Definition batch_suffixes : list string :=
  ["SCHEDULE_DELAY"; "EXPORT_TIMEOUT"; "MAX_QUEUE_SIZE"; "MAX_EXPORT_BATCH_SIZE"].

(** The [invalid] closure: the message names the setting, never its value. *)
Definition invalid (name : string) : string :=
  name +:+ ": unsupported or invalid tracing setting (value omitted)".

(** [n, err := strconv.Atoi(v); err != nil || n <= 0 || n > math.MaxInt64/1000000]. *)
Definition positive_count (v : string) : option Z :=
  match atoi v with
  | Some n => if (n <=? 0) || (max_timeout <? n) then None else Some n
  | None => None
  end.

(** [validHeaders]. *)
Definition token_char (ch : Z) : bool :=
  ((97 <=? ch) && (ch <=? 122)) || ((65 <=? ch) && (ch <=? 90)) || ((48 <=? ch) && (ch <=? 57))
  || existsb (Z.eqb ch) (runes "!#$%&'*+-.^_`|~").
Definition valid_header_item (item : string) : bool :=
  match cut "=" item with
  | None => false
  | Some (key, val) =>
      let key := trim_space key in
      if key =s= "" then false
      else if negb (forallb token_char (runes key)) then false
      else match path_unescape val with
           | None => false
           | Some decoded =>
               forallb (fun ch => negb (((ch <? 32) && negb (ch =? 9)) || (ch =? 127))) (runes decoded)
           end
  end.
Definition validHeaders (value : string) : bool := forallb valid_header_item (split "," value).

Section LoadTracing.
Context (unicode_lower : Z -> Z) (url_parse : string -> option URL)
        (parse_float : string -> option spec_float).

(** The checks of one endpoint input (the [ENDPOINT] branch of the prefix loop). *)
Definition endpoint_invalid (v : string) : bool :=
  match url_parse v with
  | None => true
  | Some u =>
      (Hostname u =s= "") || (negb (Scheme u =s= "http") && negb (Scheme u =s= "https"))
      || bool_decide (User u <> None) || negb (RawQuery u =s= "") || negb (Fragment u =s= "")
  end.

(** One iteration of the loop over the general and the trace-specific prefix. *)
Definition check_prefix (lookup : env) (_ : unit) (prefix : string) : result string unit :=
  let set v := negb (v =s= "") in
  let v := get lookup (prefix +:+ "ENDPOINT") in
  fail_if set v && endpoint_invalid v with invalid (prefix +:+ "ENDPOINT") ;;
  let v := get lookup (prefix +:+ "HEADERS") in
  fail_if set v && negb (validHeaders v) with invalid (prefix +:+ "HEADERS") ;;
  let v := get lookup (prefix +:+ "TIMEOUT") in
  fail_if set v && negb (bool_decide (is_Some (positive_count v))) with invalid (prefix +:+ "TIMEOUT") ;;
  let v := get lookup (prefix +:+ "COMPRESSION") in
  fail_if set v && negb (v =s= "gzip") && negb (v =s= "none") with invalid (prefix +:+ "COMPRESSION") ;;
  let v := get lookup (prefix +:+ "INSECURE") in
  fail_if set v && negb (equal_fold v "true") && negb (equal_fold v "false")
    with invalid (prefix +:+ "INSECURE") ;;
  Ok tt.

(** One [OTEL_RESOURCE_ATTRIBUTES] item; the state is [(ServiceName, Resource)]. *)
Definition resource_key (key : string) : bool :=
  bool_decide (key ∈ ["service.version"; "service.instance.id"; "service.namespace";
                      "deployment.environment"]).
Definition resource_item (st : string * gmap string string) (item : string)
    : result string (string * gmap string string) :=
  if trim_space item =s= "" then Ok st
  else match cut "=" item with
  | None => Err (invalid "OTEL_RESOURCE_ATTRIBUTES")
  | Some (key, value) =>
      let key := trim_space key in
      match path_unescape (trim_space value) with
      | None => Err (invalid "OTEL_RESOURCE_ATTRIBUTES")
      | Some value =>
          if key =s= "service.name" then Ok (value, st.2)
          else if resource_key key then Ok (st.1, <[key := value]> st.2)
          else Err (invalid "OTEL_RESOURCE_ATTRIBUTES: attribute not supported by pinned OPA")
      end
  end.

(** The sampler switch. *)
Definition sampler (lookup : env) : result string spec_float :=
  let s := get lookup "OTEL_TRACES_SAMPLER" in
  let arg := get lookup "OTEL_TRACES_SAMPLER_ARG" in
  if (s =s= "") || (s =s= "parentbased_always_on") then Ok float_one
  else if s =s= "parentbased_always_off" then Ok float_zero
  else if s =s= "parentbased_traceidratio" then
    match parse_float arg with
    | None => Err (invalid "OTEL_TRACES_SAMPLER_ARG")
    | Some n =>
        fail_if is_nan n || SFltb n float_zero || SFltb float_one n
          with invalid "OTEL_TRACES_SAMPLER_ARG" ;;
        Ok n
    end
  else Err (invalid "OTEL_TRACES_SAMPLER: pinned OPA requires a parent-based sampler").

(** One [OTEL_BSP_*] setting. *)
Definition batch_item (lookup : env) (b : gmap string Z) (suffix : string)
    : result string (gmap string Z) :=
  let v := get lookup ("OTEL_BSP_" +:+ suffix) in
  if v =s= "" then Ok b
  else match positive_count v with
       | None => Err (invalid ("OTEL_BSP_" +:+ suffix))
       | Some n => Ok (<[suffix := n]> b)
       end.

Definition nonzero_or (d : Z) (n : Z) : Z := if n =? 0 then d else n.

(** The protocol stage. *)
Definition protocol (lookup : env) : result string string :=
  let p := to_lower unicode_lower (effective lookup "PROTOCOL") in
  let p := if p =s= "" then "http/protobuf" else p in
  fail_if negb (p =s= "grpc") && negb (p =s= "http/protobuf")
    with invalid "OTEL_EXPORTER_OTLP[_TRACES]_PROTOCOL" ;;
  Ok p.

(** The endpoint stage, [(Address, TLS)]; [url.Parse] must not fail here. *)
Definition endpoint (lookup : env) (proto : string) : result string (string * bool) :=
  let e := effective lookup "ENDPOINT" in
  let e := if e =s= "" then
             (if proto =s= "grpc" then "http://localhost:4317" else "http://localhost:4318")
           else e in
  match url_parse e with
  | None => Panic
  | Some u =>
      fail_if (proto =s= "grpc") && negb (Path u =s= "") && negb (Path u =s= "/")
        with invalid "OTEL_EXPORTER_OTLP[_TRACES]_ENDPOINT" ;;
      let tls := Scheme u =s= "https" in
      fail_if tls && equal_fold (effective lookup "INSECURE") "true"
        with invalid "OTEL_EXPORTER_OTLP[_TRACES]_INSECURE: conflicts with https endpoint" ;;
      Ok (Host u, tls)
  end.

Definition disabled_tracing : Tracing :=
  {| Disabled := true; Protocol := ""; Address := ""; TLS := false; Certificate := "";
     ClientCertificate := ""; ClientKey := ""; ServiceName := ""; Resource := ∅;
     SampleRatio := float_one; Batch := ∅ |}.

(** The body once tracing is configured and not disabled. *)
Definition load_enabled (lookup : env) : result string Tracing :=
  let get := get lookup in
  let effective := effective lookup in
  let v := get "OTEL_SDK_DISABLED" in
  fail_if negb (v =s= "") && negb (equal_fold v "false") with invalid "OTEL_SDK_DISABLED" ;;
  let v := get "OTEL_TRACES_EXPORTER" in
  fail_if negb (v =s= "") && negb (equal_fold v "otlp") with invalid "OTEL_TRACES_EXPORTER" ;;
  proto ← protocol lookup;
  _ ← for_each (check_prefix lookup) tt [otlpPrefix; otlpPrefix +:+ "TRACES_"];
  at' ← endpoint lookup proto;
  let '(addr, tls) := at' in
  let cert := effective "CERTIFICATE" in
  let ccert := effective "CLIENT_CERTIFICATE" in
  let ckey := effective "CLIENT_KEY" in
  fail_if negb (Bool.eqb (ccert =s= "") (ckey =s= ""))
    with invalid "OTEL_EXPORTER_OTLP[_TRACES]_CLIENT_CERTIFICATE/CLIENT_KEY" ;;
  fail_if negb tls && (negb (cert =s= "") || negb (ccert =s= ""))
    with invalid "OTEL_EXPORTER_OTLP[_TRACES]_CERTIFICATE: TLS requires an https endpoint" ;;
  res ← for_each resource_item ("", ∅) (split "," (get "OTEL_RESOURCE_ATTRIBUTES"));
  let name := get "OTEL_SERVICE_NAME" in
  let name := if negb (name =s= "") then name else res.1 in
  ratio ← sampler lookup;
  fail_if negb (get "OTEL_TRACES_SAMPLER_ARG" =s= "")
          && negb (get "OTEL_TRACES_SAMPLER" =s= "parentbased_traceidratio")
    with invalid "OTEL_TRACES_SAMPLER_ARG: requires parentbased_traceidratio" ;;
  fail_if negb (get "OTEL_PROPAGATORS" =s= "")
    with invalid "OTEL_PROPAGATORS: OPA-Envoy uses fixed W3C and B3 propagation" ;;
  b ← for_each (batch_item lookup) ∅ batch_suffixes;
  let queue := nonzero_or 2048 (default 0 (b !! "MAX_QUEUE_SIZE")) in
  let batch := nonzero_or 512 (default 0 (b !! "MAX_EXPORT_BATCH_SIZE")) in
  fail_if queue <? batch with invalid "OTEL_BSP_MAX_EXPORT_BATCH_SIZE: exceeds queue size" ;;
  Ok {| Disabled := false; Protocol := proto; Address := addr; TLS := tls; Certificate := cert;
        ClientCertificate := ccert; ClientKey := ckey; ServiceName := name; Resource := res.2;
        SampleRatio := ratio; Batch := b |}.

Definition configured (lookup : env) : bool :=
  existsb (fun name => negb (get lookup name =s= "")) tracing_names.

Definition LoadTracing (lookup : env) : result string (option Tracing) :=
  if negb (configured lookup) then Ok None
  else if equal_fold (get lookup "OTEL_SDK_DISABLED") "true"
          || equal_fold (get lookup "OTEL_TRACES_EXPORTER") "none"
  then Ok (Some disabled_tracing)
  else Some <$> load_enabled lookup.
End LoadTracing.

(** ** Validated headers carry no control byte *)
Definition control_byte (c : ascii) : bool := ((ord c <? 32) && negb (ord c =? 9)) || (ord c =? 127).

Lemma decoded_no_control d :
  forallb (fun ch => negb (((ch <? 32) && negb (ch =? 9)) || (ch =? 127))) (runes d) = true ->
  sforall (fun c => negb (control_byte c)) d = true.
Proof.
  rewrite forallb_runes.
  - rewrite !sforall_spec. intros H c Hc. specialize (H c Hc). unfold control_byte, is_ascii in *.
    destruct (ord c <? 128) eqn:E; [done|]. bool_hyps.
    destruct (ord c <? 32) eqn:E1, (ord c =? 127) eqn:E2; bool_hyps; cbn; lia.
  - intros x Hx. replace (x <? 32) with false by lia. by replace (x =? 127) with false by lia.
Qed.

Lemma key_token_bytes k :
  forallb token_char (runes k) = true -> sforall (fun c => negb (is_ascii c) || token_char (ord c)) k = true.
Proof.
  intros H. apply sforall_spec. intros c Hc.
  destruct (is_ascii c) eqn:E; [|done]. cbn. rewrite forallb_forall in H. apply H.
  clear H. induction k as [|d r IH] using string_rune_ind; [set_solver|].
  rewrite runes_cons. destruct (decode_rune d r) as [x r'] eqn:Ed. cbn in *.
  apply decode_rune_spec in Ed as [(H & -> & ->)|(H & Hx & p & -> & Hp)].
  - apply elem_of_cons in Hc as [->|Hc]; auto.
  - right. unfold is_ascii in E. bool_hyps. apply IH. apply elem_of_cons in Hc as [->|Hc]; [lia|].
    clear IH. induction p as [|e p IHp]; [done|]. cbn in *. bool_hyps.
    apply elem_of_cons in Hc as [->|Hc]; [unfold is_ascii in *; bool_hyps; lia|auto].
Qed.

(** ** The diagnostics: a closed list of messages, none built from a value. *)
Definition diagnostics : list string := map invalid
  (["OTEL_SDK_DISABLED"; "OTEL_TRACES_EXPORTER"; "OTEL_EXPORTER_OTLP[_TRACES]_PROTOCOL";
    "OTEL_EXPORTER_OTLP[_TRACES]_ENDPOINT";
    "OTEL_EXPORTER_OTLP[_TRACES]_INSECURE: conflicts with https endpoint";
    "OTEL_EXPORTER_OTLP[_TRACES]_CLIENT_CERTIFICATE/CLIENT_KEY";
    "OTEL_EXPORTER_OTLP[_TRACES]_CERTIFICATE: TLS requires an https endpoint";
    "OTEL_RESOURCE_ATTRIBUTES";
    "OTEL_RESOURCE_ATTRIBUTES: attribute not supported by pinned OPA";
    "OTEL_TRACES_SAMPLER_ARG"; "OTEL_TRACES_SAMPLER: pinned OPA requires a parent-based sampler";
    "OTEL_TRACES_SAMPLER_ARG: requires parentbased_traceidratio";
    "OTEL_PROPAGATORS: OPA-Envoy uses fixed W3C and B3 propagation";
    "OTEL_BSP_MAX_EXPORT_BATCH_SIZE: exceeds queue size"] ++
   map (String.append "OTEL_BSP_") batch_suffixes ++
   concat (map (fun p => map (String.append p) ["ENDPOINT"; "HEADERS"; "TIMEOUT"; "COMPRESSION"; "INSECURE"])
     [otlpPrefix; otlpPrefix +:+ "TRACES_"])).

Ltac by_member := try (lazymatch goal with |- outcome _ (Err _) _ => cbn beta iota delta [outcome] end); apply (bool_decide_unpack _); vm_compute; exact I.

(** The well-formedness of an enabled tracing input. *)
Record wf_tracing (url_parse : string -> option URL) (t : Tracing) : Prop := {
  wf_enabled : Disabled t = false;
  wf_protocol : Protocol t = "grpc" \/ Protocol t = "http/protobuf";
  wf_address : exists e u, url_parse e = Some u /\ Address t = Host u /\
    TLS t = (Scheme u =s= "https") /\
    (Protocol t = "grpc" -> Path u = "" \/ Path u = "/") /\
    (e = "http://localhost:4317" \/ e = "http://localhost:4318" \/
     (Hostname u <> "" /\ (Scheme u = "http" \/ Scheme u = "https") /\
      User u = None /\ RawQuery u = "" /\ Fragment u = ""));
  wf_client_pair : ClientCertificate t = "" <-> ClientKey t = "";
  wf_tls_files : TLS t = false ->
    Certificate t = "" /\ ClientCertificate t = "" /\ ClientKey t = "";
  wf_resource : forall k v, Resource t !! k = Some v -> resource_key k = true;
  wf_ratio : is_nan (SampleRatio t) = false /\ SFltb (SampleRatio t) float_zero = false /\
    SFltb float_one (SampleRatio t) = false;
  wf_batch : forall k n, Batch t !! k = Some n -> k ∈ batch_suffixes /\ 0 < n <= max_timeout;
  wf_queue : nonzero_or 512 (default 0 (Batch t !! "MAX_EXPORT_BATCH_SIZE"))
             <= nonzero_or 2048 (default 0 (Batch t !! "MAX_QUEUE_SIZE"));
}.

Section Properties.
Context (unicode_lower : Z -> Z) (url_parse : string -> option URL)
        (parse_float : string -> option spec_float).

Abbreviation diag := (fun m => m ∈ diagnostics).

Lemma protocol_outcome l :
  outcome diag (protocol unicode_lower l) (fun p => p = "grpc" \/ p = "http/protobuf").
Proof.
  unfold protocol. cbn zeta. apply outcome_guard; [by_member|]. intros H.
  apply andb_false_iff in H as [H|H]; bool_hyps; cbn; auto.
Qed.

Lemma endpoint_invalid_false v :
  endpoint_invalid url_parse v = false ->
  exists u, url_parse v = Some u /\ Hostname u <> "" /\ (Scheme u = "http" \/ Scheme u = "https") /\
    User u = None /\ RawQuery u = "" /\ Fragment u = "".
Proof.
  unfold endpoint_invalid. destruct (url_parse v) as [u|]; [|done]. intros H. bool_hyps.
  exists u. split_and!; auto.
  - match goal with H : _ && _ = false |- _ => apply andb_false_iff in H as [H|H] end; bool_hyps; auto.
  - match goal with H : bool_decide _ = false |- _ => apply bool_decide_eq_false in H as Hu end.
    destruct (User u); [by destruct Hu|done].
Qed.

(** What a passed prefix check says of the endpoint under that prefix. *)
Definition prefix_ok (l : env) (p : string) : Prop :=
  get l (p +:+ "ENDPOINT") = "" \/ endpoint_invalid url_parse (get l (p +:+ "ENDPOINT")) = false.

Lemma check_prefix_outcome l p :
  p ∈ [otlpPrefix; otlpPrefix +:+ "TRACES_"] ->
  outcome diag (check_prefix url_parse l tt p) (fun _ => prefix_ok l p).
Proof.
  intros Hp. unfold check_prefix. cbn zeta.
  apply outcome_guard; [repeat (apply elem_of_cons in Hp as [->|Hp]; [by_member|]); by apply not_elem_of_nil in Hp|].
  intros H. assert (Hok : prefix_ok l p).
  { unfold prefix_ok. apply andb_false_iff in H as [H|H]; bool_hyps; auto. }
  repeat (apply outcome_guard;
    [repeat (apply elem_of_cons in Hp as [->|Hp]; [by_member|]); by apply not_elem_of_nil in Hp|intros _]).
  exact Hok.
Qed.

Lemma check_prefixes_outcome l :
  outcome diag (for_each (check_prefix url_parse l) tt [otlpPrefix; otlpPrefix +:+ "TRACES_"])
    (fun _ => prefix_ok l otlpPrefix /\ prefix_ok l (otlpPrefix +:+ "TRACES_")).
Proof.
  eapply outcome_mono.
  - apply (outcome_for_each _ _ (fun d _ => Forall (prefix_ok l) d)); [done|].
    intros d p [] Hd Hp. eapply outcome_mono; [by apply check_prefix_outcome|].
    intros [] H. apply Forall_app. auto.
  - intros [] H. rewrite !Forall_cons in H. naive_solver.
Qed.

(** The default endpoints parse: constants the code passes to [url.Parse]. *)
Definition defaults_parse : Prop :=
  is_Some (url_parse "http://localhost:4317") /\ is_Some (url_parse "http://localhost:4318").

Lemma effective_cases l s :
  effective l s = get l (otlpPrefix +:+ "TRACES_" +:+ s) \/ effective l s = get l (otlpPrefix +:+ s).
Proof. unfold effective. destruct (negb _); auto. Qed.

Lemma endpoint_outcome l proto :
  defaults_parse -> prefix_ok l otlpPrefix -> prefix_ok l (otlpPrefix +:+ "TRACES_") ->
  outcome diag (endpoint url_parse l proto) (fun at' => exists e u,
    url_parse e = Some u /\ at'.1 = Host u /\ at'.2 = (Scheme u =s= "https") /\
    (proto = "grpc" -> Path u = "" \/ Path u = "/") /\
    (e = "http://localhost:4317" \/ e = "http://localhost:4318" \/
     (Hostname u <> "" /\ (Scheme u = "http" \/ Scheme u = "https") /\
      User u = None /\ RawQuery u = "" /\ Fragment u = ""))).
Proof.
  intros [H7 H8] Hg Ht. unfold endpoint. cbn zeta.
  set (e := if effective l "ENDPOINT" =s= "" then _ else _).
  assert (He : exists u, url_parse e = Some u /\
    (e = "http://localhost:4317" \/ e = "http://localhost:4318" \/
     (Hostname u <> "" /\ (Scheme u = "http" \/ Scheme u = "https") /\
      User u = None /\ RawQuery u = "" /\ Fragment u = ""))).
  { unfold e. destruct (effective l "ENDPOINT" =s= "") eqn:E.
    - destruct (proto =s= "grpc"); [destruct H7 as [u Hu]|destruct H8 as [u Hu]]; eauto.
    - apply String.eqb_neq in E.
      assert (Hi : endpoint_invalid url_parse (effective l "ENDPOINT") = false).
      { destruct (effective_cases l "ENDPOINT") as [Hc|Hc]; rewrite Hc in *.
        - destruct Ht as [Ht|Ht]; [by destruct E|done].
        - destruct Hg as [Hg|Hg]; [by destruct E|done]. }
      apply endpoint_invalid_false in Hi. naive_solver. }
  destruct He as (u & Hu & He). rewrite Hu.
  apply outcome_guard; [by_member|]. intros Hp.
  apply outcome_guard; [by_member|]. intros _. cbn. exists e, u.
  split_and!; auto. intros ->. rewrite String.eqb_refl in Hp. cbn in Hp.
  apply andb_false_iff in Hp as [Hp|Hp]; bool_hyps; auto.
Qed.

Lemma resource_item_outcome st item :
  (forall k v, st.2 !! k = Some v -> resource_key k = true) ->
  outcome diag (resource_item st item)
    (fun st' => forall k v, st'.2 !! k = Some v -> resource_key k = true).
Proof.
  intros Hst. unfold resource_item. destruct (trim_space item =s= ""); [done|].
  destruct (cut "=" item) as [[key value]|]; [|by_member].
  destruct (path_unescape _) as [v|]; [|by_member].
  destruct (_ =s= "service.name"); [done|].
  destruct (resource_key (trim_space key)) eqn:E; [|by_member].
  cbn. intros k w [[<- _]|[_ H]]%lookup_insert_Some; eauto.
Qed.

Lemma sampler_outcome l :
  outcome diag (sampler parse_float l) (fun r => is_nan r = false /\
    SFltb r float_zero = false /\ SFltb float_one r = false).
Proof.
  unfold sampler. destruct (_ || _); [done|]. destruct (_ =s= "parentbased_always_off"); [done|].
  destruct (_ =s= "parentbased_traceidratio"); [|by_member].
  destruct (parse_float _) as [n|]; [|by_member].
  apply outcome_guard; [by_member|]. intros H. bool_hyps. done.
Qed.

Lemma positive_count_Some v n : positive_count v = Some n -> 0 < n <= max_timeout.
Proof.
  unfold positive_count. destruct (atoi v) as [z|]; [|done].
  destruct (_ || _) eqn:E; [done|]. bool_hyps. naive_solver lia.
Qed.

Lemma batch_item_outcome l b suffix :
  suffix ∈ batch_suffixes ->
  (forall k n, b !! k = Some n -> k ∈ batch_suffixes /\ 0 < n <= max_timeout) ->
  outcome diag (batch_item l b suffix)
    (fun b' => forall k n, b' !! k = Some n -> k ∈ batch_suffixes /\ 0 < n <= max_timeout).
Proof.
  intros Hs Hb. unfold batch_item. cbn zeta. destruct (_ =s= ""); [done|].
  destruct (positive_count _) as [z|] eqn:E.
  - cbn. intros k n [[<- <-]|[_ H]]%lookup_insert_Some; [|eauto].
    split; [done|]. by eapply positive_count_Some.
  - cbn. repeat (apply elem_of_cons in Hs as [->|Hs]; [by_member|]). by apply not_elem_of_nil in Hs.
Qed.

Lemma load_enabled_outcome l :
  defaults_parse -> outcome diag (load_enabled unicode_lower url_parse parse_float l) (wf_tracing url_parse).
Proof.
  intros Hd. unfold load_enabled. cbn zeta.
  apply outcome_guard; [by_member|intros _]. apply outcome_guard; [by_member|intros _].
  apply outcome_bind. eapply outcome_mono; [apply protocol_outcome|]. intros proto Hproto.
  apply outcome_bind. eapply outcome_mono; [apply check_prefixes_outcome|]. intros [] [Hg Ht].
  apply outcome_bind. eapply outcome_mono; [by apply endpoint_outcome|]. intros [addr tls] Hat.
  apply outcome_guard; [by_member|intros Hpair]. apply outcome_guard; [by_member|intros Hfiles].
  apply outcome_bind. eapply outcome_mono.
  { apply (outcome_for_each _ _ (fun _ st => forall k v, st.2 !! k = Some v -> resource_key k = true)).
    - cbn [snd]. intros k v H. by rewrite lookup_empty in H.
    - intros _ x s1 Hs _. by apply resource_item_outcome. }
  intros [name res] Hres. cbn in Hres.
  apply outcome_bind. eapply outcome_mono; [apply sampler_outcome|]. intros ratio Hratio.
  apply outcome_guard; [by_member|intros _]. apply outcome_guard; [by_member|intros _].
  apply outcome_bind. eapply outcome_mono.
  { apply (outcome_for_each _ _ (fun _ b => forall k n, b !! k = Some n ->
      k ∈ batch_suffixes /\ 0 < n <= max_timeout)).
    - intros k v H. by rewrite lookup_empty in H.
    - intros _ x s1 Hs Hx. by apply batch_item_outcome. }
  intros b Hb. cbn in Hb. apply outcome_guard; [by_member|intros Hq]. cbn.
  apply negb_false_iff, eqb_prop in Hpair. apply Z.ltb_ge in Hq.
  assert (Hp : effective l "CLIENT_CERTIFICATE" = "" <-> effective l "CLIENT_KEY" = "").
  { rewrite <- !String.eqb_eq. by rewrite Hpair. }
  destruct Hat as (e & u & H1 & H2 & H3 & H4 & H5). cbn in H2, H3.
  constructor; cbn [Disabled Protocol Address TLS Certificate ClientCertificate ClientKey
    Resource SampleRatio Batch fst snd]; eauto 10.
  intros Htls. rewrite Htls in Hfiles. cbn in Hfiles. bool_hyps. tauto.
Qed.
End Properties.

(** ** What an environment can influence *)
Definition same_inputs (l1 l2 : env) : Prop := forall n, n ∈ tracing_names -> get l1 n = get l2 n.

Ltac same_get H := repeat match goal with
  | |- context [get ?l ?n] =>
      lazymatch type of H with same_inputs l _ => rewrite (H n) by by_member end
  end.

Lemma same_effective l1 l2 s : same_inputs l1 l2 -> s ∈ otlp_suffixes -> effective l1 s = effective l2 s.
Proof.
  intros H Hs. unfold effective.
  repeat (apply elem_of_cons in Hs as [->|Hs]; [by same_get H|]). by apply not_elem_of_nil in Hs.
Qed.

Lemma same_check_prefix up l1 l2 p : same_inputs l1 l2 ->
  p ∈ [otlpPrefix; otlpPrefix +:+ "TRACES_"] -> check_prefix up l1 tt p = check_prefix up l2 tt p.
Proof.
  intros H Hp. unfold check_prefix.
  repeat (apply elem_of_cons in Hp as [->|Hp]; [by same_get H|]). by apply not_elem_of_nil in Hp.
Qed.

Lemma same_batch_item l1 l2 b s : same_inputs l1 l2 -> s ∈ batch_suffixes ->
  batch_item l1 b s = batch_item l2 b s.
Proof.
  intros H Hs. unfold batch_item.
  repeat (apply elem_of_cons in Hs as [->|Hs]; [by same_get H|]). by apply not_elem_of_nil in Hs.
Qed.

Lemma same_load_enabled ul up pf l1 l2 :
  same_inputs l1 l2 -> load_enabled ul up pf l1 = load_enabled ul up pf l2.
Proof.
  intros H. unfold load_enabled, protocol, endpoint, sampler.
  rewrite !(same_effective l1 l2) by (done || by_member). same_get H.
  rewrite (for_each_ext (batch_item l1) (batch_item l2)) by (intros; by apply same_batch_item).
  rewrite (for_each_ext (check_prefix up l1) (check_prefix up l2)); [done|].
  intros [] x Hx. by apply same_check_prefix.
Qed.

(** ** Instances for the witnesses *)
Definition demo_url (scheme host path : string) : URL :=
  {| Scheme := scheme; User := None; Host := host; Path := path; RawQuery := ""; Fragment := "" |}.
Definition demo_parse (s : string) : option URL :=
  if s =s= "http://localhost:4317" then Some (demo_url "http" "localhost:4317" "")
  else if s =s= "http://localhost:4318" then Some (demo_url "http" "localhost:4318" "")
  else if s =s= "https://collector:4318/v1/traces" then Some (demo_url "https" "collector:4318" "/v1/traces")
  else None.
Definition demo_env : env := fun n =>
  if n =s= "OTEL_TRACES_EXPORTER" then Some "otlp"
  else if n =s= "OTEL_EXPORTER_OTLP_TRACES_ENDPOINT" then Some " https://collector:4318/v1/traces "
  else if n =s= "OTEL_RESOURCE_ATTRIBUTES" then Some "service.name=gw%20opa, service.version=1"
  else if n =s= "OTEL_BSP_MAX_QUEUE_SIZE" then Some "1024"
  else None.
Definition demo_bad_env : env := fun n =>
  if n =s= "OTEL_EXPORTER_OTLP_HEADERS" then Some "authorization=secret%0d%0aX: y" else None.

Lemma demo_defaults : defaults_parse demo_parse.
Proof. split; eexists; reflexivity. Qed.

(** ** Properties *)

(** C27: every configuration [LoadTracing] enables is well formed: a supported
    protocol; an address taken from a URL that parsed as http or https without
    user info, query or fragment (or from a built-in default); TLS exactly for
    https; client certificate and key paired and only used under TLS; supported
    resource keys; a sampling ratio in [0,1]; batch settings positive, below the
    millisecond overflow bound, and a batch that fits its queue. *)
Theorem load_tracing_wf ul up pf l t :
  defaults_parse up -> LoadTracing ul up pf l = Ok (Some t) ->
  t = disabled_tracing \/ wf_tracing up t.
Proof.
  intros Hd. unfold LoadTracing. destruct (negb _); [done|].
  destruct (_ || _); [intros [= <-]; auto|]. intros H. right.
  pose proof (load_enabled_outcome ul up pf l Hd) as Ho.
  destruct (load_enabled ul up pf l); cbn in *; naive_solver.
Qed.

Lemma load_tracing_wf_witness :
  exists t, LoadTracing id demo_parse (fun _ => None) demo_env = Ok (Some t) /\
    ServiceName t = "gw opa" /\ TLS t = true /\ (t = disabled_tracing \/ wf_tracing demo_parse t).
Proof.
  eexists. split; [vm_compute; reflexivity|]. split; [reflexivity|]. split; [reflexivity|].
  apply (load_tracing_wf id demo_parse (fun _ => None) demo_env).
  - exact demo_defaults.
  - vm_compute. reflexivity.
Defined.

(** [LoadTracing] never panics (its unchecked second [url.Parse] included),
    and every error is one of a closed list of messages naming variables only:
    no supplied value reaches a diagnostic. *)
Theorem load_tracing_errors ul up pf l :
  defaults_parse up ->
  outcome (fun m => m ∈ diagnostics) (LoadTracing ul up pf l) (fun _ => True).
Proof.
  intros Hd. unfold LoadTracing. destruct (negb _); [done|]. destruct (_ || _); [done|].
  apply outcome_fmap. eapply outcome_mono; [by apply load_enabled_outcome|done].
Qed.

Lemma load_tracing_errors_witness :
  LoadTracing id demo_parse (fun _ => None) demo_bad_env
    = Err "OTEL_EXPORTER_OTLP_HEADERS: unsupported or invalid tracing setting (value omitted)" /\
  outcome (fun m => m ∈ diagnostics) (LoadTracing id demo_parse (fun _ => None) demo_bad_env) (fun _ => True).
Proof.
  split; [vm_compute; reflexivity|]. apply load_tracing_errors. exact demo_defaults.
Defined.

(** The listed variables are all that [LoadTracing] reads, and it reads them
    trimmed: two environments that agree on the trimmed values of
    [tracing_names] (an unset variable counting as empty) load alike. *)
Theorem load_tracing_inputs ul up pf l1 l2 :
  same_inputs l1 l2 -> LoadTracing ul up pf l1 = LoadTracing ul up pf l2.
Proof.
  intros H. unfold LoadTracing.
  assert (Hc : configured l1 = configured l2).
  { unfold configured. apply existsb_ext_in. intros n Hn. by rewrite H. }
  rewrite Hc, (same_load_enabled ul up pf l1 l2 H). by same_get H.
Qed.

Lemma load_tracing_inputs_witness :
  LoadTracing id demo_parse (fun _ => None)
    (fun n => if n =s= "OTEL_SERVICE_NAME" then Some (bytes [32; 194; 160; 9])
              else if n =s= "HOME" then Some "/root" else None) =
  LoadTracing id demo_parse (fun _ => None) (fun _ => None).
Proof.
  apply load_tracing_inputs. intros n Hn.
  repeat (apply elem_of_cons in Hn as [->|Hn]; [vm_compute; reflexivity|]).
  exfalso. exact (not_elem_of_nil _ Hn).
Defined.

(** C28: a header list that [validHeaders] accepts decodes to header values free of
    CR, LF, NUL and every other control byte except tab, under nonempty keys made
    of token characters; the rune-wise test misses no byte. *)
Theorem valid_headers_safe v item :
  validHeaders v = true -> item ∈ split "," v ->
  exists key val d, cut "=" item = Some (key, val) /\ path_unescape val = Some d /\
    trim_space key <> "" /\ forallb token_char (runes (trim_space key)) = true /\
    sforall (fun c => negb (control_byte c)) d = true.
Proof.
  unfold validHeaders. rewrite forallb_forall. intros H Hi.
  specialize (H item (proj1 (list_elem_of_In _ _) Hi)). unfold valid_header_item in H.
  destruct (cut "=" item) as [[key val]|]; [|done]. cbn zeta in H.
  destruct (trim_space key =s= "") eqn:E; [done|].
  destruct (forallb token_char _) eqn:Et; [|done]. cbn in H.
  destruct (path_unescape val) as [d|] eqn:Ed; [|done].
  exists key, val, d. bool_hyps. split_and!; auto. by apply decoded_no_control.
Qed.

Lemma valid_headers_safe_witness :
  validHeaders "authorization=Basic%20YQ==,x-tenant=%e2%82%ac" = true /\
  exists key val d, cut "=" "x-tenant=%e2%82%ac" = Some (key, val) /\ path_unescape val = Some d /\
    trim_space key <> "" /\ forallb token_char (runes (trim_space key)) = true /\
    sforall (fun c => negb (control_byte c)) d = true.
Proof.
  split; [vm_compute; reflexivity|].
  apply (valid_headers_safe "authorization=Basic%20YQ==,x-tenant=%e2%82%ac").
  - vm_compute. reflexivity.
  - apply (bool_decide_unpack _). vm_compute. exact I.
Defined.
