(* ===== verification/Sds.v ===== *)
(** [internal/inspection/sds.go]: the secret discovery server.  The cache is
    modelled with its pointers: [entries] maps a name to a list element, [elems]
    is the heap of elements and [lru] the order of the element list, most recent
    first.  [updateLocked] and [process] return the state they leave behind on
    every path, errors included.  Streams are a transition system at the end. *)
From stdpp Require Import pretty sorting.
From S2P Require Import Prelude GoStrings Leaf.

Definition secretType : string := "type.googleapis.com/envoy.extensions.transport_sockets.tls.v3.Secret".
Definition secretTTL : Z := 10 * minute.
Definition maxRequestNames : Z := 128.
Definition wrap64 (z : Z) : Z := z mod 2 ^ 64.

(** [tlsv3.Secret] with inline certificate chain and key, and its [anypb]
    encoding, which belongs to the protobuf library. *)
Record Secret := { sec_Name : string; sec_Chain : string; sec_Key : string }.
Class SecretCodec := { AnyMsg : Type; anypb_New : Secret -> option AnyMsg }.

Record Resource `{SecretCodec} := {
  res_Name : string; res_Version : string; res_Resource : AnyMsg; res_Ttl : Z }.
Record DeltaDiscoveryRequest := {
  ErrorDetail : bool;
  TypeUrl : string;
  ResourceNamesSubscribe : list string;
  ResourceNamesUnsubscribe : list string;
  InitialResourceVersions : gmap string string;
}.
Record DeltaDiscoveryResponse `{SecretCodec} := {
  resp_TypeUrl : string;
  resp_Nonce : string;
  resp_SystemVersionInfo : string;
  resp_Resources : list Resource;
  resp_RemovedResources : list string;
}.

Inductive status :=
| Canceled
| ResourceExhausted (message : string)
| Internal
| FailedPrecondition
| InvalidArgument
| StreamError.

Record cachedSecret `{SecretCodec} := { cs_name : string; cs_resource : Resource; cs_expires : Z }.

(** A watch: subscribed names, the update channel (capacity 4) and the error
    channel (capacity 1). *)
Record secretWatch `{SecretCodec} := {
  w_names : gset string;
  w_updates : list DeltaDiscoveryResponse;
  w_errors : option status;
}.

Record SecretServer `{Crypto} `{SecretCodec} := {
  authority : Authority;
  capacity : Z;
  watches : gmap nat secretWatch;
  entries : gmap string nat;
  elems : gmap nat cachedSecret;
  next_elem : nat;
  lru : list nat;
  version : Z;
  nonce : Z;
  entropy : Entropy;
}.

Section Server.
Context `{Signer} `{SecretCodec}.
Context (unicode_lower : Z -> Z) (parse_addr : string -> bool).

(** [NewSecretServer]. *)
Definition NewSecretServer (a : option Authority) (cap : Z) (e : Entropy) : option SecretServer :=
  match a with
  | Some a =>
      if (cap <? 1) || (maxRequestNames <? cap) then None
      else Some {| authority := a; capacity := cap; watches := ∅; entries := ∅; elems := ∅;
                   next_elem := 0; lru := []; version := 0; nonce := 0; entropy := e |}
  | None => None
  end.

Implicit Types s : SecretServer.

Definition set_watches s ws := {| authority := authority s; capacity := capacity s; watches := ws;
  entries := entries s; elems := elems s; next_elem := next_elem s; lru := lru s;
  version := version s; nonce := nonce s; entropy := entropy s |}.
Definition set_lru s l := {| authority := authority s; capacity := capacity s; watches := watches s;
  entries := entries s; elems := elems s; next_elem := next_elem s; lru := l;
  version := version s; nonce := nonce s; entropy := entropy s |}.
Definition set_entries s m := {| authority := authority s; capacity := capacity s; watches := watches s;
  entries := m; elems := elems s; next_elem := next_elem s; lru := lru s;
  version := version s; nonce := nonce s; entropy := entropy s |}.
Definition set_version s v := {| authority := authority s; capacity := capacity s; watches := watches s;
  entries := entries s; elems := elems s; next_elem := next_elem s; lru := lru s;
  version := v; nonce := nonce s; entropy := entropy s |}.
Definition set_nonce s v := {| authority := authority s; capacity := capacity s; watches := watches s;
  entries := entries s; elems := elems s; next_elem := next_elem s; lru := lru s;
  version := version s; nonce := v; entropy := entropy s |}.
Definition set_entropy s e := {| authority := authority s; capacity := capacity s; watches := watches s;
  entries := entries s; elems := elems s; next_elem := next_elem s; lru := lru s;
  version := version s; nonce := nonce s; entropy := e |}.

(** [container/list]: [Remove], [MoveToFront] and [PushFront] on the element order. *)
Definition list_Remove s (e : nat) := set_lru s (filter (fun x => x <> e) (lru s)).
Definition list_MoveToFront s (e : nat) := set_lru s (e :: filter (fun x => x <> e) (lru s)).
Definition list_PushFront s (c : cachedSecret) : nat * SecretServer :=
  (next_elem s,
   {| authority := authority s; capacity := capacity s; watches := watches s; entries := entries s;
      elems := <[next_elem s := c]> (elems s); next_elem := S (next_elem s);
      lru := next_elem s :: lru s; version := version s; nonce := nonce s; entropy := entropy s |}).

(** [remove]. *)
Definition remove s (name : string) : SecretServer :=
  match entries s !! name with
  | Some e => let s := list_Remove s e in set_entries s (delete name (entries s))
  | None => s
  end.

(** Is some watch still interested in [name]? *)
Definition interested s (name : string) : bool :=
  existsb (fun w => bool_decide (name ∈ w_names w)) (map_to_list (watches s)).*2.
Definition unsubscribe s (name : string) : SecretServer :=
  if interested s name then s else remove s name.

(** The [resources] and [removed] maps of [updateLocked]. *)
Definition response_acc : Type := gmap string Resource * gset string.

(** Evict the back of the list when the cache is full. *)
Definition evict_full s (acc : response_acc) : result status (response_acc * SecretServer) :=
  if Z.of_nat (length (lru s)) =? capacity s then
    match last (lru s) with
    | None => Panic
    | Some b =>
        match elems s !! b with
        | None => Panic
        | Some c =>
            let evicted := cs_name c in
            Ok ((delete evicted acc.1, {[evicted]} ∪ acc.2), remove s evicted)
        end
    end
  else Ok (acc, s).

(** Issue, encode and cache a certificate for [name]. *)
Definition issue_entry (now : Z) s (acc : response_acc) (name canonical : string)
    : result status response_acc * SecretServer :=
  let '(r, e) := issue (authority s) canonical now (entropy s) in
  let s := set_entropy s e in
  match r with
  | Ok (certificate, key) =>
      match anypb_New {| sec_Name := name; sec_Chain := certificate; sec_Key := key |} with
      | None => (Err Internal, s)
      | Some value =>
          let s := set_version s (wrap64 (version s + 1)) in
          let resource := {| res_Name := name; res_Version := pretty (Z.to_N (version s));
                             res_Resource := value; res_Ttl := secretTTL |} in
          match evict_full s acc with
          | Ok (acc, s) =>
              let '(el, s) := list_PushFront s
                {| cs_name := name; cs_resource := resource; cs_expires := now + secretTTL |} in
              (Ok (<[name := resource]> acc.1, acc.2), set_entries s (<[name := el]> (entries s)))
          | Err e => (Err e, s)
          | Panic => (Panic, s)
          end
      end
  | Err _ => (Err Internal, s)
  | Panic => (Panic, s)
  end.

(** One iteration of the loop over the sorted requested names. *)
Definition serve_name (now : Z) s (acc : response_acc) (name : string)
    : result status response_acc * SecretServer :=
  match canonicalName unicode_lower parse_addr name with
  | Err _ => (Ok (acc.1, {[name]} ∪ acc.2), s)
  | Panic => (Panic, s)
  | Ok canonical =>
      match entries s !! name with
      | Some e =>
          match elems s !! e with
          | None => (Panic, s)
          | Some entry =>
              if now <? cs_expires entry
              then (Ok (<[name := cs_resource entry]> acc.1, acc.2), list_MoveToFront s e)
              else issue_entry now (remove s name) acc name canonical
          end
      | None => issue_entry now s acc name canonical
      end
  end.

Fixpoint serve_names (now : Z) s (acc : response_acc) (names : list string)
    : result status response_acc * SecretServer :=
  match names with
  | [] => (Ok acc, s)
  | name :: rest =>
      match serve_name now s acc name with
      | (Ok acc, s) => serve_names now s acc rest
      | (Err e, s) => (Err e, s)
      | (Panic, s) => (Panic, s)
      end
  end.

(** [slices.Sorted] of a key set: byte-wise lexicographic order. *)
Definition str_le (a b : string) : Prop := String.leb a b = true.
#[local] Instance str_le_dec : RelDecision str_le.
Proof. intros a b. unfold str_le. apply _. Defined.
Definition sorted_keys (k : gset string) : list string := merge_sort str_le (elements k).

Definition requested_names (req : DeltaDiscoveryRequest) : gset string :=
  list_to_set (ResourceNamesSubscribe req) ∪ dom (InitialResourceVersions req).

Definition updateLocked s (req : DeltaDiscoveryRequest) (now : Z)
    : result status DeltaDiscoveryResponse * SecretServer :=
  let s := fold_left unsubscribe (ResourceNamesUnsubscribe req) s in
  match serve_names now s (∅, ∅) (sorted_keys (requested_names req)) with
  | (Ok (resources, removed), s) =>
      let s := set_nonce s (wrap64 (nonce s + 1)) in
      (Ok {| resp_TypeUrl := secretType; resp_Nonce := pretty (Z.to_N (nonce s));
             resp_SystemVersionInfo := "inspection";
             resp_Resources := omap (fun n => resources !! n) (sorted_keys (dom resources));
             resp_RemovedResources := sorted_keys removed |}, s)
  | (Err e, s) => (Err e, s)
  | (Panic, s) => (Panic, s)
  end.

(** ** Watches *)
Definition fail (w : secretWatch) (e : status) : secretWatch :=
  {| w_names := w_names w; w_updates := w_updates w;
     w_errors := match w_errors w with None => Some e | Some e' => Some e' end |}.
Definition enqueue (w : secretWatch) (r : DeltaDiscoveryResponse) : secretWatch :=
  if (length (resp_Resources r) + length (resp_RemovedResources r) =? 0)%nat then w
  else if (length (w_updates w) <? 4)%nat
  then {| w_names := w_names w; w_updates := w_updates w ++ [r]; w_errors := w_errors w |}
  else fail w (ResourceExhausted "inspection SDS consumer is not draining updates").

(** The per-watcher event of [process], and the names the watcher keeps. *)
Definition event_for (r : DeltaDiscoveryResponse) (w : secretWatch) : DeltaDiscoveryResponse :=
  {| resp_TypeUrl := secretType; resp_Nonce := resp_Nonce r;
     resp_SystemVersionInfo := resp_SystemVersionInfo r;
     resp_Resources := filter (fun x => res_Name x ∈ w_names w) (resp_Resources r);
     resp_RemovedResources := filter (fun n => n ∈ w_names w) (resp_RemovedResources r) |}.
Definition deliver (r : DeltaDiscoveryResponse) (w : secretWatch) : secretWatch :=
  let event := event_for r w in
  enqueue {| w_names := w_names w ∖ list_to_set (resp_RemovedResources event);
             w_updates := w_updates w; w_errors := w_errors w |} event.

Definition set_names (w : secretWatch) (n : gset string) : secretWatch :=
  {| w_names := n; w_updates := w_updates w; w_errors := w_errors w |}.

(** [process]: the whole critical section; [None] is a nil error. *)
Definition process s (w : nat) (req : DeltaDiscoveryRequest) (now : Z)
    : result status unit * SecretServer :=
  match watches s !! w with
  | None => (Err Canceled, s)
  | Some watch =>
      let names := (w_names watch ∖ list_to_set (ResourceNamesUnsubscribe req))
                   ∪ list_to_set (ResourceNamesSubscribe req) ∪ dom (InitialResourceVersions req) in
      let s := set_watches s (<[w := set_names watch names]> (watches s)) in
      if maxRequestNames <? Z.of_nat (size names)
      then (Err (ResourceExhausted "inspection subscription name limit"), s)
      else match updateLocked s req now with
           | (Ok response, s) => (Ok tt, set_watches s (deliver response <$> watches s))
           | (Err _, s) => (Err Internal, s)
           | (Panic, s) => (Panic, s)
           end
  end.

(** ** The cache invariant *)
Record cache_inv s : Prop := {
  ci_cap : 1 <= capacity s;
  ci_len : Z.of_nat (length (lru s)) <= capacity s;
  ci_nodup : NoDup (lru s);
  ci_elem : forall e, e ∈ lru s -> exists c, elems s !! e = Some c /\ entries s !! cs_name c = Some e /\
    res_Name (cs_resource c) = cs_name c;
  ci_entry : forall n e, entries s !! n = Some e -> e ∈ lru s /\ exists c, elems s !! e = Some c /\ cs_name c = n;
  ci_fresh : forall e, e ∈ lru s -> (e < next_elem s)%nat;
}.

Lemma length_filter_ne (l : list nat) (e : nat) :
  NoDup l -> e ∈ l -> S (length (filter (fun x => x <> e) l)) = length l.
Proof.
  induction 1 as [|x l Hx Hl IH]; [by intros ?%not_elem_of_nil|].
  intros [<-|He]%elem_of_cons.
  - rewrite filter_cons_False by tauto. rewrite filter_all; [done|].
    apply Forall_forall. intros y Hy ->. done.
  - rewrite filter_cons_True by (intros ->; done). cbn. by rewrite IH.
Qed.

(** [n] is cached as [c]. *)
Definition cached s (n : string) (c : cachedSecret) : Prop :=
  exists e, entries s !! n = Some e /\ elems s !! e = Some c.

Lemma cached_name s n c : cache_inv s -> cached s n c -> cs_name c = n /\ res_Name (cs_resource c) = n.
Proof.
  intros Hi (e & He & Hc). destruct (ci_entry _ Hi n e He) as (Hl & c' & Hc' & <-).
  destruct (ci_elem _ Hi e Hl) as (c'' & ? & ? & ?). naive_solver.
Qed.

Lemma remove_inv s n : cache_inv s -> cache_inv (remove s n).
Proof.
  intros Hi. unfold remove. destruct (entries s !! n) as [e|] eqn:En; [|done].
  destruct (ci_entry _ Hi n e En) as (Hel & c & Hc & Hcn).
  constructor; cbn.
  - apply (ci_cap _ Hi).
  - etransitivity; [|apply (ci_len _ Hi)]. apply inj_le, length_filter.
  - apply NoDup_filter, (ci_nodup _ Hi).
  - intros x [Hx Hxl]%list_elem_of_filter. destruct (ci_elem _ Hi x Hxl) as (c' & ? & ? & ?).
    exists c'. split_and!; auto. apply lookup_delete_Some. split; [|done]. intros ->. congruence.
  - intros m x [Hm Hx]%lookup_delete_Some. destruct (ci_entry _ Hi m x Hx) as (Hxl & c' & Hc' & <-).
    split; [|eauto]. apply list_elem_of_filter. split; [|done]. intros ->. congruence.
  - intros x [_ Hx]%list_elem_of_filter. by apply (ci_fresh _ Hi).
Qed.

Lemma remove_cached s n m c : cache_inv s -> cached (remove s n) m c <-> m <> n /\ cached s m c.
Proof.
  intros Hi. unfold remove, cached. destruct (entries s !! n) as [e|] eqn:En; cbn.
  - setoid_rewrite lookup_delete_Some. naive_solver.
  - split; [|naive_solver]. intros (e & He & Hc). split; [|eauto]. congruence.
Qed.

Lemma remove_none s n : entries (remove s n) !! n = None.
Proof. unfold remove. destruct (entries s !! n) eqn:E; cbn; [apply lookup_delete_eq|done]. Qed.

Lemma remove_length s n e : cache_inv s -> entries s !! n = Some e ->
  (length (lru (remove s n)) < length (lru s))%nat.
Proof.
  intros Hi En. unfold remove. rewrite En. cbn. destruct (ci_entry _ Hi n e En) as (Hl & _).
  apply length_filter_lt with e; auto.
Qed.
Lemma remove_length_S s n e : cache_inv s -> entries s !! n = Some e ->
  S (length (lru (remove s n))) = length (lru s).
Proof.
  intros Hi En. unfold remove. rewrite En. cbn. destruct (ci_entry _ Hi n e En) as (Hl & _).
  apply length_filter_ne; [apply (ci_nodup _ Hi)|done].
Qed.

Lemma MoveToFront_inv s e : cache_inv s -> e ∈ lru s -> cache_inv (list_MoveToFront s e).
Proof.
  intros Hi He. destruct Hi as [Hcap Hlen Hnd Helem Hent Hfr].
  assert (Hm : forall x, x ∈ e :: filter (fun x => x <> e) (lru s) <-> x ∈ lru s).
  { intros x. rewrite elem_of_cons, list_elem_of_filter. destruct (decide (x = e)); naive_solver. }
  constructor; cbn; auto.
  - assert (length (filter (fun x => x <> e) (lru s)) < length (lru s))%nat by (apply length_filter_lt with e; auto). lia.
  - constructor; [|by apply NoDup_filter]. rewrite list_elem_of_filter. tauto.
  - intros x Hx. by apply Helem, Hm.
  - intros n x Hx. rewrite Hm. auto.
  - intros x Hx. by apply Hfr, Hm.
Qed.

(** The frame every cache operation keeps. *)
Definition same_frame s s' : Prop :=
  authority s' = authority s /\ capacity s' = capacity s /\ watches s' = watches s.
Lemma same_frame_refl s : same_frame s s. Proof. done. Qed.
Lemma same_frame_trans s1 s2 s3 : same_frame s1 s2 -> same_frame s2 s3 -> same_frame s1 s3.
Proof. unfold same_frame. intuition congruence. Qed.
Lemma remove_frame s n : same_frame s (remove s n).
Proof. unfold remove. by destruct (entries s !! n). Qed.

(** The least recently used entry, and eviction. *)
Lemma evict_full_spec s acc :
  cache_inv s ->
  (Z.of_nat (length (lru s)) < capacity s /\ evict_full s acc = Ok (acc, s)) \/
  (exists v c, cached s v c /\ last (lru s) = entries s !! v /\
    Z.of_nat (length (lru s)) = capacity s /\ S (length (lru (remove s v))) = length (lru s) /\
    evict_full s acc = Ok ((delete v acc.1, {[v]} ∪ acc.2), remove s v)).
Proof.
  intros Hi. unfold evict_full. pose proof (ci_len _ Hi) as Hl.
  destruct (Z.eqb_spec (Z.of_nat (length (lru s))) (capacity s)) as [Heq|Hne]; [right|left; split; [lia|done]].
  destruct (last (lru s)) as [b|] eqn:Eb.
  - assert (Hb : b ∈ lru s) by (by apply last_Some_elem_of).
    destruct (ci_elem _ Hi b Hb) as (c & Hc & He & _). rewrite Hc.
    exists (cs_name c), c. split_and!; [by exists b|by rewrite He|done| |done].
    exact (remove_length_S _ _ _ Hi He).
  - apply last_None in Eb. rewrite Eb in Heq. cbn in Heq. pose proof (ci_cap _ Hi). lia.
Qed.

(** Insertion of a fresh element for an uncached name. *)
Lemma push_inv s c :
  cache_inv s -> entries s !! cs_name c = None -> res_Name (cs_resource c) = cs_name c ->
  Z.of_nat (length (lru s)) < capacity s ->
  let '(el, s') := list_PushFront s c in
  let s'' := set_entries s' (<[cs_name c := el]> (entries s')) in
  cache_inv s'' /\ same_frame s s'' /\ lru s'' = el :: lru s /\
  (forall n d, cached s'' n d <-> (n = cs_name c /\ d = c) \/ (n <> cs_name c /\ cached s n d)).
Proof.
  intros Hi Hn Hr Hl. cbn. destruct Hi as [Hcap Hlen Hnd Helem Hent Hfr].
  assert (Hnew : next_elem s ∉ lru s) by (intros Hx%Hfr; lia).
  split_and!; [|done|done|].
  - constructor; cbn; auto.
    + lia.
    + by constructor.
    + intros e [->|He]%elem_of_cons.
      * exists c. by rewrite !lookup_insert_eq.
      * destruct (Helem e He) as (d & Hd & Hde & Hdr). exists d.
        rewrite lookup_insert_ne by naive_solver. rewrite lookup_insert_ne by congruence. done.
    + intros n e [[<- <-]|[Hne He]]%lookup_insert_Some.
      * split; [set_solver|]. exists c. by rewrite lookup_insert_eq.
      * destruct (Hent n e He) as (Hel & d & Hd & Hdn). split; [set_solver|].
        exists d. rewrite lookup_insert_ne by naive_solver. done.
    + intros e [->|He]%elem_of_cons; [lia|]. apply Hfr in He. lia.
  - intros n d. unfold cached. cbn. split.
    + intros (e & [[<- <-]|[Hne He]]%lookup_insert_Some & Hd).
      * left. rewrite lookup_insert_eq in Hd. naive_solver.
      * right. destruct (Hent n e He) as (Hel & _). rewrite lookup_insert_ne in Hd by naive_solver. eauto.
    + intros [[-> ->]|[Hne (e & He & Hd)]].
      * exists (next_elem s). by rewrite !lookup_insert_eq.
      * destruct (Hent n e He) as (Hel & _). exists e.
        rewrite lookup_insert_ne by done. rewrite lookup_insert_ne by naive_solver. done.
Qed.

(** ** One served name *)

(** [c] is a fresh entry for [x]: issued now, for the canonical form of [x]. *)
Record fresh_entry (now : Z) s (x canonical : string) (c : cachedSecret) : Prop := {
  fe_name : cs_name c = x;
  fe_res : res_Name (cs_resource c) = x;
  fe_ttl : res_Ttl (cs_resource c) = secretTTL;
  fe_expires : cs_expires c = now + secretTTL;
  fe_issued : exists cert key e e', issue (authority s) canonical now e = (Ok (cert, key), e') /\
    anypb_New {| sec_Name := x; sec_Chain := cert; sec_Key := key |} = Some (res_Resource (cs_resource c));
}.

(** The victim is the cached name at the back of a full list. *)
Definition is_victim s (x v : string) : Prop :=
  v <> x /\ (exists d, cached s v d) /\ last (lru (remove s x)) = entries s !! v /\
  Z.of_nat (length (lru (remove s x))) = capacity s.
(** The length of the list once [x] is in front, with or without a victim. *)
Definition issued_length s (x : string) (ov : option string) : nat :=
  match ov with
  | Some _ => length (lru (remove s x))
  | None => S (length (lru (remove s x)))
  end.

Inductive serve_effect (now : Z) s (acc : response_acc) (x : string) s' (acc' : response_acc) : Prop :=
| eff_invalid e :
    canonicalName unicode_lower parse_addr x = Err e ->
    s' = s -> acc' = (acc.1, {[x]} ∪ acc.2) -> serve_effect now s acc x s' acc'
| eff_hit canonical c :
    canonicalName unicode_lower parse_addr x = Ok canonical ->
    cached s x c -> now < cs_expires c ->
    (forall n d, cached s' n d <-> cached s n d) -> length (lru s') = length (lru s) ->
    acc' = (<[x := cs_resource c]> acc.1, acc.2) -> serve_effect now s acc x s' acc'
| eff_issue canonical c (ov : option string) :
    canonicalName unicode_lower parse_addr x = Ok canonical ->
    (forall d, cached s x d -> cs_expires d <= now) ->
    fresh_entry now s x canonical c ->
    (forall v, ov = Some v -> is_victim s x v) ->
    (forall n d, cached s' n d <->
      (n = x /\ d = c) \/ (n <> x /\ ov <> Some n /\ cached s n d)) ->
    length (lru s') = issued_length s x ov ->
    acc' = (<[x := cs_resource c]> (match ov with Some v => delete v acc.1 | None => acc.1 end),
            match ov with Some v => {[v]} ∪ acc.2 | None => acc.2 end) ->
    serve_effect now s acc x s' acc'.

Lemma cache_inv_ext s s' :
  cache_inv s -> capacity s' = capacity s -> lru s' = lru s -> entries s' = entries s ->
  elems s' = elems s -> next_elem s' = next_elem s -> cache_inv s'.
Proof. intros [] E1 E2 E3 E4 E5. constructor; rewrite ?E1, ?E2, ?E3, ?E4, ?E5; auto. Qed.

Lemma issue_no_panic a n now e : (issue a n now e).1 <> Panic.
Proof. unfold issue. repeat case_match; done. Qed.

Ltac keep_cache := split; [by eapply cache_inv_ext|split; done].

Lemma issue_entry_spec now s acc x canonical s0 :
  cache_inv s -> entries s !! x = None -> same_frame s0 s ->
  let '(r, s') := issue_entry now s acc x canonical in
  cache_inv s' /\ same_frame s s' /\
  match r with
  | Panic => False
  | Err _ => forall n d, cached s' n d <-> cached s n d
  | Ok acc' => exists c ov, fresh_entry now s0 x canonical c /\
      (forall v, ov = Some v -> v <> x /\ (exists d, cached s v d) /\ last (lru s) = entries s !! v /\
        Z.of_nat (length (lru s)) = capacity s) /\
      (forall n d, cached s' n d <-> (n = x /\ d = c) \/ (n <> x /\ ov <> Some n /\ cached s n d)) /\
      length (lru s') = match ov with Some _ => length (lru s) | None => S (length (lru s)) end /\
      acc' = (<[x := cs_resource c]> (match ov with Some v => delete v acc.1 | None => acc.1 end),
              match ov with Some v => {[v]} ∪ acc.2 | None => acc.2 end)
  end.
Proof.
  intros Hi Hx Hf0. unfold issue_entry. pose proof (issue_no_panic (authority s) canonical now (entropy s)) as Hnp.
  destruct (issue (authority s) canonical now (entropy s)) as [[[cert key]|er|] e'] eqn:Eis; [|by keep_cache|done].
  destruct (anypb_New _) as [value|] eqn:Eany; [|by keep_cache].
  set (s1 := set_version _ _).
  assert (Hi1 : cache_inv s1) by (by eapply cache_inv_ext).
  assert (Hc1 : forall n d, cached s1 n d <-> cached s n d) by done.
  set (c := {| cs_name := x; cs_resource := _; cs_expires := _ |}).
  assert (Hfe : fresh_entry now s0 x canonical c).
  { constructor; try done. exists cert, key, (entropy s), e'.
    destruct Hf0 as (<- & _). done. }
  destruct (evict_full_spec s1 acc Hi1) as [[Hl ->]|(v & d & Hv & Hlast & Hfull & Hl & ->)].
  - pose proof (push_inv s1 c Hi1 Hx eq_refl Hl) as Hp. cbn in Hp |- *.
    destruct Hp as (Hp1 & Hp2 & _ & Hp3). split; [done|split; [done|]]. exists c, None. split; [done|]. split; [done|]. split; [|done].
    intros n d. rewrite Hp3, Hc1. naive_solver.
  - assert (Hvx : v <> x). { intros ->. destruct Hv as (e & He & _). cbn in He. congruence. }
    assert (Hrx : entries (remove s1 v) !! cs_name c = None).
    { unfold remove. destruct (entries s1 !! v); cbn; [|done]. by rewrite lookup_delete_ne. }
    pose proof (remove_inv s1 v Hi1) as Hir.
    pose proof (push_inv (remove s1 v) c Hir Hrx eq_refl) as Hp. cbn in Hp |- *.
    pose proof (remove_frame s1 v) as Hfr.
    destruct Hp as (Hp1 & Hp2 & _ & Hp3); [destruct Hfr as (_ & -> & _); lia|].
    split; [done|split; [by eapply same_frame_trans|]]. exists c, (Some v). split; [done|].
    split; [|split; [|split; [exact Hl|done]]].
    + intros v' [= <-]. split_and!; eauto.
    + intros n d'. rewrite Hp3, remove_cached, Hc1 by done. naive_solver.
Qed.

(** What one iteration does, on every path. *)
Lemma serve_name_spec now s acc x :
  cache_inv s ->
  let '(r, s') := serve_name now s acc x in
  cache_inv s' /\ same_frame s s' /\
  match r with
  | Ok acc' => serve_effect now s acc x s' acc'
  | Err _ => forall n d, cached s' n d -> cached s n d
  | Panic => False
  end.
Proof.
  intros Hi. unfold serve_name.
  destruct (canonicalName unicode_lower parse_addr x) as [canonical|e|] eqn:Ec.
  2:{ split_and!; try done. by eapply eff_invalid. }
  2:{ exfalso. revert Ec. unfold canonicalName, guard_err. destruct (_ || _); [done|].
      destruct (parse_addr _); [done|]. intros Hp.
      assert (Hl : forall ls, for_each check_label tt ls <> Panic).
      { induction ls as [|l ls IH]; cbn; [done|]. unfold check_label, guard_err.
        destruct (_ || _ || _ || _); [done|]. by destruct (negb _). }
      destruct (for_each check_label tt _) eqn:E; cbn in Hp; try done. by apply Hl in E. }
  destruct (entries s !! x) as [e|] eqn:Ex.
  - destruct (ci_entry _ Hi x e Ex) as (Hel & c & Hc & Hcx). rewrite Hc.
    destruct (now <? cs_expires c) eqn:Et; bool_hyps.
    + split; [by apply MoveToFront_inv|split; [done|]].
      apply (eff_hit _ _ _ _ _ _ canonical c); try done; [by exists e|].
      cbn. by apply length_filter_ne; [apply (ci_nodup _ Hi)|].
    + pose proof (issue_entry_spec now (remove s x) acc x canonical s (remove_inv s x Hi)
        (remove_none s x) (remove_frame s x)) as H'.
      destruct (issue_entry now (remove s x) acc x canonical) as [[acc'|er|] s']; [|destruct H' as (? & ? & H')..].
      * destruct H' as (Hi' & Hf' & c' & ov & Hfe & Hov & Hca & Hlen & ->).
        split; [done|]. split; [eapply same_frame_trans; [apply remove_frame|done]|].
        apply (eff_issue _ _ _ _ _ _ canonical c' ov); try done.
        -- intros d (e' & He' & Hd). simplify_eq. lia.
        -- intros v Hv. destruct (Hov v Hv) as (Hvx & (d & Hd) & Hl & Hfull).
           apply remove_cached in Hd as [_ Hd]; [|done].
           destruct (remove_frame s x) as (_ & Hcap & _). split_and!; eauto; [|congruence].
           rewrite Hl. unfold remove. rewrite Ex. cbn. by rewrite lookup_delete_ne.
        -- intros n d. rewrite Hca, remove_cached by done. naive_solver.
      * split; [done|]. split; [eapply same_frame_trans; [apply remove_frame|done]|].
        intros n d. rewrite H', remove_cached by done. tauto.
      * done.
  - pose proof (issue_entry_spec now s acc x canonical s Hi Ex (same_frame_refl s)) as H'.
    destruct (issue_entry now s acc x canonical) as [[acc'|er|] s']; destruct H' as (Hi' & Hf' & H').
    + destruct H' as (c' & ov & Hfe & Hov & Hca & Hlen & ->). split; [done|split; [done|]].
      assert (Hrm : remove s x = s) by (unfold remove; by rewrite Ex).
      apply (eff_issue _ _ _ _ _ _ canonical c' ov); try done.
      * intros d (e' & He' & Hd). simplify_eq.
      * intros v Hv. destruct (Hov v Hv) as (Hvx & Hd & Hl & Hfull). split_and!; auto; by rewrite Hrm.
      * unfold issued_length. by rewrite Hrm.
    + split; [done|split; [done|]]. intros n d. by rewrite H'.
    + done.
Qed.

(** ** The loop over the requested names *)

(** Facts about [resources] and [removed] after the names [done], starting from
    the cache of [s0]. *)
Record loop_inv (now : Z) s0 (done : list string) s (acc : response_acc) : Prop := {
  li_frame : same_frame s0 s;
  li_res : forall n r, acc.1 !! n = Some r -> n ∈ done /\
    (exists c, cached s n c /\ cs_resource c = r /\ now < cs_expires c) /\
    (exists m, canonicalName unicode_lower parse_addr n = Ok m);
  li_done : forall n, n ∈ done -> is_Some (acc.1 !! n) \/ n ∈ acc.2;
  li_removed : forall n, n ∈ acc.2 -> n ∈ done \/ exists c, cached s0 n c;
  li_gone : forall n, n ∈ acc.2 -> n ∉ done -> forall c, ~ cached s n c;
  li_evicted : forall n c, cached s0 n c -> (exists c', cached s n c') \/ n ∈ acc.2;
  li_cached : forall n c, cached s n c -> cached s0 n c \/ n ∈ done;
  li_kept : forall n m c, n ∈ done -> canonicalName unicode_lower parse_addr n = Ok m ->
    cached s n c -> acc.1 !! n = Some (cs_resource c);
  li_full : forall n m, n ∈ acc.2 -> canonicalName unicode_lower parse_addr n = Ok m ->
    Z.of_nat (length (lru s)) = capacity s;
  li_again : forall n m c, n ∈ acc.2 -> canonicalName unicode_lower parse_addr n = Ok m ->
    cached s n c -> fresh_entry now s0 n m c;
}.

Lemma canonical_ok_err n m e :
  canonicalName unicode_lower parse_addr n = Ok m ->
  canonicalName unicode_lower parse_addr n = Err e -> False.
Proof. congruence. Qed.

Lemma cached_fun s n c d : cached s n c -> cached s n d -> c = d.
Proof. intros (e & He & Hc) (e' & He' & Hd). congruence. Qed.

Lemma loop_inv_start now s0 : loop_inv now s0 [] s0 (∅, ∅).
Proof.
  constructor; cbn; [done| |set_solver|set_solver|set_solver|eauto|eauto|set_solver..].
  intros n r Hn. by rewrite lookup_empty in Hn.
Qed.

Lemma loop_inv_invalid now s0 d s acc x e :
  loop_inv now s0 d s acc -> canonicalName unicode_lower parse_addr x = Err e ->
  loop_inv now s0 (d ++ [x]) s (acc.1, {[x]} ∪ acc.2).
Proof.
  intros [Hfr Hres Hdone Hrem Hgone Hev Hca Hkept Hfull Hag] He. constructor; cbn; [done|..].
  - intros n r Hn. destruct (Hres n r Hn) as (? & ? & ?). set_solver.
  - intros n [Hn|Hn%list_elem_of_singleton]%elem_of_app; [|set_solver].
    destruct (Hdone n Hn); [auto|set_solver].
  - intros n [Hn%elem_of_singleton|Hn]%elem_of_union; [set_solver|].
    destruct (Hrem n Hn); [set_solver|eauto].
  - intros n Hn Hnd. apply Hgone; set_solver.
  - intros n c Hc. destruct (Hev n c Hc); [auto|set_solver].
  - intros n c Hc. destruct (Hca n c Hc); [auto|set_solver].
  - intros n m c Hn Hm. apply (Hkept n m c); [|done]. apply elem_of_app in Hn as [?|Hn]; [done|].
    apply list_elem_of_singleton in Hn as ->. congruence.
  - intros n m [Hn%elem_of_singleton|Hn]%elem_of_union Hm; [congruence|eauto].
  - intros n m c [Hn%elem_of_singleton|Hn]%elem_of_union Hm; [congruence|eauto].
Qed.

Lemma loop_inv_hit now s0 d s acc x m c s' :
  loop_inv now s0 d s acc -> canonicalName unicode_lower parse_addr x = Ok m ->
  cached s x c -> now < cs_expires c -> (forall n d, cached s' n d <-> cached s n d) ->
  length (lru s') = length (lru s) -> same_frame s s' ->
  loop_inv now s0 (d ++ [x]) s' (<[x := cs_resource c]> acc.1, acc.2).
Proof.
  intros [Hfr Hres Hdone Hrem Hgone Hev Hca Hkept Hfull Hag] Hm Hc Hnow Heq Hlen Hfs.
  constructor; cbn; [by eapply same_frame_trans|..].
  - intros n r [[<- <-]|[Hne Hn]]%lookup_insert_Some.
    + split; [set_solver|]. split; [|eauto]. exists c. by rewrite Heq.
    + destruct (Hres n r Hn) as (? & (c' & Hc' & ? & ?) & ?). split; [set_solver|].
      split; [|done]. exists c'. by rewrite Heq.
  - intros n Hn. destruct (decide (n = x)) as [->|Hne]; [left; rewrite lookup_insert_eq; eauto|].
    rewrite lookup_insert_ne by done. apply Hdone. set_solver.
  - intros n Hn. destruct (Hrem n Hn); [set_solver|eauto].
  - intros n Hn Hnd c' Hc'. apply Heq in Hc'. eapply (Hgone n Hn); [set_solver|done].
  - intros n c' Hc'. destruct (Hev n c' Hc') as [[c'' ?]|?]; [left; exists c''; by apply Heq|auto].
  - intros n c' Hc'. apply Heq in Hc'. destruct (Hca n c' Hc'); [auto|set_solver].
  - intros n m' c' Hn Hm' Hc'%Heq. destruct (decide (n = x)) as [->|Hne].
    + rewrite lookup_insert_eq. by rewrite (cached_fun _ _ _ _ Hc Hc').
    + rewrite lookup_insert_ne by done. eapply Hkept; [set_solver|done..].
  - intros n m' Hn Hm'. destruct Hfs as (_ & -> & _). rewrite Hlen. eauto.
  - intros n m' c' Hn Hm' Hc'%Heq. eauto.
Qed.

Lemma fresh_entry_frame now s0 s x m c :
  same_frame s0 s -> fresh_entry now s x m c -> fresh_entry now s0 x m c.
Proof. intros (Ha & _) [? ? ? ? Hi]. constructor; auto. by rewrite <- Ha. Qed.

(** A full cache stays full when a name is issued. *)
Lemma issued_full s s' x ov :
  cache_inv s -> cache_inv s' -> same_frame s s' -> (forall v, ov = Some v -> is_victim s x v) ->
  length (lru s') = issued_length s x ov ->
  is_Some ov \/ Z.of_nat (length (lru s)) = capacity s ->
  Z.of_nat (length (lru s')) = capacity s'.
Proof.
  intros Hi Hi' (_ & Hcap & _) Hov Hlen Hfull. pose proof (ci_len _ Hi') as Hle.
  rewrite Hlen in *. rewrite Hcap in *. destruct ov as [v|]; cbn [issued_length] in *.
  - by destruct (Hov v eq_refl) as (_ & _ & _ & ?).
  - destruct Hfull as [[? ?]|Hfull]; [done|].
    destruct (entries s !! x) as [e|] eqn:Ex.
    + pose proof (remove_length_S _ _ _ Hi Ex). lia.
    + unfold remove in *. rewrite Ex in *. lia.
Qed.

Lemma loop_inv_issue now s0 d s acc x m c ov s' :
  loop_inv now s0 d s acc -> canonicalName unicode_lower parse_addr x = Ok m ->
  fresh_entry now s x m c -> (forall v, ov = Some v -> is_victim s x v) ->
  (forall n e, cached s' n e <-> (n = x /\ e = c) \/ (n <> x /\ ov <> Some n /\ cached s n e)) ->
  length (lru s') = issued_length s x ov -> cache_inv s -> cache_inv s' -> same_frame s s' ->
  loop_inv now s0 (d ++ [x]) s'
    (<[x := cs_resource c]> (match ov with Some v => delete v acc.1 | None => acc.1 end),
     match ov with Some v => {[v]} ∪ acc.2 | None => acc.2 end).
Proof.
  intros [Hfr Hres Hdone Hrem Hgone Hev Hca Hkept Hfull Hag] Hm Hfe Hov Heq Hlen Hi Hi' Hfs.
  set (acc1 := match ov with Some v => delete v acc.1 | None => acc.1 end).
  set (acc2 := match ov with Some v => {[v]} ∪ acc.2 | None => acc.2 end).
  assert (Hin1 : forall n r, acc1 !! n = Some r <-> ov <> Some n /\ acc.1 !! n = Some r).
  { intros n r. unfold acc1. destruct ov as [v|]; [rewrite lookup_delete_Some; naive_solver|naive_solver]. }
  assert (Hin2 : forall n, n ∈ acc2 <-> ov = Some n \/ n ∈ acc.2).
  { intros n. unfold acc2. destruct ov as [v|]; [set_solver|naive_solver]. }
  assert (Hexp : now < cs_expires c).
  { rewrite (fe_expires _ _ _ _ _ Hfe). unfold secretTTL, minute, second. lia. }
  constructor; cbn [fst snd]; [by eapply same_frame_trans|..].
  - intros n r [[<- <-]|[Hne [Hnv Hn]%Hin1]]%lookup_insert_Some.
    + split; [set_solver|]. split; [|eauto]. exists c. split_and!; auto. apply Heq. auto.
    + destruct (Hres n r Hn) as (? & (c' & Hc' & ? & ?) & ?). split; [set_solver|].
      split; [|done]. exists c'. split_and!; auto. apply Heq. auto.
  - intros n Hn. destruct (decide (n = x)) as [->|Hne]; [left; rewrite lookup_insert_eq; eauto|].
    rewrite lookup_insert_ne by done. rewrite Hin2. destruct (decide (ov = Some n)); [auto|].
    destruct (Hdone n) as [[r Hr]|?]; [set_solver| |auto]. left. exists r. by apply Hin1.
  - intros n [Hn|Hn]%Hin2.
    + destruct (Hov n Hn) as (_ & (e & He) & _). destruct (Hca n e He); [eauto|set_solver].
    + destruct (Hrem n Hn); [set_solver|eauto].
  - intros n [Hn|Hn]%Hin2 Hnd c' [[-> _]|(Hne & Hnv & Hc')]%Heq; [set_solver|done|set_solver|].
    eapply (Hgone n Hn); [set_solver|done].
  - intros n c' Hc'. rewrite Hin2. destruct (Hev n c' Hc') as [[c'' Hc'']|?]; [|auto].
    destruct (decide (n = x)) as [->|Hne]; [left; exists c; apply Heq; auto|].
    destruct (decide (ov = Some n)); [auto|]. left. exists c''. apply Heq. auto.
  - intros n c' [[-> _]|(Hne & Hnv & Hc')]%Heq; [set_solver|].
    destruct (Hca n c' Hc'); [auto|set_solver].
  - intros n m' c' Hn Hm' [[-> ->]|(Hne & Hnv & Hc')]%Heq; [by rewrite lookup_insert_eq|].
    rewrite lookup_insert_ne by done. apply Hin1. split; [done|].
    eapply Hkept; [set_solver|done..].
  - intros n m' Hn Hm'. apply (issued_full s s' x ov); try done.
    apply Hin2 in Hn as [->|Hn]; [left; eauto|right; eauto].
  - intros n m' c' Hn Hm' [[-> ->]|(Hne & Hnv & Hc')]%Heq.
    + rewrite Hm in Hm'. injection Hm' as <-. by eapply fresh_entry_frame.
    + apply Hin2 in Hn as [->|Hn]; [done|eauto].
Qed.

Lemma serve_names_spec now s0 names : forall d s acc,
  cache_inv s -> loop_inv now s0 d s acc ->
  let '(r, s') := serve_names now s acc names in
  cache_inv s' /\ same_frame s s' /\
  match r with
  | Ok acc' => loop_inv now s0 (d ++ names) s' acc'
  | Err _ => True
  | Panic => False
  end.
Proof.
  induction names as [|x names IH]; intros d s acc Hi Hl; cbn [serve_names].
  { split_and!; try done. by rewrite app_nil_r. }
  pose proof (serve_name_spec now s acc x Hi) as Hs.
  destruct (serve_name now s acc x) as [[acc1|e|] s1]; destruct Hs as (Hi1 & Hf1 & Hs); [|done|done].
  assert (Hl1 : loop_inv now s0 (d ++ [x]) s1 acc1).
  { destruct Hs as [e He -> ->|m c Hm Hc Hn Heq Hln ->|m c ov Hm Hx Hfe Hov Heq Hln ->].
    - by eapply loop_inv_invalid.
    - by eapply loop_inv_hit.
    - eapply loop_inv_issue; try done. }
  pose proof (IH _ _ _ Hi1 Hl1) as H'.
  destruct (serve_names now s1 acc1 names) as [r s2]. destruct H' as (Hi2 & Hf2 & H').
  split; [done|]. split; [by eapply same_frame_trans|].
  replace (d ++ x :: names) with ((d ++ [x]) ++ names) by (by rewrite <- app_assoc). done.
Qed.

(** ** Refinement of a textbook LRU cache

    The abstract cache is a list of entries, most recent first. *)
Definition lru_lookup (n : string) (l : list cachedSecret) : option cachedSecret :=
  head (filter (fun c => cs_name c = n) l).
Definition lru_remove (n : string) (l : list cachedSecret) : list cachedSecret :=
  filter (fun c => cs_name c <> n) l.
Definition lru_insert (cap : Z) (c : cachedSecret) (l : list cachedSecret) : list cachedSecret :=
  c :: (if Z.of_nat (length l) =? cap then take (pred (length l)) l else l).
(** Serve [x]: refresh a live entry, otherwise insert [c], evicting the oldest. *)
Definition lru_request (now cap : Z) (x : string) (c : cachedSecret) (l : list cachedSecret)
    : list cachedSecret :=
  match lru_lookup x l with
  | Some d => if now <? cs_expires d then d :: lru_remove x l else lru_insert cap c (lru_remove x l)
  | None => lru_insert cap c l
  end.

Definition abs s : list cachedSecret := omap (fun e => elems s !! e) (lru s).

Lemma omap_filter {A B} (f : A -> option B) (P : A -> Prop) (Q : B -> Prop)
    `{!forall x, Decision (P x)} `{!forall x, Decision (Q x)} (l : list A) :
  (forall e, e ∈ l -> exists c, f e = Some c /\ (P e <-> Q c)) ->
  omap f (filter P l) = filter Q (omap f l).
Proof.
  induction l as [|e l IH]; intros Hl; [done|].
  destruct (Hl e) as (c & Hc & Hpq); [set_solver|]. cbn [omap list_omap]. rewrite Hc.
  destruct (decide (P e)) as [Hp|Hp].
  - rewrite filter_cons_True by done. rewrite filter_cons_True by tauto. cbn [omap list_omap].
    rewrite Hc, IH; [done|set_solver].
  - rewrite filter_cons_False by done. rewrite filter_cons_False by tauto. apply IH. set_solver.
Qed.

Lemma abs_length s : cache_inv s -> length (abs s) = length (lru s).
Proof.
  intros Hi. pose proof (ci_elem _ Hi) as He. unfold abs. revert He.
  induction (lru s) as [|e l IH]; intros He; cbn; [done|].
  destruct (He e) as (c & -> & _); [set_solver|]. cbn. rewrite IH; [done|set_solver].
Qed.

Lemma abs_remove s n : cache_inv s -> abs (remove s n) = lru_remove n (abs s).
Proof.
  intros Hi. unfold abs, remove, lru_remove. destruct (entries s !! n) as [e|] eqn:En; cbn.
  - apply omap_filter. intros x Hx. destruct (ci_elem _ Hi x Hx) as (c & Hc & Hce & _).
    exists c. split; [done|]. destruct (ci_entry _ Hi n e En) as (_ & d & Hd & Hdn).
    split; intros Hne Heq; apply Hne; [|congruence]. subst n. congruence.
  - symmetry. apply filter_all, Forall_forall. intros c Hc.
    apply list_elem_of_omap in Hc as (x & Hx & Hc). destruct (ci_elem _ Hi x Hx) as (d & Hd & Hde & _).
    intros <-. congruence.
Qed.

Lemma abs_lookup s n c : cache_inv s -> cached s n c <-> lru_lookup n (abs s) = Some c.
Proof.
  intros Hi. unfold lru_lookup.
  assert (Hall : forall d, d ∈ filter (fun c => cs_name c = n) (abs s) <-> cached s n d).
  { intros d. rewrite list_elem_of_filter. unfold abs. rewrite list_elem_of_omap. split.
    - intros (<- & x & Hx & Hd). destruct (ci_elem _ Hi x Hx) as (d' & ? & ? & _).
      exists x. split; [congruence|done].
    - intros Hd. assert (Hd' := Hd). destruct Hd' as (x & Hx & Hd'). split; [by apply (cached_name s)|].
      exists x. split; [by apply (ci_entry _ Hi n)|done]. }
  split.
  - intros Hc. assert (Hin := proj2 (Hall c) Hc).
    destruct (filter _ (abs s)) as [|d l] eqn:E; [by apply not_elem_of_nil in Hin|]. cbn. f_equal.
    eapply cached_fun; [|exact Hc]. apply Hall. set_solver.
  - intros Hc. apply Hall. destruct (filter _ (abs s)); [done|]. cbn in Hc. simplify_eq. set_solver.
Qed.

(** Removing the name of the last entry removes that entry. *)
Lemma abs_evict s v c : cache_inv s -> cached s v c -> last (lru s) = entries s !! v ->
  lru_remove v (abs s) = take (pred (length (abs s))) (abs s).
Proof.
  intros Hi (e & He & Hc) Hlast. rewrite He in Hlast. apply last_Some in Hlast as [l Hl].
  pose proof (ci_nodup _ Hi) as Hnd. rewrite Hl in Hnd.
  destruct (ci_entry _ Hi v e He) as (_ & c' & Hc' & Hv). rewrite Hc in Hc'. injection Hc' as <-. subst v.
  assert (Habs : abs s = omap (fun e => elems s !! e) l ++ [c]).
  { unfold abs. rewrite Hl, omap_app. cbn. by rewrite Hc. }
  rewrite Habs, length_app, Nat.add_comm. cbn [length Nat.add pred]. rewrite take_app_length.
  unfold lru_remove. rewrite filter_app, filter_cons_False, app_nil_r by tauto.
  apply filter_all, Forall_forall. intros d Hd. apply list_elem_of_omap in Hd as (x & Hx & Hd).
  destruct (ci_elem _ Hi x) as (d' & Hd' & Hde & _); [rewrite Hl; set_solver|].
  intros Heq. assert (x = e) as -> by congruence.
  apply NoDup_app in Hnd as (_ & Hnd & _). by apply (Hnd e Hx), list_elem_of_singleton.
Qed.

Lemma abs_ext s s' : lru s' = lru s -> elems s' = elems s -> abs s' = abs s.
Proof. unfold abs. by intros -> ->. Qed.

Lemma abs_push s c : cache_inv s ->
  abs (list_PushFront s c).2 = c :: abs s.
Proof.
  intros Hi. unfold abs. cbn. rewrite lookup_insert_eq. f_equal.
  pose proof (ci_fresh _ Hi) as Hf. induction (lru s) as [|e l IH]; cbn; [done|].
  rewrite lookup_insert_ne.
  - rewrite IH; [done|]. intros x Hx. apply Hf. set_solver.
  - specialize (Hf e). intros Heq. assert (e < next_elem s)%nat by (apply Hf; set_solver). lia.
Qed.

Lemma issue_entry_abs now s acc x canonical acc' s' :
  cache_inv s -> entries s !! x = None -> issue_entry now s acc x canonical = (Ok acc', s') ->
  exists c, fresh_entry now s x canonical c /\ abs s' = lru_insert (capacity s) c (abs s).
Proof.
  intros Hi Hx. unfold issue_entry.
  destruct (issue (authority s) canonical now (entropy s)) as [[[cert key]|er|] e'] eqn:Eis; [|done..].
  destruct (anypb_New _) as [value|] eqn:Eany; [|done].
  set (s1 := set_version _ _). assert (Hi1 : cache_inv s1) by (by eapply cache_inv_ext).
  set (c := {| cs_name := x; cs_resource := _; cs_expires := _ |}).
  assert (Hfe : fresh_entry now s x canonical c).
  { constructor; try done. exists cert, key, (entropy s), e'. done. }
  assert (Ha1 : abs s1 = abs s) by done. pose proof (abs_length s Hi) as Hlen.
  destruct (evict_full_spec s1 acc Hi1) as [[Hl ->]|(v & d & Hv & Hlast & Hfull & Hl & He)].
  - intros [= <- <-]. exists c. split; [done|]. unfold lru_insert.
    rewrite Hlen. change (lru s1) with (lru s) in Hl. change (capacity s1) with (capacity s) in Hl.
    replace (Z.of_nat (length (lru s)) =? capacity s) with false by lia.
    rewrite <- Ha1, <- (abs_push s1 c Hi1). done.
  - rewrite He. intros [= <- <-]. exists c. split; [done|]. unfold lru_insert.
    change (lru s1) with (lru s) in Hfull. change (capacity s1) with (capacity s) in Hfull.
    replace (Z.of_nat (length (abs s)) =? capacity s) with true by (rewrite Hlen; lia).
    rewrite <- (abs_evict s v d Hi Hv Hlast), <- (abs_remove s v Hi). transitivity (c :: abs (remove s1 v)).
    + rewrite <- (abs_push (remove s1 v) c (remove_inv s1 v Hi1)). done.
    + f_equal. apply abs_ext; unfold remove; change (entries s1) with (entries s); by destruct (entries s !! v).
Qed.

Lemma serve_name_abs now s acc x canonical acc' s' :
  cache_inv s -> canonicalName unicode_lower parse_addr x = Ok canonical ->
  serve_name now s acc x = (Ok acc', s') ->
  exists c, (cached s x c /\ now < cs_expires c \/ fresh_entry now s x canonical c) /\
    abs s' = lru_request now (capacity s) x c (abs s).
Proof.
  intros Hi Hc. unfold serve_name. rewrite Hc. unfold lru_request.
  destruct (entries s !! x) as [e|] eqn:Ex.
  - destruct (ci_entry _ Hi x e Ex) as (Hel & d & Hd & Hdx). rewrite Hd.
    assert (Hcd : cached s x d) by (by exists e). rewrite (proj1 (abs_lookup s x d Hi) Hcd).
    destruct (now <? cs_expires d) eqn:Et.
    + intros [= <- <-]. exists d. split; [left; split; [done|]; by apply Z.ltb_lt|].
      rewrite <- (abs_remove s x Hi). unfold abs, remove. rewrite Ex. cbn. by rewrite Hd.
    + intros H'. apply issue_entry_abs in H' as (c & Hfe & Ha); [|by apply remove_inv|apply remove_none].
      exists c. split.
      * right. destruct Hfe as [? ? ? ? (ce & k & e1 & e2 & Hiss & Hany)]. constructor; auto.
        exists ce, k, e1, e2. destruct (remove_frame s x) as (<- & _). done.
      * rewrite Ha, (abs_remove s x Hi). destruct (remove_frame s x) as (_ & -> & _). done.
  - destruct (lru_lookup x (abs s)) as [d|] eqn:El.
    { apply (abs_lookup s x d Hi) in El as (e & He & _). congruence. }
    intros H'. apply issue_entry_abs in H' as (c & Hfe & Ha); eauto.
Qed.

(** *** Names served by one request stay in front *)

(** [l] are the names at the front of the cache. *)
Definition recent s (l : list string) : Prop := l `prefix_of` map cs_name (abs s).
Lemma recent_cached s l n : cache_inv s -> recent s l -> n ∈ l -> exists c, cached s n c.
Proof.
  intros Hi [k Hk] Hn. assert (Hin : n ∈ map cs_name (abs s)) by (rewrite Hk, elem_of_app; auto).
  apply list_elem_of_fmap in Hin as (c & -> & (e & He & Hc)%list_elem_of_omap). exists c.
  destruct (ci_elem _ Hi e He) as (c' & ? & ? & _). simplify_eq. by exists e.
Qed.
Lemma lru_remove_names x l : map cs_name (lru_remove x l) = filter (fun n => n <> x) (map cs_name l).
Proof.
  unfold lru_remove. induction l as [|c l IH]; [done|]. cbn [map]. destruct (decide (cs_name c = x)) as [E|E].
  - rewrite !filter_cons_False by tauto. done.
  - rewrite !filter_cons_True by tauto. cbn [map]. by rewrite IH.
Qed.
Lemma prefix_remove (x : string) (l k : list string) : x ∉ l -> l `prefix_of` k -> l `prefix_of` filter (fun n => n <> x) k.
Proof.
  intros Hx [k' ->]. rewrite filter_app, filter_all; [by eexists|]. apply Forall_forall. by intros y Hy ->.
Qed.
Lemma prefix_insert cap c l R : Z.of_nat (S (length R)) <= cap -> R `prefix_of` map cs_name l ->
  cs_name c :: R `prefix_of` map cs_name (lru_insert cap c l).
Proof.
  intros Hlen [k Hk]. unfold lru_insert. cbn [map]. apply prefix_cons.
  destruct (Z.eqb_spec (Z.of_nat (length l)) cap) as [E|_]; [|by exists k].
  assert (length R <= pred (length l))%nat by lia. exists (take (pred (length l) - length R) k).
  change (map cs_name (take (pred (length l)) l)) with (cs_name <$> take (pred (length l)) l). rewrite fmap_take.
  change (cs_name <$> l) with (map cs_name l). rewrite Hk. by rewrite take_app_ge.
Qed.
Lemma serve_name_recent now s acc x m acc' s' R :
  cache_inv s -> canonicalName unicode_lower parse_addr x = Ok m -> serve_name now s acc x = (Ok acc', s') ->
  x ∉ R -> Z.of_nat (S (length R)) <= capacity s -> recent s R -> recent s' (x :: R).
Proof.
  intros Hi Hm Hs Hx Hlen Hr. destruct (serve_name_abs _ _ _ _ _ _ _ Hi Hm Hs) as (c & Hc & Ha).
  assert (Hn : cs_name c = x) by (destruct Hc as [[Hc _]|Hc]; [by apply (cached_name s)|apply Hc]).
  unfold recent. rewrite Ha. unfold lru_request. rewrite <- Hn.
  assert (Hrem : R `prefix_of` map cs_name (lru_remove (cs_name c) (abs s))).
  { rewrite lru_remove_names. apply prefix_remove; [by rewrite Hn|done]. }
  destruct (lru_lookup _ _) as [d|] eqn:El; [|by apply prefix_insert].
  destruct (now <? cs_expires d); [|by apply prefix_insert]. cbn [map].
  assert (Hd : cs_name d = cs_name c) by (apply (abs_lookup s _ d Hi) in El; by apply (cached_name s) in El as [-> _]).
  rewrite Hd. by apply prefix_cons.
Qed.
Lemma serve_names_recent now names : forall s acc acc' s' R,
  cache_inv s -> serve_names now s acc names = (Ok acc', s') -> NoDup names -> (forall n, n ∈ R -> n ∉ names) ->
  Z.of_nat (length names + length R) <= capacity s -> recent s R ->
  exists R', recent s' R' /\ forall n, n ∈ R -> n ∈ R'.
Proof.
  induction names as [|x names IH]; intros s acc acc' s' R Hi Hs Hnd Hd Hlen Hr; cbn in Hs.
  { injection Hs as _ <-. by exists R. }
  destruct (serve_name now s acc x) as [[acc1|e|] s1] eqn:E; [|done..]. cbn in Hlen.
  pose proof (serve_name_spec now s acc x Hi) as Hspec. rewrite E in Hspec. destruct Hspec as (Hi1 & (_ & Hcap & _) & Heff).
  apply NoDup_cons in Hnd as [Hx Hnd].
  destruct (canonicalName unicode_lower parse_addr x) as [m|er|] eqn:Em.
  - assert (Hr1 : recent s1 (x :: R)).
    { eapply serve_name_recent; [exact Hi|exact Em|exact E|intros H'; apply (Hd x H'); set_solver|lia|done]. }
    destruct (IH s1 acc1 acc' s' (x :: R)) as (R' & Hr' & Hsub); try done.
    + intros n [->|Hn]%elem_of_cons; [done|]. intros Hn'. apply (Hd n Hn). set_solver.
    + cbn. lia.
    + exists R'. split; [done|]. intros n Hn. apply Hsub. set_solver.
  - assert (s1 = s) as ->.
    { destruct Heff as [? _ Hss _|? ? Hm|? ? ? Hm]; [done|congruence..]. }
    apply (IH s acc1 acc' s' R); try done; [|lia]. intros n Hn Hn'. apply (Hd n Hn). set_solver.
  - destruct Heff as [? Hm|? ? Hm|? ? ? Hm]; congruence.
Qed.

Lemma serve_names_app now names1 names2 : forall s acc,
  serve_names now s acc (names1 ++ names2) =
  match serve_names now s acc names1 with
  | (Ok acc, s) => serve_names now s acc names2
  | (Err e, s) => (Err e, s)
  | (Panic, s) => (Panic, s)
  end.
Proof.
  induction names1 as [|x l IH]; intros s acc; cbn; [done|].
  by destruct (serve_name now s acc x) as [[acc'|e|] s'].
Qed.

Lemma serve_names_cache now names : forall s acc acc' s', cache_inv s -> serve_names now s acc names = (Ok acc', s') ->
  cache_inv s' /\ capacity s' = capacity s.
Proof.
  induction names as [|x l IH]; intros s acc acc' s' Hi; cbn; [by intros [= _ <-]|].
  pose proof (serve_name_spec now s acc x Hi) as Hs.
  destruct (serve_name now s acc x) as [[acc1|e|] s1]; destruct Hs as (Hi1 & (_ & Hc & _) & _); [|done..].
  intros H'. destruct (IH _ _ _ _ Hi1 H') as [Hi' Hc']. split; [done|congruence].
Qed.
(** A valid name is still cached after fewer than [capacity] further names. *)
Lemma serve_names_last now s acc l1 n l2 m acc' s' :
  cache_inv s -> serve_names now s acc (l1 ++ n :: l2) = (Ok acc', s') -> NoDup (n :: l2) ->
  Z.of_nat (length l2) < capacity s -> canonicalName unicode_lower parse_addr n = Ok m -> cache_inv s' ->
  exists c, cached s' n c.
Proof.
  intros Hi Hs [Hn Hnd]%NoDup_cons Hlen Hm Hi'. rewrite serve_names_app in Hs.
  destruct (serve_names now s acc l1) as [[acc1|e|] s1] eqn:E1; [|done..].
  assert (Hk1 : cache_inv s1 /\ capacity s1 = capacity s) by by eapply serve_names_cache.
  destruct Hk1 as [Hi1 Hc1]. cbn [serve_names] in Hs.
  destruct (serve_name now s1 acc1 n) as [[acc2|e|] s2] eqn:E2; [|done..].
  pose proof (serve_name_spec now s1 acc1 n Hi1) as Hspec. rewrite E2 in Hspec. destruct Hspec as (Hi2 & (_ & Hc2 & _) & _).
  assert (Hr : recent s2 [n]).
  { eapply serve_name_recent; [exact Hi1|exact Hm|exact E2|by apply not_elem_of_nil| |by eexists].
    pose proof (ci_cap _ Hi1). cbn. lia. }
  destruct (serve_names_recent now l2 s2 acc2 acc' s' [n] Hi2 Hs Hnd) as (R & HR & Hsub);
    [by intros ? ->%list_elem_of_singleton|cbn; lia|done|].
  eapply recent_cached; [done|exact HR|]. apply Hsub. by left.
Qed.

(** ** [updateLocked] *)
Lemma elem_of_sorted_keys k n : n ∈ sorted_keys k <-> n ∈ k.
Proof. unfold sorted_keys. by rewrite merge_sort_Permutation, elem_of_elements. Qed.
Lemma NoDup_sorted_keys k : NoDup (sorted_keys k).
Proof. unfold sorted_keys. rewrite merge_sort_Permutation. apply NoDup_elements. Qed.

Lemma interested_frame s s' n : same_frame s s' -> interested s' n = interested s n.
Proof. unfold interested. by intros (_ & _ & ->). Qed.


Lemma unsubscribe_all_spec l : forall s, cache_inv s ->
  cache_inv (fold_left unsubscribe l s) /\ same_frame s (fold_left unsubscribe l s) /\
  forall n c, cached (fold_left unsubscribe l s) n c <->
    cached s n c /\ (n ∈ l -> interested s n = true).
Proof.
  induction l as [|x l IH]; intros s Hi; cbn.
  { split_and!; try done. intros n c. split; [|tauto]. intros Hc. split; [done|]. by intros ?%not_elem_of_nil. }
  assert (Hx : cache_inv (unsubscribe s x) /\ same_frame s (unsubscribe s x) /\
    forall n c, cached (unsubscribe s x) n c <-> cached s n c /\ (n = x -> interested s n = true)).
  { unfold unsubscribe. destruct (interested s x) eqn:E.
    - split; [done|split; [done|]]. intros n c. split; [|tauto]. intros Hc. split; [done|]. by intros ->.
    - split; [by apply remove_inv|]. split; [apply remove_frame|].
      intros n c. rewrite remove_cached by done. split.
      + intros [Hne Hc]. split; [done|]. by intros ->.
      + intros [Hc Hn]. split; [|done]. intros ->. rewrite E in Hn. by specialize (Hn eq_refl). }
  destruct Hx as (Hi1 & Hf1 & Hc1). destruct (IH _ Hi1) as (Hi2 & Hf2 & Hc2).
  split; [done|]. split; [by eapply same_frame_trans|].
  intros n c. rewrite Hc2, Hc1, (interested_frame s (unsubscribe s x) n Hf1), elem_of_cons. tauto.
Qed.

(** What a response says about the request and the cache it leaves behind. *)
Record response_ok s (req : DeltaDiscoveryRequest) (now : Z) (resp : DeltaDiscoveryResponse) s' : Prop := {
  ro_served : forall r, r ∈ resp_Resources resp ->
    res_Name r ∈ requested_names req /\
    (exists m, canonicalName unicode_lower parse_addr (res_Name r) = Ok m) /\
    exists c, cached s' (res_Name r) c /\ cs_resource c = r /\ now < cs_expires c;
  ro_answered : forall n, n ∈ requested_names req ->
    (exists r, r ∈ resp_Resources resp /\ res_Name r = n) \/ n ∈ resp_RemovedResources resp;
  ro_fits : forall l1 n l2 m, sorted_keys (requested_names req) = l1 ++ n :: l2 ->
    Z.of_nat (length l2) < capacity s -> canonicalName unicode_lower parse_addr n = Ok m ->
    exists c, cached s' n c /\ cs_resource c ∈ resp_Resources resp;
  ro_kept : forall n m c, n ∈ requested_names req ->
    canonicalName unicode_lower parse_addr n = Ok m -> cached s' n c -> cs_resource c ∈ resp_Resources resp;
  ro_removed : forall n, n ∈ resp_RemovedResources resp -> n ∉ requested_names req ->
    (exists c, cached s n c) /\ forall c, ~ cached s' n c;
  ro_removed_valid : forall n m, n ∈ resp_RemovedResources resp ->
    canonicalName unicode_lower parse_addr n = Ok m ->
    Z.of_nat (length (lru s')) = capacity s /\ forall c, cached s' n c -> fresh_entry now s n m c;
  ro_evicted : forall n c, cached s n c ->
    (exists c', cached s' n c') \/ n ∈ resp_RemovedResources resp \/
    (n ∈ ResourceNamesUnsubscribe req /\ interested s n = false);
  ro_cached : forall n c, cached s' n c -> n ∈ requested_names req \/
    ((exists d, cached s n d) /\ (n ∈ ResourceNamesUnsubscribe req -> interested s n = true));
  ro_nodup : NoDup (map res_Name (resp_Resources resp)) /\ NoDup (resp_RemovedResources resp);
}.

Lemma cache_inv_nonce s v : cache_inv s -> cache_inv (set_nonce s v).
Proof. intros Hi. by eapply cache_inv_ext. Qed.

Lemma map_omap_names (m : gmap string Resource) l :
  (forall n r, m !! n = Some r -> res_Name r = n) -> NoDup l ->
  NoDup (map res_Name (omap (fun n => m !! n) l)).
Proof.
  intros Hn. induction 1 as [|x l Hx Hl IH]; cbn; [constructor|].
  destruct (m !! x) as [r|] eqn:E; cbn; [|done]. constructor; [|done].
  rewrite (Hn x r E). intros Hin. apply list_elem_of_fmap in Hin as (r' & -> & Hr').
  apply list_elem_of_omap in Hr' as (y & Hy & Hr'). by rewrite (Hn _ _ Hr') in Hx.
Qed.

Lemma updateLocked_spec s req now :
  cache_inv s ->
  let '(r, s') := updateLocked s req now in
  cache_inv s' /\ same_frame s s' /\
  match r with Ok resp => response_ok s req now resp s' | Err _ => True | Panic => False end.
Proof.
  intros Hi. unfold updateLocked.
  destruct (unsubscribe_all_spec (ResourceNamesUnsubscribe req) s Hi) as (Hi1 & Hf1 & Hc1).
  set (s1 := fold_left _ _ s) in *.
  pose proof (serve_names_spec now s1 (sorted_keys (requested_names req)) [] s1 (∅, ∅) Hi1
    (loop_inv_start now s1)) as Hs.
  destruct (serve_names _ _ _ _) as [[[resources removed]|e|] s2] eqn:Eserve; destruct Hs as (Hi2 & Hf2 & Hs);
    [|split; [done|split; [by eapply same_frame_trans|done]]|done].
  split; [by apply cache_inv_nonce|]. split; [by eapply (same_frame_trans s s1 s2)|].
  destruct Hs as [_ Hres Hdone Hrem Hgone Hev Hca Hkept Hfull Hag]. cbn [app fst snd] in *.
  assert (Hname : forall n r, resources !! n = Some r -> res_Name r = n).
  { intros n r Hr. destruct (Hres n r Hr) as (_ & (c & Hc & <- & _) & _). by apply (cached_name s2). }
  assert (Hmem : forall r, r ∈ omap (fun n => resources !! n) (sorted_keys (dom resources)) <->
      resources !! res_Name r = Some r).
  { intros r. rewrite list_elem_of_omap. split.
    - intros (n & _ & Hr). by rewrite (Hname _ _ Hr).
    - intros Hr. exists (res_Name r). rewrite elem_of_sorted_keys, elem_of_dom. eauto. }
  constructor; cbn [resp_Resources resp_RemovedResources].
  - intros r Hr%Hmem. destruct (Hres _ _ Hr) as (Hd & Hc & Hm). apply elem_of_sorted_keys in Hd. done.
  - intros n Hn. rewrite elem_of_sorted_keys. destruct (Hdone n) as [[r Hr]|?]; [by apply elem_of_sorted_keys| |auto].
    left. exists r. rewrite Hmem, (Hname _ _ Hr). done.
  - intros l1 n l2 m Hl Hlen Hm. rewrite Hl in Eserve. destruct Hf1 as (_ & Hcap & _).
    assert (Hnd : NoDup (l1 ++ n :: l2)) by (rewrite <- Hl; apply NoDup_sorted_keys). apply NoDup_app in Hnd as (_ & _ & Hnd).
    destruct (serve_names_last now s1 _ l1 n l2 m _ _ Hi1 Eserve Hnd ltac:(lia) Hm Hi2) as [c Hc].
    exists c. split; [done|]. apply Hmem. destruct (cached_name s2 n c Hi2 Hc) as [_ ->].
    eapply Hkept; [rewrite Hl; set_solver|done..].
  - intros n m c Hn Hm Hc. apply Hmem. destruct (cached_name s2 n c Hi2 Hc) as [_ ->].
    eapply Hkept; [by apply elem_of_sorted_keys|done..].
  - intros n Hn%elem_of_sorted_keys Hnr. destruct (Hrem n Hn) as [Hd|[c Hc]].
    + by apply elem_of_sorted_keys in Hd.
    + apply Hc1 in Hc as [Hc _]. split; [eauto|]. intros c'. apply Hgone; [done|]. by rewrite elem_of_sorted_keys.
  - intros n m Hn%elem_of_sorted_keys Hm. destruct Hf1 as (Ha & Hcap & Hw), Hf2 as (_ & Hcap2 & _).
    split; [cbn; rewrite (Hfull n m Hn Hm); congruence|].
    intros c Hc. eapply fresh_entry_frame; [|by eapply (Hag n m c)]. done.
  - intros n c Hc. rewrite elem_of_sorted_keys.
    destruct (decide (n ∈ ResourceNamesUnsubscribe req)) as [Hu|Hu], (interested s n) eqn:Ei; auto.
    all: destruct (Hev n c) as [?|?]; [apply Hc1; split; [done|intros; first [done|by destruct Hu]]|auto..].
  - intros n c [Hc|Hd]%Hca; [|by rewrite elem_of_sorted_keys in Hd; auto]. apply Hc1 in Hc as [Hc Hu]. eauto.
  - split; [apply map_omap_names; [done|apply NoDup_sorted_keys]|apply NoDup_sorted_keys].
Qed.

(** ** Delivery *)



Lemma enqueue_names w r : w_names (enqueue w r) = w_names w.
Proof. unfold enqueue. by repeat case_match. Qed.
Lemma enqueue_bound w r : (length (w_updates w) <= 4)%nat -> (length (w_updates (enqueue w r)) <= 4)%nat.
Proof.
  unfold enqueue. destruct (_ =? 0)%nat; [done|]. destruct (_ <? 4)%nat eqn:E; [|done].
  apply Nat.ltb_lt in E. cbn. rewrite length_app. cbn. lia.
Qed.
Lemma deliver_names r w n : n ∈ w_names (deliver r w) -> n ∈ w_names w.
Proof. unfold deliver. rewrite enqueue_names. cbn. set_solver. Qed.

(** The names a request leaves in its own watch. *)
Definition updated_names (w : secretWatch) (req : DeltaDiscoveryRequest) : gset string :=
  (w_names w ∖ list_to_set (ResourceNamesUnsubscribe req))
  ∪ list_to_set (ResourceNamesSubscribe req) ∪ dom (InitialResourceVersions req).
Definition with_request s (w : nat) (x : secretWatch) (req : DeltaDiscoveryRequest) : SecretServer :=
  set_watches s (<[w := set_names x (updated_names x req)]> (watches s)).

(** Every outcome of [process]. *)
Lemma process_spec s w req now :
  cache_inv s ->
  let '(r, s') := process s w req now in
  cache_inv s' /\ authority s' = authority s /\ capacity s' = capacity s /\
  match r with
  | Ok _ => exists x resp s2, watches s !! w = Some x /\
      Z.of_nat (size (updated_names x req)) <= maxRequestNames /\
      response_ok (with_request s w x req) req now resp s2 /\
      entries s' = entries s2 /\ elems s' = elems s2 /\
      watches s' = deliver resp <$> watches (with_request s w x req)
  | Err e =>
      (e = Canceled /\ watches s !! w = None /\ s' = s) \/
      (exists x, watches s !! w = Some x /\ watches s' = watches (with_request s w x req))
  | Panic => False
  end.
Proof.
  intros Hi. unfold process. destruct (watches s !! w) as [x|] eqn:Ew; [|split_and!; auto].
  fold (updated_names x req). cbv zeta. fold (with_request s w x req).
  assert (Hi1 : cache_inv (with_request s w x req)) by (by eapply cache_inv_ext).
  destruct (maxRequestNames <? _) eqn:E; [split_and!; eauto|]. bool_hyps.
  pose proof (updateLocked_spec _ req now Hi1) as Hu.
  destruct (updateLocked _ req now) as [[resp|e|] s2]; destruct Hu as (Hi2 & (Ha & Hc & Hw) & Hu);
    [|split_and!; eauto|done].
  split; [by eapply cache_inv_ext|]. split; [done|]. split; [done|].
  exists x, resp, s2. split_and!; try done. cbn. by rewrite Hw.
Qed.




(** A request for one name is answered by a resource or by a removal of it, never both. *)
Lemma single_disjoint s req now x resp s' :
  cache_inv s -> sorted_keys (requested_names req) = [x] -> updateLocked s req now = (Ok resp, s') ->
  forall r, r ∈ resp_Resources resp -> res_Name r ∉ resp_RemovedResources resp.
Proof.
  intros Hi Hone Hu. pose proof (updateLocked_spec s req now Hi) as Hs. rewrite Hu in Hs.
  destruct Hs as (_ & _ & Hok). revert Hu. unfold updateLocked. rewrite Hone. cbn [serve_names].
  destruct (unsubscribe_all_spec (ResourceNamesUnsubscribe req) s Hi) as (Hi1 & _).
  set (s1 := fold_left _ _ s) in *.
  pose proof (serve_name_spec now s1 (∅, ∅) x Hi1) as Hx.
  destruct (serve_name now s1 (∅, ∅) x) as [[acc|e|] s2]; destruct Hx as (_ & _ & Hx); [|done..].
  destruct acc as [resources removed]. intros [= <- <-]. cbn [resp_Resources resp_RemovedResources] in *.
  intros r Hr. destruct (ro_served _ _ _ _ _ Hok r Hr) as (Hname & (m & Hm) & _).
  assert (Hrx : res_Name r = x).
  { apply elem_of_sorted_keys in Hname. rewrite Hone in Hname. by apply list_elem_of_singleton. }
  rewrite Hrx in *. rewrite elem_of_sorted_keys.
  destruct Hx as [e He Hacc _|m' c _ _ _ _ Hacc|m' c ov _ _ _ Hov _ Hacc]; inversion Hacc; subst.
  - congruence.
  - set_solver.
  - destruct ov as [v|]; [|set_solver]. destruct (Hov v eq_refl) as (Hne & _). set_solver.
Qed.



End Server.

(** ** Streams

    One [DeltaSecrets] call registers a watch and runs a receiver and a sender;
    the receiver may outlive the registration.  [live] holds the receivers that
    still run. *)
Section Streams.
Context `{Signer} `{SecretCodec}.
Context (unicode_lower : Z -> Z) (parse_addr : string -> bool).

Record world := { srv : SecretServer; live : gset nat; next_id : nat }.

Definition empty_watch : secretWatch := {| w_names := ∅; w_updates := []; w_errors := None |}.
Definition may_open (s : SecretServer) : bool := Z.of_nat (size (watches s)) <? 2 * capacity s.

(** The checks of the receiver before [process]. *)
Definition check_request (req : DeltaDiscoveryRequest) : option status :=
  if ErrorDetail req then Some FailedPrecondition
  else if negb (TypeUrl req =s= secretType)
    || (maxRequestNames <? Z.of_nat (length (ResourceNamesSubscribe req) + size (InitialResourceVersions req)))
    || (maxRequestNames <? Z.of_nat (length (ResourceNamesUnsubscribe req)))
  then Some InvalidArgument else None.

Definition fail_watch (s : SecretServer) (w : nat) (e : status) : SecretServer :=
  set_watches s (alter (fun x => fail x e) w (watches s)).

(** One received message: the new server state, and whether the receiver goes on. *)
Definition receive (s : SecretServer) (w : nat) (req : DeltaDiscoveryRequest) (now : Z)
    : result status bool * SecretServer :=
  match check_request req with
  | Some e => (Ok false, fail_watch s w e)
  | None =>
      match process unicode_lower parse_addr s w req now with
      | (Ok _, s) => (Ok true, s)
      | (Err e, s) => (Ok false, fail_watch s w e)
      | (Panic, s) => (Panic, s)
      end
  end.

Inductive sds_step : world -> world -> Prop :=
| step_open W : may_open (srv W) = true ->
    sds_step W {| srv := set_watches (srv W) (<[next_id W := empty_watch]> (watches (srv W)));
                  live := {[next_id W]} ∪ live W; next_id := S (next_id W) |}
| step_rejected W : may_open (srv W) = false -> sds_step W W
| step_receive W w req now go s' : w ∈ live W -> receive (srv W) w req now = (Ok go, s') ->
    sds_step W {| srv := s'; live := if go : bool then live W else live W ∖ {[w]}; next_id := next_id W |}
| step_receive_error W w : w ∈ live W ->
    sds_step W {| srv := fail_watch (srv W) w StreamError; live := live W ∖ {[w]}; next_id := next_id W |}
| step_send W w x r rest : watches (srv W) !! w = Some x -> w_updates x = r :: rest ->
    sds_step W {| srv := set_watches (srv W) (<[w := {| w_names := w_names x; w_updates := rest;
                                                        w_errors := w_errors x |}]> (watches (srv W)));
                  live := live W; next_id := next_id W |}
| step_close W w : sds_step W {| srv := set_watches (srv W) (delete w (watches (srv W)));
                                 live := live W; next_id := next_id W |}.

Definition sds_init (s : SecretServer) : world := {| srv := s; live := ∅; next_id := 0 |}.
Definition sds_reachable (s : SecretServer) (W : world) : Prop := rtc sds_step (sds_init s) W.

Record watch_ok (W : world) (w : nat) (x : secretWatch) : Prop := {
  wo_queue : (length (w_updates x) <= 4)%nat;
  wo_names : Z.of_nat (size (w_names x)) <= 2 * maxRequestNames;
  wo_live : w ∈ live W -> Z.of_nat (size (w_names x)) <= maxRequestNames;
}.
Record world_inv (cap : Z) (W : world) : Prop := {
  wi_cap : capacity (srv W) = cap;
  wi_cache : cache_inv (srv W);
  wi_watches : Z.of_nat (size (watches (srv W))) <= 2 * cap;
  wi_watch : forall w x, watches (srv W) !! w = Some x -> watch_ok W w x;
  wi_ids : forall w, w ∈ live W \/ is_Some (watches (srv W) !! w) -> (w < next_id W)%nat;
}.

Lemma size_union_le (X Y : gset string) : (size (X ∪ Y) <= size X + size Y)%nat.
Proof.
  rewrite size_union_alt. assert (Y ∖ X ⊆ Y) as Hs by set_solver.
  apply subseteq_size in Hs. lia.
Qed.
Lemma size_list_to_set_le (l : list string) : (size (list_to_set l : gset string) <= length l)%nat.
Proof.
  induction l as [|x l IH]; [done|]. cbn [list_to_set length].
  pose proof (size_union_le {[x]} (list_to_set l)) as Hu. rewrite size_singleton in Hu. lia.
Qed.

Lemma check_request_None req : check_request req = None ->
  (length (ResourceNamesSubscribe req) + size (InitialResourceVersions req) <= 128)%nat.
Proof.
  unfold check_request, maxRequestNames. destruct (ErrorDetail req); [done|].
  destruct (_ || _ || _) eqn:E; [done|]. intros _. bool_hyps. lia.
Qed.

Lemma updated_names_size w req : check_request req = None ->
  Z.of_nat (size (w_names w)) <= maxRequestNames ->
  Z.of_nat (size (updated_names w req)) <= 2 * maxRequestNames.
Proof.
  intros Hr%check_request_None Hw. unfold updated_names, maxRequestNames in *.
  pose proof (size_union_le (w_names w ∖ list_to_set (ResourceNamesUnsubscribe req)
    ∪ list_to_set (ResourceNamesSubscribe req)) (dom (InitialResourceVersions req))).
  pose proof (size_union_le (w_names w ∖ list_to_set (ResourceNamesUnsubscribe req))
    (list_to_set (ResourceNamesSubscribe req))).
  pose proof (size_list_to_set_le (ResourceNamesSubscribe req)).
  rewrite size_dom in *.
  assert (w_names w ∖ list_to_set (ResourceNamesUnsubscribe req) ⊆ w_names w) as Hs by set_solver.
  apply subseteq_size in Hs. lia.
Qed.

Lemma deliver_ok r w : (length (w_updates w) <= 4)%nat ->
  (length (w_updates (deliver r w)) <= 4)%nat /\ (size (w_names (deliver r w)) <= size (w_names w))%nat.
Proof.
  intros Hl. split; [by apply enqueue_bound|]. apply subseteq_size. intros n. apply deliver_names.
Qed.

Lemma fail_watch_lookup s w e i x :
  watches (fail_watch s w e) !! i = Some x ->
  exists y, watches s !! i = Some y /\ w_names x = w_names y /\ w_updates x = w_updates y.
Proof.
  unfold fail_watch. cbn. rewrite lookup_alter. destruct (decide (w = i)) as [<-|]; [|eauto].
  destruct (watches s !! w) as [y|]; cbn; [|done]. intros [= <-]. eauto.
Qed.
Lemma fail_watch_size s w e : size (watches (fail_watch s w e)) = size (watches s).
Proof. unfold fail_watch. cbn. rewrite <- !size_dom. by rewrite dom_alter_L. Qed.

(** What a receiver step keeps of every watch. *)
Lemma receive_watches s w req now go s' :
  cache_inv s -> receive s w req now = (Ok go, s') ->
  cache_inv s' /\ capacity s' = capacity s /\ size (watches s') = size (watches s) /\
  forall i x', watches s' !! i = Some x' -> exists x, watches s !! i = Some x /\
    ((length (w_updates x) <= 4)%nat -> (length (w_updates x') <= 4)%nat) /\
    (i <> w -> (size (w_names x') <= size (w_names x))%nat) /\
    (i = w -> check_request req = None /\ (size (w_names x') <= size (updated_names x req))%nat /\
       (go = true -> Z.of_nat (size (w_names x')) <= maxRequestNames) \/
       w_names x' = w_names x /\ go = false).
Proof.
  intros Hi. unfold receive. destruct (check_request req) as [e|] eqn:Ec.
  { intros [= <- <-]. split; [by eapply cache_inv_ext|]. split; [done|]. rewrite fail_watch_size.
    split; [done|]. intros i x' Hx. apply fail_watch_lookup in Hx as (y & Hy & Hn & Hu).
    exists y. rewrite Hn, Hu. split; [done|]. split; [auto|]. split; [auto|]. auto. }
  pose proof (process_spec unicode_lower parse_addr s w req now Hi) as Hp.
  destruct (process _ _ s w req now) as [[[]|e|] s1]; destruct Hp as (Hi1 & _ & Hcap & Hp); [| |done].
  - intros [= <- <-]. destruct Hp as (x & resp & s2 & Ew & Hsz & _ & _ & _ & Hw).
    split; [done|]. split; [done|]. rewrite Hw, map_size_fmap. split.
    { cbn. rewrite map_size_insert_Some; [done|by rewrite Ew]. }
    intros i x' Hx. rewrite lookup_fmap in Hx.
    destruct (watches (with_request s w x req) !! i) as [y|] eqn:Ey; [|done].
    cbn in Hx. injection Hx as <-. cbn in Ey.
    apply lookup_insert_Some in Ey as [[<- <-]|[Hne Ey]].
    + exists x. split; [done|]. split; [intros Hl; by apply (deliver_ok resp (set_names x _))|].
      split; [done|]. intros _. left.
      assert (Hd : (size (w_names (deliver resp (set_names x (updated_names x req)))) <= size (updated_names x req))%nat).
      { apply subseteq_size. intros n Hn. apply deliver_names in Hn. done. }
      split_and!; auto. intros _. lia.
    + exists y. split; [done|]. split; [intros Hl; by apply deliver_ok|].
      split; [|done]. intros _. apply subseteq_size. intros n. apply deliver_names.
  - intros [= <- <-]. split; [by eapply cache_inv_ext|]. split; [done|]. rewrite fail_watch_size.
    destruct Hp as [(-> & Hw & ->)|(x & Ew & Hw)].
    + split; [done|]. intros i x' Hx. apply fail_watch_lookup in Hx as (y & Hy & Hn & Hu).
      exists y. rewrite Hn, Hu. split_and!; auto.
    + rewrite Hw. split; [cbn; rewrite map_size_insert_Some; [done|by rewrite Ew]|].
      intros i x' Hx. apply fail_watch_lookup in Hx as (y & Hy & Hn & Hu).
      rewrite Hw in Hy. cbn in Hy. apply lookup_insert_Some in Hy as [[<- <-]|[Hne Hy]].
      * exists x. rewrite Hn, Hu. cbn. split; [done|]. split; [done|]. split; [done|].
        intros _. left. split; [done|]. by split.
      * exists y. rewrite Hn, Hu. split; [done|]. split; [done|]. split; [done|]. by intros ->.
Qed.

Lemma world_inv_step cap W W' : 1 <= cap -> sds_step W W' -> world_inv cap W -> world_inv cap W'.
Proof.
  intros Hcap Hstep [Hc Hi Hn Hw Hid].
  assert (Hsub : forall w x (W' : world), (w ∈ live W' -> w ∈ live W) -> watch_ok W w x -> watch_ok W' w x).
  { intros w x W1 Hl [? ? Hwl]. constructor; auto. }
  destruct Hstep as [W Ho|W Ho|W w req now go s' Hlive Hr|W w Hlive|W w x r rest Hx Hu|W w].
  - assert (Hnew : watches (srv W) !! next_id W = None).
    { apply eq_None_not_Some. intros Hs. specialize (Hid (next_id W) (or_intror Hs)). lia. }
    constructor; cbn; auto.
    + by eapply cache_inv_ext.
    + unfold may_open in Ho. bool_hyps. rewrite map_size_insert_None by done. lia.
    + intros w x [[<- <-]|[Hne Hx]]%lookup_insert_Some.
      * constructor; [cbn; lia|by vm_compute|intros _; by vm_compute].
      * apply (Hsub w x); [cbn; set_solver|auto].
    + intros w Hl. destruct (decide (w = next_id W)) as [->|Hne]; [lia|].
      rewrite lookup_insert_ne in Hl by done. assert (w < next_id W)%nat by (apply Hid; set_solver). lia.
  - by constructor.
  - destruct (receive_watches _ _ _ _ _ _ Hi Hr) as (Hi' & Hc' & Hs' & Hall).
    constructor; cbn; auto; [congruence|lia| |].
    + intros i x' Hx'. destruct (Hall i x' Hx') as (x & Hx & Hq & Hne & Heq).
      destruct (Hw i x Hx) as [Q1 Q2 Q3]. unfold maxRequestNames in *.
      destruct (decide (i = w)) as [->|Hiw].
      * destruct (Heq eq_refl) as [(Hcr & Hsz & Hgo)|[Hnm ->]].
        -- pose proof (updated_names_size x req Hcr (Q3 Hlive)) as Hup. unfold maxRequestNames in *.
           constructor; auto; cbn; unfold maxRequestNames; [lia|]. destruct go; [auto|set_solver].
        -- constructor; auto; cbn; unfold maxRequestNames; rewrite Hnm; [done|]. set_solver.
      * specialize (Hne Hiw). constructor; auto; cbn; unfold maxRequestNames; [lia|].
        intros Hl. assert (i ∈ live W) as Hl' by (destruct go; set_solver). specialize (Q3 Hl'). lia.
    + intros i Hl. apply Hid. destruct Hl as [Hl|[x' Hx']].
      * left. destruct go; set_solver.
      * right. destruct (Hall i x' Hx') as (x & Hx & _). eauto.
  - constructor; cbn; auto.
    + by eapply cache_inv_ext.
    + change (Z.of_nat (size (watches (fail_watch (srv W) w StreamError))) <= 2 * cap). by rewrite fail_watch_size.
    + intros i x Hx. apply fail_watch_lookup in Hx as (y & Hy & Hnm & Hup).
      destruct (Hw i y Hy) as [Q1 Q2 Q3]. constructor; cbn; rewrite ?Hnm, ?Hup; auto. set_solver.
    + intros i [Hl|[x Hx]]; [apply Hid; left; set_solver|].
      apply fail_watch_lookup in Hx as (y & Hy & _). apply Hid. eauto.
  - constructor; cbn; auto.
    + by eapply cache_inv_ext.
    + rewrite map_size_insert_Some by (rewrite Hx; eauto). done.
    + intros i x' [[<- <-]|[Hne Hx']]%lookup_insert_Some; [|by apply (Hsub i x'); auto].
      destruct (Hw w x Hx) as [Q1 Q2 Q3]. rewrite Hu in Q1. constructor; cbn in *; auto. lia.
    + intros i Hl. apply Hid. rewrite lookup_insert_is_Some in Hl.
      destruct Hl as [?|[->|[_ ?]]]; eauto.
  - constructor; cbn; auto.
    + by eapply cache_inv_ext.
    + rewrite map_size_delete. destruct (watches (srv W) !! w); cbn; lia.
    + intros i x [Hne Hx]%lookup_delete_Some. apply (Hsub i x); auto.
    + intros i [Hl|[x [Hne Hx]%lookup_delete_Some]]; apply Hid; eauto.
Qed.
End Streams.


(** ** Instances for the witnesses *)
#[export] Instance demo_codec : SecretCodec := {| AnyMsg := Secret; anypb_New x := Some x |}.
Definition demo_server (cap : Z) : SecretServer :=
  {| authority := demo_authority; capacity := cap; watches := ∅; entries := ∅; elems := ∅;
     next_elem := 0; lru := []; version := 0; nonce := 0; entropy := (0%nat : Entropy) |}.
Definition demo_req (sub unsub : list string) : DeltaDiscoveryRequest :=
  {| ErrorDetail := false; TypeUrl := secretType; ResourceNamesSubscribe := sub;
     ResourceNamesUnsubscribe := unsub; InitialResourceVersions := ∅ |}.
Definition no_addr (_ : string) : bool := false.
Definition demo_update (s : SecretServer) (names : list string) :=
  updateLocked demo_unicode no_addr s (demo_req names []) 0.
(** A full cache of two entries: [y], then [x] behind it. *)
Definition demo_full : SecretServer := (demo_update (demo_update (demo_server 2) ["x"]).2 ["y"]).2.

Lemma empty_cache_inv `{Signer} `{SecretCodec} (s : SecretServer) :
  1 <= capacity s -> lru s = [] -> entries s = ∅ -> cache_inv s.
Proof.
  intros Hc Hl He. constructor; rewrite ?Hl, ?He; cbn; auto; try lia.
  - constructor.
  - intros e Hx. by apply not_elem_of_nil in Hx.
  - intros n e Hx. by rewrite lookup_empty in Hx.
  - intros e Hx. by apply not_elem_of_nil in Hx.
Qed.
Lemma demo_server_inv cap : 1 <= cap -> cache_inv (demo_server cap).
Proof. intros Hc. by apply empty_cache_inv. Qed.

(** The invariant holds initially, hence in every reachable state. *)
Lemma new_server_inv `{Signer} `{SecretCodec} a cap e (s : SecretServer) :
  NewSecretServer (Some a) cap e = Some s -> 1 <= cap /\ world_inv cap (sds_init s).
Proof.
  unfold NewSecretServer. destruct (_ || _) eqn:Ec; [done|]. intros [= <-]. bool_hyps.
  split; [lia|]. constructor; cbn; auto.
  - apply empty_cache_inv; cbn; auto; lia.
  - change (0 <= 2 * cap). lia.
  - intros w x Hx. by rewrite lookup_empty in Hx.
  - intros w [Hx|[x Hx]]; [set_solver|by rewrite lookup_empty in Hx].
Qed.
Lemma reachable_inv `{Signer} `{SecretCodec} ul pa a cap e (s : SecretServer) W :
  NewSecretServer (Some a) cap e = Some s -> sds_reachable ul pa s W -> world_inv cap W.
Proof.
  intros [Hcap Hw]%new_server_inv Hr. revert Hw.
  induction Hr as [|W1 W2 W3 Hs1 _ IH]; [done|]. intros Hw. apply IH. by eapply world_inv_step.
Qed.
Lemma demo_full_inv : cache_inv demo_full.
Proof.
  unfold demo_full, demo_update.
  pose proof (updateLocked_spec demo_unicode no_addr (demo_server 2) (demo_req ["x"] []) 0 (demo_server_inv 2 ltac:(lia))) as H1.
  destruct (updateLocked _ _ (demo_server 2) _ 0) as [r1 s1]. destruct H1 as (H1 & _). cbn [snd].
  pose proof (updateLocked_spec demo_unicode no_addr s1 (demo_req ["y"] []) 0 H1) as H2.
  destruct (updateLocked _ _ s1 _ 0) as [r2 s2]. apply H2.
Qed.

(** One stream that asked for three names of a cache of two. *)
Definition demo_open : world :=
  {| srv := set_watches (demo_server 2) (<[0%nat := empty_watch]> ∅); live := {[0%nat]} ∪ ∅; next_id := 1 |}.
Definition demo_request : DeltaDiscoveryRequest := demo_req ["b.example"; "a.example"; "c.example"] [].
Definition demo_world : world :=
  {| srv := (receive demo_unicode no_addr (srv demo_open) 0 demo_request 0).2;
     live := live demo_open; next_id := 1 |}.
Lemma pair_fst_eq {A B} (p : A * B) (a : A) : p.1 = a -> p = (a, p.2).
Proof. destruct p. cbn. by intros ->. Qed.
Lemma demo_world_reachable : sds_reachable demo_unicode no_addr (demo_server 2) demo_world.
Proof.
  apply (rtc_l _ _ demo_open).
  - apply (step_open _ _ (sds_init (demo_server 2))). vm_compute. reflexivity.
  - apply rtc_once. unfold demo_world.
    refine (step_receive _ _ demo_open 0%nat demo_request 0 true _ _ _); [set_solver|].
    apply pair_fst_eq. vm_compute. reflexivity.
Qed.

(** ** Properties *)

(** C7: for every server the constructor accepts and every reachable stream state:
    the certificate cache stays within its capacity with its map, its element
    heap and its LRU list in one-to-one agreement; at most twice the capacity of
    watches are registered; no update channel exceeds four messages; a running
    receiver's watch has at most 128 names, and one whose receiver failed, which
    keeps the names it was refused for, at most 256. *)
Theorem sds_stream_invariant `{Signer} `{SecretCodec} ul pa a cap e s W :
  NewSecretServer (Some a) cap e = Some s -> sds_reachable ul pa s W -> world_inv cap W.
Proof. apply reachable_inv. Qed.

Lemma sds_stream_invariant_witness :
  sds_reachable demo_unicode no_addr (demo_server 2) demo_world /\ length (lru (srv demo_world)) = 2%nat /\
  world_inv 2 demo_world.
Proof.
  split; [exact demo_world_reachable|]. split; [vm_compute; reflexivity|].
  apply (sds_stream_invariant demo_unicode no_addr demo_authority 2 0%nat (demo_server 2)).
  - reflexivity.
  - exact demo_world_reachable.
Defined.

(** C14: in every reachable stream state, handling any message returns: no nil
    element, empty-list eviction or failed type assertion is ever hit. *)
Theorem sds_no_panic `{Signer} `{SecretCodec} ul pa a cap e s W w req now :
  NewSecretServer (Some a) cap e = Some s -> sds_reachable ul pa s W ->
  exists go s', receive ul pa (srv W) w req now = (Ok go, s').
Proof.
  intros Hs Hr. assert (Hi := wi_cache _ _ (reachable_inv _ _ _ _ _ _ _ Hs Hr)).
  unfold receive. destruct (check_request req); [eauto|].
  pose proof (process_spec ul pa (srv W) w req now Hi) as Hp.
  destruct (process ul pa (srv W) w req now) as [[r|er|] s']; [eauto..|]. by destruct Hp as (_ & _ & _ & []).
Qed.

Lemma sds_no_panic_witness :
  exists go s', receive demo_unicode no_addr (demo_server 1) 0 (demo_req ["a"; "b"] []) 0 = (Ok go, s').
Proof.
  apply (sds_no_panic demo_unicode no_addr demo_authority 1 0%nat (demo_server 1) (sds_init (demo_server 1))).
  - reflexivity.
  - apply rtc_refl.
Defined.



(** C8: the pointer-based cache refines a textbook LRU list: serving a valid name
    moves a live entry to the front, and otherwise puts a freshly issued entry in
    front, dropping the least recently used one when the cache is full. *)
Theorem lru_refinement `{Signer} `{SecretCodec} ul pa now s acc x canonical acc' s' :
  cache_inv s -> canonicalName ul pa x = Ok canonical ->
  serve_name ul pa now s acc x = (Ok acc', s') ->
  exists c, (cached s x c /\ now < cs_expires c \/ fresh_entry now s x canonical c) /\
    abs s' = lru_request now (capacity s) x c (abs s).
Proof. apply serve_name_abs. Qed.

Lemma lru_refinement_witness :
  exists acc' s', serve_name demo_unicode no_addr 0 demo_full (∅, ∅) "z" = (Ok acc', s') /\
    exists c, (cached demo_full "z" c /\ 0 < cs_expires c \/ fresh_entry 0 demo_full "z" "z" c) /\
    abs s' = lru_request 0 2 "z" c (abs demo_full).
Proof.
  eexists _, _. split; [vm_compute; reflexivity|].
  eapply (lru_refinement demo_unicode no_addr 0 demo_full (∅, ∅) "z" "z").
  - exact demo_full_inv.
  - vm_compute. reflexivity.
  - vm_compute. reflexivity.
Defined.




(** A response to a single requested name never both sends and removes it. *)
Theorem single_response_disjoint `{Signer} `{SecretCodec} ul pa s req now x resp s' :
  cache_inv s -> sorted_keys (requested_names req) = [x] -> updateLocked ul pa s req now = (Ok resp, s') ->
  forall r, r ∈ resp_Resources resp -> res_Name r ∉ resp_RemovedResources resp.
Proof. apply single_disjoint. Qed.

Lemma single_response_disjoint_witness :
  exists resp s', updateLocked demo_unicode no_addr demo_full (demo_req ["z"] []) 0 = (Ok resp, s') /\
    forall r, r ∈ resp_Resources resp -> res_Name r ∉ resp_RemovedResources resp.
Proof.
  eexists _, _. split; [vm_compute; reflexivity|].
  eapply (single_response_disjoint demo_unicode no_addr demo_full (demo_req ["z"] []) 0 "z").
  - exact demo_full_inv.
  - vm_compute. reflexivity.
  - vm_compute. reflexivity.
Defined.


