(* ===== verification/Guard.v ===== *)
(** [internal/request/guard.lua]: the Envoy-side request guard, which runs before
    [ext_authz] (filter [gateway.request]) and again after it
    ([gateway.dispatch]).  The Envoy request is a record: the header map as
    [headers:get] reports it, the dynamic metadata, the downstream TLS facts and
    the local response, if one was sent. *)
From stdpp Require Import pretty.
From S2P Require Import Prelude GoStrings Config Leaf.

(** [downstreamSslConnection]: absent, or whether a peer certificate was presented. *)
Record handle := {
  headers : gmap string string;
  dynamicMetadata : gmap string (gmap string string);
  downstreamSslConnection : option bool;
  requestedServerName : string;
  response : option (string * string);
}.

Definition set_header (h : handle) (k v : string) : handle :=
  {| headers := <[k := v]> (headers h); dynamicMetadata := dynamicMetadata h;
     downstreamSslConnection := downstreamSslConnection h;
     requestedServerName := requestedServerName h; response := response h |}.
Definition set_metadata (h : handle) (f k v : string) : handle :=
  {| headers := headers h;
     dynamicMetadata := <[f := <[k := v]> (default ∅ (dynamicMetadata h !! f))]> (dynamicMetadata h);
     downstreamSslConnection := downstreamSslConnection h;
     requestedServerName := requestedServerName h; response := response h |}.
Definition respond (h : handle) (status body : string) : handle :=
  {| headers := headers h; dynamicMetadata := dynamicMetadata h;
     downstreamSslConnection := downstreamSslConnection h;
     requestedServerName := requestedServerName h; response := Some (status, body) |}.
Definition reject (h : handle) (message : string) : handle := respond h "400" message.

(** [string.lower] of the C locale. *)
Definition lua_lower (s : string) : string := smap lower_ascii s.
Definition host_byte (c : ascii) : bool :=
  is_lower c || is_digit c || Ascii.eqb c dot || Ascii.eqb c dash.
Definition all_digits (s : string) : bool := negb (s =s= "") && sforall is_digit s.

(** [value:match("^%d+%.%d+%.%d+%.%d+$")]. *)
Definition dotted_quad (s : string) : bool :=
  match split dot s with
  | [a; b; c; d] => all_digits a && all_digits b && all_digits c && all_digits d
  | _ => false
  end.
(** The body of the loop over [value:gmatch("[^.]+")]: does the label return [nil]? *)
Definition bad_label (l : string) : bool :=
  (63 <? slen l) || bool_decide (first_byte l = Some dash) || bool_decide (last_byte l = Some dash).
Definition labels (s : string) : list string := filter (fun l => l <> EmptyString) (split dot s).

Definition hostname (value : option string) : option string :=
  match value with
  | None => None
  | Some value =>
      if (slen value =? 0) || (253 <? slen value) then None else
      let value := lua_lower value in
      if negb (sforall host_byte value) || bool_decide (last_byte value = Some dot)
         || contains_str value ".." then None else
      if dotted_quad value then None else
      if existsb bad_label (labels value) then None else
      if bool_decide (first_byte value = Some dot) then None else
      Some value
  end.

(** [authority:match("^([^:]+):(%d+)$")]. *)
Definition colon : ascii := ":".
Definition match_port (authority : string) : option (string * string) :=
  match cut colon authority with
  | Some (name, port) => if negb (name =s= "") && all_digits port then Some (name, port) else None
  | None => None
  end.

(** [tostring] of an integer. *)
Definition lua_tostring (p : Z) : string := pretty (Z.to_N p).

Definition target (authority : option string) (scheme : string) : option (string * string) :=
  match authority with
  | None => None
  | Some authority =>
      let (name, port) := match match_port authority with
                          | Some (n, p) => (n, Some p)
                          | None => (authority, None)
                          end in
      match hostname (Some name) with
      | None => None
      | Some name =>
          match port with
          | Some port =>
              match digits1 port with
              | None => None
              | Some port => if (port <? 1) || (65535 <? port) then None else Some (name, lua_tostring port)
              end
          | None => Some (name, lua_tostring (if scheme =s= "https" then 443 else 80))
          end
      end
  end.

Definition request_key : string := "gateway.request".
Definition get (h : handle) (k : string) : option string := headers h !! k.

(** The rest of the guard, once encoding, TLS and peer are accepted. *)
Definition check_target (role scheme : string) (h : handle) : result Empty_set handle :=
  match target (get h ":authority") scheme with
  | None => Ok (reject h "invalid target authority")
  | Some (name, port) =>
      if (role =s= Workload) && (scheme =s= "https")
         && negb (bool_decide (hostname (Some (requestedServerName h)) = Some name))
      then Ok (reject h "target authority conflicts with TLS server name") else
      let unsupported := Ok (reject h "unsupported request target") in
      match get h ":path" with
      | None => unsupported
      | Some path =>
          if bool_decide (get h ":method" = Some "CONNECT")
             || negb (bool_decide (first_byte path = Some ("/"%char)))
          then unsupported else
          let h := set_header h ":authority" (name +:+ ":" +:+ port) in
          let h := set_header h ":scheme" scheme in
          let h := set_header h "x-forwarded-proto" scheme in
          let h := set_metadata h request_key "authority" (name +:+ ":" +:+ port) in
          let h := set_metadata h request_key "scheme" scheme in
          Ok (set_metadata h request_key "path" path)
      end
  end.

(** [envoy_on_request]; [Panic] is a Lua error (a method called on [nil]). *)
Definition envoy_on_request (role scheme : string) (h : handle) : result Empty_set handle :=
  match dynamicMetadata h !! request_key with
  | Some authorized =>
      if negb (bool_decide (get h ":authority" = authorized !! "authority"))
         || negb (bool_decide (get h ":path" = authorized !! "path"))
         || negb (bool_decide (get h ":scheme" = authorized !! "scheme"))
      then Ok (respond h "403" "authorization changed request target")
      else Ok h
  | None =>
      if match get h "content-encoding" with
         | Some e => negb (e =s= "") && negb (lua_lower e =s= "identity")
         | None => false
         end
      then Ok (respond h "415" "unsupported content encoding") else
      let tls := downstreamSslConnection h in
      if ((scheme =s= "https") || (role =s= Egress)) && bool_decide (tls = None)
      then Ok (reject h "TLS required") else
      presented ← (if role =s= Egress then match tls with Some b => Ok b | None => Panic end else Ok true);
      if negb presented then Ok (respond h "403" "verified workload identity required") else
      check_target role scheme h
  end.

(** ** Decimal numbers *)
Lemma pretty_char_digit x : (x < 10)%N ->
  is_digit (pretty_N_char x) = true /\ ord (pretty_N_char x) - 48 = Z.of_N x.
Proof.
  intros H. assert (x = 0 \/ x = 1 \/ x = 2 \/ x = 3 \/ x = 4 \/ x = 5 \/ x = 6 \/ x = 7 \/ x = 8 \/ x = 9)%N
    as Hx by lia.
  repeat destruct Hx as [->|Hx]; [vm_compute; by split..|]. subst. vm_compute. by split.
Qed.

Lemma digits_pretty_go x : forall s, digits (pretty_N_go x s) 0 = digits s (Z.of_N x) /\
  sforall is_digit (pretty_N_go x s) = sforall is_digit s.
Proof.
  induction x as [x IH] using (well_founded_induction N.lt_wf_0). intros s.
  destruct (decide (x = 0)%N) as [->|Hx]; [by rewrite pretty_N_go_0|].
  rewrite pretty_N_go_step by lia.
  destruct (IH (x / 10)%N ltac:(apply N.div_lt; lia) (String (pretty_N_char (x mod 10)) s)) as [H1 H2].
  destruct (pretty_char_digit (x mod 10)) as [Hd Ho]; [apply N.mod_lt; lia|].
  rewrite H1, H2. cbn [digits sforall]. rewrite Hd, Ho. split; [|done]. f_equal.
  rewrite N2Z.inj_div, N2Z.inj_mod. pose proof (Z.div_mod (Z.of_N x) 10). lia.
Qed.

Lemma tostring_digits p : 0 <= p -> digits1 (lua_tostring p) = Some p /\ all_digits (lua_tostring p) = true.
Proof.
  intros Hp. unfold lua_tostring, pretty, pretty_N, all_digits.
  destruct (decide (Z.to_N p = 0%N)) as [E|E].
  - replace p with 0 by lia. done.
  - destruct (digits_pretty_go (Z.to_N p) "") as [H1 H2].
    change (digits "" (Z.of_N (Z.to_N p))) with (Some (Z.of_N (Z.to_N p))) in H1.
    change (sforall is_digit "") with true in H2.
    assert (Hne : pretty_N_go (Z.to_N p) "" <> EmptyString).
    { intros E'. rewrite E' in H1. change (Some 0 = Some (Z.of_N (Z.to_N p))) in H1. injection H1. lia. }
    rewrite H2. unfold digits1. destruct (pretty_N_go _ _); [done|]. rewrite H1. split; [f_equal; lia|done].
Qed.

(** ** Host names *)
Lemma split_tail_nonempty s :
  Forall (fun l => l <> EmptyString) (tail (split dot s)) <->
  last_byte s <> Some dot /\ contains_str s ".." = false.
Proof.
  induction s as [|c s IH]; [by cbn|]. cbn [split contains_str].
  destruct (split dot s) as [|h t] eqn:Es; [by destruct (split_nonempty dot s)|]. cbn [tail] in *.
  assert (Hh : h = EmptyString <-> s = EmptyString \/ first_byte s = Some dot).
  { destruct s as [|d s']; cbn in Es |- *; [naive_solver|].
    destruct (Ascii.eqb d dot) eqn:Ed.
    - apply Ascii.eqb_eq in Ed as ->. injection Es as <- _. naive_solver.
    - destruct (split dot s'); injection Es as <- _; apply Ascii.eqb_neq in Ed; naive_solver. }
  unfold has_prefix, cut_prefix. change "."%char with dot.
  rewrite (Ascii.eqb_sym dot c). destruct (Ascii.eqb c dot) eqn:Ec; cbn [orb tail].
  - apply Ascii.eqb_eq in Ec as ->. rewrite Forall_cons, IH, Hh.
    destruct s as [|d s']; cbn [first_byte last_byte]; [naive_solver|].
    rewrite (Ascii.eqb_sym dot d). destruct (Ascii.eqb d dot) eqn:Ed; cbn [orb].
    + apply Ascii.eqb_eq in Ed as ->. naive_solver.
    + apply Ascii.eqb_neq in Ed. naive_solver.
  - rewrite IH. apply Ascii.eqb_neq in Ec. destruct s; cbn [last_byte]; naive_solver.
Qed.

Lemma split_head_nonempty s h t : split dot s = h :: t ->
  h <> EmptyString <-> s <> EmptyString /\ first_byte s <> Some dot.
Proof.
  destruct s as [|d s']; cbn; [naive_solver|]. destruct (Ascii.eqb d dot) eqn:Ed.
  - apply Ascii.eqb_eq in Ed as ->. naive_solver.
  - apply Ascii.eqb_neq in Ed. destruct (split dot s'); naive_solver.
Qed.

Lemma host_bytes_labels s : sforall host_byte s = forallb (sforall ldh) (split dot s).
Proof.
  induction s as [|c s IH]; [done|]. cbn [sforall split].
  assert (Hc : host_byte c = ldh c || Ascii.eqb c dot).
  { unfold host_byte, ldh. by destruct (is_lower c), (is_digit c), (Ascii.eqb c dot), (Ascii.eqb c dash). }
  rewrite IH, Hc. destruct (Ascii.eqb c dot); cbn; [by rewrite orb_true_r|]. rewrite orb_false_r.
  destruct (split dot s) as [|h t] eqn:Es; [by destruct (split_nonempty dot s)|]. cbn. by rewrite andb_assoc.
Qed.

Lemma valid_labels_spec s : s <> EmptyString ->
  Forall valid_label (split dot s) <->
  sforall host_byte s = true /\ last_byte s <> Some dot /\ contains_str s ".." = false /\
  existsb bad_label (labels s) = false /\ first_byte s <> Some dot.
Proof.
  intros Hs. rewrite host_bytes_labels.
  assert (Hne : Forall (fun l => l <> EmptyString) (split dot s) <->
    first_byte s <> Some dot /\ last_byte s <> Some dot /\ contains_str s ".." = false).
  { rewrite <- split_tail_nonempty. destruct (split dot s) as [|h t] eqn:Es; [by destruct (split_nonempty dot s)|].
    rewrite Forall_cons, (split_head_nonempty s h t Es). cbn. tauto. }
  assert (Hbad : existsb bad_label (labels s) = false <->
    Forall (fun l => l <> EmptyString -> bad_label l = false) (split dot s)).
  { unfold labels. generalize (split dot s). intros ls. induction ls as [|l ls IH]; cbn [existsb]; [by rewrite Forall_nil|].
    rewrite Forall_cons, filter_cons. destruct (decide (l <> EmptyString)); cbn [existsb];
      rewrite ?orb_false_iff, IH; naive_solver. }
  rewrite Hbad, forallb_forall, <- List.Forall_forall.
  assert (Hv : forall l, valid_label l <-> sforall ldh l = true /\ l <> EmptyString /\ (l <> EmptyString -> bad_label l = false)).
  { intros l. unfold valid_label, bad_label. rewrite !orb_false_iff, Z.ltb_ge, !bool_decide_eq_false.
    split.
    - intros ((? & ?) & ? & ? & ?). split_and!; try done. by intros ->.
    - intros (? & Hl & H). destruct (H Hl) as ((? & ?) & ?). pose proof (slen_pos l Hl). split_and!; auto. }
  assert (Hf : Forall valid_label (split dot s) <->
    Forall (fun l => sforall ldh l = true) (split dot s) /\ Forall (fun l => l <> EmptyString) (split dot s) /\
    Forall (fun l => l <> EmptyString -> bad_label l = false) (split dot s)).
  { rewrite <- !Forall_and. split; intros H; (eapply Forall_impl; [exact H|]); intros l; apply Hv. }
  rewrite Hf, Hne. tauto.
Qed.

(** [hostname] accepts exactly the valid host names that are not dotted quads,
    in any letter case, and lowers them. *)
Lemma hostname_spec v n :
  hostname (Some v) = Some n <-> n = lua_lower v /\ valid_host n /\ dotted_quad n = false.
Proof.
  unfold hostname, valid_host.
  assert (Hl : slen (lua_lower v) = slen v) by (unfold slen, lua_lower; by rewrite smap_length).
  destruct (_ || (253 <? _)) eqn:E1.
  { split; [done|]. intros (-> & (Hlen & _) & _). apply orb_true_iff in E1. lia. }
  bool_hyps. set (m := lua_lower v) in *.
  assert (Hm : m <> EmptyString). { intros E. rewrite E in Hl. change (slen "") with 0 in Hl. lia. }
  pose proof (valid_labels_spec m Hm) as Hvl.
  destruct (negb _ || _ || _) eqn:E2.
  { split; [done|]. intros (-> & (_ & Hv) & _). apply Hvl in Hv as (H1 & H2 & H3 & _).
    rewrite H1, H3, bool_decide_eq_false_2 in E2 by done. done. }
  rewrite !orb_false_iff, negb_false_iff, bool_decide_eq_false in E2. destruct E2 as ((H1 & H2) & H3).
  destruct (dotted_quad m) eqn:E3; [split; [done|]; intros (-> & _ & Hq); congruence|].
  destruct (existsb _ _) eqn:E4.
  { split; [done|]. intros (-> & (_ & Hv) & _). apply Hvl in Hv as (_ & _ & _ & Hb & _). congruence. }
  case_bool_decide as E5.
  { split; [done|]. intros (-> & (_ & Hv) & _). by apply Hvl in Hv as (_ & _ & _ & _ & Hb). }
  split; [|by intros (-> & _)]. intros [= <-]. split; [done|]. split; [|done]. pose proof (slen_pos m Hm); split; [lia|]. by apply Hvl.
Qed.

Lemma hostname_lower v : hostname (Some (lua_lower v)) = hostname (Some v).
Proof.
  assert (Hi : lua_lower (lua_lower v) = lua_lower v) by (apply smap_idem, lower_ascii_idem).
  destruct (hostname (Some v)) as [n|] eqn:E.
  - apply hostname_spec in E as (-> & ?). apply hostname_spec. by rewrite Hi.
  - destruct (hostname (Some (lua_lower v))) as [n|] eqn:E'; [|done].
    apply hostname_spec in E' as (-> & ?). rewrite Hi in *.
    assert (Hs : hostname (Some v) = Some (lua_lower v)) by by apply hostname_spec. congruence.
Qed.

(** ** Targets *)
Lemma cut_app sep a b : contains_byte sep a = false -> cut sep (a +:+ String sep b) = Some (a, b).
Proof.
  induction a as [|c a IH]; cbn [String.append contains_byte cut].
  - intros _. by rewrite Ascii.eqb_refl.
  - rewrite Ascii.eqb_sym, orb_false_iff. intros [-> Ha]. by rewrite IH.
Qed.

Lemma contains_sforall c s (p : ascii -> bool) :
  p c = false -> sforall p s = true -> contains_byte c s = false.
Proof.
  intros Hc. induction s as [|d s IH]; cbn; [done|]. intros H. bool_hyps.
  rewrite IH by done. destruct (Ascii.eqb c d) eqn:E; [|done]. apply Ascii.eqb_eq in E. congruence.
Qed.

Lemma valid_host_bytes n : valid_host n -> sforall host_byte n = true.
Proof.
  intros [Hl Hv]. apply valid_labels_spec in Hv as [H _]; [done|]. intros ->. vm_compute in Hl. tauto.
Qed.

Lemma lua_lower_id n : valid_host n -> lua_lower n = n.
Proof. apply valid_host_lower. Qed.

(** The canonical form of a target. *)
Definition canonical_target (name port : string) : Prop :=
  valid_host name /\ dotted_quad name = false /\ exists p, 1 <= p <= 65535 /\ port = lua_tostring p.
Definition authority_of (name port : string) : string := name +:+ ":" +:+ port.

Lemma target_sound a scheme name port :
  target (Some a) scheme = Some (name, port) -> canonical_target name port.
Proof.
  unfold target, canonical_target. destruct (match match_port a with Some _ => _ | None => _ end) as [n o].
  destruct (hostname (Some n)) as [m|] eqn:Eh; [|done]. apply hostname_spec in Eh as (-> & Hv & Hq).
  destruct o as [p|].
  - destruct (digits1 p) as [z|]; [|done]. destruct (_ || _) eqn:Ez; [done|]. bool_hyps.
    intros [= <- <-]. split_and!; auto. exists z. split; [lia|done].
  - intros [= <- <-]. split_and!; auto. eexists. split; [|done]. destruct (scheme =s= "https"); lia.
Qed.

Lemma target_fixed name port scheme :
  canonical_target name port -> target (Some (authority_of name port)) scheme = Some (name, port).
Proof.
  intros (Hv & Hq & p & Hp & ->). destruct (tostring_digits p) as [Hd Ha]; [lia|].
  unfold target, match_port, authority_of. change (":" +:+ lua_tostring p) with (String colon (lua_tostring p)).
  rewrite cut_app by (apply (contains_sforall colon name host_byte); [done|by apply valid_host_bytes]).
  assert (Hne : (name =s= "") = false).
  { apply String.eqb_neq. intros ->. destruct Hv as [Hl _]. vm_compute in Hl. tauto. }
  rewrite Hne, Ha. cbn [negb andb].
  assert (Hh : hostname (Some name) = Some name) by (apply hostname_spec; by rewrite lua_lower_id).
  rewrite Hh, Hd. replace (p <? 1) with false by lia. by replace (65535 <? p) with false by lia.
Qed.

(** ** What the first pass admits, and what it forwards *)
Record admitted (role scheme : string) (h : handle) (name port path : string) : Prop := {
  ad_encoding : forall e, get h "content-encoding" = Some e -> e = "" \/ lua_lower e = "identity";
  ad_tls : scheme = "https" \/ role = Egress -> downstreamSslConnection h <> None;
  ad_peer : role = Egress -> downstreamSslConnection h = Some true;
  ad_target : target (get h ":authority") scheme = Some (name, port);
  ad_sni : role = Workload -> scheme = "https" -> hostname (Some (requestedServerName h)) = Some name;
  ad_method : get h ":method" <> Some "CONNECT";
  ad_path : get h ":path" = Some path /\ first_byte path = Some ("/"%char);
}.

Definition recorded (scheme name port path : string) : gmap string string :=
  <["path" := path]> (<["scheme" := scheme]> (<["authority" := authority_of name port]> ∅)).

Record forwarded (scheme : string) (h : handle) (name port path : string) (h' : handle) : Prop := {
  fw_authority : get h' ":authority" = Some (authority_of name port);
  fw_scheme : get h' ":scheme" = Some scheme;
  fw_proto : get h' "x-forwarded-proto" = Some scheme;
  fw_path : get h' ":path" = Some path;
  fw_others : forall k, k <> ":authority" -> k <> ":scheme" -> k <> "x-forwarded-proto" -> get h' k = get h k;
  fw_recorded : dynamicMetadata h' !! request_key = Some (recorded scheme name port path);
  fw_metadata : forall k, k <> request_key -> dynamicMetadata h' !! k = dynamicMetadata h !! k;
  fw_connection : downstreamSslConnection h' = downstreamSslConnection h /\
    requestedServerName h' = requestedServerName h /\ response h' = response h;
}.
Definition refused (role scheme : string) (h h' : handle) : Prop :=
  (exists status message, In status ["400"; "403"; "415"] /\ h' = respond h status message) /\
  forall name port path, ~ admitted role scheme h name port path.

Ltac refuse :=
  right; split; [eexists _, _; split; [|reflexivity]; cbn; tauto|];
  intros ? ? ? [Henc Htls Hpeer Htgt Hsni Hmeth Hpath].

Lemma first_pass_target role scheme h :
  dynamicMetadata h !! request_key = None ->
  match get h "content-encoding" with
  | Some e => negb (e =s= "") && negb (lua_lower e =s= "identity")
  | None => false
  end = false ->
  (scheme = "https" \/ role = Egress -> downstreamSslConnection h <> None) ->
  (role = Egress -> downstreamSslConnection h = Some true) ->
  exists h', check_target role scheme h = Ok h' /\
    ((exists name port path, admitted role scheme h name port path /\ forwarded scheme h name port path h') \/
     refused role scheme h h').
Proof.
  intros Hm Hce Htls1 Hpeer1. unfold check_target.
  destruct (target _ scheme) as [[name port]|] eqn:Et.
  2: { eexists. split; [done|]. refuse. congruence. }
  destruct (_ && negb (bool_decide (hostname _ = _))) eqn:Es.
  { eexists. split; [done|]. refuse. apply andb_true_iff in Es as [Es Eh]. bool_hyps. subst.
    apply bool_decide_eq_false in Eh. rewrite Et in Htgt. injection Htgt as <- <-. auto. }
  destruct (get h ":path") as [path|] eqn:Ep.
  2: { eexists. split; [done|]. refuse. destruct Hpath. congruence. }
  destruct (_ || negb (bool_decide (first_byte _ = _))) eqn:Em.
  { eexists. split; [done|]. refuse. destruct Hpath as [Hp Hs]. rewrite Ep in Hp. injection Hp as <-.
    apply orb_true_iff in Em as [Em|Em]; [by apply bool_decide_eq_true in Em|].
    by apply negb_true_iff, bool_decide_eq_false in Em. }
  apply orb_false_iff in Em as [Em%bool_decide_eq_false Es'%negb_false_iff%bool_decide_eq_true].
  eexists. split; [reflexivity|]. left. exists name, port, path. split; constructor; auto.
  - intros e He. rewrite He in Hce. apply andb_false_iff in Hce as [Hce|Hce]; bool_hyps; auto.
  - intros -> ->. cbn in Es. by apply negb_false_iff, bool_decide_eq_true in Es.
  - unfold get. cbn. by simplify_map_eq.
  - unfold get. cbn. by simplify_map_eq.
  - unfold get. cbn. by simplify_map_eq.
  - unfold get in *. cbn. by simplify_map_eq.
  - intros k H1 H2 H3. unfold get. cbn. by simplify_map_eq.
  - cbn. rewrite !lookup_insert_eq. cbn. by rewrite Hm.
  - intros k Hk. cbn. by simplify_map_eq.
Qed.

Lemma first_pass role scheme h : dynamicMetadata h !! request_key = None ->
  exists h', envoy_on_request role scheme h = Ok h' /\
    ((exists name port path, admitted role scheme h name port path /\ forwarded scheme h name port path h') \/
     refused role scheme h h').
Proof.
  intros Hm. unfold envoy_on_request. rewrite Hm.
  match goal with |- context [if ?b then Ok (respond h "415" _) else _] => destruct b eqn:E1 end.
  { eexists. split; [done|]. refuse. destruct (get h "content-encoding") as [e|]; [|done]. bool_hyps.
    naive_solver. }
  destruct (_ && bool_decide _) eqn:E2.
  { eexists. split; [done|]. refuse. apply andb_true_iff in E2 as [E2 Et%bool_decide_eq_true].
    apply Htls; [|done]. apply orb_true_iff in E2 as [?%String.eqb_eq|?%String.eqb_eq]; auto. }
  destruct (role =s= Egress) eqn:Er; [apply String.eqb_eq in Er|apply String.eqb_neq in Er].
  - destruct (downstreamSslConnection h) as [[|]|] eqn:Et; cbn [mbind result_bind negb].
    + apply first_pass_target; auto. intros _. by rewrite Et.
    + eexists. split; [done|]. refuse. specialize (Hpeer Er). congruence.
    + by rewrite orb_true_r in E2.
  - cbn [mbind result_bind negb]. apply first_pass_target; auto; [|done]. intros [->|?]; [|done].
    intros Et. by rewrite Et in E2.
Qed.

(** The guard's second run: it only compares. *)
Definition unchanged (h1 h2 : handle) : Prop :=
  get h2 ":authority" = get h1 ":authority" /\ get h2 ":path" = get h1 ":path" /\
  get h2 ":scheme" = get h1 ":scheme".

Lemma second_pass role scheme h name port path h1 h2 :
  forwarded scheme h name port path h1 -> dynamicMetadata h2 !! request_key = dynamicMetadata h1 !! request_key ->
  (unchanged h1 h2 /\ envoy_on_request role scheme h2 = Ok h2) \/
  (~ unchanged h1 h2 /\
   envoy_on_request role scheme h2 = Ok (respond h2 "403" "authorization changed request target")).
Proof.
  intros [Ha Hs _ Hp _ Hrec _ _] Hm. unfold envoy_on_request, unchanged.
  rewrite Hm, Hrec, Ha, Hs, Hp. unfold recorded. cbn.
  rewrite lookup_insert_eq, !(lookup_insert_ne (<["scheme":=scheme]> _)), !lookup_insert_ne, !lookup_insert_eq by done.
  repeat case_bool_decide; cbn; tauto.
Qed.

(** A request that the demonstration workload guard admits. *)
Definition demo_handle : handle :=
  {| headers := <[":authority" := "API.Example.com:0443"]> (<[":path" := "/v1"]> (<[":method" := "GET"]>
       (<[":scheme" := "http"]> ∅)));
     dynamicMetadata := ∅; downstreamSslConnection := Some false;
     requestedServerName := "api.example.com"; response := None |}.
Definition demo_forwarded : handle :=
  match envoy_on_request Workload "https" demo_handle with Ok h => h | _ => demo_handle end.
(** An authorization service that rewrites the path. *)
Definition demo_rewritten : handle := set_header demo_forwarded ":path" "/admin".

(** ** Properties *)

(** C17: on a request it has not seen, the guard never fails at run time: either it
    admits the request under exactly the stated conditions (identity encoding,
    TLS where required, a presented peer certificate at egress, a canonical
    target that matches the TLS server name at an HTTPS workload, a
    non-CONNECT absolute path), canonicalises authority and scheme, records the
    target and leaves every other header, metadata entry and connection fact
    alone; or it answers 400, 403 or 415 and changes nothing else. *)
Theorem guard_first_pass role scheme h :
  dynamicMetadata h !! request_key = None ->
  exists h', envoy_on_request role scheme h = Ok h' /\
    ((exists name port path, admitted role scheme h name port path /\ forwarded scheme h name port path h') \/
     refused role scheme h h').
Proof. apply first_pass. Qed.

Lemma guard_first_pass_witness :
  get demo_forwarded ":authority" = Some "api.example.com:443" /\
  exists h', envoy_on_request Workload "https" demo_handle = Ok h' /\
    ((exists name port path, admitted Workload "https" demo_handle name port path /\
        forwarded "https" demo_handle name port path h') \/
     refused Workload "https" demo_handle h').
Proof.
  split; [vm_compute; reflexivity|]. apply (guard_first_pass Workload "https" demo_handle). reflexivity.
Defined.

(** C1: what was authorised is what is forwarded.  After an admitted first pass,
    whatever the filters in between do to the headers (as long as they keep the
    guard's own metadata), the second pass lets the request through exactly when
    authority, path and scheme are the recorded ones, in which case it forwards
    the canonical target of the original request; it never edits headers. *)
Theorem authorized_target_forwarded role scheme h h1 h2 h3 :
  dynamicMetadata h !! request_key = None -> response h = None ->
  envoy_on_request role scheme h = Ok h1 -> response h1 = None ->
  dynamicMetadata h2 !! request_key = dynamicMetadata h1 !! request_key -> response h2 = None ->
  envoy_on_request role scheme h2 = Ok h3 ->
  headers h3 = headers h2 /\
  (response h3 = None <-> unchanged h1 h2) /\
  (response h3 = None -> exists name port path, admitted role scheme h name port path /\
    canonical_target name port /\ get h3 ":authority" = Some (authority_of name port) /\
    get h3 ":path" = Some path /\ get h3 ":scheme" = Some scheme).
Proof.
  intros Hm Hr H1 Hr1 Hm2 Hr2 H3.
  destruct (first_pass role scheme h Hm) as (h' & Hh' & [(name & port & path & Had & Hfw)|[(st & msg & _ & Hres) _]]);
    rewrite H1 in Hh'; injection Hh' as <-; [|by rewrite Hres in Hr1].
  destruct (second_pass role scheme h name port path h1 h2 Hfw Hm2) as [[Hu H]|[Hu H]]; rewrite H in H3;
    injection H3 as <-; [|split; [done|split; [split; [done|tauto]|done]]].
  split; [done|]. split; [tauto|]. intros _. exists name, port, path. destruct Hu as (Ha & Hp & Hs).
  rewrite Ha, Hp, Hs. destruct Hfw as [-> -> _ -> _ _ _ _]. split_and!; try done.
  pose proof (ad_target _ _ _ _ _ _ Had) as Ht. destruct (get h ":authority") as [a|]; [|done].
  by eapply target_sound.
Qed.

Lemma authorized_target_forwarded_witness :
  response demo_forwarded = None /\ exists h3, envoy_on_request Workload "https" demo_rewritten = Ok h3 /\
  response h3 = Some ("403", "authorization changed request target") /\
  headers h3 = headers demo_rewritten /\
  (response h3 = None <-> unchanged demo_forwarded demo_rewritten) /\
  (response h3 = None -> exists name port path, admitted Workload "https" demo_handle name port path /\
    canonical_target name port /\ get h3 ":authority" = Some (authority_of name port) /\
    get h3 ":path" = Some path /\ get h3 ":scheme" = Some "https").
Proof.
  split; [vm_compute; reflexivity|]. eexists. split; [vm_compute; reflexivity|].
  split; [reflexivity|].
  apply (authorized_target_forwarded Workload "https" demo_handle demo_forwarded demo_rewritten).
  all: vm_compute; reflexivity.
Defined.

(** Target canonicalisation is sound and idempotent: an accepted authority
    gives a valid lower-case host that is no dotted quad and a port in 1..65535
    printed without leading zeros, and reading the written [name:port] back gives
    the same target under any scheme. *)
Theorem target_canonicalises a scheme scheme' name port :
  target (Some a) scheme = Some (name, port) ->
  canonical_target name port /\ target (Some (authority_of name port)) scheme' = Some (name, port).
Proof. intros H%target_sound. split; [done|]. by apply target_fixed. Qed.

Lemma target_canonicalises_witness :
  target (Some "Example.COM:00080") "https" = Some ("example.com", "80") /\
  canonical_target "example.com" "80" /\
  target (Some (authority_of "example.com" "80")) "http" = Some ("example.com", "80").
Proof.
  split; [vm_compute; reflexivity|]. apply (target_canonicalises "Example.COM:00080" "https" "http").
  vm_compute. reflexivity.
Defined.

(** C18: the guard and the certificate issuer agree on names: every server name the
    guard's [hostname] accepts is accepted by the SDS server's [canonicalName],
    with the same canonical form.  The hypothesis is [netip.ParseAddr]'s
    documented grammar: without a colon only a dotted quad of digits parses. *)
Theorem guard_name_issuable ul pa v n :
  (forall s, sforall host_byte s = true -> pa s = true -> dotted_quad s = true) ->
  hostname (Some v) = Some n -> canonicalName ul pa v = Ok n.
Proof.
  intros Hpa Hh. apply hostname_spec in Hh as (-> & Hv & Hq). apply canonicalName_ascii.
  - apply valid_host_ascii in Hv. unfold lua_lower in Hv. rewrite sforall_smap in Hv.
    rewrite <- Hv. apply sforall_ext. intros c. by rewrite lower_ascii_ascii.
  - split; [done|]. split; [done|]. apply not_true_iff_false. intros Hp.
    apply Hpa in Hp; [|by apply valid_host_bytes]. congruence.
Qed.

Lemma guard_name_issuable_witness :
  hostname (Some "API.example.com") = Some "api.example.com" /\
  canonicalName demo_unicode dotted_quad "API.example.com" = Ok "api.example.com".
Proof.
  split; [vm_compute; reflexivity|].
  apply (guard_name_issuable demo_unicode dotted_quad "API.example.com" "api.example.com").
  - intros s _ H. exact H.
  - vm_compute. reflexivity.
Defined.
