(* ===== verification/Json.v ===== *)
(** Decoded JSON documents ([any] trees of [encoding/json]: no sharing, unique
    keys), and in-place edits of a document along a path of keys and array
    elements, the shape of the daemon's configuration rewrites.  Nothing here
    models code of the repository by itself. *)
From S2P Require Import Prelude.

#[local] Set Warnings "-register-all".
(** A number keeps its literal ([Decoder.UseNumber]). *)
Inductive json :=
| JNull
| JBool (b : bool)
| JNumber (literal : string)
| JString (s : string)
| JArray (l : list json)
| JObject (m : gmap string json).

(** [m[k]] on a value asserted to a map: a failed assertion is the nil map. *)
Definition fields (j : json) : gmap string json := match j with JObject m => m | _ => ∅ end.
Definition elems_of (j : json) : list json := match j with JArray l => l | _ => [] end.
(** [j["name"] == s]. *)
Definition named (j : json) (s : string) : bool :=
  match fields j !! "name" with Some (JString t) => t =s= s | _ => false end.
Definition object (l : list (string * json)) : json := JObject (list_to_map l).

(** An edit of a value, which may fail and may raise a flag. *)
Definition visit (E : Type) : Type := json -> result E (json * bool).

Section Visits.
Context {E : Type}.
Implicit Types f : visit E.

Fixpoint visit_list f (l : list json) : result E (list json * bool) :=
  match l with
  | [] => Ok ([], false)
  | x :: r => '(x', a) ← f x; '(r', b) ← visit_list f r; Ok (x' :: r', a || b)
  end.
(** [for _, item := range j.([]any)]. *)
Definition each f : visit E := fun j =>
  match j with
  | JArray l => '(l', b) ← visit_list f l; Ok (JArray l', b)
  | _ => Ok (j, false)
  end.
(** Edit [j[k]], when [j] is an object that has it. *)
Definition field (k : string) f : visit E := fun j =>
  match j with
  | JObject m =>
      match m !! k with
      | Some v => '(v', b) ← f v; Ok (JObject (<[k := v']> m), b)
      | None => Ok (j, false)
      end
  | _ => Ok (j, false)
  end.
Definition keep : visit E := fun j => Ok (j, false).

(** The values an edit along [k] or into an array reaches. *)
Definition at_field (k : string) (C : json -> list json) (j : json) : list json :=
  match fields j !! k with Some v => C v | None => [] end.
Definition at_each (C : json -> list json) (j : json) : list json := elems_of j ≫= C.

(** [V] edits exactly the values [C] reaches, each by [f], raises the flag when
    one of them does, and fails only with one of them. *)
Record covers f (C : json -> list json) (V : visit E) : Prop := {
  cv_Ok : forall j j' b, V j = Ok (j', b) ->
    Forall2 (fun x x' => exists c, f x = Ok (x', c)) (C j) (C j') /\
    (b = true <-> exists x x', x ∈ C j /\ f x = Ok (x', true));
  cv_Err : forall j e, V j = Err e -> exists x, x ∈ C j /\ f x = Err e;
  cv_Panic : forall j, V j = Panic -> exists x, x ∈ C j /\ f x = Panic;
}.

Lemma covers_self f : covers f (fun j => [j]) f.
Proof.
  constructor.
  - intros j j' b Hj. split; [constructor; [eauto|constructor]|]. split.
    + intros ->. exists j, j'. split; [apply elem_of_cons; auto|done].
    + intros (x & x' & ->%list_elem_of_singleton & Hx). congruence.
  - intros j e He. exists j. split; [apply elem_of_cons; auto|done].
  - intros j He. exists j. split; [apply elem_of_cons; auto|done].
Qed.

Lemma covers_none f V : (forall j, V j = Ok (j, false)) -> covers f (fun _ => []) V.
Proof.
  intros HV. constructor; intros j; rewrite HV; [|done..]. intros j' b [= <- <-].
  split; [constructor|]. split; [done|]. by intros (x & _ & ?%not_elem_of_nil & _).
Qed.

Lemma visit_list_Ok f l l' b : visit_list f l = Ok (l', b) ->
  Forall2 (fun x x' => exists c, f x = Ok (x', c)) l l' /\
  (b = true <-> exists x x', x ∈ l /\ f x = Ok (x', true)).
Proof.
  revert l' b. induction l as [|x l IH]; intros l' b; cbn.
  { intros [= <- <-]. split; [constructor|]. split; [done|]. by intros (? & _ & ?%not_elem_of_nil & _). }
  destruct (f x) as [[x' a]|e|] eqn:Ex; cbn; [|done..].
  destruct (visit_list f l) as [[r' c]|e|] eqn:El; cbn; [|done..]. intros [= <- <-].
  destruct (IH r' c eq_refl) as [H1 H2]. split; [constructor; eauto|].
  rewrite orb_true_iff, H2. setoid_rewrite elem_of_cons. split.
  - intros [->|(y & y' & Hy & Hf)]; eauto 8.
  - intros (y & y' & [->|Hy] & Hf); [left; congruence|right; eauto].
Qed.
Lemma visit_list_not_Ok f l :
  (forall e, visit_list f l = Err e -> exists x, x ∈ l /\ f x = Err e) /\
  (visit_list f l = Panic -> exists x, x ∈ l /\ f x = Panic).
Proof.
  induction l as [|x l [IH1 IH2]]; cbn; [done|]. setoid_rewrite elem_of_cons.
  destruct (f x) as [[x' a]|e'|] eqn:Ex; cbn.
  - destruct (visit_list f l) as [[r' c]|e'|] eqn:El; cbn; split; try done.
    + intros e [= <-]. destruct (IH1 e' eq_refl) as (y & ? & ?). eauto.
    + intros _. destruct (IH2 eq_refl) as (y & ? & ?). eauto.
  - split; [|done]. intros e [= <-]. eauto.
  - split; [done|]. eauto.
Qed.

Lemma Forall2_concat {A B} (R : B -> B -> Prop) (C : A -> list B) l l' :
  Forall2 (fun x x' => Forall2 R (C x) (C x')) l l' -> Forall2 R (l ≫= C) (l' ≫= C).
Proof. induction 1; cbn; [constructor|]. by apply Forall2_app. Qed.

Lemma covers_each f C V : covers f C V -> covers f (at_each C) (each V).
Proof.
  intros [HO HE HP]. constructor; unfold each, at_each.
  - intros j j' b. destruct j; try (intros [= <- <-]; split; [constructor|split; [done|];
      by intros (x & _ & ?%not_elem_of_nil & _)]).
    destruct (visit_list V l) as [[l' c]|e|] eqn:El; cbn; [|done..]. intros [= <- <-].
    destruct (visit_list_Ok _ _ _ _ El) as [H1 H2]. split.
    + apply Forall2_concat. eapply Forall2_impl; [exact H1|]. intros x x' [d Hd]. apply (HO _ _ _ Hd).
    + rewrite H2. setoid_rewrite list_elem_of_bind. split.
      * intros (x & x' & Hx & Hv). apply HO in Hv as [_ [Hv _]]. destruct (Hv eq_refl) as (y & y' & ? & ?).
        exists y, y'. eauto.
      * intros (y & y' & (x & Hy & Hx) & Hf).
        assert (Hin : exists x' d, V x = Ok (x', d)).
        { apply list_elem_of_lookup in Hx as [i Hi]. destruct (Forall2_lookup_l _ _ _ _ _ H1 Hi) as (x' & _ & d & Hd). eauto. }
        destruct Hin as (x' & d & Hd). exists x, x'. split; [done|]. rewrite Hd.
        apply HO in Hd as [_ Hd]. repeat f_equal. apply Hd. eauto.
  - intros j e. destruct j; try done. destruct (visit_list V l) as [[l' c]|e'|] eqn:El; cbn; [done| |done].
    intros [= ->]. apply visit_list_not_Ok in El as (x & Hx & Hv). apply HE in Hv as (y & Hy & Hf).
    exists y. split; [|done]. apply list_elem_of_bind. eauto.
  - intros j. destruct j; try done. destruct (visit_list V l) as [[l' c]|e'|] eqn:El; cbn; [done|done|].
    intros _. apply visit_list_not_Ok in El as (x & Hx & Hv). apply HP in Hv as (y & Hy & Hf).
    exists y. split; [|done]. apply list_elem_of_bind. eauto.
Qed.

Lemma covers_field k f C V : covers f C V -> covers f (at_field k C) (field k V).
Proof.
  intros [HO HE HP]. constructor; unfold field, at_field.
  - intros j j' b. destruct j; try (intros [= <- <-]; cbn; rewrite lookup_empty; split; [constructor|split; [done|];
      by intros (x & _ & ?%not_elem_of_nil & _)]).
    cbn [fields]. destruct (m !! k) as [v|] eqn:Ek.
    + destruct (V v) as [[v' c]|e|] eqn:Ev; cbn; [|done..]. intros [= <- <-]. cbn [fields].
      rewrite lookup_insert_eq. by apply HO.
    + intros [= <- <-]. cbn [fields]. rewrite Ek. split; [constructor|split; [done|]].
      by intros (x & _ & ?%not_elem_of_nil & _).
  - intros j e. destruct j; try done. cbn [fields]. destruct (m !! k) as [v|]; [|done].
    destruct (V v) as [[v' c]|e'|] eqn:Ev; cbn; [done| |done]. intros [= ->]. by apply HE.
  - intros j. destruct j; try done. cbn [fields]. destruct (m !! k) as [v|]; [|done].
    destruct (V v) as [[v' c]|e'|] eqn:Ev; cbn; [done|done|]. intros _. by apply HP.
Qed.

(** ** Idempotent edits *)
Definition idem f : Prop := forall j j' b, f j = Ok (j', b) -> f j' = Ok (j', b).

Lemma idem_keep : idem keep.
Proof. by intros j j' b [= <- <-]. Qed.
Lemma idem_each f : idem f -> idem (each f).
Proof.
  intros Hf j j' b. unfold each. destruct j; try (by intros [= <- <-]).
  destruct (visit_list f l) as [[l' c]|e|] eqn:El; cbn; [|done..]. intros [= <- <-].
  assert (Hl : visit_list f l' = Ok (l', c)).
  { revert l' c El. induction l as [|x l IH]; cbn; [by intros ? ? [= <- <-]|]. intros l' c.
    destruct (f x) as [[x' a]|e|] eqn:Ex; cbn; [|done..].
    destruct (visit_list f l) as [[r' d]|e|]; cbn; [|done..]. intros [= <- <-]. cbn.
    rewrite (Hf _ _ _ Ex). cbn. by rewrite (IH r' d eq_refl). }
  by rewrite Hl.
Qed.
Lemma idem_field k f : idem f -> idem (field k f).
Proof.
  intros Hf j j' b. unfold field. destruct j; try (by intros [= <- <-]).
  destruct (m !! k) as [v|] eqn:Ek.
  - destruct (f v) as [[v' c]|e|] eqn:Ev; cbn; [|done..]. intros [= <- <-].
    rewrite lookup_insert_eq, (Hf _ _ _ Ev). cbn. by rewrite insert_insert_eq.
  - intros [= <- <-]. by rewrite Ek.
Qed.

(** An edit of a field leaves the other fields. *)
Lemma field_frame k f j j' b k' : field k f j = Ok (j', b) -> k' <> k -> fields j' !! k' = fields j !! k'.
Proof.
  unfold field. destruct j; try (by intros [= <- _]). destruct (m !! k) as [v|].
  - destruct (f v) as [[v' c]|e|]; cbn; [|done..]. intros [= <- _] Hne. cbn. by rewrite lookup_insert_ne.
  - by intros [= <- _].
Qed.
End Visits.
