(* ===== verification/Envoy.v ===== *)
(** [internal/daemon/envoy.go] and [internal/request/filter.go]: the rewriting of
    the standalone Envoy bootstrap.  Input is the decoded YAML document ([None]
    is the nil map); output is the document that is marshalled and written to
    [envoy.json].  The Lua text of the guard and [strconv.Quote] are parameters
    (the script itself is modelled in [Guard]). *)
From S2P Require Import Prelude GoStrings GoPath Tracing Config Json.

Inductive envoy_error :=
| EmptyEnvoyConfiguration
| RequiresStaticResources
| RequiresTypedConfig
| RequiresExtAuthz.

Definition hcm_name : string := "envoy.filters.network.http_connection_manager".
Definition ext_authz_name : string := "envoy.filters.http.ext_authz".

Section Envoy.
Context (guard : string) (quote : string -> string).

(** ** [filter.go] *)
Definition newline : string := String (ascii_of_nat 10) EmptyString.
Definition source (role : Role) (scheme : string) : string :=
  "local role = " +:+ quote role +:+ newline +:+ "local scheme = " +:+ quote scheme +:+ newline +:+ guard.
Definition Source (role : Role) : string := source role "https".
Definition HTTPSource (role : Role) : string := source role "http".
Definition Filter (role : Role) : json :=
  object [("@type", JString "type.googleapis.com/envoy.extensions.filters.http.lua.v3.Lua");
          ("default_source_code", object [("inline_string", JString (Source role))])].

(** ** [envoy.go] *)
Definition pipe (path : string) : json :=
  object [("pipe", object [("path", JString path); ("mode", JNumber "384")])].

Definition request_body : json :=
  object [("max_request_bytes", JNumber "65536"); ("allow_partial_message", JBool false);
          ("pack_as_bytes", JBool true)].
Definition secure_authz (cfg : gmap string json) : gmap string json :=
  <["with_request_body" := request_body]>
    (<["encode_raw_headers" := JBool true]> (<["failure_mode_allow" := JBool false]> cfg)).

(** The body of the loop over [http_filters]. *)
Definition http_filter (role : Role) (policyExtension : bool) : visit envoy_error := fun item =>
  let guard_it (j : json) :=
    if named j "gateway.request" || named j "gateway.dispatch"
    then JObject (<["typed_config" := Filter role]> (fields j)) else j in
  if policyExtension && named item ext_authz_name then
    match fields item !! "typed_config" with
    | Some (JObject cfg) =>
        Ok (guard_it (JObject (<["typed_config" := JObject (secure_authz cfg)]> (fields item))), true)
    | _ => Err RequiresTypedConfig
    end
  else Ok (guard_it item, false).

Definition network_filter (role : Role) (policyExtension : bool) : visit envoy_error := fun item =>
  if named item hcm_name
  then field "typed_config" (field "http_filters" (each (http_filter role policyExtension))) item
  else Ok (item, false).
Definition chain (role : Role) (policyExtension : bool) : visit envoy_error :=
  field "filters" (each (network_filter role policyExtension)).
Definition listener (role : Role) (policyExtension : bool) : visit envoy_error :=
  field "filter_chains" (each (chain role policyExtension)).
Definition listeners (role : Role) (policyExtension : bool) : visit envoy_error :=
  field "listeners" (each (listener role policyExtension)).

(** The body of the loop over the clusters. *)
Definition cluster_socket (c : Config) (cluster : json) : option string :=
  if named cluster "opa" then Some (path_join (RuntimeDir c) "opa.sock")
  else if named cluster "inspection_sds" then Some (InspectionSDSPath c) else None.
Definition load_assignment (name : json) (socket : string) : json :=
  object [("cluster_name", name);
          ("endpoints", JArray [object [("lb_endpoints", JArray [object [("endpoint",
             object [("address", pipe socket)])]])]])].
Definition cluster (c : Config) : visit envoy_error := fun item =>
  match cluster_socket c item with
  | Some socket =>
      let name := default JNull (fields item !! "name") in
      Ok (JObject (<["load_assignment" := load_assignment name socket]>
            (<["type" := JString "STATIC"]> (fields item))), false)
  | None => Ok (item, false)
  end.
Definition clusters (c : Config) : visit envoy_error := field "clusters" (each (cluster c)).

Definition is_null (j : option json) : bool :=
  match j with None | Some JNull => true | _ => false end.
Definition set_admin (c : Config) (b : gmap string json) : gmap string json :=
  let admin := match b !! "admin" with Some (JObject a) => a | _ => ∅ end in
  <["admin" := JObject (<["address" := pipe (EnvoyAdminPath c)]> admin)]> b.

Definition prepareEnvoy (c : Config) (policyExtension : bool) (doc : option (gmap string json))
    : result envoy_error json :=
  match doc with
  | None => Err EmptyEnvoyConfiguration
  | Some b =>
      fail_if negb (is_null (b !! "dynamic_resources")) with RequiresStaticResources ;;
      '(j, sharedAuthorization) ←
        field "static_resources" (listeners (cfg_Role c) policyExtension) (JObject (set_admin c b));
      fail_if policyExtension && negb sharedAuthorization with RequiresExtAuthz ;;
      '(j, _) ← field "static_resources" (clusters c) j;
      Ok j
  end.

(** ** What the rewrite reaches *)
Definition http_filters_of (item : json) : list json :=
  if named item hcm_name
  then at_field "typed_config" (at_field "http_filters" (at_each (fun j => [j]))) item else [].
Definition http_filters (doc : json) : list json :=
  at_field "static_resources" (at_field "listeners" (at_each
    (at_field "filter_chains" (at_each (at_field "filters" (at_each http_filters_of)))))) doc.
Definition clusters_of (doc : json) : list json :=
  at_field "static_resources" (at_field "clusters" (at_each (fun j => [j]))) doc.

Lemma named_insert k v m s : k <> "name" -> named (JObject (<[k := v]> m)) s = named (JObject m) s.
Proof. intros Hk. unfold named. cbn. by rewrite lookup_insert_ne. Qed.
Lemma named_fields j s : named j s = true -> j = JObject (fields j).
Proof. unfold named. destruct j; cbn; rewrite ?lookup_empty; done. Qed.
Lemma named_frame j j' s : fields j' !! "name" = fields j !! "name" -> named j' s = named j s.
Proof. unfold named. by intros ->. Qed.
Lemma named_inj j s t : named j s = true -> named j t = true -> s = t.
Proof.
  unfold named. destruct (fields j !! "name") as [[| | |n| |]|]; try done.
  by intros <-%String.eqb_eq <-%String.eqb_eq.
Qed.

Lemma covers_network role pe :
  covers (http_filter role pe) http_filters_of (network_filter role pe).
Proof.
  set (V := field "typed_config" (field "http_filters" (each (http_filter role pe)))).
  assert (HV : covers (http_filter role pe)
    (at_field "typed_config" (at_field "http_filters" (at_each (fun j => [j])))) V).
  { apply covers_field, covers_field, covers_each, covers_self. }
  destruct HV as [HO HE HP].
  constructor; unfold network_filter, http_filters_of; fold V.
  - intros j j' b. destruct (named j hcm_name) eqn:En.
    + intros Hj. assert (Hn : named j' hcm_name = true).
      { rewrite <- En. apply named_frame. by eapply field_frame. }
      rewrite Hn. by apply HO.
    + intros [= <- <-]. rewrite En. split; [constructor|]. split; [done|].
      by intros (x & _ & ?%not_elem_of_nil & _).
  - intros j e. destruct (named j hcm_name); [apply HE|done].
  - intros j. destruct (named j hcm_name); [apply HP|done].
Qed.

Lemma covers_listeners role pe :
  covers (http_filter role pe) http_filters (field "static_resources" (listeners role pe)).
Proof. repeat first [apply covers_field|apply covers_each|apply covers_network]. Qed.
Lemma covers_clusters c : covers (cluster c) clusters_of (field "static_resources" (clusters c)).
Proof. repeat first [apply covers_field|apply covers_each|apply covers_self]. Qed.

(** How one HTTP filter is rewritten. *)
Record rewritten_filter (role : Role) (pe : bool) (x x' : json) : Prop := {
  rf_named : forall s, named x' s = named x s;
  rf_authz : pe = true -> named x ext_authz_name = true -> exists old cfg,
    fields x !! "typed_config" = Some (JObject old) /\ fields x' !! "typed_config" = Some (JObject cfg) /\
    cfg !! "failure_mode_allow" = Some (JBool false) /\ cfg !! "encode_raw_headers" = Some (JBool true) /\
    cfg !! "with_request_body" = Some request_body /\
    forall k, k <> "failure_mode_allow" -> k <> "encode_raw_headers" -> k <> "with_request_body" ->
      cfg !! k = old !! k;
  rf_guard : named x "gateway.request" || named x "gateway.dispatch" = true ->
    fields x' !! "typed_config" = Some (Filter role);
  rf_fields : forall k, k <> "typed_config" -> fields x' !! k = fields x !! k;
  rf_other : pe && named x ext_authz_name = false ->
    named x "gateway.request" || named x "gateway.dispatch" = false -> x' = x;
}.

Lemma http_filter_Ok role pe x x' c : http_filter role pe x = Ok (x', c) ->
  rewritten_filter role pe x x' /\ c = pe && named x ext_authz_name.
Proof.
  unfold http_filter. destruct (pe && named x ext_authz_name) eqn:Ea.
  - destruct (fields x !! "typed_config") as [[| | | | |old]|] eqn:Eo; try done.
    apply andb_true_iff in Ea as [-> Ea].
    assert (Hg : forall m, named (JObject (<["typed_config" := m]> (fields x))) "gateway.request"
        || named (JObject (<["typed_config" := m]> (fields x))) "gateway.dispatch" = false).
    { intros m. rewrite !named_insert by done. rewrite <- (named_fields _ _ Ea).
      apply not_true_iff_false. rewrite orb_true_iff. intros [H|H]; by pose proof (named_inj _ _ _ Ea H). }
    rewrite Hg. intros [= <- <-]. split; [|done]. constructor.
    + intros s. rewrite named_insert by done. by rewrite <- (named_fields _ _ Ea).
    + intros _ _. exists old, (secure_authz old). cbn. rewrite lookup_insert_eq. unfold secure_authz.
      split_and!; try done; [by simplify_map_eq..|]. intros. by rewrite !lookup_insert_ne.
    + pose proof (Hg JNull) as H. rewrite !named_insert in H by done. rewrite <- (named_fields _ _ Ea) in H. congruence.
    + intros k Hk. cbn. by rewrite lookup_insert_ne.
    + by rewrite Ea.
  - assert (Hnot : pe = true -> named x ext_authz_name = true -> False).
    { intros -> Ha. by rewrite Ha in Ea. }
    destruct (_ || _) eqn:Eg; intros [= <- <-]; (split; [|done]); constructor; try done;
      try (intros Hpe Ha; by destruct (Hnot Hpe Ha)).
    + intros s. rewrite named_insert by done.
      apply orb_true_iff in Eg as [Eg|Eg]; by rewrite <- (named_fields _ _ Eg).
    + intros _. cbn. by rewrite lookup_insert_eq.
    + intros k Hk. cbn. by rewrite lookup_insert_ne.
    + congruence.
    + congruence.
Qed.

Lemma http_filter_total role pe x : http_filter role pe x <> Panic.
Proof. unfold http_filter. destruct (_ && _); [|done]. by repeat case_match. Qed.

Lemma idem_http_filter role pe : idem (http_filter role pe).
Proof.
  intros j j' b Hj. destruct (http_filter_Ok _ _ _ _ _ Hj) as [[Hn Ha Hg Hf Ho] ->].
  unfold http_filter. rewrite (Hn ext_authz_name).
  destruct (pe && named j ext_authz_name) eqn:Ea.
  - pose proof Ea as Ea'. apply andb_true_iff in Ea' as [-> Ea']. destruct (Ha eq_refl Ea') as (old & cfg & _ & Hc & H1 & H2 & H3 & _).
    rewrite Hc. assert (Hs : secure_authz cfg = cfg).
    { unfold secure_authz. by rewrite (insert_id _ _ _ H1), (insert_id _ _ _ H2), (insert_id _ _ _ H3). }
    assert (Hj' : named j' ext_authz_name = true) by by rewrite Hn.
    rewrite Hs, (insert_id _ _ _ Hc), <- (named_fields _ _ Hj').
    destruct (named j' "gateway.request") eqn:E1; [by pose proof (named_inj _ _ _ Hj' E1)|].
    destruct (named j' "gateway.dispatch") eqn:E2; [by pose proof (named_inj _ _ _ Hj' E2)|]. done.
  - rewrite !Hn. destruct (_ || _) eqn:Eg; [|done]. rewrite (insert_id _ _ _ (Hg eq_refl)).
    assert (Hj' : exists s, named j' s = true).
    { apply orb_true_iff in Eg as [Eg|Eg]; eexists; rewrite Hn; exact Eg. }
    destruct Hj' as [s Hs]. by rewrite <- (named_fields _ _ Hs).
Qed.

(** How one cluster is rewritten. *)
Record rewritten_cluster (c : Config) (x x' : json) : Prop := {
  rc_private : forall socket, cluster_socket c x = Some socket ->
    fields x' !! "type" = Some (JString "STATIC") /\
    fields x' !! "load_assignment" = Some (load_assignment (default JNull (fields x !! "name")) socket) /\
    forall k, k <> "type" -> k <> "load_assignment" -> fields x' !! k = fields x !! k;
  rc_other : cluster_socket c x = None -> x' = x;
}.
Lemma cluster_Ok c x x' b : cluster c x = Ok (x', b) -> rewritten_cluster c x x' /\ b = false.
Proof.
  unfold cluster. destruct (cluster_socket c x) as [s|] eqn:Es; intros [= <- <-]; (split; [|done]); constructor;
    rewrite Es; try done. intros ? [= <-]. cbn. split_and!; [by simplify_map_eq..|].
  intros. by rewrite !lookup_insert_ne.
Qed.
Lemma cluster_total c x : exists x', cluster c x = Ok (x', false).
Proof. unfold cluster. destruct (cluster_socket c x); eauto. Qed.
Lemma cluster_socket_frame c x x' : fields x' !! "name" = fields x !! "name" -> cluster_socket c x' = cluster_socket c x.
Proof. intros H. unfold cluster_socket. by rewrite !(named_frame x x') by done. Qed.
Lemma idem_cluster c : idem (cluster c).
Proof.
  intros j j' b Hj. destruct (cluster_Ok _ _ _ _ Hj) as [[Hp Ho] ->].
  destruct (cluster_socket c j) as [s|] eqn:Es.
  - destruct (Hp s eq_refl) as (Ht & Hl & Hf). unfold cluster.
    rewrite (cluster_socket_frame c j j'), Es, (Hf "name") by (first [done|by apply Hf]).
    rewrite (insert_id _ _ _ Ht), (insert_id _ _ _ Hl).
    unfold cluster in Hj. rewrite Es in Hj. injection Hj as <-. done.
  - by rewrite Ho in *.
Qed.

(** ** The whole rewrite *)
Lemma prepare_inv c pe b j : prepareEnvoy c pe (Some b) = Ok j ->
  is_null (b !! "dynamic_resources") = true /\ exists j1 sh d,
    field "static_resources" (listeners (cfg_Role c) pe) (JObject (set_admin c b)) = Ok (j1, sh) /\
    (pe = true -> sh = true) /\ field "static_resources" (clusters c) j1 = Ok (j, d).
Proof.
  unfold prepareEnvoy. rewrite guard_err_Ok, negb_false_iff. intros [Hd H]. split; [done|].
  destruct (field _ (listeners _ _) _) as [[j1 sh]|e|] eqn:E1; cbn in H; [|done..].
  apply guard_err_Ok in H as [Hsh H].
  destruct (field _ (clusters _) _) as [[j2 d]|e|] eqn:E2; cbn in H; [|done..]. injection H as <-.
  exists j1, sh, d. split; [done|]. split; [|done]. intros ->. by destruct sh.
Qed.

Lemma at_field_frame2 {E} k (f : visit E) k1 k2 C j j' b :
  field k (field k1 f) j = Ok (j', b) -> k1 <> k2 ->
  at_field k (at_field k2 C) j' = at_field k (at_field k2 C) j.
Proof.
  unfold field at 1. destruct j as [| | | | |m]; try (by intros [= <- _]).
  destruct (m !! k) as [v|] eqn:Ek; [|by intros [= <- _]].
  destruct (field k1 f v) as [[v' d]|e|] eqn:Ev; cbn; [|done..]. intros [= <- _] Hne.
  unfold at_field at 1 3. cbn. rewrite lookup_insert_eq, Ek. unfold at_field.
  by rewrite (field_frame _ _ _ _ _ _ Ev) by congruence.
Qed.

Lemma admin_frame c b C : at_field "static_resources" C (JObject (set_admin c b)) = at_field "static_resources" C (JObject b).
Proof. unfold at_field, set_admin. cbn. by rewrite lookup_insert_ne. Qed.

Lemma prepared_filters c pe b j : prepareEnvoy c pe (Some b) = Ok j ->
  Forall2 (rewritten_filter (cfg_Role c) pe) (http_filters (JObject b)) (http_filters j) /\
  (pe = true -> exists x, x ∈ http_filters j /\ named x ext_authz_name = true).
Proof.
  intros (_ & j1 & sh & d & H1 & Hsh & H2)%prepare_inv.
  destruct (cv_Ok _ _ _ (covers_listeners (cfg_Role c) pe) _ _ _ H1) as [Hf Hflag].
  unfold http_filters in *. rewrite (at_field_frame2 _ _ _ _ _ _ _ _ H2) by done.
  rewrite admin_frame in Hf, Hflag. split.
  - eapply Forall2_impl; [exact Hf|]. intros x x' [e He]. by apply http_filter_Ok in He as [? _].
  - intros Hpe. destruct Hflag as [Hflag _]. destruct (Hflag (Hsh Hpe)) as (x & x' & Hx & Hv).
    apply http_filter_Ok in Hv as Hv'. destruct Hv' as [[Hn _ _ _ _] Ht].
    apply list_elem_of_lookup in Hx as [i Hi].
    destruct (Forall2_lookup_l _ _ _ _ _ Hf Hi) as (y & Hy & e & He). rewrite He in Hv. injection Hv as -> _.
    exists x'. split; [by eapply list_elem_of_lookup_2|]. rewrite Hn. symmetry in Ht.
    by apply andb_true_iff in Ht as [_ ?].
Qed.

(** The document fields outside the rewritten parts, and the pinned sockets. *)
Record pinned (c : Config) (b : gmap string json) (j : json) : Prop := {
  pi_admin : exists admin, fields j !! "admin" = Some (JObject admin) /\
    admin !! "address" = Some (pipe (EnvoyAdminPath c)) /\
    forall k, k <> "address" -> admin !! k = fields (default JNull (b !! "admin")) !! k;
  pi_clusters : Forall2 (rewritten_cluster c) (clusters_of (JObject b)) (clusters_of j);
  pi_static : is_null (fields j !! "dynamic_resources") = true;
  pi_top : forall k, k <> "admin" -> k <> "static_resources" -> fields j !! k = b !! k;
  pi_resources : forall k v, k <> "listeners" -> k <> "clusters" ->
    at_field "static_resources" (at_field k (fun j => [j])) j = [v] <->
    at_field "static_resources" (at_field k (fun j => [j])) (JObject b) = [v];
}.

Lemma prepared_pinned c pe b j : prepareEnvoy c pe (Some b) = Ok j -> pinned c b j.
Proof.
  intros (Hd & j1 & sh & d & H1 & _ & H2)%prepare_inv.
  assert (Hframe : forall k, k <> "static_resources" -> fields j !! k = set_admin c b !! k).
  { intros k Hk. rewrite (field_frame _ _ _ _ _ _ H2 Hk). by rewrite (field_frame _ _ _ _ _ _ H1 Hk). }
  constructor.
  - rewrite Hframe by done. unfold set_admin. rewrite lookup_insert_eq. eexists. split; [done|].
    split; [by rewrite lookup_insert_eq|]. intros k Hk. rewrite lookup_insert_ne by done.
    destruct (b !! "admin") as [[]|]; done.
  - destruct (cv_Ok _ _ _ (covers_clusters c) _ _ _ H2) as [Hc _].
    unfold clusters_of in *. rewrite (at_field_frame2 _ _ _ _ _ _ _ _ H1), admin_frame in Hc by done.
    eapply Forall2_impl; [exact Hc|]. intros x x' [e He]. by apply cluster_Ok in He as [? _].
  - rewrite Hframe by done. unfold set_admin. by rewrite lookup_insert_ne.
  - intros k H3 H4. rewrite Hframe by done. unfold set_admin. by rewrite lookup_insert_ne.
  - intros k v H3 H4. rewrite (at_field_frame2 _ _ _ _ _ _ _ _ H2) by congruence.
    rewrite (at_field_frame2 _ _ _ _ _ _ _ _ H1) by congruence. by rewrite admin_frame.
Qed.

Lemma idem_network role pe : idem (network_filter role pe).
Proof.
  intros j j' b. unfold network_filter. destruct (named j hcm_name) eqn:En.
  - intros Hj. rewrite (named_frame j j') by (by eapply field_frame). rewrite En. revert Hj.
    apply idem_field, idem_field, idem_each, idem_http_filter.
  - intros [= <- <-]. by rewrite En.
Qed.

(** Two edits of different fields of one object commute with re-running the first. *)
Lemma field_again {E} k (f g : visit E) k1 k2 j0 j j' a b :
  idem f -> k1 <> k2 -> field k (field k1 f) j0 = Ok (j, a) -> field k (field k2 g) j = Ok (j', b) ->
  field k (field k1 f) j' = Ok (j', a).
Proof.
  intros Hf Hne H1 H2. unfold field at 1 in H2.
  pose proof (idem_field k _ (idem_field k1 f Hf) _ _ _ H1) as H1'.
  destruct j as [| | | | |m]; try (injection H2 as <- _; done).
  destruct (m !! k) as [v|] eqn:Ek; [|injection H2 as <- _; done].
  destruct (field k2 g v) as [[v' d]|e|] eqn:Ev; cbn in H2; [|done..]. injection H2 as <- _.
  unfold field at 1 in H1'. unfold field at 1. rewrite Ek in H1'. rewrite lookup_insert_eq.
  destruct (field k1 f v) as [[w x]|e|] eqn:Ew; cbn in H1'; [|done..].
  injection H1' as Hw ->. assert (w = v).
  { apply (f_equal (fun m => m !! k)) in Hw. rewrite lookup_insert_eq, Ek in Hw. by injection Hw. }
  subst w. clear Hw.
  assert (Hv' : field k1 f v' = Ok (v', a)).
  { unfold field in Ev. destruct v as [| | | | |n]; try (injection Ev as <- _; done).
    destruct (n !! k2) as [u|]; [|injection Ev as <- _; done].
    destruct (g u) as [[u' y]|e|]; cbn in Ev; [|done..]. injection Ev as <- _.
    unfold field in Ew |- *. rewrite lookup_insert_ne by congruence.
    destruct (n !! k1) as [t|] eqn:Et; [|by injection Ew as ->].
    destruct (f t) as [[t' z]|e|] eqn:Eft; cbn in Ew |- *; [|done..]. injection Ew as Hn ->.
    assert (t' = t).
    { apply (f_equal (fun m => m !! k1)) in Hn. rewrite lookup_insert_eq, Et in Hn. by injection Hn. }
    subst t'. do 2 f_equal. f_equal. apply insert_id. by rewrite lookup_insert_ne by congruence. }
  rewrite Hv'. cbn. do 2 f_equal. f_equal. by rewrite insert_insert_eq.
Qed.

Lemma prepare_idem c pe b b' : prepareEnvoy c pe (Some b) = Ok (JObject b') ->
  prepareEnvoy c pe (Some b') = Ok (JObject b').
Proof.
  intros H. destruct (prepared_pinned _ _ _ _ H) as [(admin & Ha & Haddr & _) _ Hd _ _].
  apply prepare_inv in H as (_ & j1 & sh & d & H1 & Hsh & H2).
  assert (Hadm : set_admin c b' = b').
  { unfold set_admin. cbn in Ha. rewrite Ha, (insert_id _ _ _ Haddr). by apply insert_id. }
  assert (H3 : field "static_resources" (listeners (cfg_Role c) pe) (JObject b') = Ok (JObject b', sh)).
  { eapply (field_again "static_resources" _ (each (cluster c)) "listeners" "clusters"); [|done|exact H1|exact H2].
    apply idem_each, idem_field, idem_each, idem_field, idem_each, idem_network. }
  assert (H4 : field "static_resources" (clusters c) (JObject b') = Ok (JObject b', d)).
  { eapply idem_field; [|exact H2]. apply idem_field, idem_each, idem_cluster. }
  unfold prepareEnvoy. cbn in Hd. rewrite Hd, Hadm, H3. cbn [negb guard_err mbind result_bind].
  assert (Hs : pe && negb sh = false) by (destruct pe; [by rewrite Hsh|done]).
  rewrite Hs. cbn [guard_err]. by rewrite H4.
Qed.

Definition configured (x : json) : Prop :=
  exists cfg, fields x !! "typed_config" = Some (JObject cfg).
Lemma http_filter_Err role pe x e : http_filter role pe x = Err e ->
  e = RequiresTypedConfig /\ pe = true /\ named x ext_authz_name = true /\ ~ configured x.
Proof.
  unfold http_filter, configured. destruct (pe && named x ext_authz_name) eqn:Ea; [|done].
  apply andb_true_iff in Ea as [-> ->].
  destruct (fields x !! "typed_config") as [[]|]; try done; intros [= <-]; split_and!; auto; naive_solver.
Qed.
Lemma clusters_total c j : exists j', field "static_resources" (clusters c) j = Ok (j', false).
Proof.
  pose proof (covers_clusters c) as [HO HE HP].
  destruct (field "static_resources" (clusters c) j) as [[j' b]|e|] eqn:E.
  - exists j'. destruct (HO _ _ _ E) as [_ Hb]. destruct b; [|done].
    destruct Hb as [Hb _]. destruct (Hb eq_refl) as (x & x' & _ & Hx). by apply cluster_Ok in Hx as [_ ?].
  - apply HE in E as (x & _ & Hx). destruct (cluster_total c x). congruence.
  - apply HP in E as (x & _ & Hx). destruct (cluster_total c x). congruence.
Qed.

Lemma prepare_outcomes c pe b :
  let static := is_null (b !! "dynamic_resources") = true in
  let authz x := x ∈ http_filters (JObject b) /\ named x ext_authz_name = true in
  match prepareEnvoy c pe (Some b) with
  | Ok _ => static /\ (pe = true -> (exists x, authz x) /\ forall x, authz x -> configured x)
  | Err RequiresStaticResources => ~ static
  | Err RequiresTypedConfig => static /\ pe = true /\ exists x, authz x /\ ~ configured x
  | Err RequiresExtAuthz => static /\ pe = true /\ forall x, ~ authz x
  | Err EmptyEnvoyConfiguration => False
  | Panic => False
  end.
Proof.
  intros static authz. unfold prepareEnvoy. destruct (is_null (b !! "dynamic_resources")) eqn:Ed; cbn [negb guard_err].
  2: { unfold static. congruence. }
  pose proof (covers_listeners (cfg_Role c) pe) as [HO HE HP].
  destruct (field _ (listeners _ _) _) as [[j1 sh]|e|] eqn:E1; cbn [mbind result_bind].
  - destruct (HO _ _ _ E1) as [Hf Hs]. unfold http_filters in Hf, Hs. rewrite admin_frame in Hf, Hs.
    fold (http_filters (JObject b)) in Hf, Hs.
    assert (Hauth : forall x, authz x -> pe = true -> configured x /\ sh = true).
    { intros x [Hx Hn] ->. apply list_elem_of_lookup in Hx as Hi. destruct Hi as [i Hi].
      destruct (Forall2_lookup_l _ _ _ _ _ Hf Hi) as (y & _ & a & Ha).
      pose proof (http_filter_Ok _ _ _ _ _ Ha) as [[_ Hr _ _ _] ->]. destruct (Hr eq_refl Hn) as (old & _ & Ho & _).
      split; [by exists old|]. apply Hs. exists x, y. split; [done|]. by rewrite Ha, Hn. }
    destruct (pe && negb sh) eqn:Eb; cbn [guard_err].
    + apply andb_true_iff in Eb as [-> Eb%negb_true_iff]. split_and!; try done. intros x Hx.
      destruct (Hauth x Hx eq_refl). congruence.
    + destruct (clusters_total c j1) as [j' ->]. cbn. split; [done|]. intros ->.
      split; [|intros x Hx; by apply Hauth]. destruct sh; [|done]. destruct Hs as [Hs _].
      destruct (Hs eq_refl) as (x & x' & Hx & Hv). exists x. split; [done|].
      by apply http_filter_Ok in Hv as [_ ?].
  - apply HE in E1 as (x & Hx & Hv). unfold http_filters in Hx. rewrite admin_frame in Hx.
    destruct (http_filter_Err _ _ _ _ Hv) as (-> & Hpe & Hn & Hc). split_and!; try done. exists x. done.
  - apply HP in E1 as (x & _ & Hv). by apply http_filter_total in Hv.
Qed.
End Envoy.

(** ** A bootstrap for the witnesses *)
Definition demo_authz : json :=
  object [("name", JString ext_authz_name);
          ("typed_config", object [("failure_mode_allow", JBool true); ("stat_prefix", JString "x")])].
Definition demo_http : list json :=
  [object [("name", JString "gateway.request")]; demo_authz; object [("name", JString "gateway.dispatch")]].
Definition demo_chain (filters : list json) : json :=
  object [("filters", JArray [object [("name", JString hcm_name);
     ("typed_config", object [("http_filters", JArray filters)])]])].
Definition demo_bootstrap (chains : list (string * json)) : gmap string json :=
  list_to_map [("static_resources", object [
    ("listeners", JArray [object chains]);
    ("clusters", JArray [object [("name", JString "opa"); ("type", JString "STRICT_DNS")];
                         object [("name", JString "origin")]])])].
Definition demo_doc : gmap string json :=
  demo_bootstrap [("filter_chains", JArray [demo_chain demo_http])].
Definition demo_standalone : Config := set_EnvoyConfig (set_ProxyMode Defaults Standalone) "/etc/gateway/envoy.yaml".
Definition demo_prepared : json :=
  match prepareEnvoy "" (fun s => s) demo_standalone true (Some demo_doc) with Ok j => j | _ => JNull end.

(** ** Properties *)

(** C3: with the policy extension on an accepted bootstrap fails closed.  Every HTTP
    filter of every connection manager of every listed filter chain is rewritten in
    place: with the policy extension each [ext_authz] filter denies on failure, sends
    raw headers and buffers at most 64 KiB without partial messages, keeping its
    other settings, and at least one exists; without the extension the [ext_authz]
    filters are left as they are and none is required.  In both cases each guard
    filter runs the guard for the configured role, and every other filter is
    untouched. *)
Theorem envoy_authz_fail_closed guard quote c pe b j :
  prepareEnvoy guard quote c pe (Some b) = Ok j ->
  Forall2 (rewritten_filter guard quote (cfg_Role c) pe) (http_filters (JObject b)) (http_filters j) /\
  (pe = true -> exists x, x ∈ http_filters j /\ named x ext_authz_name = true).
Proof. apply prepared_filters. Qed.

Lemma envoy_authz_fail_closed_witness :
  length (http_filters demo_prepared) = 3%nat /\
  Forall2 (rewritten_filter "" (fun s => s) Workload true) (http_filters (JObject demo_doc)) (http_filters demo_prepared) /\
  (true = true -> exists x, x ∈ http_filters demo_prepared /\ named x ext_authz_name = true).
Proof.
  split; [vm_compute; reflexivity|].
  apply (envoy_authz_fail_closed "" (fun s => s) demo_standalone true demo_doc demo_prepared).
  vm_compute. reflexivity.
Defined.

(** An accepted bootstrap exposes its control surfaces on private sockets only
    through the rewrite: the admin address is the private admin socket, the
    clusters [opa] and [inspection_sds] are static and point at their private
    sockets, and every other cluster and document field is unchanged. *)
Theorem envoy_sockets_pinned guard quote c pe b j :
  prepareEnvoy guard quote c pe (Some b) = Ok j -> pinned c b j.
Proof. apply prepared_pinned. Qed.

Lemma envoy_sockets_pinned_witness :
  length (clusters_of demo_prepared) = 2%nat /\ pinned demo_standalone demo_doc demo_prepared.
Proof.
  split; [vm_compute; reflexivity|].
  apply (envoy_sockets_pinned "" (fun s => s) demo_standalone true demo_doc demo_prepared).
  vm_compute. reflexivity.
Defined.

(** The rewrite is idempotent: a bootstrap it produced is accepted and
    reproduced unchanged. *)
Theorem envoy_idempotent guard quote c pe b b' :
  prepareEnvoy guard quote c pe (Some b) = Ok (JObject b') ->
  prepareEnvoy guard quote c pe (Some b') = Ok (JObject b').
Proof. apply prepare_idem. Qed.

Lemma envoy_idempotent_witness :
  prepareEnvoy "" (fun s => s) demo_standalone true (Some (fields demo_prepared)) = Ok (JObject (fields demo_prepared)).
Proof.
  apply (envoy_idempotent "" (fun s => s) demo_standalone true demo_doc (fields demo_prepared)).
  vm_compute. reflexivity.
Defined.

(** The rewrite always returns, and its verdict is exact: it refuses dynamic
    resources, and under the policy extension an [ext_authz] filter without a
    typed configuration object or a bootstrap without any such filter; everything
    else it accepts. *)
Theorem envoy_outcomes guard quote c pe b :
  let static := is_null (b !! "dynamic_resources") = true in
  let authz x := x ∈ http_filters (JObject b) /\ named x ext_authz_name = true in
  match prepareEnvoy guard quote c pe (Some b) with
  | Ok _ => static /\ (pe = true -> (exists x, authz x) /\ forall x, authz x -> configured x)
  | Err RequiresStaticResources => ~ static
  | Err RequiresTypedConfig => static /\ pe = true /\ exists x, authz x /\ ~ configured x
  | Err RequiresExtAuthz => static /\ pe = true /\ forall x, ~ authz x
  | Err EmptyEnvoyConfiguration => False
  | Panic => False
  end.
Proof. apply prepare_outcomes. Qed.

(** A listener's [default_filter_chain] is outside the rewrite: an [ext_authz]
    filter there that allows on failure survives, next to a listed chain whose
    filter is closed. *)
Theorem default_filter_chain_left_open :
  exists j, prepareEnvoy "" (fun s => s) demo_standalone true
      (Some (demo_bootstrap [("filter_chains", JArray [demo_chain demo_http]);
                             ("default_filter_chain", demo_chain demo_http)])) = Ok j /\
    at_field "static_resources" (at_field "listeners" (at_each
      (at_field "default_filter_chain" (at_field "filters" (at_each http_filters_of))))) j = demo_http.
Proof. eexists. split; [vm_compute; reflexivity|]. vm_compute. reflexivity. Qed.
