(* ===== verification/Opa.v ===== *)
(** [internal/daemon/tracing.go] and [internal/daemon/opa.go]: what the daemon
    writes into and passes along with OPA's native configuration.  The decoded
    configuration file is an argument; a Go map is ranged over in an arbitrary
    order, so the order is an argument too; the decimal form of a float64 is the
    parameter [print_float] ([None] for NaN and the infinities, which
    [json.Marshal] refuses). *)
From Stdlib Require Import SpecFloat.
From stdpp Require Import pretty.
From S2P Require Import Prelude GoStrings GoPath Tracing Config Json.

Inductive opa_error :=
| ReadOPAConfiguration
| InvalidOPAConfiguration
| UnsupportedValue
| FixturePolicies.

(** ** [tracing.go] *)
Definition resource_names : gmap string string :=
  list_to_map [("service.version", "service_version"); ("service.instance.id", "service_instance_id");
               ("service.namespace", "service_namespace"); ("deployment.environment", "deployment_environment")].
Definition batch_names : gmap string string :=
  list_to_map [("SCHEDULE_DELAY", "batch_timeout_ms"); ("EXPORT_TIMEOUT", "export_timeout_ms");
               ("MAX_QUEUE_SIZE", "max_queue_size"); ("MAX_EXPORT_BATCH_SIZE", "max_export_batch_size")].
(** Indexing the literal map: the empty string for a missing key. *)
Definition rename (table : gmap string string) (k : string) : string := default "" (table !! k).

(** [for k, v := range m { out[rename k] = value v }] over [order]. *)
Definition translate {V} (table : gmap string string) (value : V -> json) (order : list (string * V))
    (out : gmap string json) : gmap string json :=
  fold_left (fun out kv => <[rename table kv.1 := value kv.2]> out) order out.

Definition json_number (n : Z) : json := JNumber (pretty n).
Definition encryption (otel : Tracing) : string :=
  let encryption := "off" in
  let encryption := if TLS otel then "tls" else encryption in
  if ClientCertificate otel =s= "" then encryption else "mtls".

Section Tracing.
Context (print_float : spec_float -> option string).

Definition float_hundred : spec_float := S754_finite false 7036874417766400 (-46).
Definition percentage (r : spec_float) : spec_float := SFmul 53 1024 r float_hundred.

Definition tracing_object (otel : Tracing) (resources : list (string * string)) (batches : list (string * Z))
    : result opa_error json :=
  if Disabled otel then Ok (JObject ∅) else
  match print_float (percentage (SampleRatio otel)) with
  | None => Err UnsupportedValue
  | Some sample =>
      Ok (object [("type", JString (if Protocol otel =s= "grpc" then "grpc" else "http"));
        ("address", JString (Address otel)); ("service_name", JString (ServiceName otel));
        ("sample_percentage", JNumber sample); ("encryption", JString (encryption otel));
        ("allow_insecure_tls", JBool false); ("tls_ca_cert_file", JString (Certificate otel));
        ("tls_cert_file", JString (ClientCertificate otel)); ("tls_private_key_file", JString (ClientKey otel));
        ("resource", JObject (translate resource_names JString resources ∅));
        ("batch_span_processor_options",
          JObject (translate batch_names json_number batches (<["blocking" := JBool false]> ∅)))])
  end.

(** [file] is the decoded configuration file, [None] for the nil map.  The result
    is the path OPA reads and, when the daemon wrote it, the document there. *)
Definition prepareOPA (c : Config) (file : result opa_error (option (gmap string json)))
    (resources : list (string * string)) (batches : list (string * Z))
    : result opa_error (string * option (gmap string json)) :=
  match cfg_Tracing c with
  | None => Ok (OPAConfig c, None)
  | Some otel =>
      native ← file;
      let native := default ∅ native in
      tracing ← tracing_object otel resources batches;
      Ok (path_join (RuntimeDir c) "opa.json", Some (<["distributed_tracing" := tracing]> native))
  end.
End Tracing.

(** ** [opa.go] and the parameters of [Run] *)
Record Params := {
  ConfigFile : string;
  Paths : list string;
  Addrs : list string;
  AddrSetByUser : bool;
  UnixSocketPerm : string;
  ConfigOverrides : list string;
}.

Section Host.
Context (PluginName DecisionPath : string).

Definition runtime_params (c : Config) (configFile : string) (policies : list string) : Params :=
  {| ConfigFile := configFile; Paths := policies;
     Addrs := ["unix://" +:+ path_join (RuntimeDir c) "opa-api.sock"]; AddrSetByUser := true;
     UnixSocketPerm := "0600";
     ConfigOverrides := ["plugins.envoy_ext_authz_grpc.addr=" +:+ OPAAddress c;
       "plugins.envoy_ext_authz_grpc.dry-run=false";
       "plugins.envoy_ext_authz_grpc.enable-reflection=false"] |}.

(** [plugins] is the decoded [plugins] object of the file. *)
Definition configurePolicyHost (c : Config) (params : Params)
    (plugins : result opa_error (gmap string json)) : result opa_error (bool * Params) :=
  plugins ← plugins;
  match plugins !! PluginName with
  | None => Ok (false, params)
  | Some _ =>
      fail_if negb (match Paths params with [] => true | _ => false end) with FixturePolicies ;;
      Ok (true, {| ConfigFile := ConfigFile params; Paths := Paths params; Addrs := Addrs params;
        AddrSetByUser := AddrSetByUser params; UnixSocketPerm := UnixSocketPerm params;
        ConfigOverrides := ConfigOverrides params ++
          ["plugins." +:+ PluginName +:+ ".role=" +:+ cfg_Role c;
           "plugins.envoy_ext_authz_grpc.path=" +:+ DecisionPath;
           "plugins.envoy_ext_authz_grpc.skip-request-body-parse=true"] |})
  end.
End Host.

(** ** Translating a map, in any order *)
Lemma translate_lookup {V} table (value : V -> json) (order : list (string * V)) : forall out,
  NoDup order.*1 -> (forall k1 k2, k1 ∈ order.*1 -> k2 ∈ order.*1 -> rename table k1 = rename table k2 -> k1 = k2) ->
  forall n j, translate table value order out !! n = Some j <->
    (exists k v, (k, v) ∈ order /\ rename table k = n /\ value v = j) \/
    (out !! n = Some j /\ forall k, k ∈ order.*1 -> rename table k <> n).
Proof.
  unfold translate. induction order as [|[k v] order IH]; intros out Hnd Hinj n j; cbn [fold_left fst snd].
  { split.
    - intros H. right. split; [done|]. by intros k ?%not_elem_of_nil.
    - intros [(k & v & ?%not_elem_of_nil & _)|[H _]]; done. }
  cbn in Hnd, Hinj. apply NoDup_cons in Hnd as [Hk Hnd].
  rewrite IH; [|done|intros; apply Hinj; [by right..|done]].
  setoid_rewrite elem_of_cons. split.
  - intros [(k' & v' & Hin & <- & <-)|[Hl Hne]]; [left; eauto 8|].
    apply lookup_insert_Some in Hl as [[<- <-]|[Hkn Hl]]; [left; eauto 8|].
    right. split; [done|]. intros k' [->|Hk']; [done|]. by apply Hne.
  - intros [(k' & v' & [[= -> ->]|Hin] & <- & <-)|[Hl Hne]].
    + right. rewrite lookup_insert_eq. split; [done|]. intros k' Hk' Heq.
      assert (k' = k) by (apply Hinj; [by right|by left|done]). by subst.
    + left. eauto 8.
    + right. split; [|intros; apply Hne; auto]. rewrite lookup_insert_ne; [done|]. apply Hne. auto.
Qed.

(** The table maps the keys it knows one to one, and away from [avoid]. *)
Definition table_inj (table : gmap string string) (keys : list string) : bool :=
  forallb (fun k => forallb (fun k' => (k =s= k') || negb (rename table k =s= rename table k')) keys) keys.
Lemma table_inj_spec table keys : table_inj table keys = true ->
  forall k1 k2, k1 ∈ keys -> k2 ∈ keys -> rename table k1 = rename table k2 -> k1 = k2.
Proof.
  unfold table_inj. rewrite forallb_forall. intros H k1 k2 H1%list_elem_of_In H2%list_elem_of_In He.
  specialize (H k1 H1). rewrite forallb_forall in H. specialize (H k2 H2).
  rewrite He, String.eqb_refl, orb_false_r in H. by apply String.eqb_eq.
Qed.

(** The keys [LoadTracing] lets through. *)
Definition resource_keys : list string :=
  ["service.version"; "service.instance.id"; "service.namespace"; "deployment.environment"].



Lemma resource_keys_spec k : resource_key k = true -> k ∈ resource_keys.
Proof. intros H%bool_decide_eq_true. exact H. Qed.



Lemma translate_perm {V} table (value : V -> json) (o1 o2 : list (string * V)) keys out :
  o1 ≡ₚ o2 -> NoDup o1.*1 -> (forall k, k ∈ o1.*1 -> k ∈ keys) -> table_inj table keys = true ->
  translate table value o1 out = translate table value o2 out.
Proof.
  intros Hp Hnd Hk Ht.
  assert (Hnd2 : NoDup o2.*1) by by rewrite <- Hp.
  assert (Hk2 : forall k, k ∈ o2.*1 -> k ∈ keys) by (intros k; rewrite <- Hp; apply Hk).
  assert (H1 := translate_lookup table value o1 out Hnd (fun k1 k2 A B => table_inj_spec _ _ Ht k1 k2 (Hk _ A) (Hk _ B))).
  assert (H2 := translate_lookup table value o2 out Hnd2 (fun k1 k2 A B => table_inj_spec _ _ Ht k1 k2 (Hk2 _ A) (Hk2 _ B))).
  apply map_eq. intros n. apply option_eq. intros j. rewrite H1, H2.
  setoid_rewrite Hp. done.
Qed.

Lemma tracing_object_perm up pf t ro bo ro' bo' :
  wf_tracing up t -> ro ≡ₚ map_to_list (Resource t) -> bo ≡ₚ map_to_list (Batch t) ->
  ro ≡ₚ ro' -> bo ≡ₚ bo' -> tracing_object pf t ro bo = tracing_object pf t ro' bo'.
Proof.
  intros Hwf Hro Hbo Hr Hb. unfold tracing_object.
  rewrite (translate_perm resource_names JString ro ro' resource_keys ∅ Hr).
  - rewrite (translate_perm batch_names json_number bo bo' batch_suffixes _ Hb); [done| | |done].
    + rewrite Hbo. apply NoDup_fst_map_to_list.
    + intros k ([k' v] & -> & Hv)%list_elem_of_fmap. rewrite Hbo, elem_of_map_to_list in Hv.
      by apply (wf_batch _ _ Hwf) in Hv as [? _].
  - rewrite Hro. apply NoDup_fst_map_to_list.
  - intros k ([k' v] & -> & Hv)%list_elem_of_fmap. rewrite Hro, elem_of_map_to_list in Hv.
    by apply (wf_resource _ _ Hwf), resource_keys_spec in Hv.
  - done.
Qed.

(** A mutually authenticated tracing configuration. *)
Definition demo_tracing : Tracing :=
  {| Disabled := false; Protocol := "grpc"; Address := "collector:4317"; TLS := true; Certificate := "/ca.pem";
     ClientCertificate := "/client.pem"; ClientKey := "/client.key"; ServiceName := "gateway";
     Resource := <["service.version" := "1.2"]> (<["service.namespace" := "egress"]> ∅);
     SampleRatio := float_one; Batch := <["MAX_QUEUE_SIZE" := 4096]> ∅ |}.
Definition demo_tls_url : URL :=
  {| Scheme := "https"; User := None; Host := "collector:4317"; Path := ""; RawQuery := ""; Fragment := "" |}.
Lemma demo_tracing_wf : wf_tracing (fun _ => Some demo_tls_url) demo_tracing.
Proof.
  constructor; cbn; auto; try done.
  - exists "https://collector:4317", demo_tls_url. split_and!; auto. right. right. split_and!; auto.
  - intros k v [[<- _]|[_ [[<- _]|[_ ?]]%lookup_insert_Some]]%lookup_insert_Some; done.
  - intros k n [[<- <-]|[_ ?]]%lookup_insert_Some; [|done]. split; [|vm_compute; split; congruence].
    apply elem_of_cons; right. apply elem_of_cons; right. by apply elem_of_cons; left.
Qed.

Definition demo_native : gmap string json := <["distributed_tracing" := JNull]> (<["services" := JNull]> ∅).
Definition demo_silenced : Config := set_Tracing Defaults (Some disabled_tracing).

(** ** Properties *)



(** The generated document does not depend on the order in which Go ranges over
    the resource and batch maps. *)
Theorem opa_tracing_deterministic up pf t ro bo ro' bo' :
  wf_tracing up t -> ro ≡ₚ map_to_list (Resource t) -> bo ≡ₚ map_to_list (Batch t) ->
  ro ≡ₚ ro' -> bo ≡ₚ bo' -> tracing_object pf t ro bo = tracing_object pf t ro' bo'.
Proof. apply tracing_object_perm. Qed.

Lemma opa_tracing_deterministic_witness :
  tracing_object (fun _ => Some "100") demo_tracing (map_to_list (Resource demo_tracing)) (map_to_list (Batch demo_tracing)) =
  tracing_object (fun _ => Some "100") demo_tracing (reverse (map_to_list (Resource demo_tracing))) (map_to_list (Batch demo_tracing)).
Proof.
  apply (opa_tracing_deterministic (fun _ => Some demo_tls_url)).
  - exact demo_tracing_wf.
  - reflexivity.
  - reflexivity.
  - symmetry. apply reverse_Permutation.
  - reflexivity.
Defined.

(** OPA's native configuration is preserved: without tracing inputs OPA reads
    the native file itself and nothing is written; with them only
    [distributed_tracing] differs, and disabled tracing empties it even over a
    native setting. *)
Theorem opa_config_preserved pf c file ro bo path doc :
  prepareOPA pf c file ro bo = Ok (path, doc) ->
  match cfg_Tracing c with
  | None => path = OPAConfig c /\ doc = None
  | Some t => path = path_join (RuntimeDir c) "opa.json" /\
      exists native d, file = Ok native /\ doc = Some d /\
      (forall k, k <> "distributed_tracing" -> d !! k = default ∅ native !! k) /\
      (Disabled t = true -> d !! "distributed_tracing" = Some (JObject ∅))
  end.
Proof.
  unfold prepareOPA. destruct (cfg_Tracing c) as [t|]; [|by intros [= <- <-]].
  intros (native & -> & (j & Hj & [= <- <-])%bind_Ok)%bind_Ok. split; [done|].
  eexists native, _. split; [done|]. split; [done|]. split.
  - intros k Hk. by rewrite lookup_insert_ne.
  - intros Hd. rewrite lookup_insert_eq. unfold tracing_object in Hj. rewrite Hd in Hj. by injection Hj as <-.
Qed.

Lemma opa_config_preserved_witness :
  prepareOPA (fun _ => None) demo_silenced (Ok (Some demo_native)) [] [] =
    Ok ("/run/gateway/private/opa.json", Some (<["distributed_tracing" := JObject ∅]> demo_native)) /\
  match cfg_Tracing demo_silenced with
  | None => False
  | Some t => "/run/gateway/private/opa.json" = path_join (RuntimeDir demo_silenced) "opa.json" /\
      exists native d, Ok (E:=opa_error) (Some demo_native) = Ok native /\
      Some (<["distributed_tracing" := JObject ∅]> demo_native) = Some d /\
      (forall k, k <> "distributed_tracing" -> d !! k = default ∅ native !! k) /\
      (Disabled t = true -> d !! "distributed_tracing" = Some (JObject ∅))
  end.
Proof.
  split; [vm_compute; reflexivity|].
  apply (opa_config_preserved (fun _ => None) demo_silenced (Ok (Some demo_native)) [] []).
  vm_compute. reflexivity.
Defined.
