(* ===== verification/Fs.v ===== *)
(** A model of the file-system calls of the gateway: inodes and directory
    entries with their durable counterparts, system calls that may fault, a log
    of every intermediate state, and a crash logic over it.  Nothing here models
    code of the repository; [Ca] translates the code that uses it. *)
From S2P Require Import Prelude GoStrings GoPath Tracing.

Inductive io_error :=
| NotExist
| Exist
| Fault
| Message (text : string).

(** [synced] regular files survive a crash with their data; a symbolic link
    carries the data of the regular file it leads to, if any. *)
Inductive inode :=
| Regular (data : string) (perm : Z) (synced : bool)
| Folder (perm : Z)
| Symlink (resolved : option string)
| Special.

(** [dirents] is what processes see; [durable] is what a crash may fall back to,
    entry by entry.  [flocks] holds the inodes under an exclusive [flock]. *)
Record fs := {
  dirents : gmap string nat;
  durable : gmap string nat;
  inodes : gmap nat inode;
  next : nat;
  flocks : gset nat;
}.

(** The environment of a run: which system calls fault, how much of an
    interrupted write reaches the file, and the random part of temporary names. *)
Record world := {
  fs_of : fs;
  log : list fs;
  clock : nat;
  fault : nat -> bool;
  chunk : nat -> nat;
  suffix : nat -> N;
}.

Definition io (A : Type) : Type := world -> result io_error A * world.
#[export] Instance io_ret : MRet io := fun _ a w => (Ok a, w).
#[export] Instance io_bind : MBind io := fun _ _ f m w =>
  match m w with
  | (Ok a, w) => f a w
  | (Err e, w) => (Err e, w)
  | (Panic, w) => (Panic, w)
  end.
Definition throw {A} (e : io_error) : io A := fun w => (Err e, w).
(** The result of [m] as a value: [x, err := m]. *)
Definition try {A} (m : io A) : io (result io_error A) := fun w => let '(r, w) := m w in (Ok r, w).
Definition of_result {A} (r : result io_error A) : io A := fun w => (r, w).
(** [defer cleanup; m], the error of [cleanup] dropped. *)
Definition finally {A B} (m : io A) (cleanup : io B) : io A := fun w =>
  let '(r, w) := m w in let '(_, w) := cleanup w in (r, w).
(** [defer func() { if err != nil { cleanup } }(); m]. *)
Definition on_error {A B} (m : io A) (cleanup : io B) : io A := fun w =>
  match m w with
  | (Ok a, w) => (Ok a, w)
  | (r, w) => let '(_, w) := cleanup w in (r, w)
  end.
Definition io_guard {A} (b : bool) (e : io_error) (k : io A) : io A := if b then throw e else k.

(** One system call: it faults, or takes effect at once. *)
Definition syscall {A} (eff : fs -> result io_error (A * fs)) : io A := fun w =>
  let tick s l := {| fs_of := s; log := l; clock := S (clock w); fault := fault w; chunk := chunk w; suffix := suffix w |} in
  if fault w (clock w) then (Err Fault, tick (fs_of w) (log w))
  else match eff (fs_of w) with
       | Ok (a, s) => (Ok a, tick s (s :: log w))
       | Err e => (Err e, tick (fs_of w) (log w))
       | Panic => (Panic, tick (fs_of w) (log w))
       end.
(** An effect that cannot fail, such as a descriptor's release on [close]. *)
Definition always (eff : fs -> fs) : io unit := fun w =>
  (Ok tt, {| fs_of := eff (fs_of w); log := eff (fs_of w) :: log w; clock := clock w; fault := fault w;
             chunk := chunk w; suffix := suffix w |}).
Definition choose {A} (f : world -> A) : io A := fun w => (Ok (f w), w).

(** ** Effects *)
Definition node (s : fs) (p : string) : option inode := dirents s !! p ≫= fun i => inodes s !! i.
Definition set_dirents (s : fs) d := {| dirents := d; durable := durable s; inodes := inodes s; next := next s; flocks := flocks s |}.
Definition set_durable (s : fs) d := {| dirents := dirents s; durable := d; inodes := inodes s; next := next s; flocks := flocks s |}.
Definition set_inode (s : fs) (i : nat) (n : inode) :=
  {| dirents := dirents s; durable := durable s; inodes := <[i := n]> (inodes s); next := next s; flocks := flocks s |}.
Definition set_flocks (s : fs) l := {| dirents := dirents s; durable := durable s; inodes := inodes s; next := next s; flocks := l |}.
(** A new directory entry with a new inode. *)
Definition add_node (s : fs) (p : string) (n : inode) : fs :=
  {| dirents := <[p := next s]> (dirents s); durable := durable s; inodes := <[next s := n]> (inodes s);
     next := S (next s); flocks := flocks s |}.

(** [filepath.Dir]. *)
Definition path_dir (p : string) : string :=
  match cut_last slash p with Some (a, _) => clean (a +:+ sep1) | None => "." end.

Definition create_excl (p : string) (perm : Z) (s : fs) : result io_error (nat * fs) :=
  match dirents s !! p with
  | Some _ => Err Exist
  | None => Ok (next s, add_node s p (Regular "" perm false))
  end.
Definition change_file (i : nat) (f : string -> Z -> bool -> inode) (s : fs) : result io_error (unit * fs) :=
  match inodes s !! i with
  | Some (Regular d m b) => Ok (tt, set_inode s i (f d m b))
  | _ => Err Fault
  end.
Definition rename_effect (old new : string) (s : fs) : result io_error (unit * fs) :=
  match dirents s !! old with
  | None => Err NotExist
  | Some i =>
      match node s new with
      | Some (Folder _) => Err Exist
      | _ => Ok (tt, set_dirents s (<[new := i]> (delete old (dirents s))))
      end
  end.
Definition link_effect (old new : string) (s : fs) : result io_error (unit * fs) :=
  match dirents s !! old with
  | None => Err NotExist
  | Some i => match dirents s !! new with
              | Some _ => Err Exist
              | None => Ok (tt, set_dirents s (<[new := i]> (dirents s)))
              end
  end.
Definition unlink_effect (p : string) (s : fs) : result io_error (unit * fs) :=
  match dirents s !! p with
  | None => Err NotExist
  | Some _ => Ok (tt, set_dirents s (delete p (dirents s)))
  end.
Definition sync_dir_effect (d : string) (s : fs) : result io_error (unit * fs) :=
  Ok (tt, set_durable s (filter (fun kv => path_dir kv.1 <> d) (durable s) ∪
                         filter (fun kv => path_dir kv.1 = d) (dirents s))).
Definition pure_effect (s : fs) : result io_error (unit * fs) := Ok (tt, s).

(** ** Crash logic: [wp faulty I m Q s] holds when every run of [m] from the file
    system [s] ([faulty]: whatever faults occur; otherwise without faults) logs
    only states in [I] and ends in [Q]. *)
Definition quiet (w : world) : Prop := forall n, fault w n = false.
Definition wp {A} (faulty : bool) (I : fs -> Prop) (m : io A) (Q : result io_error A -> fs -> Prop) (s : fs) : Prop :=
  forall w, fs_of w = s -> faulty = true \/ quiet w -> let '(r, w') := m w in
    Q r (fs_of w') /\ (exists new, log w' = new ++ log w /\ Forall I new) /\ fault w' = fault w.

Section Rules.
Context (faulty : bool) (I : fs -> Prop).
Abbreviation wp := (wp faulty I).

(** A run that logged [n1], then one that logged [n2]. *)
Lemma log_app (l l1 l2 n1 n2 : list fs) :
  l1 = n1 ++ l -> Forall I n1 -> l2 = n2 ++ l1 -> Forall I n2 -> exists new, l2 = new ++ l /\ Forall I new.
Proof. intros -> F1 -> F2. exists (n2 ++ n1). rewrite app_assoc. split; [done|]. by apply Forall_app. Qed.

Lemma wp_mono {A} (m : io A) (Q Q' : result io_error A -> fs -> Prop) s :
  wp m Q s -> (forall r s', Q r s' -> Q' r s') -> wp m Q' s.
Proof. intros H HQ w Hw Hf. specialize (H w Hw Hf). destruct (m w) as [r w']. destruct H. auto. Qed.

Lemma wp_here {A} (r : result io_error A) (Q : result io_error A -> fs -> Prop) s :
  Q r s -> wp (fun w => (r, w)) Q s.
Proof. intros HQ w <- _. split; [done|]. split; [by exists []|done]. Qed.
Lemma wp_ret {A} (a : A) Q s : Q (Ok a) s -> wp (mret a) Q s.
Proof. apply wp_here. Qed.
Lemma wp_throw {A} e (Q : result io_error A -> fs -> Prop) s : Q (Err e) s -> wp (throw e) Q s.
Proof. apply wp_here. Qed.
Lemma wp_of_result {A} (r : result io_error A) Q s : Q r s -> wp (of_result r) Q s.
Proof. apply wp_here. Qed.
Lemma wp_choose {A} (f : world -> A) Q s : (forall a, Q (Ok a) s) -> wp (choose f) Q s.
Proof. intros HQ w <- _. cbn. split; [done|]. split; [by exists []|done]. Qed.
Lemma wp_always eff (Q : result io_error unit -> fs -> Prop) s : I (eff s) -> Q (Ok tt) (eff s) -> wp (always eff) Q s.
Proof.
  intros HI HQ w <- _. cbn. split; [done|]. split; [|done]. exists [eff (fs_of w)]. split; [done|]. by constructor.
Qed.

(** The continuation rule behind every sequencing construct. *)
Lemma wp_then {A B} (m : io A) (k : result io_error A -> io B) Q s :
  wp m (fun r s' => wp (k r) Q s') s -> wp (fun w => let '(r, w) := m w in k r w) Q s.
Proof.
  intros H w Hw Hf. specialize (H w Hw Hf). destruct (m w) as [r w1]. destruct H as (H & (n1 & E1 & F1) & Hq).
  assert (Hf1 : faulty = true \/ quiet w1) by (unfold quiet; rewrite Hq; done).
  specialize (H w1 eq_refl Hf1). destruct (k r w1) as [r2 w2]. destruct H as (H & (n2 & E2 & F2) & Hq2).
  split; [done|]. split; [by eapply log_app|congruence].
Qed.
Lemma wp_ext {A} (m m' : io A) Q s : (forall w, m w = m' w) -> wp m' Q s -> wp m Q s.
Proof. intros E H w Hw Hf. rewrite E. by apply H. Qed.

Lemma wp_bind {A B} (m : io A) (f : A -> io B) Q s :
  wp m (fun r s' => match r with Ok a => wp (f a) Q s' | Err e => Q (Err e) s' | Panic => Q Panic s' end) s ->
  wp (m ≫= f) Q s.
Proof.
  intros H. apply wp_ext with (m' := fun w => let '(r, w) := m w in
    match r with Ok a => f a | Err e => fun w => (Err e, w) | Panic => fun w => (Panic, w) end w).
  { intros w. unfold mbind, io_bind. by destruct (m w) as [[] ?]. }
  apply (wp_then m (fun r => match r with Ok a => f a | Err e => fun w => (Err e, w) | Panic => fun w => (Panic, w) end)).
  eapply wp_mono; [exact H|]. intros [a|e|] s'; [done|apply wp_here..].
Qed.
Lemma wp_try {A} (m : io A) Q s : wp m (fun r s' => Q (Ok r) s') s -> wp (try m) Q s.
Proof.
  intros H. apply (wp_then m (fun r w => (Ok r, w))). eapply wp_mono; [exact H|]. intros r s' HQ. exact (wp_here (Ok r) Q s' HQ).
Qed.
Lemma wp_finally {A B} (m : io A) (c : io B) Q s :
  wp m (fun r s' => wp c (fun _ s'' => Q r s'') s') s -> wp (finally m c) Q s.
Proof.
  intros H. apply (wp_then m (fun r w => let '(_, w) := c w in (r, w))). eapply wp_mono; [exact H|].
  intros r s' Hc. apply (wp_then c (fun _ w => (r, w))). eapply wp_mono; [exact Hc|]. intros r' s'' HQ. exact (wp_here r Q s'' HQ).
Qed.
Lemma wp_on_error {A B} (m : io A) (c : io B) Q s :
  wp m (fun r s' => match r with Ok a => Q (Ok a) s' | _ => wp c (fun _ s'' => Q r s'') s' end) s ->
  wp (on_error m c) Q s.
Proof.
  intros H. apply wp_ext with (m' := fun w => let '(r, w) := m w in
    match r with Ok a => fun w => (Ok a, w) | _ => fun w => let '(_, w) := c w in (r, w) end w).
  { intros w. unfold on_error. by destruct (m w) as [[] ?]. }
  apply (wp_then m (fun r => match r with Ok a => fun w => (Ok a, w) | _ => fun w => let '(_, w) := c w in (r, w) end)).
  eapply wp_mono; [exact H|]. intros [a|e|] s' Hc; [by apply wp_here|..].
  - apply (wp_then c (fun _ w => (Err e, w))). eapply wp_mono; [exact Hc|]. intros r' s'' HQ. exact (wp_here (Err e) Q s'' HQ).
  - apply (wp_then c (fun _ w => (Panic, w))). eapply wp_mono; [exact Hc|]. intros r' s'' HQ. exact (wp_here Panic Q s'' HQ).
Qed.
Lemma wp_guard {A} b e (k : io A) Q s : (b = true -> Q (Err e) s) -> (b = false -> wp k Q s) -> wp (io_guard b e k) Q s.
Proof. intros H1 H2. unfold io_guard. destruct b; [apply wp_throw|]; auto. Qed.

Lemma wp_syscall_quiet {A} (eff : fs -> result io_error (A * fs)) Q s :
  (faulty = true -> Q (Err Fault) s) ->
  match eff s with Ok (a, s') => I s' /\ Q (Ok a) s' | Err e => Q (Err e) s | Panic => Q Panic s end ->
  wp (syscall eff) Q s.
Proof.
  intros Hf He w <- Hq. unfold syscall. destruct (fault w (clock w)) eqn:Ef.
  { destruct Hq as [Hq|Hq]; [|by rewrite Hq in Ef]. split; [by apply Hf|]. split; [by exists []|done]. }
  destruct (eff (fs_of w)) as [[a s']|e|]; cbn; [|split; [done|split; [by exists []|done]]..].
  destruct He as [HI HQ]. split; [done|]. split; [|done]. exists [s']. split; [done|]. by constructor.
Qed.
Lemma wp_syscall {A} (eff : fs -> result io_error (A * fs)) Q s :
  Q (Err Fault) s ->
  match eff s with Ok (a, s') => I s' /\ Q (Ok a) s' | Err e => Q (Err e) s | Panic => Q Panic s end ->
  wp (syscall eff) Q s.
Proof. intros Hf. by apply wp_syscall_quiet. Qed.
End Rules.

Lemma wp_conseq {A} b (I I' : fs -> Prop) (m : io A) Q s :
  wp b I m Q s -> (forall s, I s -> I' s) -> wp b I' m Q s.
Proof.
  intros H HI w Hw Hf. specialize (H w Hw Hf). destruct (m w) as [r w']. destruct H as (H & (n & E & F) & Hq).
  split; [done|]. split; [|done]. exists n. split; [done|]. eapply Forall_impl; [exact F|exact HI].
Qed.
Lemma wp_and {A} b (I1 I2 : fs -> Prop) (m : io A) Q1 Q2 s :
  wp b I1 m Q1 s -> wp b I2 m Q2 s -> wp b (fun s => I1 s /\ I2 s) m (fun r s' => Q1 r s' /\ Q2 r s') s.
Proof.
  intros H1 H2 w Hw Hf. specialize (H1 w Hw Hf). specialize (H2 w Hw Hf). destruct (m w) as [r w'].
  destruct H1 as (H1 & (n1 & E1 & F1) & Hq), H2 as (H2 & (n2 & E2 & F2) & _).
  split; [done|]. split; [|done]. exists n1. split; [done|]. apply Forall_and. split; [done|].
  rewrite E1 in E2. by apply app_inv_tail in E2 as ->.
Qed.

(** ** What a crash may leave *)
Definition inode_may (s : fs) (i : nat) (d : string) : Prop :=
  match inodes s !! i with
  | Some (Regular x _ true) => d = x
  | Some (Regular _ _ false) => True
  | _ => False
  end.
(** After a crash in [s], a regular file with data [c] ([None]: no file) may be
    found at [p]. *)
Definition possible (s : fs) (p : string) (c : option string) : Prop :=
  exists e, (e = dirents s !! p \/ e = durable s !! p) /\
    match e, c with Some i, Some d => inode_may s i d | None, None => True | _, _ => False end.
(** [p] durably holds [c]. *)
Definition holds (s : fs) (e : option nat) (c : option string) : Prop :=
  match e, c with
  | Some i, Some d => exists m, inodes s !! i = Some (Regular d m true)
  | None, None => True
  | _, _ => False
  end.
Definition settled (s : fs) (p : string) (c : option string) : Prop :=
  durable s !! p = dirents s !! p /\ holds s (dirents s !! p) c.

Lemma holds_may s e c x : holds s e c ->
  match e, x with Some i, Some d => inode_may s i d | None, None => True | _, _ => False end -> x = c.
Proof.
  unfold holds, inode_may. destruct e as [i|], c as [d|], x as [y|]; try done. intros [m ->]. by intros ->.
Qed.
Lemma settled_possible s p c x : settled s p c -> possible s p x -> x = c.
Proof. intros [Hd Hh] (e & [->| ->] & Hx); [|rewrite Hd in Hx]; by eapply holds_may. Qed.

Record fs_wf (s : fs) : Prop := {
  wf_dirents : forall p i, dirents s !! p = Some i -> (i < next s)%nat;
  wf_durable : forall p i, durable s !! p = Some i -> (i < next s)%nat;
}.

Lemma sync_lookup d s p :
  (filter (fun kv => path_dir kv.1 <> d) (durable s) ∪ filter (fun kv => path_dir kv.1 = d) (dirents s)) !! p
  = if decide (path_dir p = d) then dirents s !! p else durable s !! p.
Proof.
  apply option_eq. intros i. rewrite lookup_union_Some.
  - rewrite !map_lookup_filter_Some. cbn. destruct (decide _); tauto.
  - apply map_disjoint_spec. intros q x y [_ Hx]%map_lookup_filter_Some [_ Hy]%map_lookup_filter_Some. cbn in *. done.
Qed.
