(* ===== verification/Ca.v ===== *)
(** [internal/inspection/ca.go]: the Pod-local inspection authority on the
    file-system model of [Fs].  The x509, tls, pem and json library functions are
    parameters ([Pki], with [Leaf]'s [Crypto] and [Signer]); [umask] is the
    process's file-mode mask. *)
From stdpp Require Import pretty.
From S2P Require Import Prelude GoStrings GoPath Tracing Config Leaf Fs.

Record state := { st_Certificate : string; st_PrivateKey : string }.

(** What [tls.X509KeyPair] yields of a matching pair. *)
Record key_pair `{Crypto} := {
  kp_Leaf : option Certificate;
  kp_Raw : string;
  kp_self_signed : bool;
  kp_ecdsa : option PrivateKey;
}.

Record pem_block := { blk_Type : string; blk_Headers : list (string * string); blk_Bytes : string }.

Class Pki `{Crypto} := {
  marshal_state : state -> option string;
  unmarshal_state : string -> option state;
  X509KeyPair : string -> string -> option key_pair;
  pem_decode : string -> option pem_block * string;
  pem_encode_block : pem_block -> option string;
  parse_certificate : string -> bool;
  add_years : Z -> Z -> Z;
}.

(** ** Directories and atomic files *)
Section Files.
Context (umask : Z).

Definition prefixes (p : string) : list string :=
  let es := elements p in map (fun k => abs_path (take k es)) (seq 1 (length es)).

(** [os.MkdirAll].  What it creates behind a symbolic link is not tracked: the
    link is rejected by the next step. *)
Definition mkdir (p : string) (mode : Z) (s : fs) : result io_error (bool * fs) :=
  match dirents s !! p with
  | None => Ok (true, add_node s p (Folder (Z.land mode (Z.lnot umask))))
  | Some i => match inodes s !! i with
              | Some (Folder _) => Ok (true, s)
              | Some (Symlink _) => Ok (false, s)
              | _ => Err Fault
              end
  end.
Fixpoint mkdir_all (ps : list string) (mode : Z) : io unit :=
  match ps with
  | [] => mret tt
  | p :: r => more ← syscall (mkdir p mode); if more : bool then mkdir_all r mode else mret tt
  end.

(** [filepath.EvalSymlinks(path)] and the comparison with [path]: a result without
    links equals the path exactly when no component is a link. *)
Definition is_symlink (n : option inode) : bool := match n with Some (Symlink _) => true | _ => false end.
Definition eval_same (p : string) (s : fs) : result io_error (bool * fs) :=
  if existsb (fun q => is_symlink (node s q)) (prefixes p) then Ok (false, s)
  else match node s p with None => Err NotExist | Some _ => Ok (true, s) end.
Definition stat (p : string) (s : fs) : result io_error (inode * fs) :=
  match node s p with None => Err NotExist | Some n => Ok (n, s) end.

Definition Directory (path : string) (mode : Z) : io unit :=
  io_guard (negb (is_abs path) || negb (clean path =s= path)) (Message "directory requires a clean absolute path") (
  _ ← mkdir_all (prefixes path) mode;
  same ← syscall (eval_same path);
  io_guard (negb same) (Message "directory must not contain symlinks") (
  info ← syscall (stat path);
  let forbidden := if mode =? 448 then 63 else 18 in
  match info with
  | Folder perm => io_guard (negb (Z.land perm forbidden =? 0)) (Message "unsafe directory permissions") (mret tt)
  | _ => throw (Message "unsafe directory permissions")
  end)).

(** [readPrivate]. *)
Definition open_read (p : string) (s : fs) : result io_error (nat * fs) :=
  match dirents s !! p with
  | None => Err NotExist
  | Some i => match inodes s !! i with
              | Some (Symlink _) | None => Err Fault
              | Some _ => Ok (i, s)
              end
  end.
Definition fstat (i : nat) (s : fs) : result io_error (inode * fs) :=
  match inodes s !! i with Some n => Ok (n, s) | None => Err Fault end.
Definition readPrivate (path : string) : io string :=
  i ← syscall (open_read path);
  finally
    (info ← syscall (fstat i);
     match info with
     | Regular data perm _ =>
         io_guard (negb (Z.land perm 63 =? 0) || (65536 <? slen data))
           (Message "unsafe inspection CA state file") (syscall (fun s => Ok (data, s)))
     | _ => throw (Message "unsafe inspection CA state file")
     end)
    (syscall pure_effect).

(** [writeAtomic] and [WriteAtomic]; [publish] is [os.Rename] or [os.Link]. *)
Definition temp_name (path : string) (n : N) : string := path_join (path_dir path) (".gateway-" +:+ pretty n).
Definition write_file (i : nat) (data : string) : io unit :=
  k ← choose (fun w => chunk w (clock w));
  _ ← syscall (change_file i (fun _ m _ => Regular (substring 0 k data) m false));
  syscall (change_file i (fun _ m _ => Regular data m false)).
Definition writeAtomic (path data : string) (mode : Z)
    (publish : string -> string -> fs -> result io_error (unit * fs)) : io unit :=
  n ← choose (fun w => suffix w (clock w));
  let name := temp_name path n in
  f ← syscall (create_excl name 384);
  finally (finally
    (_ ← syscall (change_file f (fun d _ b => Regular d mode b));
     _ ← write_file f data;
     _ ← syscall (change_file f (fun d m _ => Regular d m true));
     _ ← syscall pure_effect;
     _ ← syscall (publish name path);
     _ ← syscall pure_effect;
     finally (syscall (sync_dir_effect (path_dir path))) (syscall pure_effect))
    (syscall pure_effect))
    (syscall (unlink_effect name)).
Definition WriteAtomic (path data : string) (mode : Z) : io unit := writeAtomic path data mode rename_effect.

Definition read_file (p : string) (s : fs) : result io_error (string * fs) :=
  match node s p with
  | None => Err NotExist
  | Some (Regular d _ _) | Some (Symlink (Some d)) => Ok (d, s)
  | Some _ => Err Fault
  end.
End Files.

(** ** The authority *)
Section Authority.
Context `{Signer} `{!Pki} (umask : Z).

Definition publishCertificate (path certificate raw : string) : io unit :=
  r ← try (writeAtomic path certificate 420 link_effect);
  match r with
  | Err Exist =>
      published ← syscall (read_file path);
      let mismatch := throw (Message "published inspection CA does not match private state; refusing replacement") in
      match pem_decode published with
      | (None, _) => mismatch
      | (Some block, rest) =>
          if negb (blk_Type block =s= "CERTIFICATE") || negb (trim_space rest =s= "")
             || negb (blk_Bytes block =s= raw) then mismatch else mret tt
      end
  | r => of_result r
  end.

Definition ca_template (now serial : Z) : Certificate :=
  {| SerialNumber := serial; CommonName := "Gateway Pod inspection CA"; DNSNames := [];
     NotBefore := now - minute; NotAfter := add_years now 10; IsCA := true; BasicConstraintsValid := true;
     MaxPathLenZero := true; KeyUsage := ["CertSign"; "CRLSign"]; ExtKeyUsage := [] |}.
Definition generate (now : Z) (e : Entropy) : option state :=
  match GenerateKey e with
  | (None, _) => None
  | (Some key, e) =>
  match RandInt e with
  | (None, _) => None
  | (Some serial, e) =>
  let template := ca_template now serial in
  match CreateCertificate template template (public key) key e with
  | (None, _) => None
  | (Some der, _) =>
  match MarshalPKCS8 key with
  | None => None
  | Some private =>
      Some {| st_Certificate := pem_encode "CERTIFICATE" der; st_PrivateKey := pem_encode "PRIVATE KEY" private |}
  end end end end.

(** The entries of a directory: name, and whether the entry is a regular file. *)
Definition base (p : string) : string := match cut_last slash p with Some (_, b) => b | None => p end.
Definition read_dir (d : string) (s : fs) : result io_error (list (string * bool) * fs) :=
  let entry (kv : string * nat) := (base kv.1, match inodes s !! kv.2 with Some (Regular _ _ _) => true | _ => false end) in
  Ok (map entry (map_to_list (filter (fun kv => path_dir kv.1 = d) (dirents s))), s).
Definition ignorable (e : string * bool) : bool := (e.1 =s= ".lock") || (has_prefix e.1 ".gateway-" && e.2).

Definition open_lock (p : string) (s : fs) : result io_error (nat * fs) :=
  match dirents s !! p with
  | None => Ok (next s, add_node s p (Regular "" 384 false))
  | Some i => match inodes s !! i with Some (Regular _ _ _) => Ok (i, s) | _ => Err Fault end
  end.
Definition flock (i : nat) (s : fs) : result io_error (unit * fs) :=
  if bool_decide (i ∈ flocks s) then Err Fault else Ok (tt, set_flocks s ({[i]} ∪ flocks s)).
Definition release (i : nat) (s : fs) : fs := set_flocks s (flocks s ∖ {[i]}).

Definition lstat_absent (p : string) (s : fs) : result io_error (unit * fs) :=
  match dirents s !! p with None => Err NotExist | Some _ => Ok (tt, s) end.

(** The committed state: read, or generated and written when nothing exists. *)
Definition load_state (privateDir publicDir : string) (now : Z) (e : Entropy) : io state :=
  let statePath := path_join privateDir CAStateFile in
  r ← try (readPrivate statePath);
  match r with
  | Err NotExist =>
      r ← try (syscall (lstat_absent (path_join publicDir CACertificateFile)));
      match r with
      | Err NotExist =>
          entries ← syscall (read_dir privateDir);
          io_guard (negb (forallb ignorable entries))
            (Message "CA state missing from a nonempty private directory; refusing replacement") (
          match generate now e with
          | None => throw (Message "generate")
          | Some s =>
              match marshal_state s with
              | None => throw (Message "marshal")
              | Some raw => _ ← WriteAtomic statePath raw 384; mret s
              end
          end)
      | _ => throw (Message "private CA state missing while public trust exists; refusing replacement")
      end
  | Err e => throw e
  | Panic => of_result Panic
  | Ok raw =>
      match unmarshal_state raw with
      | None => throw (Message "invalid inspection CA state")
      | Some s => mret s
      end
  end.

Definition usable (now : Z) (cert : Certificate) : bool :=
  IsCA cert && BasicConstraintsValid cert && bool_decide ("CertSign" ∈ KeyUsage cert)
  && negb (now <? NotBefore cert) && (now + hour <? NotAfter cert).

(** The checks on the key pair. *)
Definition check_pair (now : Z) (s : state) : result io_error (Certificate * string * PrivateKey) :=
  match X509KeyPair (st_Certificate s) (st_PrivateKey s) with
  | None => Err (Message "invalid or mismatched inspection CA material")
  | Some kp =>
      match kp_Leaf kp with
      | None => Err (Message "inspection CA is not currently usable")
      | Some cert =>
          if negb (usable now cert) then Err (Message "inspection CA is not currently usable")
          else if negb (kp_self_signed kp) then Err (Message "inspection CA is not self-signed")
          else match kp_ecdsa kp with
               | None => Err (Message "unsupported inspection CA key")
               | Some key => Ok (cert, kp_Raw kp, key)
               end
      end
  end.

(** [Open], from the lock on. *)
Definition open_locked (privateDir publicDir : string) (now : Z) (e : Entropy) (lock : nat) : io (Authority * nat) :=
  s ← load_state privateDir publicDir now e;
  ckr ← of_result (check_pair now s);
  let '(cert, raw, key) := ckr in
  _ ← publishCertificate (path_join publicDir CACertificateFile) (st_Certificate s) raw;
  mret ({| auth_Certificate := cert; auth_key := key |}, lock).

Definition Open (privateDir publicDir : string) (now : Z) (e : Entropy) : io (Authority * nat) :=
  _ ← Directory umask privateDir 448;
  _ ← Directory umask publicDir 493;
  io_guard (privateDir =s= publicDir) (Message "CA public and private directories must differ") (
  lock ← syscall (open_lock (path_join privateDir ".lock"));
  r ← try (syscall (flock lock));
  match r with
  | Ok _ => on_error (open_locked privateDir publicDir now e lock) (always (release lock))
  | _ => finally (throw (Message "inspection state is already owned by another process")) (syscall pure_effect)
  end).

(** [Authority.Close]. *)
Definition Close (lock : nat) : io unit := always (release lock).

(** ** [Bundle] *)
Definition begin_marker : string := "-----BEGIN ".
Definition begin_certificate : string := "-----BEGIN CERTIFICATE-----".
(** [remaining[bytes.Index(remaining, marker):]], or nothing. *)
Fixpoint from_marker (marker s : string) : option string :=
  if has_prefix s marker then Some s
  else match s with EmptyString => None | String _ r => from_marker marker r end.

Inductive bundle_error :=
| OnlyCertificates
| InvalidPEM
| InvalidCertificate
| EncodeFailure
| NoCertificates.

(** The loop over the blocks of one input; [out] is the bundle so far.  The
    result carries whether a block was found. *)
Fixpoint bundle_input (fuel : nat) (remaining out : string) (found : bool) : result bundle_error (string * bool) :=
  match fuel with
  | O => Ok (out, found)
  | S fuel =>
      if remaining =s= "" then Ok (out, found) else
      match from_marker begin_marker remaining with
      | None => Ok (out, found)
      | Some remaining =>
          fail_if negb (has_prefix remaining begin_certificate) with OnlyCertificates ;;
          match pem_decode remaining with
          | (None, _) => Err InvalidPEM
          | (Some block, rest) =>
              fail_if negb (blk_Type block =s= "CERTIFICATE")
                  || negb (match blk_Headers block with [] => true | _ => false end) with InvalidPEM ;;
              fail_if negb (parse_certificate (blk_Bytes block)) with InvalidCertificate ;;
              match pem_encode_block block with
              | None => Err EncodeFailure
              | Some text => bundle_input fuel (trim_space rest) (out +:+ text) true
              end
          end
      end
  end.
Definition bundle_one (out : string) (input : string) : result bundle_error string :=
  let remaining := trim_space input in
  '(out, found) ← bundle_input (S (String.length remaining)) remaining out false;
  fail_if negb found with NoCertificates ;; Ok out.
Definition Bundle (base inspectionCA : string) : result bundle_error string :=
  for_each bundle_one "" [base; inspectionCA].
End Authority.

(** ** Atomic replacement *)
Section Atomic.
Context (faulty : bool) (p data : string) (mode : Z) (c0 : option string).
Hypothesis Htemp : forall n : N, temp_name p n <> p.

(** What a publishing call may do: make the temporary inode visible at [p]. *)
Definition publishes (publish : string -> string -> fs -> result io_error (unit * fs)) : Prop :=
  forall t s, t <> p -> match publish t p s with
    | Ok (_, s') => exists i, dirents s !! t = Some i /\ dirents s' !! p = Some i /\
        (dirents s' !! t = Some i \/ dirents s' !! t = None) /\
        (forall q, q <> t -> q <> p -> dirents s' !! q = dirents s !! q) /\
        durable s' = durable s /\ inodes s' = inodes s /\ next s' = next s /\ flocks s' = flocks s
    | Err _ => True
    | Panic => False
    end.

Lemma rename_publishes : publishes rename_effect.
Proof.
  intros t s Ht. unfold rename_effect. destruct (dirents s !! t) as [i|] eqn:Et; [|done].
  destruct (node s p) as [[]|]; try done; exists i; cbn; split_and!; try done;
    try (by rewrite lookup_insert_eq); try (right; rewrite lookup_insert_ne by done; by rewrite lookup_delete_eq);
    intros q H1 H2; by rewrite lookup_insert_ne, lookup_delete_ne.
Qed.
Lemma link_publishes : publishes link_effect.
Proof.
  intros t s Ht. unfold link_effect. destruct (dirents s !! t) as [i|] eqn:Et; [|done].
  destruct (dirents s !! p); [done|]. exists i. cbn. split_and!; try done.
  - by rewrite lookup_insert_eq.
  - left. by rewrite lookup_insert_ne.
  - intros q H1 H2. by rewrite lookup_insert_ne.
Qed.

(** Everything but [p] and the temporary file. *)
Record frame (s s' : fs) : Prop := {
  fr_dirents : forall q, q <> p -> (forall n, q <> temp_name p n) -> dirents s' !! q = dirents s !! q;
  fr_durable : forall q, q <> p -> (forall n, q <> temp_name p n) ->
    durable s' !! q = durable s !! q \/ durable s' !! q = dirents s !! q;
  fr_inodes : forall j, (j < next s)%nat -> inodes s' !! j = inodes s !! j;
  fr_next : (next s <= next s')%nat;
  fr_flocks : flocks s' = flocks s;
}.
(** A crash finds the old content or the new one, never a mixture. *)
Record old_or_new (s s' : fs) : Prop := {
  on_wf : fs_wf s';
  on_possible : forall x, possible s' p x -> x = c0 \/ x = Some data;
  on_frame : frame s s';
  on_visible : dirents s' !! p = dirents s !! p \/ exists i, dirents s' !! p = Some i /\
    inodes s' !! i = Some (Regular data mode true);
}.

Section Steps.
Context (s : fs) (t : string).
Hypothesis Hwf : fs_wf s.
Hypothesis Hset : settled s p c0.
Hypothesis Ht : exists n, t = temp_name p n.
Let i := next s.

Record written (s1 : fs) : Prop := {
  wr_wf : fs_wf s1;
  wr_next : next s1 = S (next s);
  wr_inodes : forall j, j <> i -> inodes s1 !! j = inodes s !! j;
  wr_flocks : flocks s1 = flocks s;
  wr_dirents : forall q, q <> p -> q <> t -> dirents s1 !! q = dirents s !! q;
  wr_durable : forall q, q <> p -> q <> t -> durable s1 !! q = durable s !! q \/ durable s1 !! q = dirents s !! q;
}.
Definition unpublished (s1 : fs) : Prop :=
  written s1 /\ dirents s1 !! p = dirents s !! p /\ durable s1 !! p = durable s !! p.
Definition published (s1 : fs) : Prop :=
  written s1 /\ dirents s1 !! p = Some i /\ inodes s1 !! i = Some (Regular data mode true) /\
  (durable s1 !! p = durable s !! p \/ durable s1 !! p = Some i).
Definition committed (s1 : fs) : Prop := published s1 /\ durable s1 !! p = Some i.

Lemma written_frame s1 : written s1 -> frame s s1.
Proof.
  intros [Hw Hn Hi Hf Hd Hu]. destruct Ht as [n Hn']. constructor; auto.
  - intros q Hq Hqt. apply Hd; [done|]. rewrite Hn'. done.
  - intros q Hq Hqt. apply Hu; [done|]. rewrite Hn'. done.
  - intros j Hj. apply Hi. unfold i. lia.
  - lia.
Qed.

(** The old entry still denotes the old content. *)
Lemma old_entry s1 x : written s1 ->
  match dirents s !! p, x with Some j, Some d => inode_may s1 j d | None, None => True | _, _ => False end -> x = c0.
Proof.
  intros Hw Hx. destruct Hset as [_ Hh]. eapply holds_may; [exact Hh|].
  destruct (dirents s !! p) as [j|] eqn:Ej, x as [d|]; try done.
  unfold inode_may in *. rewrite (wr_inodes _ Hw) in Hx; [done|].
  pose proof (wf_dirents _ Hwf _ _ Ej). unfold i. lia.
Qed.

Lemma unpublished_old_or_new s1 : unpublished s1 -> old_or_new s s1.
Proof.
  intros (Hw & Hd & Hu). constructor; [apply Hw| |by apply written_frame|by left].
  intros x (e & He & Hx). left. apply (old_entry s1); [done|].
  destruct Hset as [Heq _]. destruct He as [->| ->]; [by rewrite Hd in Hx|by rewrite Hu, Heq in Hx].
Qed.
Lemma published_old_or_new s1 : published s1 -> old_or_new s s1.
Proof.
  intros (Hw & Hd & Hi & Hu). constructor; [apply Hw| |by apply written_frame|by eauto].
  intros x (e & He & Hx). assert (Hnew : forall x, match Some i, x with Some j, Some d => inode_may s1 j d
      | None, None => True | _, _ => False end -> x = Some data).
  { intros [d|]; [|done]. unfold inode_may. rewrite Hi. by intros ->. }
  destruct He as [->| ->].
  - right. apply Hnew. by rewrite Hd in Hx.
  - destruct Hu as [Hu|Hu]; rewrite Hu in Hx; [left|by right; apply Hnew].
    apply (old_entry s1); [done|]. destruct Hset as [Heq _]. by rewrite Heq in Hx.
Qed.
Lemma committed_settled s1 : committed s1 -> settled s1 p (Some data).
Proof. intros ((Hw & Hd & Hi & _) & Hu). split; [congruence|]. rewrite Hd. cbn. eauto. Qed.

Lemma t_ne_p : t <> p.
Proof. destruct Ht as [n ->]. apply Htemp. Qed.

Lemma create_unpublished s1 f : create_excl t 384 s = Ok (f, s1) ->
  f = i /\ unpublished s1 /\ dirents s1 !! t = Some i /\ inodes s1 !! i = Some (Regular "" 384 false).
Proof.
  unfold create_excl. destruct (dirents s !! t); [done|]. intros [= <- <-].
  pose proof t_ne_p. split; [done|]. split; [|cbn; by rewrite !lookup_insert_eq].
  split; [|cbn; by rewrite lookup_insert_ne]. destruct Hwf as [W1 W2]. constructor; cbn; auto.
  - constructor; cbn.
    + intros q j [[<- <-]|[_ Hj]]%lookup_insert_Some; [lia|]. pose proof (W1 _ _ Hj). lia.
    + intros q j Hj. pose proof (W2 _ _ Hj). lia.
  - intros j Hj. by rewrite lookup_insert_ne.
  - intros q H1 H2. by rewrite lookup_insert_ne.
Qed.

(** A change of the temporary inode. *)
Definition temp_at (s1 : fs) (n : inode) : Prop :=
  unpublished s1 /\ dirents s1 !! t = Some i /\ inodes s1 !! i = Some n.
Lemma change_temp I f (Q : result io_error unit -> fs -> Prop) s1 d m b :
  temp_at s1 (Regular d m b) ->
  (forall s2, unpublished s2 -> I s2 /\ (faulty = true -> Q (Err Fault) s2)) ->
  (forall s2, temp_at s2 (f d m b) -> Q (Ok tt) s2) ->
  wp faulty I (syscall (change_file i f)) Q s1.
Proof.
  intros (Hu & Hd & Hi) HE HO. apply wp_syscall_quiet; [by apply HE|]. unfold change_file. rewrite Hi.
  assert (Hu' : unpublished (set_inode s1 i (f d m b))).
  { destruct Hu as ([W1 W2 W3 W4 W5 W6] & Hp1 & Hp2). split; [|done]. constructor; cbn; auto.
    - destruct W1. by constructor.
    - intros j Hj. rewrite lookup_insert_ne by done. auto. }
  split; [by apply HE|]. apply HO. split; [done|]. split; [done|]. cbn. by rewrite lookup_insert_eq.
Qed.

Lemma unlink_done I (Q : result io_error unit -> fs -> Prop) s1 :
  (unpublished s1 \/ published s1) ->
  (forall s2, (unpublished s1 -> unpublished s2) -> (published s1 -> published s2) ->
    (committed s1 -> committed s2) -> unpublished s2 \/ published s2 -> I s2 /\ forall r, Q r s2) ->
  wp faulty I (syscall (unlink_effect t)) Q s1.
Proof.
  intros Hs HQ. pose proof t_ne_p as Htp.
  apply wp_syscall; [by apply (HQ s1)|]. unfold unlink_effect.
  destruct (dirents s1 !! t) as [j|]; [|by apply (HQ s1)].
  assert (Hw : written s1 -> written (set_dirents s1 (delete t (dirents s1)))).
  { intros [[W1 W1'] W2 W3 W4 W5 W6]. constructor; cbn; auto.
    - constructor; cbn; [|done]. intros q k [_ Hk]%lookup_delete_Some. eauto.
    - intros q H1 H2. rewrite lookup_delete_ne by done. auto. }
  assert (Hu : unpublished s1 -> unpublished (set_dirents s1 (delete t (dirents s1)))).
  { intros (H1 & H2 & H3). split; [auto|]. cbn. by rewrite lookup_delete_ne. }
  assert (Hp : published s1 -> published (set_dirents s1 (delete t (dirents s1)))).
  { intros (H1 & H2 & H3). split; [auto|]. cbn. by rewrite lookup_delete_ne. }
  destruct (HQ (set_dirents s1 (delete t (dirents s1)))) as [HI HR]; [done..| |tauto|by split].
  intros [H1 H2]. split; [auto|done].
Qed.

Lemma publishes_published publish s1 s2 :
  publishes publish -> temp_at s1 (Regular data mode true) -> publish t p s1 = Ok (tt, s2) -> published s2.
Proof.
  intros Hpub (([W1 W2 W3 W4 W5 W6] & Hp1 & Hp2) & Hd & Hi) E. specialize (Hpub t s1 t_ne_p). rewrite E in Hpub.
  destruct Hpub as (j & Hj & Hpj & Htj & Hoth & Hdur & Hino & Hnx & Hfl). rewrite Hd in Hj. injection Hj as <-.
  split; [|split; [done|]; rewrite Hino, Hdur; auto]. constructor.
  - destruct W1 as [W1 W1']. constructor; rewrite Hnx.
    + intros q k. destruct (decide (q = p)) as [->|Hqp]; [rewrite Hpj; intros [= <-]; by eapply W1|].
      destruct (decide (q = t)) as [->|Hqt]; [|rewrite Hoth by done; apply W1].
      destruct Htj as [->| ->]; [intros [= <-]; by eapply W1|done].
    + rewrite Hdur. apply W1'.
  - congruence.
  - intros k Hk. rewrite Hino. auto.
  - congruence.
  - intros q H1 H2. rewrite Hoth by done. auto.
  - intros q H1 H2. rewrite Hdur. auto.
Qed.

(** What a run needs to know of the publishing call: [G] holds when it succeeds,
    [E] of its errors. *)
Definition publish_ok (publish : string -> string -> fs -> result io_error (unit * fs)) (G : Prop) (E : io_error -> Prop) : Prop :=
  forall s1, temp_at s1 (Regular data mode true) -> match publish t p s1 with
    | Ok (_, s2) => published s2 /\ G
    | Err e => E e
    | Panic => False
    end.

Lemma rename_ok : publish_ok rename_effect True (fun _ => True).
Proof.
  intros s1 H1. destruct (rename_effect t p s1) as [[[] s2]|e|] eqn:E; [|done|].
  - split; [|done]. by apply (publishes_published rename_effect s1 s2 rename_publishes).
  - pose proof (rename_publishes t s1 t_ne_p) as H. by rewrite E in H.
Qed.
Lemma link_ok : publish_ok link_effect (dirents s !! p = None) (fun e => e = Exist).
Proof.
  intros s1 H1. destruct (link_effect t p s1) as [[[] s2]|e|] eqn:E.
  - split; [by apply (publishes_published link_effect s1 s2 link_publishes)|].
    destruct H1 as ((_ & Hd & _) & _). rewrite <- Hd. unfold link_effect in E.
    destruct (dirents s1 !! t); [|done]. by destruct (dirents s1 !! p).
  - destruct H1 as (_ & Ht1 & _). unfold link_effect in E. rewrite Ht1 in E. destruct (dirents s1 !! p); congruence.
  - pose proof (link_publishes t s1 t_ne_p) as H. by rewrite E in H.
Qed.

Lemma sync_step I (Q : result io_error unit -> fs -> Prop) s1 :
  published s1 -> (forall s2, committed s2 -> I s2 /\ Q (Ok tt) s2) -> (faulty = true -> Q (Err Fault) s1) ->
  wp faulty I (syscall (sync_dir_effect (path_dir p))) Q s1.
Proof.
  intros ([[W1 W1'] W2 W3 W4 W5 W6] & Hd & Hi & Hu) HO HE. apply wp_syscall_quiet; [done|]. cbn.
  apply HO. split; [|cbn; rewrite sync_lookup; by rewrite decide_True].
  split; [|split; [done|split; [done|right; cbn; rewrite sync_lookup; by rewrite decide_True]]].
  constructor; cbn; auto.
  - constructor; cbn; [done|]. intros q k. rewrite sync_lookup. destruct (decide _); eauto.
  - intros q H1 H2. rewrite sync_lookup. destruct (decide _); [right|]; auto.
Qed.

(** The file contents are written, chunk by chunk, to the temporary inode. *)
Lemma write_temp I (Q : result io_error unit -> fs -> Prop) s1 m :
  temp_at s1 (Regular "" m false) ->
  (forall s2, unpublished s2 -> I s2 /\ (faulty = true -> Q (Err Fault) s2)) ->
  (forall s2, temp_at s2 (Regular data m false) -> Q (Ok tt) s2) ->
  wp faulty I (write_file (next s) data) Q s1.
Proof.
  intros Ht1 HE HO. unfold write_file. apply wp_bind, wp_choose. intros k.
  apply wp_bind. eapply change_temp; [exact Ht1|exact HE|].
  cbn. intros s2 H2. eapply change_temp; [exact H2|exact HE|]. cbn. auto.
Qed.
End Steps.

Definition write_post (s : fs) (r : result io_error unit) (s' : fs) : Prop :=
  old_or_new s s' /\
  (r = Ok tt -> settled s' p (Some data) /\ exists i, dirents s' !! p = Some i /\
    inodes s' !! i = Some (Regular data mode true)) /\
  (r = Err Exist -> dirents s' !! p = dirents s !! p /\ settled s' p c0) /\ r <> Panic.

Lemma unpublished_post s t s' r : fs_wf s -> settled s p c0 -> (exists n, t = temp_name p n) ->
  unpublished s t s' -> r <> Ok tt -> r <> Panic -> write_post s r s'.
Proof.
  intros Hwf Hs Ht Hu H1 H2. split; [by eapply unpublished_old_or_new|]. split; [done|]. split; [|done].
  destruct Hu as (Hw & Hd & Hdu). intros _. split; [done|]. destruct Hs as [E Hh].
  split; [congruence|]. rewrite Hd. destruct (dirents s !! p) as [j|] eqn:Ej; [|done].
  destruct c0 as [d|]; [|done]. cbn in *. destruct Hh as [m Hm]. exists m.
  rewrite (wr_inodes _ _ _ Hw); [done|]. pose proof (wf_dirents _ Hwf _ _ Ej). lia.
Qed.
Lemma published_post s t s' : fs_wf s -> settled s p c0 -> (exists n, t = temp_name p n) ->
  published s t s' -> write_post s (Err Fault) s'.
Proof. intros Hwf Hs Ht Hp. split; [by eapply published_old_or_new|]. by split_and!. Qed.
Lemma committed_post s t s' : fs_wf s -> settled s p c0 -> (exists n, t = temp_name p n) ->
  committed s t s' -> write_post s (Ok tt) s'.
Proof.
  intros Hwf Hs Ht Hc. split; [eapply published_old_or_new; [done..|apply Hc]|]. split; [|done].
  intros _. split; [by eapply committed_settled|]. destruct Hc as ((_ & H1 & H2 & _) & _). eauto.
Qed.

(** How a run of [writeAtomic] can end: it never got a temporary file, or it
    committed, or it failed after publishing, or it failed before. *)
Definition write_end (s : fs) (G : Prop) (E : io_error -> Prop) (r : result io_error unit) (s' : fs) : Prop :=
  exists t, (exists n, t = temp_name p n) /\
    ((s' = s /\ exists e, r = Err e /\ (faulty = false -> E e)) \/
     (dirents s !! t = None /\
      ((r = Ok tt /\ committed s t s' /\ G) \/ (r = Err Fault /\ published s t s' /\ G /\ faulty = true) \/
       (unpublished s t s' /\ exists e, r = Err e /\ (faulty = false -> E e))))).

(** Every run of [writeAtomic], with any faults and cut off at any system call. *)
Lemma writeAtomic_run publish s I G (E : io_error -> Prop) : fs_wf s ->
  ((exists n, dirents s !! temp_name p n <> None) -> E Exist) ->
  (forall t, (exists n, t = temp_name p n) -> publish_ok s t publish G E) ->
  (forall t s', (exists n, t = temp_name p n) -> dirents s !! t = None ->
     unpublished s t s' \/ (published s t s' /\ G) -> I s') ->
  wp faulty I (writeAtomic p data mode publish) (write_end s G E) s.
Proof.
  intros Hwf HEx Hpub HI. unfold writeAtomic. apply wp_bind, wp_choose. intros n. set (t := temp_name p n).
  assert (Ht : exists n, t = temp_name p n) by eauto. specialize (Hpub t Ht).
  apply wp_bind, wp_syscall_quiet.
  { intros Hf. exists t. split; [done|]. left. split; [done|]. exists Fault. split; [done|]. congruence. }
  destruct (create_excl t 384 s) as [[f s1]|e|] eqn:Ec; [| |unfold create_excl in Ec; by case_match].
  2: { exists t. split; [done|]. left. split; [done|]. exists e. split; [done|]. intros _.
       unfold create_excl in Ec. destruct (dirents s !! t) as [j|] eqn:Et; [|congruence]. injection Ec as <-.
       apply HEx. exists n. fold t. by rewrite Et. }
  assert (Hnt : dirents s !! t = None) by (unfold create_excl in Ec; by destruct (dirents s !! t)).
  destruct (create_unpublished s t Hwf Ht s1 f Ec) as (-> & Hu1 & Hd1 & Hi1).
  specialize (HI t). split; [auto|].
  (* the deferred close and removal *)
  apply wp_finally, wp_finally.
  apply wp_mono with (Q := fun r s' => (r = Ok tt /\ committed s t s' /\ G) \/
    (r = Err Fault /\ published s t s' /\ G /\ faulty = true) \/
    (unpublished s t s' /\ exists e, r = Err e /\ (faulty = false -> E e))).
  2: { intros r s' Hr.
    assert (Hst : unpublished s t s' \/ published s t s') by (destruct Hr as [[_ [[? _] _]]|[(_ & ? & _)|[? _]]]; auto).
    assert (HG : published s t s' -> unpublished s t s' \/ G).
    { intros _. destruct Hr as [(_ & _ & ?)|[(_ & _ & ? & _)|[? _]]]; auto. }
    apply wp_syscall; [|split; [apply HI; [done..|tauto]|]].
    all: apply unlink_done with (s := s) (t := t); [done..|].
    all: intros s2 Ku Kp Kc K; split; [apply HI; [done..|tauto]|]; intros _; exists t; (split; [done|]); right; (split; [done|]).
    all: destruct Hr as [(-> & Hc & ?)|[(-> & Hp & ? & ?)|(Hu & ?)]]; auto 10. }
  set (QQ := fun (r : result io_error unit) s' => (r = Ok tt /\ committed s t s' /\ G) \/
    (r = Err Fault /\ published s t s' /\ G /\ faulty = true) \/
    (unpublished s t s' /\ exists e, r = Err e /\ (faulty = false -> E e))).
  assert (HE : forall s2, unpublished s t s2 -> I s2 /\ (faulty = true -> QQ (Err Fault) s2)).
  { intros s2 H2. split; [apply HI; auto|]. intros Hf. right. right. split; [done|]. exists Fault. split; [done|congruence]. }
  assert (Hpost : forall s2, published s t s2 -> G -> I s2 /\ (faulty = true -> QQ (Err Fault) s2)).
  { intros s2 H2 HG. split; [apply HI; auto|]. intros Hf. right. left. done. }
  apply wp_bind. eapply change_temp; [by split_and!|exact HE|]. intros s2 H2. cbn.
  apply wp_bind. eapply write_temp; [exact H2|exact HE|]. intros s3 H3. cbn.
  apply wp_bind. eapply change_temp; [exact H3|exact HE|]. intros s4 H4. cbn.
  apply wp_bind, wp_syscall_quiet; [by apply HE, H4|]. split; [apply HE, H4|].
  apply wp_bind, wp_syscall_quiet; [by apply HE, H4|].
  specialize (Hpub s4 H4). destruct (publish t p s4) as [[[] s5]|e|]; [|right; right; split; [apply H4|eauto]|done].
  destruct Hpub as [H5 HG]. split; [by apply Hpost|].
  apply wp_bind, wp_syscall_quiet; [by apply Hpost|]. split; [by apply Hpost|].
  apply wp_finally. eapply sync_step; [exact H5| |].
  - intros s6 H6. split; [apply Hpost; [apply H6|done]|].
    apply wp_syscall; [by left|]. split; [apply Hpost; [apply H6|done]|by left].
  - intros Hf. apply wp_syscall; [by apply Hpost|]. split; by apply Hpost.
Qed.

Lemma writeAtomic_wp publish s G E : fs_wf s -> settled s p c0 -> E Exist ->
  (forall t, (exists n, t = temp_name p n) -> publish_ok s t publish G E) ->
  wp faulty (old_or_new s) (writeAtomic p data mode publish) (write_post s) s.
Proof.
  intros Hwf Hs HE Hpub. eapply wp_mono; [apply (writeAtomic_run publish s _ G E); [done..|]|].
  - intros t s' Ht _ [?|[? _]]; [by eapply unpublished_old_or_new|by eapply published_old_or_new].
  - intros r s' (t & Ht & [(-> & e & -> & _)|(_ & [(-> & Hc & _)|[(-> & Hp & _)|(Hu & e & -> & _)]])]).
    + split_and!; try done. constructor; auto; [|by constructor; auto].
      intros x Hx. left. by eapply settled_possible.
    + by eapply committed_post.
    + by eapply published_post.
    + by eapply unpublished_post.
Qed.
End Atomic.

(** ** What no operation takes away *)
Record extends (s s' : fs) : Prop := {
  ex_wf : fs_wf s';
  ex_next : (next s <= next s')%nat;
  ex_dirents : forall q j, dirents s !! q = Some j -> dirents s' !! q = Some j;
  ex_inodes : forall j, (j < next s)%nat -> inodes s' !! j = inodes s !! j;
}.
(** [extends], with new entries at [ps] only and nothing made durable. *)
Record adds (ps : list string) (s s' : fs) : Prop := {
  ad_extends : extends s s';
  ad_durable : durable s' = durable s;
  ad_flocks : flocks s' = flocks s;
  ad_others : forall q, q ∉ ps -> dirents s' !! q = dirents s !! q;
}.

Lemma extends_refl s : fs_wf s -> extends s s.
Proof. by constructor. Qed.
Lemma extends_trans s1 s2 s3 : extends s1 s2 -> extends s2 s3 -> extends s1 s3.
Proof.
  intros [W1 N1 D1 I1] [W2 N2 D2 I2]. constructor; auto; [lia|]. intros j Hj. rewrite I2 by lia. auto.
Qed.
Lemma extends_node s s' q n : fs_wf s -> extends s s' -> node s q = Some n -> node s' q = Some n.
Proof.
  intros [W _] [_ _ D I]. unfold node. destruct (dirents s !! q) as [j|] eqn:E; [|done]. cbn.
  rewrite (D _ _ E). cbn. rewrite I; [done|]. by eapply W.
Qed.
Lemma adds_refl ps s : fs_wf s -> adds ps s s.
Proof. intros H. constructor; auto. by apply extends_refl. Qed.
Lemma adds_trans ps s1 s2 s3 : adds ps s1 s2 -> adds ps s2 s3 -> adds ps s1 s3.
Proof.
  intros [E1 U1 F1 O1] [E2 U2 F2 O2]. constructor; [by eapply extends_trans|congruence..|].
  intros q Hq. rewrite O2, O1; done.
Qed.
Lemma adds_weaken ps qs s s' : (forall q, q ∈ ps -> q ∈ qs) -> adds ps s s' -> adds qs s s'.
Proof. intros Hi [E U F O]. constructor; auto. Qed.
Lemma adds_settled ps s s' p c : fs_wf s -> p ∉ ps -> adds ps s s' -> settled s p c -> settled s' p c.
Proof.
  intros [W _] Hp [[_ _ D I] U _ O] [E H]. split; [rewrite U, O; done|]. rewrite O by done.
  destruct (dirents s !! p) as [j|] eqn:Ej, c as [d|]; cbn in *; try done.
  destruct H as [m Hm]. exists m. rewrite I; [done|]. by eapply W.
Qed.

Lemma add_node_adds s p n ps : fs_wf s -> dirents s !! p = None -> p ∈ ps -> adds ps s (add_node s p n).
Proof.
  intros [W1 W2] Hp Hin. constructor; cbn; auto.
  - constructor; cbn; [|lia| |].
    + constructor; cbn.
      * intros q j [[<- <-]|[_ Hj]]%lookup_insert_Some; [lia|]. apply W1 in Hj. lia.
      * intros q j Hj. apply W2 in Hj. lia.
    + intros q j Hj. rewrite lookup_insert_ne; [done|]. congruence.
    + intros j Hj. rewrite lookup_insert_ne by lia. done.
  - intros q Hq. rewrite lookup_insert_ne; [done|]. congruence.
Qed.

(** Running [m] after a prefix that only extended the state. *)
Lemma wp_adds_trans {A} faulty ps s s1 (m : io A) (Q : result io_error A -> fs -> Prop) :
  adds ps s s1 ->
  wp faulty (adds ps s1) m (fun r s2 => adds ps s1 s2 /\ Q r s2) s1 ->
  wp faulty (adds ps s) m (fun r s2 => adds ps s s2 /\ Q r s2) s1.
Proof.
  intros H1 H2. eapply wp_mono; [eapply wp_conseq; [exact H2|]|].
  - intros s2. by apply adds_trans.
  - cbn. intros r s2 [H HQ]. split; [by eapply adds_trans|done].
Qed.

(** A system call that changes nothing. *)
Lemma wp_read {A} faulty (I : fs -> Prop) (eff : fs -> result io_error (A * fs)) (Q : result io_error A -> fs -> Prop) s :
  I s -> (forall a s', eff s = Ok (a, s') -> s' = s) -> eff s <> Panic ->
  (faulty = true -> Q (Err Fault) s) -> (forall a, eff s = Ok (a, s) -> Q (Ok a) s) ->
  (forall e, eff s = Err e -> Q (Err e) s) -> wp faulty I (syscall eff) Q s.
Proof.
  intros HI Hs Hp Hf HO HE. apply wp_syscall_quiet; [done|]. destruct (eff s) as [[a s']|e|]; [|auto|done].
  pose proof (Hs a s' eq_refl). subst. auto.
Qed.

Lemma read_file_same q s d s' : read_file q s = Ok (d, s') -> s' = s.
Proof. unfold read_file. repeat case_match; naive_solver. Qed.
Lemma wp_read_file faulty (I : fs -> Prop) q (Q : result io_error string -> fs -> Prop) s :
  I s -> (forall e, Q (Err e) s) -> (forall d, read_file q s = Ok (d, s) -> Q (Ok d) s) ->
  wp faulty I (syscall (read_file q)) Q s.
Proof.
  intros HI HE HO. apply wp_read; auto; [by intros d s'; apply read_file_same|].
  unfold read_file. by repeat case_match.
Qed.

(** ** Directories *)
Section Dirs.
Context (umask : Z) (faulty : bool).

Definition folder_at (s : fs) (q : string) : Prop := exists m, node s q = Some (Folder m).
Definition forbidden_bits (mode : Z) : Z := if mode =? 448 then 63 else 18.
Record dir_ok (s : fs) (path : string) (mode : Z) : Prop := {
  do_clean : is_abs path = true /\ clean path = path;
  do_folders : forall q, q ∈ prefixes path -> folder_at s q;
  do_perm : exists perm, node s path = Some (Folder perm) /\ Z.land perm (forbidden_bits mode) = 0;
}.
Lemma dir_ok_extends s s' path mode : fs_wf s -> extends s s' -> dir_ok s path mode -> dir_ok s' path mode.
Proof.
  intros Hwf Hx [H1 H2 (m & H3 & H4)]. constructor; auto.
  - intros q Hq. destruct (H2 q Hq) as [m' Hm']. exists m'. by eapply extends_node.
  - exists m. split; [by eapply extends_node|done].
Qed.

Lemma mkdir_all_wp mode all ps s : fs_wf s -> (forall q, q ∈ ps -> q ∈ all) ->
  wp faulty (adds all s) (mkdir_all umask ps mode)
    (fun r s' => adds all s s' /\
      (r = Ok tt -> (forall q, q ∈ ps -> folder_at s' q) \/ exists q, q ∈ ps /\ is_symlink (node s' q) = true) /\
      (faulty = false -> (forall q, q ∈ ps -> folder_at s q) -> r = Ok tt) /\ r <> Panic) s.
Proof.
  revert s. induction ps as [|p ps IH]; intros s Hwf Hin; cbn [mkdir_all].
  { apply wp_ret. split; [by apply adds_refl|]. split; [|done]. intros _. left. by intros q ?%not_elem_of_nil. }
  assert (Hrefl : adds all s s) by by apply adds_refl.
  apply wp_bind, wp_syscall_quiet; [intros ->; by split_and!|].
  assert (Hgo : forall s1, adds all s s1 -> folder_at s1 p ->
    wp faulty (adds all s) (mkdir_all umask ps mode) (fun r s' => adds all s s' /\
      (r = Ok tt -> (forall q, q ∈ p :: ps -> folder_at s' q) \/ exists q, q ∈ p :: ps /\ is_symlink (node s' q) = true) /\
      (faulty = false -> (forall q, q ∈ p :: ps -> folder_at s q) -> r = Ok tt) /\ r <> Panic) s1).
  { intros s1 Ha1 [m Hm]. assert (Hwf1 : fs_wf s1) by apply (ex_wf _ _ (ad_extends _ _ _ Ha1)).
    apply wp_adds_trans; [done|]. eapply wp_mono; [apply IH; [done|]|].
    - intros q Hq. apply Hin. by right.
    - cbn. intros r s2 (Ha2 & Hr & Hq & Hp). split; [done|]. split_and!; [| |done].
      + intros Hok. destruct (Hr Hok) as [Hall|(q & Hq2 & Hs)].
        * left. intros q [->|Hq2]%elem_of_cons; [|auto]. exists m.
          eapply extends_node; [exact Hwf1|apply (ad_extends _ _ _ Ha2)|done].
        * right. exists q. split; [by right|done].
      + intros Hf Hall. apply Hq; [done|]. intros q Hq2. destruct (Hall q) as [m' Hm']; [by right|].
        exists m'. eapply extends_node; [exact Hwf|apply (ad_extends _ _ _ Ha1)|done]. }
  unfold mkdir. destruct (dirents s !! p) as [i|] eqn:Ep.
  - assert (Hnode : node s p = inodes s !! i) by (unfold node; by rewrite Ep).
    destruct (inodes s !! i) as [[| |o|]|] eqn:Ei.
    + split_and!; try done. intros Hf Hall. destruct (Hall p) as [m Hm]; [by left|]. congruence.
    + split; [done|]. apply Hgo; [done|]. by eexists.
    + split; [done|]. apply wp_ret. split_and!; try done. intros _. right. exists p. split; [by left|]. by rewrite Hnode.
    + split_and!; try done. intros Hf Hall. destruct (Hall p) as [m Hm]; [by left|]. congruence.
    + split_and!; try done. intros Hf Hall. destruct (Hall p) as [m Hm]; [by left|]. congruence.
  - assert (Ha : forall n, adds all s (add_node s p n)) by (intros n; apply add_node_adds; auto; apply Hin; by left).
    split; [done|]. apply Hgo; [done|]. eexists. unfold node. cbn. rewrite lookup_insert_eq. cbn. by rewrite lookup_insert_eq.
Qed.

Lemma Directory_wp path mode s : fs_wf s ->
  wp faulty (adds (prefixes path) s) (Directory umask path mode)
    (fun r s' => adds (prefixes path) s s' /\ (r = Ok tt -> dir_ok s' path mode) /\
      (faulty = false -> dir_ok s path mode -> r = Ok tt) /\ r <> Panic) s.
Proof.
  intros Hwf. unfold Directory. apply wp_guard; intros Hc.
  { split; [by apply adds_refl|]. split; [done|]. split; [|done]. intros _ [[H1 H2] _ _]. rewrite H1, H2, String.eqb_refl in Hc. done. }
  bool_hyps. apply wp_bind. eapply wp_mono; [by apply mkdir_all_wp|]. cbn. intros r s1 (Ha1 & Hr & Hq & Hp).
  assert (Hwf1 : fs_wf s1) by apply (ex_wf _ _ (ad_extends _ _ _ Ha1)).
  destruct r as [[]|e|]; [|split_and!; try done; intros Hf [_ Hall _]; by specialize (Hq Hf Hall)|done].
  assert (Hkeep : faulty = false -> dir_ok s path mode -> dir_ok s1 path mode).
  { intros _. eapply dir_ok_extends; [exact Hwf|apply (ad_extends _ _ _ Ha1)]. }
  assert (Hfail : forall e, (faulty = false -> dir_ok s1 path mode -> False) ->
    adds (prefixes path) s s1 /\ ((Err e : result io_error unit) = Ok tt -> dir_ok s1 path mode) /\
    (faulty = false -> dir_ok s path mode -> (Err e : result io_error unit) = Ok tt) /\ (Err e : result io_error unit) <> Panic).
  { intros e He. split_and!; try done. intros Hf Hd. by destruct (He Hf (Hkeep Hf Hd)). }
  assert (Hnolink : dir_ok s1 path mode -> existsb (fun q => is_symlink (node s1 q)) (prefixes path) = false).
  { intros [_ Hall _]. apply not_true_iff_false. rewrite existsb_exists. intros (q & Hq1%list_elem_of_In & Hs).
    destruct (Hall q Hq1) as [m Hm]. by rewrite Hm in Hs. }
  apply wp_bind, wp_read; [done|unfold eval_same; intros a s'; repeat case_match; by intros [= _ <-]
    |unfold eval_same; by repeat case_match|intros ->; by apply Hfail| |].
  2: { intros e He. apply Hfail. intros _ Hd. unfold eval_same in He. rewrite (Hnolink Hd) in He.
       destruct (do_perm _ _ _ Hd) as (m & Hm & _). by rewrite Hm in He. }
  intros same Hsame. apply wp_guard; intros Hs2.
  { apply Hfail. intros _ Hd. unfold eval_same in Hsame. rewrite (Hnolink Hd) in Hsame.
    destruct (do_perm _ _ _ Hd) as (m & Hm & _). rewrite Hm in Hsame. by injection Hsame as <-. }
  apply negb_false_iff in Hs2 as ->.
  assert (Hfold : forall q, q ∈ prefixes path -> folder_at s1 q).
  { unfold eval_same in Hsame. destruct (existsb _ _) eqn:Eex; [done|].
    destruct (Hr eq_refl) as [Hall|(q & Hq1 & Hs)]; [done|].
    apply not_true_iff_false in Eex. destruct Eex. apply existsb_exists. exists q. by rewrite <- list_elem_of_In. }
  apply wp_bind, wp_read; [done|unfold stat; intros a s'; case_match; by intros [= _ <-]|unfold stat; by case_match
    |intros ->; by apply Hfail| |].
  2: { intros e He. apply Hfail. intros _ Hd. unfold stat in He.
       destruct (do_perm _ _ _ Hd) as (m & Hm & _). by rewrite Hm in He. }
  intros n Hn. unfold stat in Hn. destruct (node s1 path) as [n'|] eqn:En; [|done]. injection Hn as ->.
  assert (Hnot : dir_ok s1 path mode -> exists m, n = Folder m).
  { intros [_ _ (m & Hm & _)]. rewrite En in Hm. injection Hm as ->. by exists m. }
  destruct n as [|perm| |]; try (apply wp_throw, Hfail; intros Hf Hd; by destruct (Hnot Hd)).
  cbv zeta. fold (forbidden_bits mode). apply wp_guard; intros Hb.
  - apply Hfail. intros _ [_ _ (m & Hm & Hz)]. rewrite En in Hm. injection Hm as <-.
    by rewrite Hz in Hb.
  - apply wp_ret. apply negb_false_iff, Z.eqb_eq in Hb. split_and!; try done. intros _.
    constructor; [done|done|]. eauto.
Qed.
End Dirs.

(** ** Where the authority's files are *)
Lemma cut_last_app sep a b : contains_byte sep b = false -> cut_last sep (a +:+ String sep b) = Some (a, b).
Proof.
  intros Hb. assert (Hn : cut_last sep b = None).
  { induction b as [|c b IH]; [done|]. cbn in Hb |- *. apply orb_false_iff in Hb as [Hc Hb].
    rewrite (IH Hb), Ascii.eqb_sym. by rewrite Hc. }
  induction a as [|c a IH]; cbn; [by rewrite Hn, Ascii.eqb_refl|]. by rewrite IH.
Qed.

Lemma join_snoc l f : l <> [] -> join sep1 (l ++ [f]) = join sep1 l +:+ sep1 +:+ f.
Proof.
  induction l as [|x l IH]; [done|]. intros _. destruct l as [|y l]; [done|].
  change ((x :: y :: l) ++ [f]) with (x :: (y :: l) ++ [f]).
  change (join sep1 (x :: (y :: l) ++ [f])) with (x +:+ sep1 +:+ join sep1 ((y :: l) ++ [f])).
  rewrite IH by done. change (join sep1 (x :: y :: l)) with (x +:+ sep1 +:+ join sep1 (y :: l)).
  by rewrite !sapp_assoc.
Qed.

Lemma clean_trailing l : Forall (fun e => normal e = true) l -> clean (abs_path l +:+ sep1) = abs_path l.
Proof.
  intros Hl. unfold clean. change (is_abs (abs_path l +:+ sep1)) with true.
  cbv iota. unfold sep1. rewrite split_sep_end.
  pose proof (clean_abs_path l Hl) as Hc. unfold clean in Hc. change (is_abs (abs_path l)) with true in Hc.
  assert (Hs : forall st ls, clean_stack true st (ls ++ [EmptyString]) = clean_stack true st ls).
  { intros st ls. revert st. induction ls as [|x ls IH]; intros st; [done|]. cbn. repeat case_match; auto. }
  rewrite Hs. exact Hc.
Qed.

Lemma path_dir_abs l f : Forall (fun e => normal e = true) l -> normal f = true ->
  path_dir (abs_path (l ++ [f])) = abs_path l.
Proof.
  intros Hl Hf. assert (Hns : contains_byte slash f = false) by (apply normal_spec in Hf; tauto).
  unfold path_dir. destruct (decide (l = [])) as [->|Hne].
  - change (abs_path ([] ++ [f])) with (EmptyString +:+ String slash f). rewrite cut_last_app by done. done.
  - assert (E : abs_path (l ++ [f]) = abs_path l +:+ String slash f).
    { unfold abs_path. rewrite join_snoc by done. done. }
    rewrite E, cut_last_app by done. by apply clean_trailing.
Qed.

Lemma normal_gateway (n : N) : normal (".gateway-" +:+ pretty n) = true.
Proof.
  assert (Hd : forall x s, contains_byte slash (pretty_N_go x s) = contains_byte slash s).
  { intros x. induction x as [x IH] using (well_founded_induction N.lt_wf_0). intros s.
    destruct (decide (x = 0)%N) as [->|Hx]; [done|]. rewrite pretty_N_go_step by lia.
    rewrite IH by (apply N.div_lt; lia). cbn [contains_byte].
    assert (Hc : Ascii.eqb slash (pretty_N_char (x mod 10)) = false).
    { unfold pretty_N_char. by repeat case_match. }
    by rewrite Hc. }
  apply normal_spec. split_and!; try done. rewrite contains_byte_app. unfold pretty, pretty_N.
  case_decide; [done|]. by rewrite Hd.
Qed.

Section Layout.
Context (a b : list string).
Hypothesis Ha : Forall (fun e => normal e = true) a.
Hypothesis Hb : Forall (fun e => normal e = true) b.
Hypothesis Hab : ~ a `prefix_of` b.
Hypothesis Hba : ~ b `prefix_of` a.

Definition privateDir : string := abs_path a.
Definition publicDir : string := abs_path b.
Definition statePath : string := path_join privateDir CAStateFile.
Definition publishedPath : string := path_join publicDir CACertificateFile.
Definition lockPath : string := path_join privateDir ".lock".

Lemma statePath_eq : statePath = abs_path (a ++ [CAStateFile]).
Proof. by apply path_join_abs. Qed.
Lemma publishedPath_eq : publishedPath = abs_path (b ++ [CACertificateFile]).
Proof. by apply path_join_abs. Qed.
Lemma lockPath_eq : lockPath = abs_path (a ++ [".lock"]).
Proof. by apply path_join_abs. Qed.
Lemma normal_snoc l f : Forall (fun e => normal e = true) l -> normal f = true ->
  Forall (fun e => normal e = true) (l ++ [f]).
Proof. intros Hl Hf. apply Forall_app. split; [done|]. by constructor. Qed.

Lemma temp_statePath n : temp_name statePath n = abs_path (a ++ [".gateway-" +:+ pretty n]).
Proof. unfold temp_name. rewrite statePath_eq, path_dir_abs by done. by rewrite path_join_abs by (done || apply normal_gateway). Qed.
Lemma temp_publishedPath n : temp_name publishedPath n = abs_path (b ++ [".gateway-" +:+ pretty n]).
Proof. unfold temp_name. rewrite publishedPath_eq, path_dir_abs by done. by rewrite path_join_abs by (done || apply normal_gateway). Qed.

Lemma abs_snoc_inj l1 l2 f1 f2 : Forall (fun e => normal e = true) l1 -> Forall (fun e => normal e = true) l2 ->
  normal f1 = true -> normal f2 = true -> abs_path (l1 ++ [f1]) = abs_path (l2 ++ [f2]) -> l1 = l2 /\ f1 = f2.
Proof.
  intros H1 H2 H3 H4 H%abs_path_inj; [|by apply normal_snoc..]. by apply app_inj_tail in H.
Qed.

Lemma temp_not_state n : temp_name statePath n <> statePath.
Proof.
  rewrite temp_statePath, statePath_eq. intros [_ H]%abs_snoc_inj; first [done|apply normal_gateway|idtac].
Qed.
Lemma temp_not_published n : temp_name publishedPath n <> publishedPath.
Proof.
  rewrite temp_publishedPath, publishedPath_eq. intros [_ H]%abs_snoc_inj; first [done|apply normal_gateway|idtac].
Qed.
Lemma state_not_published : statePath <> publishedPath.
Proof. rewrite statePath_eq, publishedPath_eq. intros [E _]%abs_snoc_inj; first [done|apply normal_gateway|idtac]. apply Hab. by rewrite E. Qed.
Lemma state_not_published_temp n : statePath <> temp_name publishedPath n.
Proof. rewrite statePath_eq, temp_publishedPath. intros [E _]%abs_snoc_inj; first [done|apply normal_gateway|idtac]. apply Hab. by rewrite E. Qed.
Lemma state_not_lock : statePath <> lockPath.
Proof. rewrite statePath_eq, lockPath_eq. intros [_ H]%abs_snoc_inj; first [done|apply normal_gateway|idtac]. Qed.

Lemma elem_of_prefixes l q : Forall (fun e => normal e = true) l -> q ∈ prefixes (abs_path l) ->
  exists k, q = abs_path (take k l).
Proof.
  intros Hl. unfold prefixes. rewrite elements_abs_path by done. intros (k & -> & _)%list_elem_of_fmap. eauto.
Qed.
Lemma state_not_private_prefix : statePath ∉ prefixes privateDir.
Proof.
  intros (k & Hk)%elem_of_prefixes; [|done]. rewrite statePath_eq in Hk.
  apply abs_path_inj in Hk; [|by apply normal_snoc|by apply Forall_take].
  apply (f_equal length) in Hk. rewrite length_app, length_take in Hk. cbn in Hk. lia.
Qed.
Lemma state_not_public_prefix : statePath ∉ prefixes publicDir.
Proof.
  intros (k & Hk)%elem_of_prefixes; [|done]. rewrite statePath_eq in Hk.
  apply abs_path_inj in Hk; [|by apply normal_snoc|by apply Forall_take].
  apply Hab. exists ([CAStateFile] ++ drop k b). by rewrite app_assoc, Hk, take_drop.
Qed.
End Layout.

(** ** Opening the authority *)
Lemma readPrivate_wp faulty p s : fs_wf s ->
  wp faulty (eq s) (readPrivate p) (fun r s' => s' = s /\
    (r = Err NotExist -> dirents s !! p = None) /\
    (forall raw, r = Ok raw -> exists m b, node s p = Some (Regular raw m b) /\ Z.land m 63 = 0 /\ slen raw <= 65536) /\
    (faulty = false -> forall raw m b, node s p = Some (Regular raw m b) -> Z.land m 63 = 0 -> slen raw <= 65536 -> r = Ok raw) /\
    r <> Panic) s.
Proof.
  intros Hwf. unfold readPrivate.
  assert (Hno : forall (e : io_error), (e = NotExist -> dirents s !! p = None) ->
    (faulty = false -> forall raw m b, node s p = Some (Regular raw m b) -> Z.land m 63 = 0 -> slen raw <= 65536 -> False) ->
    s = s /\ ((Err e : result io_error string) = Err NotExist -> dirents s !! p = None) /\
    (forall raw, (Err e : result io_error string) = Ok raw -> exists m b, node s p = Some (Regular raw m b) /\ Z.land m 63 = 0 /\ slen raw <= 65536) /\
    (faulty = false -> forall raw m b, node s p = Some (Regular raw m b) -> Z.land m 63 = 0 -> slen raw <= 65536 -> (Err e : result io_error string) = Ok raw) /\
    (Err e : result io_error string) <> Panic).
  { intros e He Hq. split_and!; try done; [intros [= ->]; auto|]. intros Hf raw m b H1 H2 H3. by destruct (Hq Hf raw m b H1 H2 H3). }
  apply wp_bind, wp_read; [done|unfold open_read; intros a s'; repeat case_match; congruence
    |unfold open_read; by repeat case_match|intros ->; by apply Hno| |].
  2: { intros e He. apply Hno.
       - intros ->. unfold open_read in He. destruct (dirents s !! p) as [i|]; [|done]. by destruct (inodes s !! i) as [[]|].
       - intros _ raw m b Hn. unfold open_read, node in *. destruct (dirents s !! p) as [i|]; [|done]. cbn in Hn. by rewrite Hn in He. }
  intros i Hi. assert (Hn : node s p = inodes s !! i).
  { unfold open_read, node in *. destruct (dirents s !! p) as [j|]; [|done]. cbn. destruct (inodes s !! j) as [[]|] eqn:Ej; congruence. }
  apply wp_finally, wp_bind, wp_read; [done|unfold fstat; intros a s'; case_match; congruence|unfold fstat; by case_match| | |].
  - intros ->. apply wp_syscall; [by apply Hno|]. split; [done|by apply Hno].
  - unfold fstat. intros info Hinfo. destruct (inodes s !! i) as [n|] eqn:Ei; [|done]. injection Hinfo as ->.
    destruct info as [data perm b| | |].
    2-4: apply wp_throw, wp_syscall; [apply Hno; [done|congruence]|split; [done|apply Hno; [done|congruence]]].
    apply wp_guard; intros Hg.
    { assert (H : faulty = false -> forall raw m b, node s p = Some (Regular raw m b) -> Z.land m 63 = 0 -> slen raw <= 65536 -> False).
      { intros _ raw m b' E1 E2 E3. rewrite Hn in E1. injection E1 as <- <- <-. rewrite E2 in Hg. cbn in Hg. lia. }
      apply wp_syscall; [by apply Hno|]. split; [done|by apply Hno]. }
    apply orb_false_iff in Hg as [Hg1%negb_false_iff%Z.eqb_eq Hg2%Z.ltb_ge].
    assert (Hok : s = s /\ ((Ok data : result io_error string) = Err NotExist -> dirents s !! p = None) /\
      (forall raw, (Ok data : result io_error string) = Ok raw -> exists m b, node s p = Some (Regular raw m b) /\ Z.land m 63 = 0 /\ slen raw <= 65536) /\
      (faulty = false -> forall raw m b, node s p = Some (Regular raw m b) -> Z.land m 63 = 0 -> slen raw <= 65536 -> (Ok data : result io_error string) = Ok raw) /\
      (Ok data : result io_error string) <> Panic).
    { split_and!; try done; [intros raw [= <-]; eauto|]. intros _ raw m b' E1 _ _. rewrite Hn in E1. by injection E1 as <- _ _. }
    apply wp_syscall_quiet.
    + intros ->. apply wp_syscall; [by apply Hno|]. split; [done|by apply Hno].
    + split; [done|]. apply wp_syscall; [done|]. by split.
  - unfold fstat. intros e He. destruct (inodes s !! i) as [n|] eqn:Ei; [done|]. injection He as <-.
    assert (H : faulty = false -> forall raw m b, node s p = Some (Regular raw m b) -> Z.land m 63 = 0 -> slen raw <= 65536 -> False) by congruence.
    apply wp_syscall; [by apply Hno|]. split; [done|by apply Hno].
Qed.

Lemma unpublished_extends p s t s' : fs_wf s -> dirents s !! t = None -> unpublished p s t s' -> extends s s'.
Proof.
  intros [W _] Ht ([W1 W2 W3 W4 W5 W6] & Hd & _). constructor; [done|lia| |intros j Hj; apply W3; lia].
  intros q j Hq. destruct (decide (q = p)) as [->|Hp]; [congruence|]. rewrite W5; congruence.
Qed.
Lemma published_extends p data mode s t s' : fs_wf s -> dirents s !! t = None -> dirents s !! p = None ->
  published p data mode s t s' -> extends s s'.
Proof.
  intros [W _] Ht Hp ([W1 W2 W3 W4 W5 W6] & Hd & _). constructor; [done|lia| |intros j Hj; apply W3; lia].
  intros q j Hq. rewrite W5; congruence.
Qed.
Lemma written_settled p s t s' q c : fs_wf s -> q <> p -> q <> t -> written p s t s' -> settled s q c -> settled s' q c.
Proof.
  intros [W _] Hp Ht [W1 W2 W3 W4 W5 W6] [E H].
  assert (Hd : dirents s' !! q = dirents s !! q) by by apply W5.
  split; [rewrite Hd; destruct (W6 q Hp Ht); congruence|]. rewrite Hd.
  destruct (dirents s !! q) as [j|] eqn:Ej, c as [d|]; cbn in *; try done. destruct H as [m Hm]. exists m.
  rewrite W3; [done|]. apply W in Ej. lia.
Qed.

(** The published certificate matches a raw certificate. *)
Definition cert_matches `{Pki} (data raw : string) : Prop :=
  match pem_decode data with
  | (Some block, rest) => blk_Type block = "CERTIFICATE" /\ trim_space rest = "" /\ blk_Bytes block = raw
  | (None, _) => False
  end.

Section Opening.
Context `{Signer} `{!Pki} (umask : Z) (faulty : bool) (a b : list string) (now : Z) (e : Entropy).
Hypothesis Ha : Forall (fun e => normal e = true) a.
Hypothesis Hb : Forall (fun e => normal e = true) b.
Hypothesis Hab : ~ a `prefix_of` b.
Abbreviation sp := (statePath a).
Abbreviation pp := (publishedPath b).
Abbreviation lp := (lockPath a).

Definition new_state (st : state) (raw : string) : Prop := generate now e = Some st /\ marshal_state st = Some raw.
(** Nothing existing is replaced, and a first commit of the state is atomic. *)
Record opening (s s' : fs) : Prop := {
  op_extends : extends s s';
  op_commit : settled s sp None -> forall x, possible s' sp x ->
    x = None \/ exists st raw, new_state st raw /\ x = Some raw;
}.
Lemma opening_refl s : fs_wf s -> opening s s.
Proof. intros Hw. split; [by apply extends_refl|]. intros Hs x Hx. left. by eapply settled_possible. Qed.
Lemma opening_trans s s1 s2 : extends s s1 -> (settled s sp None -> settled s1 sp None) -> opening s1 s2 -> opening s s2.
Proof. intros Hx Hs [K1 K2]. split; [by eapply extends_trans|]. auto. Qed.
Lemma opening_settled s s' st raw : extends s s' -> new_state st raw -> settled s' sp (Some raw) -> opening s s'.
Proof. intros Hx Hn Hs. split; [done|]. intros _ x Hxp. right. exists st, raw. split; [done|]. by eapply settled_possible. Qed.

Definition state_at (s : fs) (raw : string) : Prop :=
  exists m b, node s sp = Some (Regular raw m b) /\ Z.land m 63 = 0.
Record loaded (s : fs) (st : state) (s' : fs) : Prop := {
  lo_extends : extends s s';
  lo_flocks : flocks s' = flocks s;
  lo_state : exists raw, state_at s' raw /\
    ((s' = s /\ unmarshal_state raw = Some st) \/
     (new_state st raw /\ (settled s sp None -> settled s' sp (Some raw))));
}.

Lemma commit_state s st raw (I : fs -> Prop) (Q : result io_error unit -> fs -> Prop) :
  fs_wf s -> dirents s !! sp = None -> new_state st raw ->
  (forall s', opening s s' -> I s') ->
  (forall s', loaded s st s' -> opening s s' -> Q (Ok tt) s') ->
  (forall s' e, opening s s' -> flocks s' = flocks s -> Q (Err e) s') ->
  wp faulty I (WriteAtomic sp raw 384) Q s.
Proof.
  intros Hwf Hno Hnew HI HO HE. unfold WriteAtomic.
  assert (Htemp := temp_not_state a Ha).
  assert (Hopen : forall t s', (exists n, t = temp_name sp n) -> dirents s !! t = None ->
    unpublished sp s t s' \/ published sp raw 384 s t s' -> opening s s' /\ flocks s' = flocks s).
  { intros t s' Ht Hnt Hs'. split.
    - split; [destruct Hs'; [by apply (unpublished_extends sp s t)|by apply (published_extends sp raw 384 s t)]|]. intros Hset x Hx.
      assert (Hon : old_or_new sp raw 384 None s s').
      { destruct Hs'; [by eapply unpublished_old_or_new|by eapply published_old_or_new]. }
      destruct (on_possible _ _ _ _ _ _ Hon x Hx) as [->| ->]; [by left|right]. eauto.
    - destruct Hs' as [[Hw _]|[Hw _]]; apply (wr_flocks _ _ _ _ Hw). }
  eapply wp_mono; [apply (writeAtomic_run faulty sp raw 384 Htemp _ s I True (fun _ => True)); [done|done| |]|].
  - intros t Ht. by apply rename_ok.
  - intros t s' Ht Hnt Hs'. apply HI, (Hopen t); [done..|tauto].
  - intros r s' (t & Ht & [(-> & er & -> & _)|(Hnt & [(-> & Hc & _)|[(-> & Hp & _)|(Hu & er & -> & _)]])]).
    + apply HE; [by apply opening_refl|done].
    + destruct (Hopen t s' Ht Hnt) as [Hop Hfl]; [right; apply Hc|]. apply HO; [|done].
      constructor; [apply Hop|done|]. exists raw. split.
      * destruct Hc as ((_ & Hd & Hi & _) & _). exists 384, true. unfold node. rewrite Hd. cbn. by rewrite Hi.
      * right. split; [done|]. intros _. by eapply committed_settled.
    + destruct (Hopen t s' Ht Hnt) as [Hop Hfl]; [by right|]. by apply HE.
    + destruct (Hopen t s' Ht Hnt) as [Hop Hfl]; [by left|]. by apply HE.
Qed.

Lemma load_state_wp s : fs_wf s ->
  wp faulty (opening s) (load_state (privateDir a) (publicDir b) now e)
    (fun r s' => opening s s' /\ flocks s' = flocks s /\ (forall st, r = Ok st -> loaded s st s') /\
      (faulty = false -> forall raw m b st, node s sp = Some (Regular raw m b) -> Z.land m 63 = 0 -> slen raw <= 65536 ->
        unmarshal_state raw = Some st -> r = Ok st)) s.
Proof.
  intros Hwf. unfold load_state. fold (statePath a).
  assert (Hrefl := opening_refl s Hwf).
  assert (Herr : forall er, (faulty = false -> forall raw m b st, node s sp = Some (Regular raw m b) -> Z.land m 63 = 0 ->
      slen raw <= 65536 -> unmarshal_state raw = Some st -> False) ->
    opening s s /\ flocks s = flocks s /\ (forall st, (Err er : result io_error state) = Ok st -> loaded s st s) /\
    (faulty = false -> forall raw m b st, node s sp = Some (Regular raw m b) -> Z.land m 63 = 0 -> slen raw <= 65536 ->
        unmarshal_state raw = Some st -> (Err er : result io_error state) = Ok st)).
  { intros er Hq. split_and!; try done. intros Hf raw m b0 st K1 K2 K3 K4. by destruct (Hq Hf raw m b0 st K1 K2 K3 K4). }
  apply wp_bind, wp_try. eapply wp_mono; [eapply wp_conseq; [by apply readPrivate_wp|by intros ? <-]|].
  cbn. intros r s' (-> & Hne & Hok & Hq & Hnp). destruct r as [raw|er|]; [| |done].
  - destruct (Hok raw eq_refl) as (m & b0 & Hn & Hm & Hlen).
    destruct (unmarshal_state raw) as [st|] eqn:Eu.
    + apply wp_ret. split_and!; try done.
      * intros st' [= <-]. constructor; [by apply extends_refl|done|]. exists raw. split; [by exists m, b0|]. left. done.
      * intros _ raw' m' b' st' E1 _ _ E4. congruence.
    + apply wp_throw, Herr. intros _ raw' m' b' st' E1 _ _ E4. congruence.
  - assert (Hq' : faulty = false -> forall raw m b st, node s sp = Some (Regular raw m b) -> Z.land m 63 = 0 ->
      slen raw <= 65536 -> unmarshal_state raw = Some st -> False).
    { intros Hf raw m b0 st K1 K2 K3 _. by specialize (Hq Hf raw m b0 K1 K2 K3). }
    destruct er as [| | |msg]; try (by apply wp_throw, Herr).
    specialize (Hne eq_refl).
    apply wp_bind, wp_try, wp_read; [done|unfold lstat_absent; intros ? ?; case_match; congruence|unfold lstat_absent; by case_match| | |].
    1: intros _; by apply wp_throw, Herr. 1: intros _ _; by apply wp_throw, Herr.
    intros er _. destruct er; try (by apply wp_throw, Herr).
    apply wp_bind, wp_read; [done|by intros ? ? [= _ <-]|done|intros _; by apply Herr| |done].
    intros entries _. apply wp_guard; intros _; [by apply Herr|].
    destruct (generate now e) as [st|] eqn:Eg; [|by apply wp_throw, Herr].
    destruct (marshal_state st) as [raw|] eqn:Em; [|by apply wp_throw, Herr].
    apply wp_bind. apply (commit_state s st raw); [done|done|done|done| |].
    + intros s' Hl Hop. apply wp_ret. split_and!; try done; [apply Hl|by intros st' [= <-]|].
      intros _ raw' m' b' st' E1. unfold node in E1. by rewrite Hne in E1.
    + intros s' er Hop Hfl. split_and!; try done. intros _ raw' m' b' st' E1. unfold node in E1. by rewrite Hne in E1.
Qed.

(** Steps after the state is committed: nothing is replaced, the state stays. *)
Record after_commit (s s' : fs) : Prop := {
  ac_extends : extends s s';
  ac_flocks : flocks s' = flocks s;
  ac_settled : forall c, settled s sp c -> settled s' sp c;
}.
Definition reads (s : fs) (data : string) : Prop := read_file pp s = Ok (data, s).

Lemma after_commit_refl s : fs_wf s -> after_commit s s.
Proof. intros Hw. constructor; auto. by apply extends_refl. Qed.

Lemma publish_end s t data s' : fs_wf s -> (exists n, t = temp_name pp n) -> dirents s !! t = None ->
  unpublished pp s t s' \/ (published pp data 420 s t s' /\ dirents s !! pp = None) -> after_commit s s'.
Proof.
  intros Hwf [n ->] Hnt Hs'.
  assert (Hw : written pp s (temp_name pp n) s') by (destruct Hs' as [[? _]|[[? _] _]]; done).
  constructor; [|apply (wr_flocks _ _ _ _ Hw)|].
  - destruct Hs' as [?|[? ?]]; [by apply (unpublished_extends pp s (temp_name pp n))|by apply (published_extends pp data 420 s (temp_name pp n))].
  - intros c. apply (written_settled pp s (temp_name pp n)); auto.
    + by apply state_not_published.
    + by apply state_not_published_temp.
Qed.

Lemma publish_wp cert raw s : fs_wf s ->
  wp faulty (after_commit s) (publishCertificate pp cert raw) (fun r s' => after_commit s s' /\
    (r = Ok tt -> exists data, reads s' data /\ (data = cert \/ cert_matches data raw)) /\
    (faulty = false -> forall data, reads s data -> cert_matches data raw -> r = Ok tt)) s.
Proof.
  intros Hwf. assert (Htemp := temp_not_published b Hb). unfold publishCertificate. apply wp_bind, wp_try.
  eapply wp_mono; [apply (writeAtomic_run faulty pp cert 420 Htemp link_effect s _ (dirents s !! pp = None) (fun e => e = Exist)); [done|done| |]|].
  { intros t Ht. by apply link_ok. }
  { intros t s' Ht Hnt Hs'. by apply (publish_end s t cert). }
  cbn. intros r s' (t & Ht & Hend).
  assert (Hac : after_commit s s').
  { destruct Hend as [[-> _]|(Hnt & [(_ & [Hc _] & HG)|[(_ & Hp & HG & _)|(Hu & _)]])];
      [by apply after_commit_refl|apply (publish_end s t cert); auto..]. }
  assert (Hwf' : fs_wf s') by apply (ex_wf _ _ (ac_extends _ _ Hac)).
  assert (Hkeep : forall data, reads s data -> reads s' data).
  { unfold reads, read_file. intros data. destruct (node s pp) as [n|] eqn:En; [|done].
    rewrite (extends_node _ _ _ _ Hwf (ac_extends _ _ Hac) En). destruct n as [| |[]|]; congruence. }
  assert (Herr : forall er, (faulty = false -> forall data, reads s' data -> cert_matches data raw -> False) ->
    after_commit s s' /\ ((Err er : result io_error unit) = Ok tt -> exists data, reads s' data /\ (data = cert \/ cert_matches data raw)) /\
    (faulty = false -> forall data, reads s data -> cert_matches data raw -> (Err er : result io_error unit) = Ok tt)).
  { intros er Hq. split_and!; try done. intros Hf data Hd Hm. destruct (Hq Hf data); auto. }
  assert (Hdec : r = Err Exist \/ r <> Err Exist) by (destruct r as [|[]|]; auto).
  destruct Hdec as [->|Hne].
  - apply wp_bind, wp_read; [done|unfold read_file; intros ? ?; repeat case_match; congruence
      |unfold read_file; by repeat case_match|intros ->; by apply Herr| |].
    2: { intros er Her. apply Herr. unfold reads. congruence. }
    intros data Hd. unfold cert_matches in *. destruct (pem_decode data) as [[block|] rest] eqn:Ep.
    2: { apply wp_throw, Herr. intros _ d Hd' Hm. unfold reads in Hd'. rewrite Hd in Hd'. injection Hd' as <-. by rewrite Ep in Hm. }
    destruct (_ || _) eqn:Eb.
    + apply wp_throw, Herr. intros _ d Hd' Hm. unfold reads in Hd'. rewrite Hd in Hd'. injection Hd' as <-. rewrite Ep in Hm.
      destruct Hm as (E1 & E2 & E3). by rewrite E1, E2, E3, !String.eqb_refl in Eb.
    + bool_hyps. apply wp_ret. split_and!; try done. intros _. exists data. split; [done|]. right. by rewrite Ep.
  - assert (Hr : match r with Err Exist => False | _ => True end) by (destruct r as [|[]|]; done).
    assert (Hret : wp faulty (after_commit s) (of_result r) (fun r s'0 => after_commit s s'0 /\
      (r = Ok tt -> exists data, reads s'0 data /\ (data = cert \/ cert_matches data raw)) /\
      (faulty = false -> forall data, reads s data -> cert_matches data raw -> r = Ok tt)) s').
    { apply wp_of_result. split; [done|]. split.
      - intros ->. destruct Hend as [(_ & ? & ? & _)|(_ & [(_ & Hc & _)|[(? & _)|(_ & ? & ? & _)]])]; try done.
        exists cert. split; [|by left]. destruct Hc as ((_ & Hd & Hi & _) & _). unfold reads, read_file, node. rewrite Hd. cbn. by rewrite Hi.
      - intros Hf. destruct Hend as [(_ & er & -> & He)|(_ & [(-> & _)|[(_ & _ & _ & ?)|(_ & er & -> & He)]])]; try done; try congruence.
        + by rewrite (He Hf) in Hne.
        + by rewrite (He Hf) in Hne. }
    destruct r as [|[]|]; done.
Qed.

(** A committed authority: the state file, its parsed key pair and the published
    certificate. *)
Record committed_as (s : fs) (st : state) (raw : string) (au : Authority) : Prop := {
  ca_state : state_at s raw;
  ca_pair : exists crt data, check_pair now st = Ok (auth_Certificate au, crt, auth_key au) /\
    reads s data /\ (data = st_Certificate st \/ cert_matches data crt);
}.
Record opened (s s' : fs) (au : Authority) (lock : nat) : Prop := {
  od_private : dir_ok s' (privateDir a) 448;
  od_public : dir_ok s' (publicDir b) 493;
  od_lock : dirents s' !! lp = Some lock /\ exists d m c, inodes s' !! lock = Some (Regular d m c);
  od_state : exists raw st, committed_as s' st raw au /\
    ((dirents s !! sp <> None /\ unmarshal_state raw = Some st) \/
     (new_state st raw /\ (settled s sp None -> settled s' sp (Some raw))));
}.
(** A state directory from which an undisturbed [Open] must succeed. *)
Definition ready_state (s : fs) (au : Authority) : Prop :=
  exists raw m c st crt data, node s sp = Some (Regular raw m c) /\ Z.land m 63 = 0 /\ slen raw <= 65536 /\
    unmarshal_state raw = Some st /\ check_pair now st = Ok (auth_Certificate au, crt, auth_key au) /\
    reads s data /\ cert_matches data crt.
Record ready (s : fs) (au : Authority) (lock : nat) : Prop := {
  rd_private : dir_ok s (privateDir a) 448;
  rd_public : dir_ok s (publicDir b) 493;
  rd_lock : dirents s !! lp = Some lock /\ (exists d m c, inodes s !! lock = Some (Regular d m c)) /\ (lock ∉ flocks s);
  rd_state : ready_state s au;
}.

Lemma reads_extends s s' data : fs_wf s -> extends s s' -> reads s data -> reads s' data.
Proof.
  unfold reads, read_file. intros Hwf Hx. destruct (node s pp) as [n|] eqn:En; [|done].
  rewrite (extends_node _ _ _ _ Hwf Hx En). destruct n as [| |[]|]; congruence.
Qed.
Lemma state_at_extends s s' raw : fs_wf s -> extends s s' -> state_at s raw -> state_at s' raw.
Proof. intros Hwf Hx (m & c & Hn & Hm). exists m, c. split; [by eapply extends_node|done]. Qed.

Lemma open_locked_wp lock s : fs_wf s ->
  wp faulty (opening s) (open_locked (privateDir a) (publicDir b) now e lock)
    (fun r s' => opening s s' /\ flocks s' = flocks s /\
      (forall au l, r = Ok (au, l) -> l = lock /\ exists raw st, committed_as s' st raw au /\
        ((dirents s !! sp <> None /\ unmarshal_state raw = Some st) \/
         (new_state st raw /\ (settled s sp None -> settled s' sp (Some raw))))) /\
      (faulty = false -> forall au, ready_state s au -> r = Ok (au, lock))) s.
Proof.
  intros Hwf. unfold open_locked. fold (publishedPath b). apply wp_bind.
  eapply wp_mono; [by apply load_state_wp|]. cbn. intros r s1 (Hop & Hfl & Hl & Hq).
  assert (Herr : forall (er : io_error) (s2 : fs), opening s s2 -> flocks s2 = flocks s -> (faulty = false -> forall au, ready_state s au -> False) ->
    opening s s2 /\ flocks s2 = flocks s /\
    (forall au l, (Err er : result io_error (Authority * nat)) = Ok (au, l) -> l = lock /\ exists raw st, committed_as s2 st raw au /\
        ((dirents s !! sp <> None /\ unmarshal_state raw = Some st) \/
         (new_state st raw /\ (settled s sp None -> settled s2 sp (Some raw))))) /\
    (faulty = false -> forall au, ready_state s au -> (Err er : result io_error (Authority * nat)) = Ok (au, lock))).
  { intros er s2 K1 K2 K3. split_and!; try done. intros Hf au Hau. by destruct (K3 Hf au Hau). }
  assert (Hrd : faulty = false -> forall au, ready_state s au -> exists st crt data, r = Ok st /\
    check_pair now st = Ok (auth_Certificate au, crt, auth_key au) /\ reads s data /\ cert_matches data crt).
  { intros Hf au (raw & m & c & st & crt & data & K1 & K2 & K3 & K4 & K5 & K6 & K7).
    exists st, crt, data. split_and!; try done. by apply (Hq Hf raw m c st). }
  destruct r as [st|er|].
  2: { apply Herr; [done..|]. intros Hf au Hau. by destruct (Hrd Hf au Hau) as (? & ? & ? & ? & _). }
  2: { split_and!; try done. intros Hf au Hau. by destruct (Hrd Hf au Hau) as (? & ? & ? & ? & _). }
  destruct (Hl st eq_refl) as [Hx _ (raw & Hat & Hsrc)].
  assert (Hwf1 : fs_wf s1) by apply (ex_wf _ _ Hx).
  apply wp_bind, wp_of_result. destruct (check_pair now st) as [[[cert crt] key]|er|] eqn:Ec.
  2: { apply Herr; [done..|]. intros Hf au Hau. destruct (Hrd Hf au Hau) as (st' & crt' & ? & [= <-] & K & _). congruence. }
  2: { unfold check_pair in Ec. by repeat case_match. }
  apply wp_bind. eapply wp_mono; [eapply wp_conseq; [by apply publish_wp|]|].
  { intros s2 Hac. destruct Hsrc as [[-> _]|[Hnew Hset]].
    - split; [apply Hac|]. intros Hs x Hpx. left. eapply settled_possible; [by apply (ac_settled _ _ Hac)|done].
    - split; [eapply extends_trans; [apply Hx|apply Hac]|]. intros Hs x Hpx. right. exists st, raw. split; [done|].
      eapply settled_possible; [by apply (ac_settled _ _ Hac), Hset|done]. }
  cbn. intros r2 s2 (Hac & Hpub & Hpq).
  assert (Hx2 : extends s s2) by (eapply extends_trans; [exact Hx|apply Hac]).
  assert (Hop2 : opening s s2).
  { split; [done|]. intros Hs x Hpx. destruct Hsrc as [[-> _]|[Hnew Hset]].
    - left. eapply settled_possible; [by apply (ac_settled _ _ Hac)|done].
    - right. exists st, raw. split; [done|]. eapply settled_possible; [by apply (ac_settled _ _ Hac), Hset|done]. }
  assert (Hfl2 : flocks s2 = flocks s) by (rewrite (ac_flocks _ _ Hac); done).
  assert (Hready : faulty = false -> forall au, ready_state s au -> r2 = Ok tt /\ cert = auth_Certificate au /\ key = auth_key au).
  { intros Hf au Hau. destruct (Hrd Hf au Hau) as (st' & crt' & data & [= <-] & K1 & K2 & K3).
    rewrite Ec in K1. injection K1 as -> -> ->. split; [|done]. apply (Hpq Hf data); [|done].
    by apply (reads_extends s). }
  destruct r2 as [[]|er|].
  - apply wp_ret. split_and!; try done.
    + intros au l [= <- <-]. split; [done|]. exists raw, st. split.
      * constructor; [by apply (state_at_extends s1); [..|apply Hac|]|]. cbn.
        destruct (Hpub eq_refl) as (data & K1 & K2). by exists crt, data.
      * destruct Hsrc as [[-> Hu]|[Hnew Hset]]; [left|right].
        -- split; [|done]. destruct Hat as (m & c & Hn & _). unfold node in Hn. by destruct (dirents s !! sp).
        -- split; [done|]. intros Hs. by apply (ac_settled _ _ Hac), Hset.
    + intros Hf au Hau. destruct (Hready Hf au Hau) as (_ & -> & ->). by destruct au.
  - apply Herr; [done..|]. intros Hf au Hau. by destruct (Hready Hf au Hau).
  - split_and!; try done. intros Hf au Hau. by destruct (Hready Hf au Hau).
Qed.

Lemma opening_flocks s s' l : opening s s' -> opening s (set_flocks s' l).
Proof.
  intros [[[W1 W2] N D J] C]. split; [constructor; cbn; auto; by constructor|]. exact C.
Qed.
Lemma ready_state_flocks s l au : ready_state s au -> ready_state (set_flocks s l) au.
Proof.
  intros (raw & m & c & st & crt & data & K1 & K2 & K3 & K4 & K5 & K6 & K7).
  exists raw, m, c, st, crt, data. split_and!; try done. revert K6. unfold reads, read_file, node. cbn.
  destruct (dirents s !! pp ≫= _) as [[| |[]|]|]; congruence.
Qed.
Lemma adds_opening ps s s' : fs_wf s -> sp ∉ ps -> adds ps s s' -> opening s s'.
Proof.
  intros Hwf Hp Hadd. split; [apply Hadd|]. intros Hs x Hx. left. eapply settled_possible; [|exact Hx].
  by eapply adds_settled.
Qed.
Lemma ready_extends s s' au lock : fs_wf s -> extends s s' -> (lock ∉ flocks s -> lock ∉ flocks s') ->
  ready s au lock -> ready s' au lock.
Proof.
  intros Hwf Hx Hf [K1 K2 (K3 & K4 & K5) (raw & m & c & st & crt & data & K6 & K7 & K8 & K9 & K10 & K11 & K12)].
  constructor; [by eapply dir_ok_extends..| |].
  - split; [by apply (ex_dirents _ _ Hx)|]. rewrite (ex_inodes _ _ Hx) by (by eapply (wf_dirents _ Hwf)). auto.
  - exists raw, m, c, st, crt, data. split_and!; try done; [by eapply extends_node|by eapply reads_extends].
Qed.

(** The outcome of [Open] from [s]. *)
Definition open_post (s : fs) (r : result io_error (Authority * nat)) (s' : fs) : Prop :=
  opening s s' /\
  match r with
  | Ok (au, lock) => opened s s' au lock /\ (lock ∉ flocks s) /\ flocks s' = {[lock]} ∪ flocks s
  | _ => flocks s' = flocks s
  end /\
  (faulty = false -> forall au lock, ready s au lock -> r = Ok (au, lock)).

Lemma open_error s s' r : opening s s' -> flocks s' = flocks s -> (forall x, r <> Ok x) ->
  (faulty = false -> forall au lock, ready s au lock -> False) -> open_post s r s'.
Proof.
  intros K1 K2 K3 K4. split; [done|]. split; [destruct r; [by destruct (K3 a0)|done..]|].
  intros Hf au lock Hr. by destruct (K4 Hf au lock Hr).
Qed.

(** [open_lock] finds or creates a regular lock file. *)
Lemma open_lock_wp (Q : result io_error nat -> fs -> Prop) s I : fs_wf s ->
  (forall s', adds [lp] s s' -> I s') ->
  (forall lock s', adds [lp] s s' -> dirents s' !! lp = Some lock -> (exists d m c, inodes s' !! lock = Some (Regular d m c)) ->
     Q (Ok lock) s') ->
  (forall er, (faulty = false -> forall au lock, ready s au lock -> False) -> Q (Err er) s) ->
  wp faulty I (syscall (open_lock lp)) Q s.
Proof.
  intros Hwf HI HO HE. apply wp_syscall_quiet; [intros ->; by apply HE|]. unfold open_lock.
  destruct (dirents s !! lp) as [l|] eqn:El.
  - assert (Hbad : (forall d m c, inodes s !! l <> Some (Regular d m c)) -> Q (Err Fault) s).
    { intros Hn. apply HE. intros _ au lock [_ _ (K1 & (d & m & c & K2) & _) _]. rewrite El in K1. injection K1 as <-. by eapply Hn. }
    destruct (inodes s !! l) as [[d m c| | |]|] eqn:Ei; try (by apply Hbad).
    split; [by apply HI, adds_refl|]. apply HO; [by apply adds_refl|done|eauto].
  - assert (Hadd : adds [lp] s (add_node s lp (Regular "" 384 false))) by (apply add_node_adds; auto; by left).
    split; [by apply HI|]. apply HO; [done|cbn; by rewrite lookup_insert_eq|]. cbn. rewrite lookup_insert_eq. eauto.
Qed.

(** From the lock file on: [s] is where [Open] started, [s3] where the lock is opened. *)
Record before_lock (s s3 : fs) (lock : nat) : Prop := {
  bl_extends : extends s s3;
  bl_settled : settled s sp None -> settled s3 sp None;
  bl_flocks : flocks s3 = flocks s;
  bl_state : dirents s3 !! sp = dirents s !! sp;
  bl_private : dir_ok s3 (privateDir a) 448;
  bl_public : dir_ok s3 (publicDir b) 493;
  bl_lock : dirents s3 !! lp = Some lock /\ exists d m c, inodes s3 !! lock = Some (Regular d m c);
}.
Lemma before_lock_ready s s3 lock : fs_wf s -> before_lock s s3 lock ->
  forall au l, ready s au l -> l = lock /\ (lock ∉ flocks s) /\ ready s3 au l.
Proof.
  intros Hwf B au l Hr. assert (Hr3 : ready s3 au l).
  { revert Hr. apply ready_extends; [done|apply B|by rewrite (bl_flocks _ _ _ B)]. }
  destruct (rd_lock _ _ _ Hr3) as (K1 & _ & K2). rewrite (proj1 (bl_lock _ _ _ B)) in K1. injection K1 as ->.
  by rewrite (bl_flocks _ _ _ B) in K2.
Qed.
Lemma take_lock_wp s s3 lock : fs_wf s -> before_lock s s3 lock ->
  wp faulty (opening s) (r ← try (syscall (flock lock));
    match r with
    | Ok _ => on_error (open_locked (privateDir a) (publicDir b) now e lock) (always (release lock))
    | _ => finally (throw (Message "inspection state is already owned by another process")) (syscall pure_effect)
    end) (open_post s) s3.
Proof.
  intros Hwf B. assert (R3 := before_lock_ready s s3 lock Hwf B).
  destruct B as [X3 S3 F3 E3 D1 D2 [L1 L2]]. assert (W3 : fs_wf s3) by apply (ex_wf _ _ X3).
  assert (O3 : opening s s3) by (eapply opening_trans; [exact X3|exact S3|by apply opening_refl]).
  assert (Hfailed : (faulty = false -> forall au l, ready s au l -> False) -> wp faulty (opening s)
    (finally (throw (Message "inspection state is already owned by another process")) (syscall pure_effect)) (open_post s) s3).
  { intros He. apply wp_finally, wp_throw, wp_syscall; [by apply open_error|]. split; [done|by apply open_error]. }
  apply wp_bind, wp_try, wp_syscall_quiet; [intros Hft; apply Hfailed; congruence|].
  unfold flock. case_bool_decide as Hlk.
  { apply Hfailed. intros _ au l Hr. destruct (R3 au l Hr) as (-> & Hn & _). by rewrite F3 in Hlk. }
  set (s4 := set_flocks s3 ({[lock]} ∪ flocks s3)).
  assert (O4 : opening s s4) by by apply opening_flocks.
  assert (W4 : fs_wf s4) by (destruct W3; by constructor).
  split; [done|]. apply wp_on_error.
  eapply wp_mono; [eapply wp_conseq; [by apply (open_locked_wp lock s4)|]|].
  { intros s'. apply opening_trans; [apply O4|exact S3]. }
  cbn. intros r s5 (O5 & F5 & K5 & Q5).
  assert (X5 : extends s3 s5) by (destruct (op_extends _ _ O5); by constructor).
  assert (O6 : opening s s5) by (eapply opening_trans; [apply O4|exact S3|done]).
  assert (Hrel : flocks (release lock s5) = flocks s).
  { cbn. rewrite F5. cbn. rewrite F3. rewrite F3 in Hlk. set_solver. }
  assert (Hq : faulty = false -> forall au l, ready s au l -> r = Ok (au, l)).
  { intros Hf au l Hr. destruct (R3 au l Hr) as (-> & _ & Hr3). apply (Q5 Hf). by apply ready_state_flocks, (rd_state _ _ _ Hr3). }
  assert (Hfail : forall r' : result io_error (Authority * nat), r = r' -> (forall x, r' <> Ok x) ->
    wp faulty (opening s) (always (release lock)) (fun _ s'' => open_post s r' s'') s5).
  { intros r' -> Hr'. apply wp_always; [by apply opening_flocks|]. apply open_error; [by apply opening_flocks|done|done|].
    intros Hf au l Hr. by eapply Hr', Hq. }
  destruct r as [[au l]|er|]; [|by apply Hfail..].
  destruct (K5 au l eq_refl) as (-> & raw & st & Hc & Hsrc). split; [done|]. split; [|done].
  rewrite F3 in Hlk. split; [|split; [done|by rewrite F5; cbn; rewrite F3]]. constructor.
  - by apply (dir_ok_extends s3).
  - by apply (dir_ok_extends s3).
  - split; [by apply (ex_dirents _ _ X5)|]. rewrite (ex_inodes _ _ X5) by (by eapply (wf_dirents _ W3)). done.
  - exists raw, st. split; [done|]. destruct Hsrc as [[Hd Hu]|[Hn Hs]].
    + left. split; [|done]. cbn in Hd. by rewrite <- E3.
    + right. split; [done|]. intros Hset. by apply Hs, S3.
Qed.

Lemma Open_wp s : fs_wf s -> (a <> b) ->
  wp faulty (opening s) (Open umask (privateDir a) (publicDir b) now e) (open_post s) s.
Proof.
  intros Hwf Hne. unfold Open. fold (lockPath a).
  assert (Hspa : sp ∉ prefixes (privateDir a)) by by apply state_not_private_prefix.
  assert (Hspb : sp ∉ prefixes (publicDir b)) by by apply state_not_public_prefix.
  assert (Hspl : sp ∉ [lp]) by (intros Hx%list_elem_of_singleton; by apply (state_not_lock a Ha)).
  (* the private directory *)
  apply wp_bind. eapply wp_mono; [eapply wp_conseq; [by apply Directory_wp|by intros ?; apply adds_opening]|].
  cbn. intros r s1 (A1 & D1 & Q1 & _). assert (W1 : fs_wf s1) by apply (ex_wf _ _ (ad_extends _ _ _ A1)).
  assert (R1 : forall au lock, ready s au lock -> ready s1 au lock).
  { intros au lock. apply ready_extends; [done|apply A1|by rewrite (ad_flocks _ _ _ A1)]. }
  destruct r as [[]|er|].
  2-3: apply open_error; [by apply (adds_opening (prefixes (privateDir a)))|apply (ad_flocks _ _ _ A1)|done|]; intros Hf au lock Hr;
    by specialize (Q1 Hf (rd_private _ _ _ Hr)).
  (* the public directory *)
  apply wp_bind. eapply wp_mono; [eapply wp_conseq; [by apply Directory_wp|]|].
  { intros s' A2. eapply opening_trans; [apply A1|by apply (adds_settled _ _ _ _ _ Hwf Hspa A1)|].
    by apply (adds_opening (prefixes (publicDir b))). }
  cbn. intros r s2 (A2 & D2 & Q2 & _). assert (W2 : fs_wf s2) by apply (ex_wf _ _ (ad_extends _ _ _ A2)).
  assert (X2 : extends s s2) by (eapply extends_trans; [apply A1|apply A2]).
  assert (S2 : settled s sp None -> settled s2 sp None).
  { intros Hs. apply (adds_settled _ _ _ _ _ W1 Hspb A2). by apply (adds_settled _ _ _ _ _ Hwf Hspa A1). }
  assert (F2 : flocks s2 = flocks s) by (rewrite (ad_flocks _ _ _ A2); apply (ad_flocks _ _ _ A1)).
  assert (O2 : opening s s2) by (eapply opening_trans; [exact X2|exact S2|by apply opening_refl]).
  assert (R2 : forall au lock, ready s au lock -> ready s2 au lock) by (intros au lock; apply ready_extends; [done..|by rewrite F2]).
  destruct r as [[]|er|].
  2-3: apply open_error; [done|done|done|]; intros Hf au lock Hr;
    by specialize (Q2 Hf (rd_public _ _ _ (R1 au lock Hr))).
  apply wp_guard; intros Hg; [by apply String.eqb_eq, abs_path_inj in Hg|].
  (* the lock *)
  apply wp_bind, open_lock_wp; [done| | |].
  { intros s' A3. eapply opening_trans; [exact X2|exact S2|]. by apply (adds_opening [lp]). }
  2: { intros er Hq. apply open_error; [done|done|done|]. intros Hf au lock Hr. by apply (Hq Hf au lock), R2. }
  intros lock s3 A3 L1 L2. apply take_lock_wp; [done|].
  constructor; [eapply extends_trans; [exact X2|apply A3]| |by rewrite (ad_flocks _ _ _ A3)| | | |done].
  - intros Hs. apply (adds_settled _ _ _ _ _ W2 Hspl A3). by apply S2.
  - by rewrite (ad_others _ _ _ A3), (ad_others _ _ _ A2), (ad_others _ _ _ A1).
  - by apply (dir_ok_extends s1); [..|eapply extends_trans; [apply A2|apply A3]|apply D1].
  - by apply (dir_ok_extends s2); [..|apply A3|apply D2].
Qed.
End Opening.

(** ** Restarting *)
Lemma check_pair_usable `{Pki} now now2 st cert crt key :
  check_pair now st = Ok (cert, crt, key) -> usable now2 cert = true -> check_pair now2 st = Ok (cert, crt, key).
Proof.
  unfold check_pair. destruct (X509KeyPair _ _) as [kp|]; [|done]. destruct (kp_Leaf kp) as [c|]; [|done].
  destruct (usable now c); [|done]. cbn [negb]. intros E Hu.
  assert (c = cert) as -> by (by repeat case_match; simplify_eq). by rewrite Hu.
Qed.

(** After a first successful opening, the directories are ready for another one. *)
Lemma opened_ready `{Signer} `{!Pki} a b now now2 e s s' au lock s2 :
  settled s (statePath a) None -> opened a b now e s s' au lock -> fs_wf s' ->
  (forall st raw, new_state now e st raw -> unmarshal_state raw = Some st /\ slen raw <= 65536) ->
  (forall st cert crt key, generate now e = Some st -> check_pair now st = Ok (cert, crt, key) ->
    cert_matches (st_Certificate st) crt) ->
  usable now2 (auth_Certificate au) = true -> extends s' s2 -> (lock ∉ flocks s2) -> ready a b now2 s2 au lock.
Proof.
  intros Hset [D1 D2 (L1 & L2) (raw & st & [Hat (crt & data & Hc & Hd & Hm)] & Hsrc)] Hwf Hj Hp Hu Hx Hl.
  destruct Hsrc as [[Hno _]|[Hnew _]].
  { destruct Hset as [_ Hh]. by destruct (dirents s !! statePath a). }
  destruct (Hj st raw Hnew) as [Hun Hlen].
  constructor; [by apply (dir_ok_extends s')..| |].
  - split; [by apply (ex_dirents _ _ Hx)|]. by rewrite (ex_inodes _ _ Hx) by (by eapply (wf_dirents _ Hwf)).
  - destruct Hat as (m & c & Hn & Hm0). exists raw, m, c, st, crt, data.
    assert (Hmatch : cert_matches data crt) by (destruct Hm as [->|Hm]; [destruct Hnew as [Hg _]; by eapply Hp|done]).
    split_and!; first [done|by apply (extends_node s')|by eapply check_pair_usable|by apply (reads_extends b s')].
Qed.

(** ** Trust bundles *)
Section Bundles.
Context `{Pki}.
Hypothesis pem_consumes : forall r blk rest, pem_decode r = (Some blk, rest) -> (String.length rest < String.length r)%nat.

Definition cert_block (blk : pem_block) : Prop :=
  blk_Type blk = "CERTIFICATE" /\ blk_Headers blk = [] /\ parse_certificate (blk_Bytes blk) = true.
(** [blocks_of r l]: after annotations are skipped, [r] is the certificates [l]. *)
Inductive blocks_of : string -> list pem_block -> Prop :=
| blocks_end r : r = "" \/ from_marker begin_marker r = None -> blocks_of r []
| blocks_cons r m blk rest l : r <> "" -> from_marker begin_marker r = Some m ->
    has_prefix m begin_certificate = true -> pem_decode m = (Some blk, rest) -> cert_block blk ->
    blocks_of (trim_space rest) l -> blocks_of r (blk :: l).

Lemma cut_prefix_length p s r : cut_prefix p s = Some r -> (String.length r <= String.length s)%nat.
Proof. intros ->%cut_prefix_Some. pose proof (slen_app p r) as E. unfold slen in E. lia. Qed.
Lemma strip_length fuel l s : (String.length (strip fuel l s) <= String.length s)%nat.
Proof.
  revert s. induction fuel as [|fuel IH]; intros s; [done|]. cbn.
  destruct (strip_one l s) as [r|] eqn:E; [|done]. etransitivity; [apply IH|].
  clear IH. induction l as [|p l IH]; cbn in E; [done|].
  destruct (cut_prefix p s) as [r'|] eqn:Ep; [injection E as <-; by eapply cut_prefix_length|auto].
Qed.
Lemma srev_length s : String.length (srev s) = String.length s.
Proof.
  unfold srev. assert (Hg : forall s acc, String.length (srev_append s acc) = (String.length s + String.length acc)%nat).
  { clear s. intros s. induction s as [|c s IH]; intros acc; [done|]. cbn. rewrite IH. cbn. lia. }
  rewrite Hg. cbn. lia.
Qed.
Lemma trim_space_length s : (String.length (trim_space s) <= String.length s)%nat.
Proof.
  unfold trim_space, trim_right, trim_left. rewrite srev_length.
  etransitivity; [apply strip_length|]. rewrite srev_length. apply strip_length.
Qed.
Lemma from_marker_length k r m : from_marker k r = Some m -> (String.length m <= String.length r)%nat.
Proof.
  induction r as [|c r IH]; cbn; destruct (has_prefix _ k); first [by intros [= <-]|intros E%IH; lia].
Qed.

Lemma bundle_input_spec fuel : forall r out found out' found', (String.length r < fuel)%nat ->
  bundle_input fuel r out found = Ok (out', found') <->
  exists l texts, blocks_of r l /\ mapM pem_encode_block l = Some texts /\
    out' = out +:+ foldr String.append "" texts /\ found' = found || negb (bool_decide (l = [])).
Proof.
  induction fuel as [|fuel IH]; intros r out found out' found' Hf; [lia|]. cbn [bundle_input].
  assert (Hend : r = "" \/ from_marker begin_marker r = None -> Ok (E:=bundle_error) (out, found) = Ok (out', found') <->
    exists l texts, blocks_of r l /\ mapM pem_encode_block l = Some texts /\
      out' = out +:+ foldr String.append "" texts /\ found' = found || negb (bool_decide (l = []))).
  { intros He. split.
    - intros [= <- <-]. exists [], []. split; [by constructor|]. split; [done|]. cbn. by rewrite sapp_nil_r, orb_false_r.
    - intros (l & texts & Hb & Hm & -> & ->). assert (l = []) as ->.
      { inversion Hb as [|? ? ? ? ? Hr Hk]; [done|]. subst. destruct He as [He|He]; [done|congruence]. }
      cbn in Hm. injection Hm as <-. cbn. by rewrite sapp_nil_r, orb_false_r. }
  destruct (r =s= "") eqn:Er; [apply Hend; left; by apply String.eqb_eq|].
  destruct (from_marker begin_marker r) as [m|] eqn:Em; [|by apply Hend; right].
  apply String.eqb_neq in Er. clear Hend.
  assert (Hcons : forall l, blocks_of r l <-> exists blk rest l', l = blk :: l' /\ has_prefix m begin_certificate = true /\
    pem_decode m = (Some blk, rest) /\ cert_block blk /\ blocks_of (trim_space rest) l').
  { intros l. split.
    - inversion 1 as [? [?|?]|? m' blk rest l' ? Em' ? ? ? ?]; subst; try congruence.
      rewrite Em in Em'. injection Em' as ->. eauto 10.
    - intros (blk & rest & l' & -> & ? & ? & ? & ?). by econstructor. }
  setoid_rewrite Hcons. destruct (has_prefix m begin_certificate) eqn:Ep; cbn [negb guard_err].
  2: { split; [done|]. by intros (l & texts & (blk & rest & l' & _ & E & _) & _). }
  destruct (pem_decode m) as [[blk|] rest] eqn:Ed.
  2: { split; [done|]. by intros (l & texts & (blk & rest' & l' & _ & _ & E & _) & _). }
  destruct (_ || _) eqn:Et; cbn [guard_err].
  { split; [done|]. intros (l & texts & (blk' & rest' & l' & -> & _ & [= <- <-] & (E1 & E2 & _) & _) & _).
    rewrite E1, E2 in Et. done. }
  destruct (parse_certificate (blk_Bytes blk)) eqn:Ec; cbn [negb guard_err].
  2: { split; [done|]. intros (l & texts & (blk' & rest' & l' & _ & _ & [= <- <-] & (_ & _ & E) & _) & _). congruence. }
  assert (Hblk : cert_block blk).
  { apply orb_false_iff in Et as [E1 E2]. bool_hyps. split; [done|]. split; [|done]. by destruct (blk_Headers blk). }
  destruct (pem_encode_block blk) as [text|] eqn:Ee.
  2: { split; [done|]. intros (l & texts & (blk' & rest' & l' & -> & _ & [= <- <-] & _) & Hm & _).
       cbn in Hm. by rewrite Ee in Hm. }
  rewrite IH.
  2: { pose proof (trim_space_length rest). pose proof (pem_consumes _ _ _ Ed). pose proof (from_marker_length _ _ _ Em). lia. }
  split.
  - intros (l & texts & Hb & Hm & -> & ->). exists (blk :: l), (text :: texts). split; [by eauto 10|].
    split; [cbn; by rewrite Ee, Hm|]. cbn. rewrite sapp_assoc. split; [done|]. by rewrite !orb_true_r.
  - intros (l & texts & (blk' & rest' & l' & -> & _ & [= <- <-] & _ & Hb) & Hm & -> & ->).
    cbn in Hm. rewrite Ee in Hm. cbn in Hm. destruct (mapM pem_encode_block l') as [texts'|] eqn:El; [|done].
    injection Hm as <-. exists l', texts'. cbn. rewrite sapp_assoc. by rewrite !orb_true_r.
Qed.

Lemma bundle_one_spec out input out' : bundle_one out input = Ok out' <->
  exists l texts, l <> [] /\ blocks_of (trim_space input) l /\ mapM pem_encode_block l = Some texts /\
    out' = out +:+ foldr String.append "" texts.
Proof.
  unfold bundle_one. rewrite bind_Ok. split.
  - intros ([o f] & H1 & H2). apply guard_err_Ok in H2 as [Hf [= <-]]. apply bundle_input_spec in H1; [|lia].
    destruct H1 as (l & texts & Hb & Hm & -> & ->). exists l, texts. split_and!; try done. intros ->. done.
  - intros (l & texts & Hl & Hb & Hm & ->). exists (out +:+ foldr String.append "" texts, true). split; [|done].
    apply bundle_input_spec; [lia|]. exists l, texts. split_and!; try done. by rewrite bool_decide_eq_false_2.
Qed.
End Bundles.

(** ** Instances for the witnesses *)
Definition demo_decode (s : string) : option pem_block * string :=
  match cut_prefix begin_certificate s with
  | Some r => match cut ";" r with
              | Some (body, rest) => (Some {| blk_Type := "CERTIFICATE"; blk_Headers := []; blk_Bytes := body |}, rest)
              | None => (None, s)
              end
  | None => (None, s)
  end.
#[export] Instance demo_pki : Pki := {|
  marshal_state st := Some (st_Certificate st +:+ "|" +:+ st_PrivateKey st);
  unmarshal_state raw := match cut "|" raw with
    | Some (c, k) => Some {| st_Certificate := c; st_PrivateKey := k |} | None => None end;
  X509KeyPair c k := match demo_decode c with
    | (Some blk, _) => Some {| kp_Leaf := Some {| SerialNumber := 1; CommonName := blk_Bytes blk; DNSNames := [];
         NotBefore := - minute; NotAfter := 87600 * hour; IsCA := true; BasicConstraintsValid := true;
         MaxPathLenZero := true; KeyUsage := ["CertSign"; "CRLSign"]; ExtKeyUsage := [] |};
         kp_Raw := blk_Bytes blk; kp_self_signed := true; kp_ecdsa := Some (0%nat : PrivateKey) |}
    | _ => None end;
  pem_decode := demo_decode;
  pem_encode_block blk := Some (begin_certificate +:+ blk_Bytes blk +:+ ";");
  parse_certificate _ := true;
  add_years t n := t + n * (8760 * hour) |}.
Definition empty_fs : fs := {| dirents := ∅; durable := ∅; inodes := ∅; next := 0; flocks := ∅ |}.
Definition demo_world (s : fs) : world :=
  {| fs_of := s; log := []; clock := 0; fault := fun _ => false; chunk := fun _ => 3%nat; suffix := N.of_nat |}.
(** The same with a fault at system call [n]. *)
Definition faulty_world (s : fs) (n : nat) : world :=
  {| fs_of := s; log := []; clock := 0; fault := fun k => (k =? n)%nat; chunk := fun _ => 3%nat; suffix := N.of_nat |}.
Definition demo_entropy : Entropy := 0%nat.
Definition demo_entropy7 : Entropy := 7%nat.
Definition demo_a : list string := ["var"; "gateway"].
Definition demo_b : list string := ["run"; "trust"].
Definition demo_open (w : world) : result io_error (Authority * nat) * world :=
  Open 18 (privateDir demo_a) (publicDir demo_b) 0 demo_entropy w.
Definition demo_first : result io_error (Authority * nat) * world := demo_open (demo_world empty_fs).
Lemma empty_fs_wf : fs_wf empty_fs.
Proof. by constructor. Qed.
Lemma empty_settled p : settled empty_fs p None.
Proof. by split. Qed.
Lemma demo_normal : Forall (fun e => normal e = true) demo_a /\ Forall (fun e => normal e = true) demo_b.
Proof. split; repeat constructor. Qed.
Lemma demo_apart : ~ demo_a `prefix_of` demo_b.
Proof. intros [k [=]]. Qed.

Lemma demo_first_wf : fs_wf (fs_of demo_first.2).
Proof.
  pose proof (Open_wp 18 true demo_a demo_b 0 demo_entropy (proj1 demo_normal) (proj2 demo_normal) demo_apart empty_fs
    empty_fs_wf ltac:(done) (demo_world empty_fs) eq_refl (or_introl eq_refl)) as Hw.
  unfold demo_first, demo_open. destruct (Open _ _ _ _ _ _) as [r w']. destruct Hw as (([Hx _] & _) & _).
  exact (ex_wf _ _ Hx).
Qed.

Lemma faulty_world_wf s n : fs_wf s -> fs_wf (fs_of (faulty_world s n)).
Proof. done. Qed.
Lemma release_extends s l : fs_wf s -> extends s (fs_of (demo_world (release l s))).
Proof. intros [W1 W2]. constructor; [by constructor|done..]. Qed.
Lemma release_free s l : l ∉ flocks (fs_of (demo_world (release l s))).
Proof. cbn. set_solver. Qed.
(** A second start, from those files, with a fault at the tenth system call. *)
Definition demo_interrupted : world := faulty_world (fs_of demo_first.2) 9.
Lemma demo_interrupted_wf : fs_wf (fs_of demo_interrupted).
Proof. exact (faulty_world_wf _ 9 demo_first_wf). Qed.
#[local] Opaque demo_first demo_interrupted.

(** ** Properties *)

(** C4: [Open] never replaces or removes anything that exists, valid or not,
    whatever system calls fault: in every intermediate state and at the end each
    directory entry and each inode that was there is still there, unchanged. *)
Theorem open_never_replaces `{Signer} `{!Pki} umask a b now e w :
  Forall (fun e => normal e = true) a -> Forall (fun e => normal e = true) b -> ~ a `prefix_of` b ->
  fs_wf (fs_of w) ->
  let '(_, w') := Open umask (privateDir a) (publicDir b) now e w in
  extends (fs_of w) (fs_of w') /\ exists new, log w' = new ++ log w /\ Forall (extends (fs_of w)) new.
Proof.
  intros Ha Hb Hab Hwf. assert (Hne : a <> b) by (intros ->; by apply Hab).
  pose proof (Open_wp umask true a b now e Ha Hb Hab (fs_of w) Hwf Hne w eq_refl (or_introl eq_refl)) as Hw.
  destruct (Open _ _ _ _ _ w) as [r w']. destruct Hw as ([Hop _] & (new & El & Hf) & _).
  split; [apply Hop|]. exists new. split; [done|]. eapply Forall_impl; [exact Hf|]. intros s Hs. apply Hs.
Qed.

Lemma open_never_replaces_witness :
  let '(_, w') := Open 18 (privateDir demo_a) (publicDir demo_b) 0 demo_entropy demo_interrupted in
  extends (fs_of demo_interrupted) (fs_of w') /\
  exists new, log w' = new ++ log demo_interrupted /\ Forall (extends (fs_of demo_interrupted)) new.
Proof.
  apply (open_never_replaces 18 demo_a demo_b 0 demo_entropy demo_interrupted).
  - apply demo_normal.
  - apply demo_normal.
  - exact demo_apart.
  - exact demo_interrupted_wf.
Defined.

(** C5: the first commit of the CA state is atomic and crash safe: interrupted at any
    system call, with any faults and losing everything that was not synced, the
    state file is either absent or exactly the generated certificate with its
    key; and when [Open] succeeds the state is durable. *)
Theorem open_commit_atomic `{Signer} `{!Pki} umask a b now e w :
  Forall (fun e => normal e = true) a -> Forall (fun e => normal e = true) b -> ~ a `prefix_of` b ->
  fs_wf (fs_of w) -> settled (fs_of w) (statePath a) None ->
  let '(r, w') := Open umask (privateDir a) (publicDir b) now e w in
  (exists new, log w' = new ++ log w /\ Forall (fun s' => forall x, possible s' (statePath a) x ->
     x = None \/ exists st raw, new_state now e st raw /\ x = Some raw) (fs_of w' :: new)) /\
  (forall x, r = Ok x -> exists st raw, new_state now e st raw /\ settled (fs_of w') (statePath a) (Some raw)).
Proof.
  intros Ha Hb Hab Hwf Hset. assert (Hne : a <> b) by (intros ->; by apply Hab).
  pose proof (Open_wp umask true a b now e Ha Hb Hab (fs_of w) Hwf Hne w eq_refl (or_introl eq_refl)) as Hw.
  destruct (Open _ _ _ _ _ w) as [r w']. destruct Hw as ((Hop & Hr & _) & (new & El & Hf) & _). split.
  - exists new. split; [done|]. constructor; [by apply (op_commit _ _ _ _ _ Hop)|].
    eapply Forall_impl; [exact Hf|]. intros s Hs. by apply (op_commit _ _ _ _ _ Hs).
  - intros [au lock] ->. destruct Hr as ([_ _ _ (raw & st & _ & Hsrc)] & _). destruct Hsrc as [[Hn _]|[Hn Hs]].
    + destruct Hset as [_ Hh]. by destruct (dirents (fs_of w) !! statePath a).
    + exists st, raw. auto.
Qed.

Lemma open_commit_atomic_witness :
  let '(r, w') := Open 18 (privateDir demo_a) (publicDir demo_b) 0 demo_entropy (demo_world empty_fs) in
  (exists new, log w' = new ++ log (demo_world empty_fs) /\ Forall (fun s' => forall x, possible s' (statePath demo_a) x ->
     x = None \/ exists st raw, new_state 0 demo_entropy st raw /\ x = Some raw) (fs_of w' :: new)) /\
  (forall x, r = Ok x -> exists st raw, new_state 0 demo_entropy st raw /\ settled (fs_of w') (statePath demo_a) (Some raw)).
Proof.
  apply (open_commit_atomic 18 demo_a demo_b 0 demo_entropy (demo_world empty_fs)).
  - apply demo_normal.
  - apply demo_normal.
  - exact demo_apart.
  - exact empty_fs_wf.
  - apply empty_settled.
Defined.

(** [Open] owns the state directory exclusively: success takes the lock of the
    private directory's lock file, which nobody held; failure leaves the locks as
    they were; and while the lock is held no [Open] succeeds. *)
Theorem open_exclusive `{Signer} `{!Pki} umask a b now e w :
  Forall (fun e => normal e = true) a -> Forall (fun e => normal e = true) b -> ~ a `prefix_of` b ->
  fs_wf (fs_of w) ->
  let '(r, w') := Open umask (privateDir a) (publicDir b) now e w in
  match r with
  | Ok (_, lock) => dirents (fs_of w') !! lockPath a = Some lock /\ (lock ∉ flocks (fs_of w)) /\
      flocks (fs_of w') = {[lock]} ∪ flocks (fs_of w)
  | _ => flocks (fs_of w') = flocks (fs_of w)
  end /\
  (forall l, dirents (fs_of w) !! lockPath a = Some l -> l ∈ flocks (fs_of w) -> forall x, r <> Ok x).
Proof.
  intros Ha Hb Hab Hwf. assert (Hne : a <> b) by (intros ->; by apply Hab).
  pose proof (Open_wp umask true a b now e Ha Hb Hab (fs_of w) Hwf Hne w eq_refl (or_introl eq_refl)) as Hw.
  destruct (Open _ _ _ _ _ w) as [r w']. destruct Hw as (([Hx _] & Hr & _) & _). split.
  - destruct r as [[au lock]|er|]; [|done..]. destruct Hr as ([_ _ [Hl _] _] & Hn & Hf). done.
  - intros l Hl Hin [au lock] ->. destruct Hr as ([_ _ [Hl' _] _] & Hn & _).
    apply (ex_dirents _ _ Hx) in Hl. rewrite Hl in Hl'. by injection Hl' as ->.
Qed.

Lemma open_exclusive_witness :
  let '(r, w') := Open 18 (privateDir demo_a) (publicDir demo_b) 0 demo_entropy (demo_world empty_fs) in
  match r with
  | Ok (_, lock) => dirents (fs_of w') !! lockPath demo_a = Some lock /\ (lock ∉ flocks empty_fs) /\
      flocks (fs_of w') = {[lock]} ∪ flocks empty_fs
  | _ => flocks (fs_of w') = flocks empty_fs
  end /\
  (forall l, dirents empty_fs !! lockPath demo_a = Some l -> l ∈ flocks empty_fs -> forall x, r <> Ok x).
Proof.
  apply (open_exclusive 18 demo_a demo_b 0 demo_entropy (demo_world empty_fs)).
  - apply demo_normal.
  - apply demo_normal.
  - exact demo_apart.
  - exact empty_fs_wf.
Defined.

(** C19: a restart recovers the same authority.  After a first successful [Open] and
    in any later state that kept its files and in which its lock is free, an
    [Open] without faults, at any time the certificate is usable, succeeds with the
    same certificate, key and lock file.  Hypotheses: decoding undoes encoding for
    the generated state, within the size limit, and its certificate is one PEM
    block of the certificate that its pair parses to. *)
Theorem open_restart `{Signer} `{!Pki} umask a b now now2 e e2 w au lock w' w2 :
  Forall (fun e => normal e = true) a -> Forall (fun e => normal e = true) b -> ~ a `prefix_of` b ->
  fs_wf (fs_of w) -> settled (fs_of w) (statePath a) None ->
  (forall st raw, new_state now e st raw -> unmarshal_state raw = Some st /\ slen raw <= 65536) ->
  (forall st cert crt key, generate now e = Some st -> check_pair now st = Ok (cert, crt, key) ->
    cert_matches (st_Certificate st) crt) ->
  Open umask (privateDir a) (publicDir b) now e w = (Ok (au, lock), w') ->
  extends (fs_of w') (fs_of w2) -> lock ∉ flocks (fs_of w2) -> usable now2 (auth_Certificate au) = true -> quiet w2 ->
  (Open umask (privateDir a) (publicDir b) now2 e2 w2).1 = Ok (au, lock).
Proof.
  intros Ha Hb Hab Hwf Hset Hj Hp Ho Hx Hl Hu Hq. assert (Hne : a <> b) by (intros ->; by apply Hab).
  pose proof (Open_wp umask true a b now e Ha Hb Hab (fs_of w) Hwf Hne w eq_refl (or_introl eq_refl)) as Hw.
  rewrite Ho in Hw. destruct Hw as ((Hop & (Hod & _) & _) & _).
  pose proof (Open_wp umask false a b now2 e2 Ha Hb Hab (fs_of w2) (ex_wf _ _ Hx) Hne w2 eq_refl (or_intror Hq)) as Hw2.
  destruct (Open _ _ _ now2 e2 w2) as [r w3]. destruct Hw2 as ((_ & _ & Hr) & _).
  apply Hr; [done|]. eapply opened_ready; [exact Hset|exact Hod|apply Hop|done..].
Qed.

Definition demo_au : Authority := match demo_first.1 with Ok (au, _) => au | _ => demo_authority end.
Definition demo_closed : world := demo_world (release 4 (fs_of demo_first.2)).
Lemma demo_first_Ok : demo_open (demo_world empty_fs) = (Ok (demo_au, 4%nat), demo_first.2).
Proof. vm_compute. reflexivity. Qed.
Lemma demo_generated st raw : new_state 0 demo_entropy st raw -> unmarshal_state raw = Some st /\ slen raw <= 65536.
Proof. intros [Hg Hm]. vm_compute in Hg. injection Hg as <-. vm_compute in Hm. injection Hm as <-. by vm_compute. Qed.
Lemma demo_matches st cert crt key : generate 0 demo_entropy = Some st -> check_pair 0 st = Ok (cert, crt, key) ->
  cert_matches (st_Certificate st) crt.
Proof. intros Hg Hc. vm_compute in Hg. injection Hg as <-. vm_compute in Hc. injection Hc as _ <- _. by vm_compute. Qed.
Lemma open_restart_witness :
  (Open 18 (privateDir demo_a) (publicDir demo_b) hour demo_entropy7 demo_closed).1 = Ok (demo_au, 4%nat).
Proof.
  apply (open_restart 18 demo_a demo_b 0 hour demo_entropy demo_entropy7 (demo_world empty_fs) demo_au 4%nat demo_first.2).
  - apply demo_normal.
  - apply demo_normal.
  - exact demo_apart.
  - exact empty_fs_wf.
  - apply empty_settled.
  - exact demo_generated.
  - exact demo_matches.
  - exact demo_first_Ok.
  - exact (release_extends _ 4 demo_first_wf).
  - exact (release_free (fs_of demo_first.2) 4).
  - vm_compute. reflexivity.
  - intros n. reflexivity.
Defined.

(** C32: [WriteAtomic] is all or nothing: from a settled file, interrupted at any
    system call, with any faults and losing what was not synced, a crash finds the
    whole old content or the whole new one; success means the new content is
    durable with its mode; every other file but its own temporary one is
    untouched. *)
Theorem write_atomic w p data mode old :
  (forall n, temp_name p n <> p) -> fs_wf (fs_of w) -> settled (fs_of w) p old ->
  let '(r, w') := WriteAtomic p data mode w in
  (exists new, log w' = new ++ log w /\ Forall (fun s' => (forall x, possible s' p x -> x = old \/ x = Some data) /\
     frame p (fs_of w) s') (fs_of w' :: new)) /\
  (r = Ok tt -> settled (fs_of w') p (Some data) /\ exists b, node (fs_of w') p = Some (Regular data mode b)).
Proof.
  intros Htemp Hwf Hset.
  pose proof (writeAtomic_wp true p data mode old Htemp rename_effect (fs_of w) True (fun _ => True) Hwf Hset I) as Hw.
  assert (Hpub : forall t, (exists n, t = temp_name p n) -> publish_ok p data mode (fs_of w) t rename_effect True (fun _ => True)).
  { intros t Ht. by apply rename_ok. }
  specialize (Hw Hpub w eq_refl (or_introl eq_refl)). unfold WriteAtomic.
  destruct (writeAtomic p data mode rename_effect w) as [r w']. destruct Hw as ((Hon & Hr & _) & (new & El & Hf) & _).
  split.
  - exists new. split; [done|]. constructor; [split; apply Hon|].
    eapply Forall_impl; [exact Hf|]. intros s Hs. split; apply Hs.
  - intros Hok. destruct (Hr Hok) as (Hs & i & Hi & Hn). split; [done|]. exists true. unfold node. rewrite Hi. cbn. done.
Qed.

Definition demo_file : fs :=
  {| dirents := {["/run/ca.pem" := 0%nat]}; durable := {["/run/ca.pem" := 0%nat]};
     inodes := {[0%nat := Regular "old" 420 true]}; next := 1; flocks := ∅ |}.
Lemma demo_file_wf : fs_wf demo_file.
Proof. split; cbn; intros p i [_ <-]%lookup_singleton_Some; lia. Qed.
Lemma demo_temp n : temp_name "/run/ca.pem" n <> "/run/ca.pem".
Proof.
  change "/run/ca.pem" with (abs_path (["run"] ++ ["ca.pem"])). unfold temp_name.
  rewrite path_dir_abs by (repeat constructor). rewrite path_join_abs by (repeat constructor || apply normal_gateway).
  intros [_ H]%abs_snoc_inj; [done|repeat constructor..|apply normal_gateway|done].
Qed.

Lemma write_atomic_witness :
  let '(r, w') := WriteAtomic "/run/ca.pem" "renewed" 420 (faulty_world demo_file 6) in
  (exists new, log w' = new ++ [] /\ Forall (fun s' => (forall x, possible s' "/run/ca.pem" x -> x = Some "old" \/ x = Some "renewed") /\
     frame "/run/ca.pem" demo_file s') (fs_of w' :: new)) /\
  (r = Ok tt -> settled (fs_of w') "/run/ca.pem" (Some "renewed") /\
     exists b, node (fs_of w') "/run/ca.pem" = Some (Regular "renewed" 420 b)).
Proof.
  apply (write_atomic (faulty_world demo_file 6) "/run/ca.pem" "renewed" 420 (Some "old")).
  - exact demo_temp.
  - exact demo_file_wf.
  - split; [reflexivity|]. exists 420. reflexivity.
Defined.

(** [Directory] never follows or repairs: on success the path is absolute and
    clean, every component is a real directory and the permissions are within
    the mode's limits; all it ever does is create missing components; and without
    faults it accepts every directory that meets those conditions. *)
Theorem directory_safe umask path mode w : fs_wf (fs_of w) ->
  let '(r, w') := Directory umask path mode w in
  adds (prefixes path) (fs_of w) (fs_of w') /\ (r = Ok tt -> dir_ok (fs_of w') path mode) /\
  (quiet w -> dir_ok (fs_of w) path mode -> r = Ok tt).
Proof.
  intros Hwf. pose proof (Directory_wp umask true path mode (fs_of w) Hwf w eq_refl (or_introl eq_refl)) as H1.
  assert (H2 := fun Hq => Directory_wp umask false path mode (fs_of w) Hwf w eq_refl (or_intror Hq)).
  destruct (Directory umask path mode w) as [r w']. destruct H1 as ((Ha & Hd & _) & _).
  split; [done|]. split; [done|]. intros Hq. destruct (H2 Hq) as ((_ & _ & Hk & _) & _). auto.
Qed.

Lemma directory_safe_witness :
  let '(r, w') := Directory 18 "/var/gateway" 448 (demo_world demo_file) in
  adds (prefixes "/var/gateway") demo_file (fs_of w') /\ (r = Ok tt -> dir_ok (fs_of w') "/var/gateway" 448) /\
  (quiet (demo_world demo_file) -> dir_ok demo_file "/var/gateway" 448 -> r = Ok tt).
Proof. apply (directory_safe 18 "/var/gateway" 448 (demo_world demo_file)). exact demo_file_wf. Defined.

(** C33: [Bundle] succeeds exactly when each input is, after annotations, a nonempty
    sequence of header-free PEM certificates that parse, and the result is their
    re-encoding, base store first: no other PEM block, such as a private key, and
    no annotation gets into the bundle.  The hypothesis is that [pem.Decode]
    consumes input when it returns a block. *)
Theorem bundle_exact `{Pki} base ca out :
  (forall r blk rest, pem_decode r = (Some blk, rest) -> (String.length rest < String.length r)%nat) ->
  Bundle base ca = Ok out <->
  exists l1 l2 t1 t2, l1 <> [] /\ l2 <> [] /\ blocks_of (trim_space base) l1 /\ blocks_of (trim_space ca) l2 /\
    mapM pem_encode_block l1 = Some t1 /\ mapM pem_encode_block l2 = Some t2 /\
    out = foldr String.append "" t1 +:+ foldr String.append "" t2.
Proof.
  intros Hc. unfold Bundle. cbn [for_each]. split.
  - destruct (bundle_one "" base) as [out1|e1|] eqn:E1; [|done..].
    destruct (bundle_one out1 ca) as [out2|e2|] eqn:E2; [|done..]. intros [= <-].
    apply (bundle_one_spec Hc) in E1 as (l1 & t1 & Hl1 & Hb1 & Hm1 & ->).
    apply (bundle_one_spec Hc) in E2 as (l2 & t2 & Hl2 & Hb2 & Hm2 & ->). by exists l1, l2, t1, t2.
  - intros (l1 & l2 & t1 & t2 & Hl1 & Hl2 & Hb1 & Hb2 & Hm1 & Hm2 & ->).
    assert (E1 : bundle_one "" base = Ok (foldr String.append "" t1)).
    { apply (bundle_one_spec Hc). by exists l1, t1. }
    assert (E2 : bundle_one (foldr String.append "" t1) ca = Ok (foldr String.append "" t1 +:+ foldr String.append "" t2)).
    { apply (bundle_one_spec Hc). by exists l2, t2. }
    by rewrite E1, E2.
Qed.

Lemma demo_consumes r blk rest : demo_decode r = (Some blk, rest) -> (String.length rest < String.length r)%nat.
Proof.
  unfold demo_decode. destruct (cut_prefix begin_certificate r) as [r1|] eqn:E1; [|done].
  destruct (cut ";" r1) as [[body rest']|] eqn:E2; [|done]. intros [= _ <-].
  apply cut_prefix_Some in E1 as ->. assert (H : (String.length rest' <= String.length r1)%nat).
  { revert body rest' E2. induction r1 as [|c r1 IH]; intros body rest'; cbn; [done|].
    destruct (Ascii.eqb c ";"); [intros [= _ <-]; lia|]. destruct (cut ";" r1) as [[x y]|] eqn:E; [|done].
    intros [= _ <-]. specialize (IH _ _ eq_refl). lia. }
  pose proof (slen_app begin_certificate r1) as E. unfold slen in E. change (String.length begin_certificate) with 27%nat in E. lia.
Qed.

Lemma bundle_exact_witness :
  Bundle "# root -----BEGIN CERTIFICATE-----A; note -----BEGIN CERTIFICATE-----B;" "-----BEGIN CERTIFICATE-----C;"
    = Ok "-----BEGIN CERTIFICATE-----A;-----BEGIN CERTIFICATE-----B;-----BEGIN CERTIFICATE-----C;" /\
  (Bundle "# none" "-----BEGIN CERTIFICATE-----C;" = Ok "" <->
   exists l1 l2 t1 t2, l1 <> [] /\ l2 <> [] /\ blocks_of (trim_space "# none") l1 /\
    blocks_of (trim_space "-----BEGIN CERTIFICATE-----C;") l2 /\
    mapM pem_encode_block l1 = Some t1 /\ mapM pem_encode_block l2 = Some t2 /\
    "" = foldr String.append "" t1 +:+ foldr String.append "" t2).
Proof.
  split; [vm_compute; reflexivity|].
  apply (bundle_exact "# none" "-----BEGIN CERTIFICATE-----C;" ""). exact demo_consumes.
Defined.
