(* ===== verification/Progress.v ===== *)
(** [internal/inspection/ca.go] without faults: a first [Open] on a machine where
    nothing is in its way succeeds.  [Ca] shows what every run of [Open] preserves;
    here is the converse, that the refusals it makes are the only ones. *)
From stdpp Require Import pretty.
From S2P Require Import Prelude GoStrings GoPath Tracing Config Leaf Fs Ca.

Section Progress.
Context (umask : Z) (I : fs -> Prop).

(** ** Directories *)
(** Nothing but a real directory is at [q]. *)
Definition passable (s : fs) (q : string) : Prop := dirents s !! q = None \/ folder_at s q.
Definition made (mode : Z) : inode := Folder (Z.land mode (Z.lnot umask)).
Lemma passable_adds ps s s' q : fs_wf s -> adds ps s s' -> (forall p, p ∈ ps -> folder_at s' p) -> passable s q -> passable s' q.
Proof.
  intros Hwf Ha Hf [Hn|[m Hm]].
  - destruct (decide (q ∈ ps)) as [Hq|Hq]; [right; auto|left]. by rewrite (ad_others _ _ _ Ha).
  - right. exists m. eapply extends_node; [exact Hwf|apply Ha|done].
Qed.
Lemma mkdir_all_ok mode all ps s : fs_wf s -> (forall s', adds all s s' -> I s') -> (forall q, q ∈ ps -> q ∈ all) ->
  (forall q, q ∈ ps -> passable s q) ->
  wp false I (mkdir_all umask ps mode) (fun r s' => r = Ok tt /\ adds all s s' /\
    forall q, q ∈ ps -> folder_at s' q /\ (dirents s !! q = None -> node s' q = Some (made mode))) s.
Proof.
  revert s. induction ps as [|p ps IH]; intros s Hwf HI Hall Hp; cbn [mkdir_all].
  { apply wp_ret. split_and!; [done|by apply adds_refl|]. by intros q ?%not_elem_of_nil. }
  assert (Hgo : forall s1, adds all s s1 -> folder_at s1 p -> (dirents s !! p = None -> node s1 p = Some (made mode)) ->
    (forall q, q <> p -> dirents s1 !! q = dirents s !! q) ->
    wp false I (mkdir_all umask ps mode) (fun r s' => r = Ok tt /\ adds all s s' /\
      forall q, q ∈ p :: ps -> folder_at s' q /\ (dirents s !! q = None -> node s' q = Some (made mode))) s1).
  { intros s1 A1 Hf1 Hn1 Ho1. assert (W1 : fs_wf s1) by apply (ex_wf _ _ (ad_extends _ _ _ A1)).
    eapply wp_mono; [apply IH; [done|intros s' A2; by eapply HI, adds_trans|by intros; apply Hall; right|]|].
    - intros q Hq. destruct (decide (q = p)) as [->|Hne]; [by right|]. destruct (Hp q) as [Hn|[m Hm]]; [by right|left|right].
      + by rewrite Ho1.
      + exists m. eapply extends_node; [exact Hwf|apply A1|done].
    - cbn. intros r s2 (-> & A2 & Hq2). split_and!; [done|by eapply adds_trans|].
      assert (Hkeep : forall q n, node s1 q = Some n -> node s2 q = Some n) by (intros q n; apply extends_node; [done|apply A2]).
      intros q Hq. destruct (decide (q = p)) as [->|Hne].
      + split; [destruct Hf1 as [m Hm]; exists m; auto|auto].
      + apply elem_of_cons in Hq as [?|Hq]; [done|]. destruct (Hq2 q Hq) as [K1 K2]. split; [done|].
        intros Hn. apply K2. by rewrite Ho1. }
  apply wp_bind, wp_syscall_quiet; [done|]. unfold mkdir.
  destruct (Hp p) as [Hn|[m Hm]]; [by left| |].
  - rewrite Hn. assert (Ha : adds all s (add_node s p (made mode))) by (apply add_node_adds; auto; apply Hall; by left).
    assert (Hnode : node (add_node s p (made mode)) p = Some (made mode)).
    { unfold node. cbn. rewrite lookup_insert_eq. cbn. by rewrite lookup_insert_eq. }
    split; [by apply HI|]. apply Hgo; [done|by eexists|done|]. intros q Hq. cbn. by rewrite lookup_insert_ne.
  - unfold node in Hm. destruct (dirents s !! p) as [i|] eqn:Ei; [|done]. cbn in Hm. rewrite Hm.
    split; [by apply HI, adds_refl|]. apply Hgo; [by apply adds_refl|exists m; unfold node; by rewrite Ei|congruence|done].
Qed.

(** A directory that exists has permissions [Directory] accepts. *)
Definition permitted (s : fs) (path : string) (mode : Z) : Prop :=
  forall perm, node s path = Some (Folder perm) -> Z.land perm (forbidden_bits mode) = 0.
Lemma Directory_ok path mode s : fs_wf s -> (forall s', adds (prefixes path) s s' -> I s') ->
  is_abs path = true -> clean path = path -> path ∈ prefixes path -> Z.land mode (forbidden_bits mode) = 0 ->
  (forall q, q ∈ prefixes path -> passable s q) -> permitted s path mode ->
  wp false I (Directory umask path mode) (fun r s' => r = Ok tt /\ adds (prefixes path) s s' /\
    forall q, q ∈ prefixes path -> folder_at s' q) s.
Proof.
  intros Hwf HI Habs Hcl Hin Hmode Hp Hperm. unfold Directory. apply wp_guard.
  { rewrite Habs, Hcl, String.eqb_refl. done. }
  intros _. apply wp_bind. eapply wp_mono; [by apply (mkdir_all_ok mode (prefixes path))|].
  cbn. intros r s1 (-> & A1 & Hf). assert (Hfold := fun q Hq => proj1 (Hf q Hq)).
  destruct (Hfold path Hin) as [m Hm].
  assert (Hm0 : Z.land m (forbidden_bits mode) = 0).
  { destruct (Hp path Hin) as [Hn|[m' Hm']].
    - destruct (Hf path Hin) as [_ Hnew]. rewrite (Hnew Hn) in Hm. injection Hm as <-.
      by rewrite <- Z.land_assoc, (Z.land_comm (Z.lnot umask)), Z.land_assoc, Hmode.
    - assert (node s1 path = Some (Folder m')) as E by (eapply extends_node; [exact Hwf|apply A1|done]).
      rewrite E in Hm. injection Hm as <-. by apply Hperm. }
  assert (Hlink : existsb (fun q => is_symlink (node s1 q)) (prefixes path) = false).
  { apply not_true_iff_false. rewrite existsb_exists. intros (q & Hq%list_elem_of_In & Hs).
    destruct (Hfold q Hq) as [m' Hm']. by rewrite Hm' in Hs. }
  apply wp_bind, wp_syscall_quiet; [done|]. unfold eval_same. rewrite Hlink, Hm. split; [by apply HI|].
  apply wp_guard; [done|]. intros _. apply wp_bind, wp_syscall_quiet; [done|]. unfold stat. rewrite Hm.
  split; [by apply HI|]. cbv zeta. fold (forbidden_bits mode). apply wp_guard; [by rewrite Hm0|]. intros _. by apply wp_ret.
Qed.
End Progress.

(** ** Files *)
Section Write.
Context (p data : string) (mode : Z) (Htemp : forall n, temp_name p n <> p) (s : fs) (Hwf : fs_wf s).
Context (Hfree : forall n, dirents s !! temp_name p n = None) (Hnew : dirents s !! p = None).

(** Both ways of publishing succeed where nothing is in the way. *)
Lemma publish_new publish t : (exists n, t = temp_name p n) -> publishes p publish ->
  (forall s1, dirents s1 !! p = None -> is_Some (dirents s1 !! t) -> exists r, publish t p s1 = Ok r) ->
  publish_ok p data mode s t publish True (fun _ => False).
Proof.
  intros Ht Hp Hok s1 H1. destruct H1 as (Hu & Ht1 & Hi1) eqn:E1. clear E1.
  destruct (Hok s1) as [[[] s2] E]; [by rewrite (proj1 (proj2 Hu))|by rewrite Ht1|]. rewrite E. split; [|done].
  by apply (publishes_published p data mode Htemp s t Ht publish s1 s2).
Qed.
Lemma rename_new t : (exists n, t = temp_name p n) -> publish_ok p data mode s t rename_effect True (fun _ => False).
Proof.
  intros Ht. apply publish_new; [done|by apply rename_publishes|]. intros s1 Hn [i Hi].
  unfold rename_effect, node. rewrite Hi, Hn. cbn. eauto.
Qed.
Lemma link_new t : (exists n, t = temp_name p n) -> publish_ok p data mode s t link_effect True (fun _ => False).
Proof.
  intros Ht. apply publish_new; [done|by apply link_publishes|]. intros s1 Hn [i Hi].
  unfold link_effect. rewrite Hi, Hn. eauto.
Qed.
Lemma writeAtomic_ok publish (I : fs -> Prop) :
  (forall t, (exists n, t = temp_name p n) -> publish_ok p data mode s t publish True (fun _ => False)) ->
  (forall s', extends s s' -> I s') ->
  wp false I (writeAtomic p data mode publish) (fun r s' => r = Ok tt /\
    exists t, (exists n, t = temp_name p n) /\ committed p data mode s t s') s.
Proof.
  intros Hpub HI. eapply wp_mono; [apply (writeAtomic_run false p data mode Htemp publish s I True (fun _ => False) Hwf); [|done|]|].
  - intros [n Hn]. by rewrite Hfree in Hn.
  - intros t s' Ht Hnt [Hu|[Hp _]]; apply HI; [by apply (unpublished_extends p s t)|by apply (published_extends p data mode s t)].
  - intros r s' (t & Ht & [(_ & e & _ & He)|(_ & [(-> & Hc & _)|[(_ & _ & _ & [=])|(_ & e & _ & He)]])]); [by destruct He|eauto|by destruct He].
Qed.
End Write.

(** ** The first opening *)
Lemma base_abs l f : Forall (fun e => normal e = true) l -> normal f = true -> base (abs_path (l ++ [f])) = f.
Proof.
  intros Hl Hf. unfold base. assert (Hs : contains_byte slash f = false) by by apply normal_spec in Hf as (_ & _ & _ & ?).
  destruct (decide (l = [])) as [->|Hne].
  - change (abs_path ([] ++ [f])) with ("" +:+ String slash f). by rewrite cut_last_app.
  - change (abs_path (l ++ [f])) with (String slash (join sep1 (l ++ [f]))). rewrite join_snoc by done.
    change (String slash (join sep1 l +:+ sep1 +:+ f)) with (String slash (join sep1 l) +:+ String slash f).
    by rewrite cut_last_app.
Qed.

Section First.
Context `{Signer} `{!Pki} (umask : Z) (a b : list string) (now : Z) (e : Entropy).
Hypothesis Ha : Forall (fun e => normal e = true) a.
Hypothesis Hb : Forall (fun e => normal e = true) b.
Hypothesis Hab : ~ a `prefix_of` b.
Hypothesis Hba : ~ b `prefix_of` a.
Abbreviation sp := (statePath a).
Abbreviation pp := (publishedPath b).
Abbreviation lp := (lockPath a).
Abbreviation anything := (fun _ : fs => True).

(** Nothing in the private directory but the lock file, nothing of the CA in the
    public one. *)
Record untouched (s : fs) : Prop := {
  un_private : forall q, path_dir q = privateDir a -> is_Some (dirents s !! q) -> q = lp;
  un_published : dirents s !! pp = None;
  un_temps : forall n, dirents s !! temp_name pp n = None;
}.
(** The machine before a first start. *)
Record fresh (s : fs) : Prop := {
  fr_wf : fs_wf s;
  fr_private_dirs : forall q, q ∈ prefixes (privateDir a) -> passable s q;
  fr_public_dirs : forall q, q ∈ prefixes (publicDir b) -> passable s q;
  fr_private : permitted s (privateDir a) 448;
  fr_public : permitted s (publicDir b) 493;
  fr_lock : forall l, dirents s !! lp = Some l -> (exists d m c, inodes s !! l = Some (Regular d m c)) /\ (l ∉ flocks s);
  fr_flocks : forall i, i ∈ flocks s -> (i < next s)%nat;
  fr_untouched : untouched s;
}.

Lemma private_child f : normal f = true -> path_dir (abs_path (a ++ [f])) = privateDir a.
Proof. intros Hf. by apply path_dir_abs. Qed.
Lemma untouched_none s f : untouched s -> normal f = true -> f <> ".lock" -> dirents s !! abs_path (a ++ [f]) = None.
Proof.
  intros [Hu _ _] Hf Hne. apply eq_None_not_Some. intros Hs. apply Hu in Hs; [|by apply private_child].
  rewrite lockPath_eq in Hs by done. apply abs_snoc_inj in Hs as [_ ->]; done.
Qed.
Lemma untouched_state s : untouched s -> dirents s !! sp = None /\ forall n, dirents s !! temp_name sp n = None.
Proof.
  intros Hu. split; [|intros n].
  - rewrite statePath_eq by done. by apply untouched_none.
  - rewrite temp_statePath by done. apply untouched_none; [done|apply normal_gateway|done].
Qed.
Lemma untouched_flocks s l : untouched s -> untouched (set_flocks s l).
Proof. intros [K1 K2 K3]. by constructor. Qed.

(** Entries of the two paths are apart. *)
Lemma abs_apart f g : normal f = true -> normal g = true -> abs_path (a ++ [f]) <> abs_path (b ++ [g]).
Proof. intros Hf Hg [E _]%abs_snoc_inj; [|done..]. apply Hab. by rewrite E. Qed.
Lemma prefix_apart l l' f : Forall (fun e => normal e = true) l -> Forall (fun e => normal e = true) l' ->
  ~ l' `prefix_of` l -> normal f = true -> abs_path (l' ++ [f]) ∉ prefixes (abs_path l).
Proof.
  intros Hl Hl' Hn Hf (k & Hk)%elem_of_prefixes; [|done].
  apply abs_path_inj in Hk; [|by apply normal_snoc|by apply Forall_take].
  apply Hn. exists ([f] ++ drop k l). by rewrite app_assoc, Hk, take_drop.
Qed.
Lemma own_apart l f : Forall (fun e => normal e = true) l -> normal f = true -> abs_path (l ++ [f]) ∉ prefixes (abs_path l).
Proof.
  intros Hl Hf (k & Hk)%elem_of_prefixes; [|done].
  apply abs_path_inj in Hk; [|by apply normal_snoc|by apply Forall_take].
  apply (f_equal length) in Hk. rewrite length_app, length_take in Hk. cbn in Hk. lia.
Qed.

Lemma load_state_ok s st raw : fs_wf s -> untouched s -> generate now e = Some st -> marshal_state st = Some raw ->
  wp false anything (load_state (privateDir a) (publicDir b) now e) (fun r s' => r = Ok st /\
    exists t, (exists n, t = temp_name sp n) /\ committed sp raw 384 s t s') s.
Proof.
  intros Hwf Hu Hg Hm. destruct (untouched_state s Hu) as [Hsp Htemp]. unfold load_state.
  apply wp_bind, wp_try. unfold readPrivate. apply wp_bind, wp_syscall_quiet; [done|].
  unfold open_read. fold (statePath a). rewrite Hsp.
  apply wp_bind, wp_try, wp_syscall_quiet; [done|]. unfold lstat_absent. fold (publishedPath b). rewrite (un_published _ Hu).
  apply wp_bind, wp_syscall_quiet; [done|]. split; [done|]. apply wp_guard.
  { intros Hi. apply negb_true_iff, not_true_iff_false in Hi. destruct Hi. apply forallb_forall.
    intros x (kv & <- & Hkv)%in_map_iff. apply list_elem_of_In in Hkv. destruct kv as [q j].
    apply elem_of_map_to_list, map_lookup_filter_Some in Hkv as [Hq Hd]. cbn in Hd.
    rewrite (un_private _ Hu q Hd) by eauto. unfold ignorable. cbn [fst].
    rewrite lockPath_eq, base_abs by done. done. }
  intros _. rewrite Hg, Hm. apply wp_bind. unfold WriteAtomic.
  eapply wp_mono; [apply (writeAtomic_ok sp raw 384 (temp_not_state a Ha) s Hwf Htemp Hsp); [|done]|].
  - intros t Ht. by apply rename_new; [apply temp_not_state| |].
  - cbn. intros r s' [-> Hc]. apply wp_ret. by split.
Qed.

Lemma committed_public s t s' raw q : untouched s -> (exists n, t = temp_name sp n) -> committed sp raw 384 s t s' ->
  (exists g, normal g = true /\ q = abs_path (b ++ [g])) -> dirents s' !! q = dirents s !! q.
Proof.
  intros Hu [n ->] ((Hw & _) & _) (g & Hg & ->). apply (wr_dirents _ _ _ _ Hw).
  - rewrite statePath_eq by done. intros E. symmetry in E. revert E. by apply abs_apart.
  - rewrite temp_statePath by done. intros E. symmetry in E. revert E. apply abs_apart; [apply normal_gateway|done].
Qed.

Lemma open_locked_ok lock s st raw cert crt key : fs_wf s -> untouched s ->
  generate now e = Some st -> marshal_state st = Some raw -> check_pair now st = Ok (cert, crt, key) ->
  wp false anything (open_locked (privateDir a) (publicDir b) now e lock)
    (fun r _ => r = Ok ({| auth_Certificate := cert; auth_key := key |}, lock)) s.
Proof.
  intros Hwf Hu Hg Hm Hc. unfold open_locked. fold (publishedPath b). apply wp_bind.
  eapply wp_mono; [by apply (load_state_ok s st raw Hwf Hu Hg Hm)|]. cbn. intros r s1 (-> & t & Ht & Hcm).
  apply wp_bind, wp_of_result. rewrite Hc. apply wp_bind. unfold publishCertificate. apply wp_bind, wp_try.
  assert (W1 : fs_wf s1) by (destruct Hcm as (([? _ _ _ _ _] & _) & _); done).
  assert (Hpub : forall q, (exists g, normal g = true /\ q = abs_path (b ++ [g])) -> dirents s1 !! q = dirents s !! q).
  { intros q. by apply (committed_public s t s1 raw). }
  assert (Hpp : dirents s1 !! pp = None).
  { rewrite Hpub; [apply Hu|]. rewrite publishedPath_eq by done. by exists CACertificateFile. }
  assert (Htemps : forall n, dirents s1 !! temp_name pp n = None).
  { intros n. rewrite Hpub; [apply Hu|]. rewrite temp_publishedPath by done. eexists. split; [apply normal_gateway|done]. }
  eapply wp_mono; [apply (writeAtomic_ok pp (st_Certificate st) 420 (temp_not_published b Hb) s1 W1 Htemps Hpp); [|done]|].
  - intros t' Ht'. by apply link_new; [apply temp_not_published| |].
  - cbn. intros r s2 [-> _]. apply wp_of_result. by apply wp_ret.
Qed.

Lemma prefixes_self l : Forall (fun e => normal e = true) l -> l <> [] -> abs_path l ∈ prefixes (abs_path l).
Proof.
  intros Hl Hne. unfold prefixes. rewrite elements_abs_path by done. apply list_elem_of_In, in_map_iff.
  exists (length l). split; [by rewrite firstn_all|]. apply in_seq. destruct l; [done|]. cbn. lia.
Qed.
Lemma adds_untouched ps s s' : (forall q, q ∈ ps -> path_dir q = privateDir a -> q = lp) ->
  (forall f, normal f = true -> abs_path (b ++ [f]) ∉ ps) -> adds ps s s' -> untouched s -> untouched s'.
Proof.
  intros Hps Hpub A [K1 K2 K3]. constructor.
  - intros q Hq [j Hj]. destruct (decide (q ∈ ps)) as [Hin|Hn]; [by apply Hps|].
    apply K1; [done|]. rewrite (ad_others _ _ _ A) in Hj by done. eauto.
  - rewrite (ad_others _ _ _ A); [done|]. rewrite publishedPath_eq by done. by apply Hpub.
  - intros n. rewrite (ad_others _ _ _ A); [done|]. rewrite temp_publishedPath by done. apply Hpub, normal_gateway.
Qed.
Lemma prefix_no_child l q : Forall (fun e => normal e = true) l -> a <> [] -> q ∈ prefixes (abs_path l) ->
  path_dir q = privateDir a -> a `prefix_of` l /\ a <> l.
Proof.
  intros Hl Hne (k & ->)%elem_of_prefixes E; [|done]. destruct (decide (take k l = [])) as [Hk|Hk].
  - rewrite Hk in E. change (path_dir (abs_path [])) with (abs_path []) in E.
    apply abs_path_inj in E; [|done..]. by subst a.
  - assert (Hx : Forall (fun e => normal e = true) (take k l)) by by apply Forall_take.
    destruct (exists_last Hk) as (l' & x & Hlx). rewrite Hlx in *. apply Forall_app in Hx as [Hl' [Hx _]%Forall_cons].
    rewrite path_dir_abs in E by done. apply abs_path_inj in E as ->; [|done..]. split.
    + exists ([x] ++ drop k l). by rewrite app_assoc, <- Hlx, take_drop.
    + intros ->. apply (f_equal length) in Hlx. rewrite length_take, length_app in Hlx. cbn in Hlx. lia.
Qed.
Lemma dirs_untouched l s s' : Forall (fun e => normal e = true) l -> a <> [] -> (a `prefix_of` l -> a = l) ->
  ~ b `prefix_of` l \/ b = l -> adds (prefixes (abs_path l)) s s' -> untouched s -> untouched s'.
Proof.
  intros Hl Hne Hpl Hbl. apply adds_untouched.
  - intros q Hq Hd. destruct (prefix_no_child l q Hl Hne Hq Hd) as [K1 K2]. by destruct K2; auto.
  - intros f Hf. destruct Hbl as [Hbl| <-]; [by apply prefix_apart|by apply own_apart].
Qed.

(** From the lock file on. *)
Lemma locked_ok s st raw cert crt key : fs_wf s -> untouched s ->
  generate now e = Some st -> marshal_state st = Some raw -> check_pair now st = Ok (cert, crt, key) ->
  forall lock s', adds [lp] s s' -> lock ∉ flocks s ->
  wp false anything (r ← try (syscall (flock lock));
    match r with
    | Ok _ => on_error (open_locked (privateDir a) (publicDir b) now e lock) (always (release lock))
    | _ => finally (throw (Message "inspection state is already owned by another process")) (syscall pure_effect)
    end) (fun r _ => exists lock, r = Ok ({| auth_Certificate := cert; auth_key := key |}, lock)) s'.
Proof.
  intros Hwf Hu Hg Hm Hc lock s' A Hn. apply wp_bind, wp_try, wp_syscall_quiet; [done|]. unfold flock.
  rewrite (ad_flocks _ _ _ A), bool_decide_false by done. split; [done|]. apply wp_on_error.
  assert (W : fs_wf s') by apply (ex_wf _ _ (ad_extends _ _ _ A)).
  eapply wp_mono; [apply (open_locked_ok lock _ st raw cert crt key); [by destruct W| |done..]|].
  - apply untouched_flocks. eapply (adds_untouched [lp]); [| |exact A|done].
    + by intros q ->%list_elem_of_singleton.
    + intros f Hf E%list_elem_of_singleton. rewrite lockPath_eq in E by done. symmetry in E. revert E. by apply abs_apart.
  - cbn. intros r s4 ->. eauto.
Qed.

Lemma Open_ok s st raw cert crt key : fresh s -> generate now e = Some st -> marshal_state st = Some raw ->
  check_pair now st = Ok (cert, crt, key) ->
  wp false anything (Open umask (privateDir a) (publicDir b) now e)
    (fun r _ => exists lock, r = Ok ({| auth_Certificate := cert; auth_key := key |}, lock)) s.
Proof.
  intros [Hwf P1 P2 M1 M2 Hl Hfk Hu] Hg Hm Hc. unfold Open. fold (lockPath a).
  assert (Hna : a <> []) by (intros Hn; apply Hab; rewrite Hn; apply prefix_nil).
  assert (Hnb : b <> []) by (intros Hn; apply Hba; rewrite Hn; apply prefix_nil).
  (* the directories *)
  apply wp_bind. eapply wp_mono; [apply (Directory_ok umask anything); first [done|by apply clean_abs_path|by apply prefixes_self]|].
  cbn. intros r s1 (-> & A1 & D1). assert (W1 : fs_wf s1) by apply (ex_wf _ _ (ad_extends _ _ _ A1)).
  assert (U1 : untouched s1) by (eapply (dirs_untouched a); [..|exact A1|done]; auto).
  assert (M2' : permitted s1 (publicDir b) 493).
  { intros perm Hp. destruct (P2 (publicDir b)) as [Hn|[m Hm']]; [by apply prefixes_self| |].
    - exfalso. assert (Hin : publicDir b ∉ prefixes (privateDir a)).
      { intros (k & Hk)%elem_of_prefixes; [|done]. apply abs_path_inj in Hk; [|done|by apply Forall_take].
        apply Hba. exists (drop k a). by rewrite Hk, take_drop. }
      unfold node in Hp. by rewrite (ad_others _ _ _ A1), Hn in Hp by done.
    - apply M2. rewrite (extends_node _ _ _ _ Hwf (ad_extends _ _ _ A1) Hm') in Hp. by injection Hp as ->. }
  apply wp_bind. eapply wp_mono; [apply (Directory_ok umask anything); first [done|by apply clean_abs_path|by apply prefixes_self|idtac]|].
  { intros q Hq. apply (passable_adds (prefixes (privateDir a)) s); auto. }
  cbn. intros r s2 (-> & A2 & D2). assert (W2 : fs_wf s2) by apply (ex_wf _ _ (ad_extends _ _ _ A2)).
  assert (U2 : untouched s2) by (eapply (dirs_untouched b); [..|exact A2|done]; auto; by intros ?%Hab).
  apply wp_guard.
  { intros E%String.eqb_eq%abs_path_inj; [|done..]. destruct Hab. by rewrite E. }
  intros _. assert (Hlp : dirents s2 !! lp = dirents s !! lp).
  { rewrite lockPath_eq by done. rewrite (ad_others _ _ _ A2), (ad_others _ _ _ A1); [done|by apply own_apart|by apply prefix_apart]. }
  assert (F2 : flocks s2 = flocks s) by (rewrite (ad_flocks _ _ _ A2); apply (ad_flocks _ _ _ A1)).
  assert (X2 : extends s s2) by (eapply extends_trans; [apply A1|apply A2]).
  assert (Hgo := locked_ok s2 st raw cert crt key W2 U2 Hg Hm Hc).
  apply wp_bind, wp_syscall_quiet; [done|]. unfold open_lock. rewrite Hlp.
  destruct (dirents s !! lp) as [l|] eqn:El.
  - destruct (Hl l eq_refl) as ((d & m & c & Hi) & Hn). rewrite (ex_inodes _ _ X2) by (by eapply (wf_dirents _ Hwf)). rewrite Hi.
    split; [done|]. apply Hgo; [by apply adds_refl|by rewrite F2].
  - split; [done|]. apply Hgo; [apply add_node_adds; [done|by rewrite Hlp|by left]|].
    intros Hin. rewrite F2 in Hin. apply Hfk in Hin. pose proof (ex_next _ _ X2). lia.
Qed.
End First.

(** ** Properties *)
(** C40: A first start succeeds.  On a machine without faults where the components of the two
    directories are absent or real directories with safe permissions, the lock is
    free and nothing but the lock file is in the private directory, [Open] generates
    the CA, commits and publishes it, and returns it: the refusals of [Open] never
    keep a fresh Pod from starting.  Hypotheses: key generation succeeds, its result
    can be encoded, and the pair passes [Open]'s own checks. *)
Theorem open_first_start `{Signer} `{!Pki} umask a b now e w st raw cert crt key :
  Forall (fun e => normal e = true) a -> Forall (fun e => normal e = true) b ->
  ~ a `prefix_of` b -> ~ b `prefix_of` a -> fresh a b (fs_of w) -> quiet w ->
  generate now e = Some st -> marshal_state st = Some raw -> check_pair now st = Ok (cert, crt, key) ->
  exists lock, (Open umask (privateDir a) (publicDir b) now e w).1 = Ok ({| auth_Certificate := cert; auth_key := key |}, lock).
Proof.
  intros Ha Hb Hab Hba Hf Hq Hg Hm Hc.
  pose proof (Open_ok umask a b now e Ha Hb Hab Hba (fs_of w) st raw cert crt key Hf Hg Hm Hc w eq_refl (or_intror Hq)) as Hw.
  destruct (Open _ _ _ _ _ w) as [r w']. apply Hw.
Qed.

Lemma demo_fresh : fresh demo_a demo_b empty_fs.
Proof.
  assert (Hn : forall q, dirents empty_fs !! q = None) by (intros q; apply lookup_empty).
  assert (Hnode : forall q, node empty_fs q = None) by (intros q; unfold node; by rewrite Hn).
  constructor; try (intros q Hq; by left); try (intros perm Hp; by rewrite Hnode in Hp).
  - apply empty_fs_wf.
  - intros l Hl. by rewrite Hn in Hl.
  - intros i Hi. by apply elem_of_empty in Hi.
  - constructor; [|done|done]. intros q _ [j Hj]. by rewrite Hn in Hj.
Qed.
Definition demo_state : state := default {| st_Certificate := ""; st_PrivateKey := "" |} (generate 0 demo_entropy).
Definition demo_checked : Certificate * string * PrivateKey :=
  match check_pair 0 demo_state with Ok x => x | _ => (auth_Certificate demo_au, "", auth_key demo_au) end.
Lemma open_first_start_witness :
  exists lock, (Open 18 (privateDir demo_a) (publicDir demo_b) 0 demo_entropy (demo_world empty_fs)).1
    = Ok ({| auth_Certificate := demo_checked.1.1; auth_key := demo_checked.2 |}, lock).
Proof.
  apply (open_first_start 18 demo_a demo_b 0 demo_entropy (demo_world empty_fs) demo_state
    (st_Certificate demo_state +:+ "|" +:+ st_PrivateKey demo_state) demo_checked.1.1 demo_checked.1.2 demo_checked.2).
  - apply demo_normal.
  - apply demo_normal.
  - exact demo_apart.
  - intros [k [=]].
  - exact demo_fresh.
  - intros n. reflexivity.
  - vm_compute. reflexivity.
  - vm_compute. reflexivity.
  - vm_compute. reflexivity.
Defined.
