(* ===== verification/Daemon.v ===== *)
(** [internal/daemon/daemon.go]: start-up, supervision and shutdown of the embedded
    policy runtime and its proxy child, and the readiness probe.  What the host
    answers (file system, sockets, processes, clocks) is a record of results;
    what arrives on the channels of the two [select] loops is a list of events,
    in the order in which the loop takes them; what the daemon does is a trace. *)
From S2P Require Import Prelude GoStrings GoPath Tracing Config Opa.

(** ** Probes *)
Section Probes.
(** [http.Client.Do] of a GET over a Unix socket ("" for TCP): the status, or a
    transport error; and dialling a Unix socket. *)
Context (do_get : string -> string -> option Z) (dial : string -> bool).

Inductive probe_error :=
| TransportError (url : string)
| StatusError (status : Z)
| DialError (socket : string)
| ReadError
| NotPublished
| SDSNotReady.

Definition get (socket url : string) : option probe_error :=
  match do_get socket url with
  | None => Some (TransportError url)
  | Some status => if negb (status =? 200) then Some (StatusError status) else None
  end.
Definition checkOPAHealth (c : Config) (endpoint : string) : option probe_error :=
  match get (path_join (RuntimeDir c) "opa-api.sock") endpoint with
  | Some e => Some e
  | None => if dial (path_join (RuntimeDir c) "opa.sock") then None
            else Some (DialError (path_join (RuntimeDir c) "opa.sock"))
  end.
Definition checkOPA (c : Config) : option probe_error :=
  checkOPAHealth c "http://localhost/health?plugins&bundles".
Definition checkOPALiveness (c : Config) : option probe_error :=
  checkOPAHealth c "http://localhost/health".
Definition checkProxy (c : Config) : option probe_error :=
  if cfg_ProxyMode c =s= Istio then get "" "http://127.0.0.1:15021/healthz/ready"
  else get (EnvoyAdminPath c) "http://localhost/ready".

(** [Ready]; [read_ca] is the content of the published certificate file. *)
Definition Ready (c : Config) (read_ca : option string) : option probe_error :=
  let rest := match checkOPA c with Some e => Some e | None => checkProxy c end in
  if cfg_Role c =s= Workload then
    match read_ca with
    | None => Some ReadError
    | Some ca =>
        if slen ca =? 0 then Some NotPublished
        else if negb (dial (InspectionSDSPath c)) then Some SDSNotReady else rest
    end
  else rest.
End Probes.

(** ** Start-up *)
Inductive lstat_result := Absent | Socket | NotSocket | LstatError.

(** The host's answers; [None] is success for an optional error. *)
Record host := {
  h_directory : option string;
  h_lock_file : option string;
  h_flock : bool;
  h_guard : option string;
  h_http_guard : option string;
  h_open_ca : option string;
  h_lstat_sds : lstat_result;
  h_remove_sds : option string;
  h_listen_sds : option string;
  h_chmod_sds : option string;
  h_prepare_opa : option string;
  h_policy_host : option string;
  h_runtime : option string;
  h_prepare_envoy : option string;
  h_start_proxy : option string;
  h_cancelled_at_exit : bool;
  h_opa_stops_in_time : bool;
  h_proxy_stops_in_time : bool;
}.

Inductive action :=
| MakeRuntimeDir | OpenLock | TakeLock | WriteGuard | WriteHTTPGuard
| OpenCA | RemoveStaleSDS | ListenSDS | ChmodSDS | ServeSDS
| PrepareOPA | ConfigurePolicyHost | NewRuntime | ServeOPA | OPAReady
| PrepareEnvoy | StartProxy (argv : list string)
| StopTicker | TerminateProxy | KillProxy | ReapProxy | CancelStartup | CancelOPA | JoinOPA
| StopSDS | CloseListener | CloseCA | CloseLock.

(** The deferred calls, as closures over [Run]'s variables. *)
Inductive deferred := DCloseLock | DCloseCA | DCloseListener | DStopSDS | DStopOPA | DCancelStartup
| DClearError | DStopProxy | DStopTicker.

(** [Run] so far: the trace and the deferred calls, each latest first. *)
Record run_state := { rs_trace : list action; rs_defers : list deferred }.
Definition perform (a : action) (s : run_state) : run_state :=
  {| rs_trace := a :: rs_trace s; rs_defers := rs_defers s |}.
Definition defer (d : deferred) (s : run_state) : run_state :=
  {| rs_trace := rs_trace s; rs_defers := d :: rs_defers s |}.

(** A part of [Run]: an early return with an error, or the state to go on with. *)
Definition part : Type := run_state -> result string unit * run_state.
Definition sequence (a b : part) : part := fun s =>
  match a s with (Ok _, s) => b s | (r, s) => (r, s) end.
#[local] Notation "a ;;; b" := (sequence a b) (at level 60, right associativity).
Definition done_ : part := fun s => (Ok tt, s).
(** Perform [a], which the host may refuse with an error. *)
Definition attempt (a : action) (e : option string) : part := fun s =>
  match e with None => (Ok tt, perform a s) | Some e => (Err e, s) end.
Definition deferring (d : deferred) : part := fun s => (Ok tt, defer d s).
Definition prefixed (p : string) (e : option string) : option string := option_map (fun e => p +:+ e) e.

Definition start_sds (h : host) : part :=
  attempt OpenCA (h_open_ca h) ;;; deferring DCloseCA ;;;
  (fun s => match h_lstat_sds h with
            | Absent => (Ok tt, s)
            | Socket => attempt RemoveStaleSDS (h_remove_sds h) s
            | NotSocket => (Err "inspection SDS path is not a socket", s)
            | LstatError => (Err "lstat", s)
            end) ;;;
  attempt ListenSDS (h_listen_sds h) ;;; deferring DCloseListener ;;;
  attempt ChmodSDS (h_chmod_sds h) ;;; deferring DStopSDS ;;; attempt ServeSDS None.

Definition setup (c : Config) (h : host) : part :=
  (fun s => match Validate c with Some _ => (Err "invalid configuration", s) | None => (Ok tt, s) end) ;;;
  attempt MakeRuntimeDir (h_directory h) ;;;
  attempt OpenLock (h_lock_file h) ;;; deferring DCloseLock ;;;
  attempt TakeLock (if h_flock h then None else Some "runtime directory already owned by another daemon") ;;;
  attempt WriteGuard (h_guard h) ;;; attempt WriteHTTPGuard (h_http_guard h) ;;;
  (if cfg_Role c =s= Workload then start_sds h else done_) ;;;
  attempt PrepareOPA (prefixed "prepare OPA: " (h_prepare_opa h)) ;;;
  attempt ConfigurePolicyHost (prefixed "configure policy host: " (h_policy_host h)) ;;;
  attempt NewRuntime (prefixed "initialize OPA: " (h_runtime h)) ;;;
  attempt ServeOPA None ;;; deferring DStopOPA ;;; deferring DCancelStartup.

(** ** Waiting for OPA *)
(** One turn of the first loop: the probe, and what the [select] then takes. *)
Inductive wait_event :=
| Healthy
| StartupDone (why : string)
| WaitOPAStopped (e : string)
| WaitSDSStopped (e : string)
| Retry.
(** [None]: the events ran out and the loop still runs.  The boolean is [opaExited]. *)
Fixpoint wait_opa (evs : list wait_event) : option (result string unit * bool) :=
  match evs with
  | [] => None
  | Healthy :: _ => Some (Ok tt, false)
  | StartupDone why :: _ => Some (Err ("OPA startup: " +:+ why), false)
  | WaitOPAStopped e :: _ => Some (Err ("OPA stopped before proxy startup: " +:+ e), true)
  | WaitSDSStopped e :: _ => Some (Err ("inspection SDS stopped before proxy startup: " +:+ e), false)
  | Retry :: evs => wait_opa evs
  end.

(** ** The proxy *)
Definition proxy_argv (c : Config) : list string :=
  if cfg_ProxyMode c =s= Standalone
  then ["/usr/local/bin/envoy"; "-c"; path_join (RuntimeDir c) "envoy.json"; "--concurrency"; "1"]
  else ["/usr/local/bin/pilot-agent"; "proxy"; if cfg_Role c =s= Egress then "router" else "sidecar"].
Definition start_proxy (c : Config) (h : host) : part :=
  (if cfg_ProxyMode c =s= Standalone then attempt PrepareEnvoy (h_prepare_envoy h) else done_) ;;;
  attempt (StartProxy (proxy_argv c)) (prefixed "start proxy: " (h_start_proxy h)) ;;;
  deferring DClearError ;;; deferring DStopProxy ;;; deferring DStopTicker.

(** ** Supervision *)
(** A tick carries the results of its two probes and whether the start-up context
    has expired by then. *)
Inductive event :=
| CtxDone
| OPAStopped (e : string)
| ProxyStopped (e : string)
| SDSStopped (e : string)
| Tick (liveness proxy : option string) (expired : bool).
Record outcome_flags := { f_error : option string; f_opaExited : bool; f_exited : bool; f_cancelled : bool }.
Definition ended (e : option string) : outcome_flags :=
  {| f_error := e; f_opaExited := false; f_exited := false; f_cancelled := false |}.

Fixpoint supervise (healthy : bool) (evs : list event) : option outcome_flags :=
  match evs with
  | [] => None
  | CtxDone :: _ => Some {| f_error := None; f_opaExited := false; f_exited := false; f_cancelled := true |}
  | OPAStopped e :: _ => Some {| f_error := Some ("embedded OPA stopped: " +:+ e); f_opaExited := true;
                                 f_exited := false; f_cancelled := false |}
  | ProxyStopped e :: _ => Some {| f_error := Some ("proxy stopped unexpectedly: " +:+ e); f_opaExited := false;
                                   f_exited := true; f_cancelled := false |}
  | SDSStopped e :: _ => Some (ended (Some ("inspection SDS stopped unexpectedly: " +:+ e)))
  | Tick liveness proxy expired :: evs =>
      match liveness with
      | Some e => Some (ended (Some ("required OPA service failed: " +:+ e)))
      | None =>
          match proxy with
          | None => supervise true evs
          | Some e =>
              if healthy then Some (ended (Some ("proxy lost readiness: " +:+ e)))
              else if expired then Some (ended (Some ("proxy startup timed out: " +:+ e)))
              else supervise healthy evs
          end
      end
  end.

(** ** Shutdown *)
(** What one deferred call does, and its effect on the named result [err]. *)
Definition run_deferred (h : host) (f : outcome_flags) (err : option string) (d : deferred) : list action * option string :=
  match d with
  | DStopTicker => ([StopTicker], err)
  | DStopProxy =>
      (TerminateProxy :: (if f_exited f then []
                          else if h_proxy_stops_in_time h then [ReapProxy] else [KillProxy; ReapProxy]), err)
  | DClearError => ([], if f_cancelled f || h_cancelled_at_exit h then None else err)
  | DCancelStartup => ([CancelStartup], err)
  | DStopOPA => (CancelOPA :: (if f_opaExited f then [] else if h_opa_stops_in_time h then [JoinOPA] else []), err)
  | DStopSDS => ([StopSDS], err)
  | DCloseListener => ([CloseListener], err)
  | DCloseCA => ([CloseCA], err)
  | DCloseLock => ([CloseLock], err)
  end.
Fixpoint run_defers (h : host) (f : outcome_flags) (err : option string) (ds : list deferred) : list action * option string :=
  match ds with
  | [] => ([], err)
  | d :: ds => let '(a, err) := run_deferred h f err d in
               let '(b, err) := run_defers h f err ds in (a ++ b, err)
  end.

(** The deferred calls run at the return with flags [f]; the trace is in order. *)
Definition return_ (h : host) (f : outcome_flags) (s : run_state) : list action * option string :=
  let '(a, err) := run_defers h f (f_error f) (rs_defers s) in (rev (rs_trace s) ++ a, err).

(** [Run]: [None] while the events ran out, else the trace and the returned error. *)
Definition Run (c : Config) (h : host) (waits : list wait_event) (evs : list event) : option (list action * option string) :=
  match setup c h {| rs_trace := []; rs_defers := [] |} with
  | (Err e, s) => Some (return_ h (ended (Some e)) s)
  | (Panic, _) => None
  | (Ok _, s) =>
      match wait_opa waits with
      | None => None
      | Some (Err e, opaExited) =>
          Some (return_ h {| f_error := Some e; f_opaExited := opaExited; f_exited := false; f_cancelled := false |} s)
      | Some (Panic, _) => None
      | Some (Ok _, _) =>
          match start_proxy c h (perform OPAReady s) with
          | (Err e, s) => Some (return_ h (ended (Some e)) s)
          | (Panic, _) => None
          | (Ok _, s) =>
              match supervise false evs with
              | None => None
              | Some f => Some (return_ h f s)
              end
          end
      end
  end.

(** ** Who holds what *)
(** What [Run] acquires and must give back. *)
Inductive resource := RLock | RCA | RListener | RSDS | ROPA | RProxy.
#[export] Instance resource_eq_dec : EqDecision resource.
Proof. solve_decision. Defined.
Definition acquires (a : action) : option resource :=
  match a with
  | OpenLock => Some RLock | OpenCA => Some RCA | ListenSDS => Some RListener
  | ServeSDS => Some RSDS | ServeOPA => Some ROPA | StartProxy _ => Some RProxy
  | _ => None
  end.
Definition releases (a : action) : option resource :=
  match a with
  | CloseLock => Some RLock | CloseCA => Some RCA | CloseListener => Some RListener
  | StopSDS => Some RSDS | CancelOPA => Some ROPA | TerminateProxy => Some RProxy
  | _ => None
  end.
(** The resources held after a trace, innermost first; [None] when the trace takes
    a resource it already holds, or releases one that is not the innermost. *)
Fixpoint holding (st : list resource) (tr : list action) : option (list resource) :=
  match tr with
  | [] => Some st
  | a :: tr =>
      match acquires a, releases a with
      | Some r, _ => if decide (r ∈ st) then None else holding (r :: st) tr
      | None, Some r => match st with
                        | x :: st => if decide (x = r) then holding st tr else None
                        | [] => None
                        end
      | None, None => holding st tr
      end
  end.
(** The resource a deferred call gives back. *)
Definition gives_back (d : deferred) : list resource :=
  match d with
  | DCloseLock => [RLock] | DCloseCA => [RCA] | DCloseListener => [RListener]
  | DStopSDS => [RSDS] | DStopOPA => [ROPA] | DStopProxy => [RProxy]
  | DCancelStartup | DClearError | DStopTicker => []
  end.

Lemma holding_app st tr1 tr2 :
  holding st (tr1 ++ tr2) = holding st tr1 ≫= fun st' => holding st' tr2.
Proof.
  revert st; induction tr1 as [|a tr1 IH]; intros st; cbn; [done|].
  repeat case_match; cbn; auto.
Qed.
Lemma run_deferred_releases h f err d st :
  holding (gives_back d ++ st) (run_deferred h f err d).1 = Some st.
Proof. destruct d; cbn; repeat case_match; cbn; try congruence; by repeat case_decide. Qed.
Lemma run_defers_release h f ds : forall err,
  holding (ds ≫= gives_back) (run_defers h f err ds).1 = Some [].
Proof.
  induction ds as [|d ds IH]; intros err; cbn; [done|].
  pose proof (run_deferred_releases h f err d (ds ≫= gives_back)) as Hd.
  destruct (run_deferred h f err d) as [a err1] eqn:Ha.
  specialize (IH err1). destruct (run_defers h f err1 ds) as [b err2] eqn:Hb. cbn in *.
  by rewrite holding_app, Hd.
Qed.

(** *** Hoare rules for the parts of [Run] *)
(** [s] holds [st]; its deferred calls give back [ds]. *)
Definition holds (st ds : list resource) (s : run_state) : Prop :=
  holding [] (rev (rs_trace s)) = Some st /\ rs_defers s ≫= gives_back = ds.
(** From [P], [p] goes on in [Q]; its early returns leave the deferred calls to give
    back exactly what is held. *)
Definition hoare (P : run_state -> Prop) (p : part) (Q : run_state -> Prop) : Prop :=
  forall s, P s -> match p s with
                   | (Ok _, s') => Q s'
                   | (Err _, s') => exists st, holds st st s'
                   | (Panic, _) => False
                   end.
Lemma hoare_seq P Q R p q : hoare P p Q -> hoare Q q R -> hoare P (p ;;; q) R.
Proof.
  intros Hp Hq s Hs. specialize (Hp s Hs). unfold sequence. destruct (p s) as [[?| |] s']; auto. by apply Hq.
Qed.
Lemma hoare_attempt a e st :
  acquires a = None -> releases a = None -> hoare (holds st st) (attempt a e) (holds st st).
Proof.
  intros Ha Hr s [Hst Hds]. destruct e; cbn; [by exists st|].
  split; cbn; [|done]. rewrite holding_app, Hst. cbn. by rewrite Ha, Hr.
Qed.
Lemma hoare_acquire a r e d st :
  acquires a = Some r -> gives_back d = [r] -> r ∉ st ->
  forall Q q, hoare (holds (r :: st) (r :: st)) q Q ->
  hoare (holds st st) (attempt a e ;;; deferring d ;;; q) Q.
Proof.
  intros Ha Hd Hr Q q Hq s [Hst Hds]. destruct e; cbn; [by exists st|].
  apply Hq. split; cbn.
  - rewrite holding_app, Hst. cbn. rewrite Ha. by rewrite decide_False.
  - by rewrite Hd, Hds.
Qed.
Lemma hoare_deferring d st Q q :
  gives_back d = [] -> hoare (holds st st) q Q -> hoare (holds st st) (deferring d ;;; q) Q.
Proof. intros Hd Hq s [Hst Hds]. cbn. apply Hq. split; cbn; [done|]. by rewrite Hd, Hds. Qed.
Lemma hoare_deferring_last d st : gives_back d = [] -> hoare (holds st st) (deferring d) (holds st st).
Proof. intros Hd s [Hst Hds]. cbn. split; cbn; [done|]. by rewrite Hd, Hds. Qed.
Lemma hoare_skip P : hoare P done_ P.
Proof. by intros s Hs. Qed.
Ltac hoare_step :=
  first [ eapply hoare_acquire; [reflexivity|reflexivity|set_solver|]
        | eapply hoare_deferring; [reflexivity|]
        | eapply hoare_seq; [apply hoare_attempt; reflexivity|] ].

(** What the role's start-up holds before the OPA runtime. *)
Definition role_resources (c : Config) : list resource :=
  if cfg_Role c =s= Workload then [RSDS; RListener; RCA; RLock] else [RLock].
Lemma start_sds_holds h : hoare (holds [RLock] [RLock]) (start_sds h) (holds [RSDS; RListener; RCA; RLock] [RSDS; RListener; RCA; RLock]).
Proof.
  unfold start_sds. hoare_step. eapply hoare_seq with (Q := holds [RCA; RLock] [RCA; RLock]).
  { intros s Hs. destruct (h_lstat_sds h); cbn; eauto.
    by apply (hoare_attempt RemoveStaleSDS (h_remove_sds h) [RCA; RLock]). }
  hoare_step. hoare_step. intros s [Hst Hds]. cbn. split; cbn.
  - rewrite holding_app, Hst. reflexivity.
  - by rewrite Hds.
Qed.
Lemma setup_holds c h :
  hoare (holds [] []) (setup c h) (holds (ROPA :: role_resources c) (ROPA :: role_resources c)).
Proof.
  unfold setup. eapply hoare_seq with (Q := holds [] []).
  { intros s Hs. destruct (Validate c); eauto. }
  do 5 hoare_step.
  eapply hoare_seq with (Q := holds (role_resources c) (role_resources c)).
  { unfold role_resources. case_match; [apply start_sds_holds|apply hoare_skip]. }
  do 3 hoare_step. eapply hoare_acquire; [reflexivity|reflexivity| |].
  - unfold role_resources. case_match; set_solver.
  - by apply hoare_deferring_last.
Qed.
Lemma start_proxy_holds c h st : RProxy ∉ st ->
  hoare (holds st st) (start_proxy c h) (holds (RProxy :: st) (RProxy :: st)).
Proof.
  intros Hst. unfold start_proxy. eapply hoare_seq with (Q := holds st st).
  { case_match; [by apply hoare_attempt|apply hoare_skip]. }
  intros s [Hs Hds]. destruct (h_start_proxy h); cbn; [by exists st|]. split; cbn.
  - rewrite holding_app, Hs. cbn. by rewrite decide_False.
  - by rewrite Hds.
Qed.
Lemma return_releases h f s tr err st : holds st st s -> return_ h f s = (tr, err) -> holding [] tr = Some [].
Proof.
  intros [Hst Hds] H. unfold return_ in H.
  pose proof (run_defers_release h f (rs_defers s) (f_error f)) as Hr.
  destruct (run_defers h f (f_error f) (rs_defers s)) as [a e]. cbn in Hr. simplify_eq.
  by rewrite holding_app, Hst.
Qed.

(** *** The ways [Run] returns *)
Definition start : run_state := {| rs_trace := []; rs_defers := [] |}.
(** The return point of a run: its state and flags. *)
Inductive returns (c : Config) (h : host) (waits : list wait_event) (evs : list event) : run_state -> outcome_flags -> Prop :=
| ReturnSetup e s : setup c h start = (Err e, s) -> returns c h waits evs s (ended (Some e))
| ReturnWait u e s x : setup c h start = (Ok u, s) -> wait_opa waits = Some (Err e, x) ->
    returns c h waits evs s {| f_error := Some e; f_opaExited := x; f_exited := false; f_cancelled := false |}
| ReturnProxy u u' e s s' x : setup c h start = (Ok u, s) -> wait_opa waits = Some (Ok u', x) ->
    start_proxy c h (perform OPAReady s) = (Err e, s') -> returns c h waits evs s' (ended (Some e))
| ReturnSupervised u u' u'' s s' x f : setup c h start = (Ok u, s) -> wait_opa waits = Some (Ok u', x) ->
    start_proxy c h (perform OPAReady s) = (Ok u'', s') -> supervise false evs = Some f ->
    returns c h waits evs s' f.
Lemma Run_returns c h waits evs r :
  Run c h waits evs = Some r -> exists s f, returns c h waits evs s f /\ return_ h f s = r.
Proof.
  unfold Run. fold start. intros H.
  destruct (setup c h start) as [[u|e|] s] eqn:Hs; simplify_eq; [|by eauto using returns].
  destruct (wait_opa waits) as [[[u'|e|] x]|] eqn:Hw; simplify_eq; [|by eauto using returns].
  destruct (start_proxy c h (perform OPAReady s)) as [[u''|e|] s'] eqn:Hp; simplify_eq; [|by eauto using returns].
  destruct (supervise false evs) as [f|] eqn:Hv; simplify_eq. by eauto using returns.
Qed.
Lemma holds_start : holds [] [] start.
Proof. done. Qed.
Lemma holds_ready st s : holds st st s -> holds st st (perform OPAReady s).
Proof. intros Hs. by apply (hoare_attempt OPAReady None st). Qed.
Lemma proxy_not_held c : RProxy ∉ ROPA :: role_resources c.
Proof. unfold role_resources. case_match; set_solver. Qed.
Lemma returns_holds c h waits evs s f : returns c h waits evs s f -> exists st, holds st st s.
Proof.
  pose proof (setup_holds c h start holds_start) as Hsetup.
  pose proof (fun s Hs => start_proxy_holds c h _ (proxy_not_held c) _ (holds_ready _ s Hs)) as Hproxy.
  destruct 1 as [e s Hs|u e s x Hs Hw|u u' e s s' x Hs Hw Hp|u u' u'' s s' x f Hs Hw Hp Hv];
    rewrite Hs in Hsetup; try (by eauto); specialize (Hproxy s Hsetup); rewrite Hp in Hproxy; eauto.
Qed.

(** C9: On every return of [Run] — a refused configuration, a failed start-up step, a
    required service that stops, a lost proxy, a cancelled context — everything the
    run acquired (the runtime lock, the CA, the SDS listener and server, the OPA
    runtime, the proxy) has been given back exactly once, in the reverse of the
    order of acquisition, and nothing was acquired twice. *)
Theorem run_releases_everything c h waits evs tr err :
  Run c h waits evs = Some (tr, err) -> holding [] tr = Some [].
Proof.
  intros H. apply Run_returns in H as (s & f & Hr & Ht).
  apply returns_holds in Hr as [st Hst]. eauto using return_releases.
Qed.

(** ** The proxy comes last *)
(** The state after a successful start-up. *)
Definition sds_actions (h : host) : list action :=
  [OpenCA] ++ match h_lstat_sds h with Socket => [RemoveStaleSDS] | _ => [] end ++ [ListenSDS; ChmodSDS; ServeSDS].
Definition setup_actions (c : Config) (h : host) : list action :=
  [MakeRuntimeDir; OpenLock; TakeLock; WriteGuard; WriteHTTPGuard]
  ++ (if cfg_Role c =s= Workload then sds_actions h else [])
  ++ [PrepareOPA; ConfigurePolicyHost; NewRuntime; ServeOPA].
Definition setup_defers (c : Config) : list deferred :=
  [DCancelStartup; DStopOPA]
  ++ (if cfg_Role c =s= Workload then [DStopSDS; DCloseListener; DCloseCA] else []) ++ [DCloseLock].
Lemma seq_Ok (p q : part) s u s' : (p ;;; q) s = (Ok u, s') -> exists v s1, p s = (Ok v, s1) /\ q s1 = (Ok u, s').
Proof. unfold sequence. destruct (p s) as [[v| |] s1]; intros H; simplify_eq. eauto. Qed.
Lemma attempt_Ok a e s u s' : attempt a e s = (Ok u, s') -> s' = perform a s.
Proof. destruct e; cbn; intros H; by simplify_eq. Qed.
Ltac inv_part H :=
  repeat (apply seq_Ok in H as (?u & ?s & ?Hp & H));
  repeat match goal with
  | Hp : attempt _ _ _ = (Ok _, _) |- _ => apply attempt_Ok in Hp; subst
  | Hp : deferring _ _ = (Ok _, _) |- _ => injection Hp as <- <-
  end.
Lemma start_sds_ok h s u s' : start_sds h s = (Ok u, s') ->
  rev (rs_trace s') = rev (rs_trace s) ++ sds_actions h
  /\ rs_defers s' = [DStopSDS; DCloseListener; DCloseCA] ++ rs_defers s.
Proof.
  unfold start_sds, sds_actions. intros H. inv_part H.
  destruct (h_lstat_sds h); simplify_eq; inv_part H; cbn; split; rewrite <- ?app_assoc; done.
Qed.
Lemma setup_ok c h u s : setup c h start = (Ok u, s) ->
  Validate c = None /\ rev (rs_trace s) = setup_actions c h /\ rs_defers s = setup_defers c.
Proof.
  unfold setup, setup_actions, setup_defers. intros H. inv_part H.
  destruct (Validate c); simplify_eq. cbn.
  match goal with Hp : (if _ then _ else _) _ = _ |- _ => rename Hp into Hrole end.
  destruct (cfg_Role c =s= Workload); [apply start_sds_ok in Hrole as [-> ->]|unfold done_ in Hrole; simplify_eq];
    cbn; rewrite <- ?app_assoc; done.
Qed.

(** The host lets every step of the start-up through. *)
Record sds_accepted (h : host) : Prop := {
  ac_ca : h_open_ca h = None;
  ac_stale : h_lstat_sds h = Absent \/ h_lstat_sds h = Socket /\ h_remove_sds h = None;
  ac_listen : h_listen_sds h = None;
  ac_chmod : h_chmod_sds h = None;
}.
Record accepted (c : Config) (h : host) : Prop := {
  ac_directory : h_directory h = None;
  ac_lock_file : h_lock_file h = None;
  ac_flock : h_flock h = true;
  ac_guard : h_guard h = None;
  ac_http_guard : h_http_guard h = None;
  ac_sds : cfg_Role c = Workload -> sds_accepted h;
  ac_prepare_opa : h_prepare_opa h = None;
  ac_policy_host : h_policy_host h = None;
  ac_runtime : h_runtime h = None;
}.
Lemma attempt_iff a e s u s' : attempt a e s = (Ok u, s') <-> e = None /\ u = tt /\ s' = perform a s.
Proof. destruct e, u; cbn; naive_solver. Qed.
Lemma seq_attempt a e (q : part) s u s' :
  (attempt a e ;;; q) s = (Ok u, s') <-> e = None /\ q (perform a s) = (Ok u, s').
Proof. unfold sequence. destruct e; cbn; naive_solver. Qed.
Lemma prefixed_None p e : prefixed p e = None <-> e = None.
Proof. by destruct e. Qed.
Lemma start_sds_accepted h s u s' : start_sds h s = (Ok u, s') -> sds_accepted h.
Proof.
  unfold start_sds. rewrite seq_attempt. intros [Hca H]. apply seq_Ok in H as (v & s1 & [= <- <-] & H).
  apply seq_Ok in H as (v & s1 & Hl & H). rewrite seq_attempt in H. destruct H as [Hn H].
  apply seq_Ok in H as (? & ? & [= <- <-] & H). rewrite seq_attempt in H. destruct H as [Hc _].
  constructor; auto. destruct (h_lstat_sds h); simplify_eq; [by left|right]. by apply attempt_iff in Hl as [? _].
Qed.
Lemma setup_accepted c h s u s' : setup c h s = (Ok u, s') -> accepted c h.
Proof.
  unfold setup. intros H. apply seq_Ok in H as (v & s1 & _ & H).
  rewrite !seq_attempt in H. destruct H as (Hd & Hl & H). apply seq_Ok in H as (? & ? & [= <- <-] & H).
  rewrite !seq_attempt in H. destruct H as (Hf & Hg & Hh & H). apply seq_Ok in H as (? & ? & Hr & H).
  rewrite !seq_attempt, !prefixed_None in H. destruct H as (Ho & Hp & Hrt & _).
  constructor; auto; [by destruct (h_flock h)|]. intros Hw. apply String.eqb_eq in Hw. rewrite Hw in Hr.
  by eapply start_sds_accepted.
Qed.
Lemma setup_runs c h : Validate c = None -> accepted c h ->
  setup c h start = (Ok tt, {| rs_trace := rev (setup_actions c h); rs_defers := setup_defers c |}).
Proof.
  intros HV [Hd Hl Hf Hg Hh Hs Ho Hp Hr].
  unfold setup, setup_actions, setup_defers, sequence, attempt, deferring, prefixed.
  rewrite HV, Hd, Hl, Hf, Hg, Hh, Ho, Hp, Hr. cbn.
  destruct (String.eqb_spec (cfg_Role c) Workload) as [Hw|_]; [|done].
  destruct (Hs Hw) as [H1 H2 H3 H4]. unfold start_sds, sds_actions, sequence, attempt, deferring.
  rewrite H1, H3, H4. by destruct H2 as [-> |[-> ->]].
Qed.

(** A property of each action of a trace, with what came before it. *)
Definition launches (a : action) : Prop := match a with StartProxy _ => True | _ => False end.
#[export] Instance launches_dec a : Decision (launches a).
Proof. destruct a; cbn; apply _. Defined.
Lemma setup_quiet c h : Forall (fun a => ~ launches a) (rs_trace (setup c h start).2).
Proof.
  unfold setup, start_sds, sequence, attempt, deferring, prefixed, done_, start.
  repeat (case_match; cbn in *; simplify_eq); repeat (constructor; cbn; auto).
Qed.
Lemma run_deferred_quiet h f err d : Forall (fun a => ~ launches a) (run_deferred h f err d).1.
Proof. destruct d; cbn; repeat case_match; repeat (constructor; cbn; auto). Qed.
Lemma run_defers_quiet h f ds : forall err, Forall (fun a => ~ launches a) (run_defers h f err ds).1.
Proof.
  induction ds as [|d ds IH]; intros err; cbn; [by constructor|].
  pose proof (run_deferred_quiet h f err d). destruct (run_deferred h f err d) as [a e].
  specialize (IH e). destruct (run_defers h f e ds). by apply Forall_app.
Qed.
Lemma start_proxy_cases c h s r s' : start_proxy c h s = (r, s') ->
  let gen := if cfg_ProxyMode c =s= Standalone then [PrepareEnvoy] else [] in
  match r with
  | Ok _ => rs_trace s' = StartProxy (proxy_argv c) :: gen ++ rs_trace s
            /\ rs_defers s' = DStopTicker :: DStopProxy :: DClearError :: rs_defers s
  | Err _ => rs_defers s' = rs_defers s /\ (rs_trace s' = rs_trace s \/ rs_trace s' = gen ++ rs_trace s)
  | Panic => False
  end.
Proof.
  unfold start_proxy, sequence, attempt, deferring, prefixed, done_.
  intros H. repeat (case_match; cbn in *; simplify_eq); auto.
Qed.
(** Whether the deferred call that forgets the error is among [ds]. *)
Definition clears (ds : list deferred) : bool :=
  existsb (fun d => match d with DClearError => true | _ => false end) ds.
(** The error the deferred calls leave. *)
Lemma run_defers_error h f ds : forall err,
  (run_defers h f err ds).2 =
  if clears ds && (f_cancelled f || h_cancelled_at_exit h)
  then None else err.
Proof.
  induction ds as [|d ds IH]; intros err; cbn; [done|].
  destruct (run_deferred h f err d) as [a e] eqn:Hd. specialize (IH e).
  destruct (run_defers h f e ds) as [b e']. cbn in *. subst e'.
  destruct d; injection Hd as <- <-; cbn; fold (clears ds); try done.
  by destruct (clears ds), (f_cancelled f), (h_cancelled_at_exit h).
Qed.
Lemma setup_no_clear c h : clears (rs_defers (setup c h start).2) = false.
Proof.
  unfold setup, start_sds, sequence, attempt, deferring, prefixed, done_, start.
  repeat (case_match; cbn in *; simplify_eq); reflexivity.
Qed.
(** Every run that does not start the proxy has a trace without [StartProxy]; a run
    that does is start-up, then the proxy, then the deferred calls. *)
Definition before_proxy (c : Config) (h : host) : list action :=
  setup_actions c h ++ [OPAReady] ++ (if cfg_ProxyMode c =s= Standalone then [PrepareEnvoy] else []).
Definition run_defers_of (c : Config) : list deferred := [DStopTicker; DStopProxy; DClearError] ++ setup_defers c.
Lemma returns_trace c h waits evs s f : returns c h waits evs s f ->
  Forall (fun a => ~ launches a) (rs_trace s) /\ clears (rs_defers s) = false /\ f_error f <> None
  \/ Validate c = None /\ supervise false evs = Some f
     /\ rev (rs_trace s) = before_proxy c h ++ [StartProxy (proxy_argv c)]
     /\ rs_defers s = run_defers_of c.
Proof.
  pose proof (setup_quiet c h) as Hq. pose proof (setup_no_clear c h) as Hn.
  destruct 1 as [e s Hs|u e s x Hs Hw|u u' e s s' x Hs Hw Hp|u u' u'' s s' x f Hs Hw Hp Hv];
    rewrite Hs in Hq, Hn; cbn in Hq, Hn; [by left|by left| |].
  - apply start_proxy_cases in Hp as [-> [-> | ->]]; left; (split; [|done]); [by constructor; cbn; auto|].
    apply Forall_app; split; [case_match; repeat (constructor; cbn; auto)|]. by constructor; cbn; auto.
  - right. apply setup_ok in Hs as (HV & Ht & Hd). apply start_proxy_cases in Hp as [Ht' Hd'].
    cbn in Ht', Hd'. rewrite Ht', Hd', Hd. split_and!; [done|done| |done].
    unfold before_proxy. cbn. rewrite rev_app_distr. cbn. rewrite Ht.
    by case_match; cbn; rewrite <- ?app_assoc.
Qed.
Lemma return_trace h f s :
  return_ h f s = (rev (rs_trace s) ++ (run_defers h f (f_error f) (rs_defers s)).1,
                   (run_defers h f (f_error f) (rs_defers s)).2).
Proof. unfold return_. by destruct (run_defers _ _ _ _). Qed.
Lemma before_proxy_quiet c h : Forall (fun a => ~ launches a) (before_proxy c h).
Proof.
  unfold before_proxy, setup_actions, sds_actions.
  repeat case_match; cbn; repeat (constructor; cbn; auto).
Qed.
Lemma quiet_elem tr argv : Forall (fun a => ~ launches a) tr -> StartProxy argv ∉ tr.
Proof. intros H Hin. rewrite list.Forall_forall in H. by apply (H _ Hin). Qed.
(** The only [StartProxy] of a trace splits it in one way. *)
Lemma split_at_launch t1 t2 u1 u2 a b :
  Forall (fun a => ~ launches a) u1 -> Forall (fun a => ~ launches a) u2 -> launches a -> 
  u1 ++ b :: u2 = t1 ++ a :: t2 -> u1 = t1 /\ b = a /\ u2 = t2.
Proof.
  intros Hu1 Hu2 Ha. revert t1; induction u1 as [|x u1 IH]; intros [|y t1] Heq; cbn in Heq; simplify_eq; auto.
  - rewrite Forall_app, Forall_cons in Hu2. tauto.
  - rewrite Forall_cons in Hu1. tauto.
  - rewrite Forall_cons in Hu1. destruct (IH (proj2 Hu1) t1) as (-> & -> & ->); auto.
Qed.

(** C15: The proxy is the last thing started, at most once, with the command of its mode and role:
    before it, and in this order, the configuration was valid, the runtime lock was
    taken, both Lua guards were written, on a workload the SDS server was serving on
    a private socket, OPA was configured and serving and had reported healthy, and
    in standalone mode the rewritten Envoy configuration was in place.  None of them
    had been given back. *)
Theorem proxy_starts_last c h waits evs tr err t1 argv t2 :
  Run c h waits evs = Some (tr, err) -> tr = t1 ++ StartProxy argv :: t2 ->
  Validate c = None /\ argv = proxy_argv c /\ (forall argv', StartProxy argv' ∉ t1 ++ t2)
  /\ t1 = [MakeRuntimeDir; OpenLock; TakeLock; WriteGuard; WriteHTTPGuard]
          ++ (if cfg_Role c =s= Workload then sds_actions h else [])
          ++ [PrepareOPA; ConfigurePolicyHost; NewRuntime; ServeOPA; OPAReady]
          ++ (if cfg_ProxyMode c =s= Standalone then [PrepareEnvoy] else [])
  /\ holding [] t1 = Some (ROPA :: role_resources c).
Proof.
  intros H Htr. apply Run_returns in H as (s & f & Hr & Ht). rewrite return_trace in Ht.
  injection Ht as Ht _. pose proof (run_defers_quiet h f (rs_defers s) (f_error f)) as Hq2.
  apply returns_trace in Hr as [[Hq _]|(HV & _ & Hs & _)].
  - exfalso. apply (quiet_elem tr argv); [|rewrite Htr; set_solver].
    rewrite <- Ht. apply Forall_app; auto using Forall_rev.
  - rewrite Hs in Ht. rewrite <- app_assoc in Ht. rewrite <- Ht in Htr.
    apply split_at_launch in Htr as (<- & Ha & <-); auto using before_proxy_quiet; [|done].
    injection Ha as <-. split_and!; [done|done| | |].
    + intros argv'. apply quiet_elem, Forall_app. auto using before_proxy_quiet.
    + unfold before_proxy, setup_actions. cbn. by rewrite <- app_assoc.
    + unfold before_proxy, setup_actions, sds_actions, role_resources. by repeat case_match.
Qed.

(** C24: Shutdown reaches the proxy before anything it depends on: after the proxy was
    started, the first thing a returning run does (the ticker apart) is to signal the proxy's
    process group, and unless the proxy had already exited it reaps the process,
    killing it first exactly when it outlives its grace period. *)
Theorem proxy_stops_first c h waits evs tr err t1 argv t2 :
  Run c h waits evs = Some (tr, err) -> tr = t1 ++ StartProxy argv :: t2 ->
  exists f t3, supervise false evs = Some f
    /\ t2 = [StopTicker; TerminateProxy]
            ++ (if f_exited f then [] else if h_proxy_stops_in_time h then [ReapProxy] else [KillProxy; ReapProxy])
            ++ [CancelStartup; CancelOPA] ++ t3
    /\ (KillProxy ∉ t3) /\ (ReapProxy ∉ t3) /\ (TerminateProxy ∉ t3).
Proof.
  intros H Htr. apply Run_returns in H as (s & f & Hr & Ht). rewrite return_trace in Ht.
  injection Ht as Ht _. pose proof (run_defers_quiet h f (rs_defers s) (f_error f)) as Hq2.
  apply returns_trace in Hr as [[Hq _]|(HV & Hf & Hs & Hd)].
  - exfalso. apply (quiet_elem tr argv); [|rewrite Htr; set_solver].
    rewrite <- Ht. apply Forall_app; auto using Forall_rev.
  - rewrite Hs in Ht. rewrite <- app_assoc in Ht. rewrite <- Ht in Htr.
    apply split_at_launch in Htr as (_ & _ & <-); auto using before_proxy_quiet; [|done].
    exists f. rewrite Hd. unfold run_defers_of, setup_defers. clear -Hf.
    destruct (cfg_Role c =s= Workload); cbn;
      destruct (f_exited f), (h_proxy_stops_in_time h), (f_opaExited f), (h_opa_stops_in_time h);
      cbn; eexists; split_and!; try done; set_solver.
Qed.

(** ** What supervision decides *)
(** The loop goes on after [e], knowing whether the proxy was ever ready. *)
Inductive benign (healthy : bool) : event -> Prop :=
| BenignReady expired : benign healthy (Tick None None expired)
| BenignStarting e : healthy = false -> benign healthy (Tick None (Some e) false).
(** The proxy answered ready in some tick of [evs]. *)
Definition ready_tick (e : event) : bool := match e with Tick None None _ => true | _ => false end.
Definition was_ready (evs : list event) : bool := existsb ready_tick evs.
(** The verdict of a tick that ends the loop, in the order in which its checks run. *)
Definition failed_tick (healthy : bool) (liveness proxy : option string) : string :=
  match liveness, proxy with
  | Some e, _ => "required OPA service failed: " +:+ e
  | None, Some e => (if healthy then "proxy lost readiness: " else "proxy startup timed out: ") +:+ e
  | None, None => ""
  end.
Definition verdict (healthy : bool) (e : event) : outcome_flags :=
  match e with
  | CtxDone => {| f_error := None; f_opaExited := false; f_exited := false; f_cancelled := true |}
  | OPAStopped e => {| f_error := Some ("embedded OPA stopped: " +:+ e); f_opaExited := true; f_exited := false; f_cancelled := false |}
  | ProxyStopped e => {| f_error := Some ("proxy stopped unexpectedly: " +:+ e); f_opaExited := false; f_exited := true; f_cancelled := false |}
  | SDSStopped e => ended (Some ("inspection SDS stopped unexpectedly: " +:+ e))
  | Tick liveness proxy _ => ended (Some (failed_tick healthy liveness proxy))
  end.
(** Every event of [evs] is benign where it stands. *)
Fixpoint all_benign (healthy : bool) (evs : list event) : Prop :=
  match evs with [] => True | e :: evs => benign healthy e /\ all_benign (healthy || ready_tick e) evs end.

Lemma supervise_benign healthy e evs : benign healthy e ->
  supervise healthy (e :: evs) = supervise (healthy || ready_tick e) evs.
Proof. intros H. inversion H; subst; cbn; by rewrite ?orb_true_r. Qed.
Lemma benign_dec healthy e : {benign healthy e} + {~ benign healthy e}.
Proof.
  destruct e as [| | | |[l|] [p|] [|]]; destruct healthy;
    solve [ left; by constructor | right; inversion 1; congruence ].
Defined.
Lemma supervise_terminal healthy e evs : ~ benign healthy e ->
  supervise healthy (e :: evs) = Some (verdict healthy e).
Proof.
  intros H. destruct e as [| | | |[l|] [p|] x]; cbn; try done.
  - destruct healthy; [done|]. destruct x; [done|]. destruct H. by constructor.
  - destruct H. constructor.
Qed.

Lemma supervise_error evs f : supervise false evs = Some f -> f_cancelled f = false -> f_error f <> None.
Proof.
  generalize false at 1. induction evs as [|e evs IH]; intros healthy; cbn; [done|].
  destruct e as [| | | |[l|] [p|] x]; cbn; intros H Hc; simplify_eq; eauto.
  destruct healthy; [by simplify_eq|]. destruct x; [by simplify_eq|]. eauto.
Qed.

(** C22: Supervision ends at the first event that is not benign, and only there, with that
    event's outcome: a cancelled context ends without error, a stopped OPA, proxy or
    SDS server and a failed OPA probe are terminal at once, and a proxy that is not
    ready is terminal exactly when it was ready before or the start-up time is over. *)
Theorem supervise_outcome evs f :
  supervise false evs = Some f <->
  exists pre e post, evs = pre ++ e :: post /\ all_benign false pre
    /\ ~ benign (was_ready pre) e /\ f = verdict (was_ready pre) e.
Proof.
  assert (H : forall evs healthy, supervise healthy evs = Some f <->
    exists pre e post, evs = pre ++ e :: post /\ all_benign healthy pre
      /\ ~ benign (healthy || was_ready pre) e /\ f = verdict (healthy || was_ready pre) e); [|apply H].
  clear evs. induction evs as [|e evs IH]; intros healthy.
  - cbn. split; [done|]. by intros ([|y pre] & x & post & ? & _).
  - destruct (benign_dec healthy e) as [Hb|Hb].
    + rewrite supervise_benign, IH by done. split.
      * intros (pre & x & post & -> & Hp & Hx & Hf). exists (e :: pre), x, post. cbn.
        unfold was_ready in *. cbn. rewrite orb_assoc. auto.
      * intros (pre & x & post & Heq & Hp & Hx & Hf).
        destruct pre as [|y pre]; cbn in Heq; simplify_eq; cbn in *; rewrite ?orb_false_r in Hx; [done|].
        exists pre, x, post. unfold was_ready in *. rewrite <- orb_assoc. naive_solver.
    + rewrite supervise_terminal by done. split.
      * intros [= <-]. exists [], e, evs. cbn. by rewrite orb_false_r.
      * intros (pre & x & post & Heq & Hp & Hx & Hf).
        destruct pre as [|y pre]; cbn in Heq; simplify_eq; cbn in *; [by rewrite orb_false_r|]. by destruct Hp.
Qed.


(** C23: [Run] never reports success by accident.  Before the proxy is started every return
    carries an error, whatever the context; afterwards the error is exactly the one
    supervision gave, and it is dropped exactly when the context was cancelled. *)
Theorem run_error_exact c h waits evs tr err :
  Run c h waits evs = Some (tr, err) ->
  (forall argv, StartProxy argv ∉ tr) /\ err <> None
  \/ exists f, supervise false evs = Some f /\ StartProxy (proxy_argv c) ∈ tr
     /\ err = (if f_cancelled f || h_cancelled_at_exit h then None else f_error f)
     /\ (f_cancelled f = false -> f_error f <> None).
Proof.
  intros H. apply Run_returns in H as (s & f & Hr & Ht). rewrite return_trace, run_defers_error in Ht.
  injection Ht as Ht He. apply returns_trace in Hr as [(Hq & Hc & Hf)|(HV & Hf & Hs & Hd)].
  - left. rewrite Hc in He. cbn in He. subst. split; [|done]. intros argv. apply quiet_elem, Forall_app.
    auto using Forall_rev, run_defers_quiet.
  - right. exists f. rewrite Hd in He. rewrite Hs in Ht. subst. split_and!; [done|set_solver| |].
    + unfold clears, run_defers_of. by cbn.
    + by apply (supervise_error evs).
Qed.

(** ** When the daemon comes up *)
(** The waits end well: some retries, then a healthy probe. *)
Definition becomes_healthy (waits : list wait_event) : Prop :=
  exists n rest, waits = replicate n Retry ++ Healthy :: rest.
Lemma wait_opa_healthy waits u x : wait_opa waits = Some (Ok u, x) <-> u = tt /\ x = false /\ becomes_healthy waits.
Proof.
  split.
  - induction waits as [|[] waits IH]; cbn; intros H; simplify_eq.
    + split_and!; [done..|]. by exists 0%nat, waits.
    + destruct (IH H) as (-> & -> & n & rest & ->). split_and!; [done..|]. by exists (S n), rest.
  - intros (-> & -> & n & rest & ->). by induction n.
Qed.
Definition proxy_accepted (c : Config) (h : host) : Prop :=
  (cfg_ProxyMode c = Standalone -> h_prepare_envoy h = None) /\ h_start_proxy h = None.
Lemma start_proxy_Ok c h s : proxy_accepted c h <-> exists s', start_proxy c h s = (Ok tt, s').
Proof.
  unfold proxy_accepted, start_proxy, sequence, attempt, deferring, prefixed, done_.
  destruct (String.eqb_spec (cfg_ProxyMode c) Standalone) as [Hm|Hm], (h_prepare_envoy h), (h_start_proxy h);
    cbn; naive_solver.
Qed.
Lemma Run_proxy c h waits evs s s' f :
  setup c h start = (Ok tt, s) -> becomes_healthy waits -> start_proxy c h (perform OPAReady s) = (Ok tt, s') ->
  supervise false evs = Some f -> Run c h waits evs = Some (return_ h f s').
Proof.
  intros Hs Hw Hp Hv. unfold Run. fold start. rewrite Hs.
  rewrite (proj2 (wait_opa_healthy waits tt false)) by done. by rewrite Hp, Hv.
Qed.
(** What a run that started the proxy went through. *)
Lemma Run_started c h waits evs tr err argv : Run c h waits evs = Some (tr, err) -> StartProxy argv ∈ tr ->
  Validate c = None /\ accepted c h /\ proxy_accepted c h /\ becomes_healthy waits /\
  exists f, supervise false evs = Some f.
Proof.
  intros H Hin. apply Run_returns in H as (s & f & Hr & Ht). rewrite return_trace in Ht. injection Ht as Ht _.
  pose proof (returns_trace _ _ _ _ _ _ Hr) as [(Hq & _)|(HV & Hf & _)].
  - exfalso. eapply quiet_elem; [|exact Hin]. rewrite <- Ht. apply Forall_app; auto using Forall_rev, run_defers_quiet.
  - split; [done|]. pose proof (setup_quiet c h) as Hq.
    destruct Hr as [e s Hs|u e s x Hs Hw|u u' e s s' x Hs Hw Hp|u u' [] s s' x f Hs Hw Hp Hv].
    1-3: exfalso; eapply quiet_elem; [|exact Hin]; rewrite <- Ht; apply Forall_app; split; [|apply run_defers_quiet];
      apply Forall_rev; rewrite Hs in Hq; cbn in Hq; try done.
    { apply start_proxy_cases in Hp as [_ [-> | ->]]; [by constructor; cbn; auto|].
      apply Forall_app; split; [case_match|]; repeat (constructor; cbn; auto). }
    split_and!; [by eapply setup_accepted|apply start_proxy_Ok with (s := perform OPAReady s); eauto| |eauto].
    by apply wait_opa_healthy in Hw as (_ & _ & ?).
Qed.

(** C10: The daemon comes up exactly when it can: a run returns after it started the proxy if and
    only if the configuration is valid, the host lets every step of the start-up
    through, OPA reports healthy after some number of probes before anything
    else happens, the Envoy configuration can be written where there is one, the
    process can be started, and supervision ends.  No order of answers leads to the
    proxy otherwise, and none of them keeps a healthy start from it. *)
Theorem daemon_comes_up c h waits evs :
  (exists tr err, Run c h waits evs = Some (tr, err) /\ StartProxy (proxy_argv c) ∈ tr) <->
  Validate c = None /\ accepted c h /\ proxy_accepted c h /\ becomes_healthy waits /\
  exists f, supervise false evs = Some f.
Proof.
  split; [intros (tr & err & H & Hin); by eapply Run_started|].
  intros (HV & Ha & Hp & Hw & f & Hf). pose proof (setup_runs c h HV Ha) as Hs.
  apply (start_proxy_Ok c h (perform OPAReady {| rs_trace := rev (setup_actions c h); rs_defers := setup_defers c |})) in Hp as [s' Hp].
  pose proof (Run_proxy _ _ _ _ _ _ _ Hs Hw Hp Hf) as Hr. rewrite return_trace in Hr.
  do 2 eexists. split; [exact Hr|]. apply start_proxy_cases in Hp as [-> _].
  apply elem_of_app. left. apply list_elem_of_In, in_rev. rewrite rev_involutive. by left.
Qed.

(** ** The readiness probe *)
Lemma get_ready do_get socket url : get do_get socket url = None <-> do_get socket url = Some 200.
Proof.
  unfold get. destruct (do_get socket url) as [z|]; [|done].
  destruct (Z.eqb_spec z 200) as [->|]; cbn; naive_solver.
Qed.
Lemma checkOPAHealth_ready do_get dial c url :
  checkOPAHealth do_get dial c url = None <->
  do_get (path_join (RuntimeDir c) "opa-api.sock") url = Some 200
  /\ dial (path_join (RuntimeDir c) "opa.sock") = true.
Proof.
  unfold checkOPAHealth. rewrite <- get_ready. destruct (get do_get _ url); [naive_solver|].
  destruct (dial _); naive_solver.
Qed.
Lemma checkProxy_ready do_get c :
  checkProxy do_get c = None <->
  (if decide (cfg_ProxyMode c = Istio) then do_get EmptyString "http://127.0.0.1:15021/healthz/ready"
   else do_get (EnvoyAdminPath c) "http://localhost/ready") = Some 200.
Proof.
  unfold checkProxy. destruct (String.eqb_spec (cfg_ProxyMode c) Istio); [rewrite decide_True by done|rewrite decide_False by done];
    apply get_ready.
Qed.
Lemma services_ready do_get dial c :
  match checkOPA do_get dial c with Some e => Some e | None => checkProxy do_get c end = None <->
  checkOPA do_get dial c = None /\ checkProxy do_get c = None.
Proof. destruct (checkOPA do_get dial c); naive_solver. Qed.
Lemma slen_zero_eqb s : (slen s =? 0) = bool_decide (s = EmptyString).
Proof. destruct s; [done|]. rewrite bool_decide_false by done. apply Z.eqb_neq. unfold slen. cbn. lia. Qed.

(** [Ready] succeeds exactly when every service answers: on a workload the published CA is
    non-empty and the SDS socket accepts connections; OPA answers 200 to the health
    endpoint that covers plugins and bundles, its authorization socket accepts
    connections, and the proxy of the configured mode answers 200.  So a ready
    daemon is also live: the liveness probe of [supervise] asks for less. *)
Theorem ready_exact do_get dial c read_ca :
  Ready do_get dial c read_ca = None <->
  (cfg_Role c = Workload -> (exists ca, read_ca = Some ca /\ ca <> EmptyString) /\ dial (InspectionSDSPath c) = true)
  /\ do_get (path_join (RuntimeDir c) "opa-api.sock") "http://localhost/health?plugins&bundles" = Some 200
  /\ dial (path_join (RuntimeDir c) "opa.sock") = true
  /\ (if decide (cfg_ProxyMode c = Istio) then do_get EmptyString "http://127.0.0.1:15021/healthz/ready"
      else do_get (EnvoyAdminPath c) "http://localhost/ready") = Some 200.
Proof.
  unfold Ready. destruct (decide (cfg_Role c = Workload)) as [HR|HR].
  - rewrite (proj2 (String.eqb_eq _ _) HR).
    destruct read_ca as [ca|]; [|split; [done|]; intros [H _]; destruct (H HR) as [(ca & ? & _) _]; done].
    rewrite slen_zero_eqb. case_bool_decide as Hca; cbn.
    { split; [done|]. intros [H _]. destruct (H HR) as [(ca' & [= <-] & ?) _]; done. }
    destruct (dial (InspectionSDSPath c)); cbn; [|split; [done|]; intros [H _]; by destruct (H HR)].
    rewrite services_ready, checkProxy_ready; unfold checkOPA; rewrite checkOPAHealth_ready. naive_solver.
  - rewrite (proj2 (String.eqb_neq _ _) HR). rewrite services_ready, checkProxy_ready; unfold checkOPA; rewrite checkOPAHealth_ready. naive_solver.
Qed.

(** ** Witnesses *)
Definition demo_host : host := {|
  h_directory := None; h_lock_file := None; h_flock := true; h_guard := None; h_http_guard := None;
  h_open_ca := None; h_lstat_sds := Socket; h_remove_sds := None; h_listen_sds := None; h_chmod_sds := None;
  h_prepare_opa := None; h_policy_host := None; h_runtime := None; h_prepare_envoy := None; h_start_proxy := None;
  h_cancelled_at_exit := false; h_opa_stops_in_time := true; h_proxy_stops_in_time := false |}.
Definition demo_waits := [Retry; Healthy].
Definition demo_events := [Tick None (Some "refused") false; Tick None None false; Tick None (Some "refused") false].
Definition demo_trace : list action :=
  [MakeRuntimeDir; OpenLock; TakeLock; WriteGuard; WriteHTTPGuard; OpenCA; RemoveStaleSDS; ListenSDS; ChmodSDS; ServeSDS;
   PrepareOPA; ConfigurePolicyHost; NewRuntime; ServeOPA; OPAReady].
Definition demo_shutdown : list action :=
  [StopTicker; TerminateProxy; KillProxy; ReapProxy; CancelStartup; CancelOPA; JoinOPA; StopSDS; CloseListener; CloseCA; CloseLock].
Definition demo_argv := ["/usr/local/bin/pilot-agent"; "proxy"; "sidecar"].
Example demo_run : Run Defaults demo_host demo_waits demo_events =
  Some (demo_trace ++ StartProxy demo_argv :: demo_shutdown, Some "proxy lost readiness: refused").
Proof. vm_compute. reflexivity. Qed.
Lemma run_releases_everything_witness :
  holding [] (demo_trace ++ StartProxy demo_argv :: demo_shutdown) = Some [].
Proof. apply (run_releases_everything Defaults demo_host demo_waits demo_events _ _ demo_run). Defined.
Lemma proxy_starts_last_witness :
  Validate Defaults = None /\ demo_argv = proxy_argv Defaults
  /\ (forall argv', StartProxy argv' ∉ demo_trace ++ demo_shutdown)
  /\ demo_trace = [MakeRuntimeDir; OpenLock; TakeLock; WriteGuard; WriteHTTPGuard]
          ++ (if cfg_Role Defaults =s= Workload then sds_actions demo_host else [])
          ++ [PrepareOPA; ConfigurePolicyHost; NewRuntime; ServeOPA; OPAReady]
          ++ (if cfg_ProxyMode Defaults =s= Standalone then [PrepareEnvoy] else [])
  /\ holding [] demo_trace = Some (ROPA :: role_resources Defaults).
Proof. apply (proxy_starts_last Defaults demo_host demo_waits demo_events _ _ demo_trace demo_argv demo_shutdown demo_run). reflexivity. Defined.
Lemma proxy_stops_first_witness :
  exists f t3, supervise false demo_events = Some f
    /\ demo_shutdown = [StopTicker; TerminateProxy]
            ++ (if f_exited f then [] else if h_proxy_stops_in_time demo_host then [ReapProxy] else [KillProxy; ReapProxy])
            ++ [CancelStartup; CancelOPA] ++ t3
    /\ (KillProxy ∉ t3) /\ (ReapProxy ∉ t3) /\ (TerminateProxy ∉ t3).
Proof. apply (proxy_stops_first Defaults demo_host demo_waits demo_events _ _ demo_trace demo_argv demo_shutdown demo_run). reflexivity. Defined.
Lemma run_error_exact_witness :
  (forall argv, StartProxy argv ∉ demo_trace ++ StartProxy demo_argv :: demo_shutdown) /\ Some "proxy lost readiness: refused" <> None
  \/ exists f, supervise false demo_events = Some f
     /\ StartProxy (proxy_argv Defaults) ∈ demo_trace ++ StartProxy demo_argv :: demo_shutdown
     /\ Some "proxy lost readiness: refused" = (if f_cancelled f || h_cancelled_at_exit demo_host then None else f_error f)
     /\ (f_cancelled f = false -> f_error f <> None).
Proof. apply (run_error_exact Defaults demo_host demo_waits demo_events _ _ demo_run). Defined.
