(* ===== verification/Startup.v ===== *)
(** [internal/daemon/daemon.go], [opa.go] and [envoy.go]: the files of a daemon.
    The start-up of [Daemon] is run here on the file system of [Fs], with the
    operations of [Ca], [Opa] and [Envoy] in the order in which [Run] calls them; the
    outcome is what the daemon's host answers, and what is on disk when the proxy
    is started is stated as one record.  Decoding YAML, the embedded guard script,
    [strconv.Quote], [json.Marshal] of a document and the order in which Go ranges
    over a map are parameters; sockets, processes and OPA stay answers of the host.
    [Run] waits for OPA before it prepares Envoy; no other process is assumed to write
    to the private runtime directory meanwhile. *)
From Stdlib Require Import SpecFloat.
From stdpp Require Import pretty.
From S2P Require Import Daemon Prelude GoStrings GoPath Tracing Config Leaf Fs Ca Json Envoy Opa.

(** Where [Run] can return before OPA and the proxy are involved. *)
Inductive stage :=
| AtDirectory | AtLockFile | AtFlock | AtGuard | AtHTTPGuard | AtOpenCA
| AtPrepareOPA | AtPolicyHost | AtPrepareEnvoy.
#[export] Instance stage_eq_dec : EqDecision stage.
Proof. solve_decision. Defined.

(** [if err := m; err != nil { return err }] at [st]. *)
Abbreviation staged A := (io (result (stage * io_error) A)).
Definition sret {A} (a : A) : staged A := mret (Ok a).
Definition at_stage {A} (st : stage) (m : io A) : staged A :=
  r ← try m;
  mret (match r with Ok a => Ok a | Err e => Err (st, e) | Panic => Panic end).
Definition sbind {A B} (m : staged A) (f : A -> staged B) : staged B :=
  r ← m;
  match r with Ok a => f a | Err e => mret (Err e) | Panic => mret Panic end.
Notation "x <~ m ;; k" := (sbind m (fun x => k)) (at level 100, m at next level, right associativity).
(** [defer lock.Close()] for what follows, when it returns early. *)
Definition releasing {A} (lock : nat) (m : staged A) : staged A :=
  r ← m;
  match r with Ok _ => mret r | _ => _ ← always (release lock); mret r end.

(** [os.OpenFile(p, O_CREATE|O_RDWR, 0o600)]; [link_target] is the inode of the
    regular file that a symbolic link leads to ([None]: it cannot be opened). *)
Section Lock.
Context (link_target : nat -> option nat).
Definition file_inode (s : fs) (i : nat) : option nat :=
  match inodes s !! i with
  | Some (Regular _ _ _) => Some i
  | Some (Symlink _) => link_target i
  | _ => None
  end.
Definition lock_inode (s : fs) (p : string) : option nat := dirents s !! p ≫= file_inode s.
Definition open_file (p : string) (s : fs) : result io_error (nat * fs) :=
  match dirents s !! p with
  | None => Ok (next s, add_node s p (Regular "" 384 false))
  | Some i => match file_inode s i with Some j => Ok (j, s) | None => Err Fault end
  end.
End Lock.

(** What the start-up leaves to the rest of [Run]. *)
Record files `{Crypto} := {
  fl_lock : nat;
  fl_ca : option (Authority * nat);
  fl_params : Params;
  fl_policy : bool;
}.

Definition runtime_file (c : Config) (f : string) : string := path_join (RuntimeDir c) f.
Definition lock_path (c : Config) : string := runtime_file c ".daemon.lock".

Section Startup.
Context `{Signer} `{!Pki} (umask : Z) (link_target : nat -> option nat).
Context (guard : string) (quote : string -> string) (print_float : spec_float -> option string)
  (PluginName DecisionPath : string).
Context (decode_native : string -> option (option (gmap string json)))
  (decode_plugins : string -> option (gmap string json))
  (decode_envoy : string -> option (option (gmap string json)))
  (marshal : json -> option string).
Context (range_resource : gmap string string -> list (string * string))
  (range_batch : gmap string Z -> list (string * Z)).

Definition required {A} (e : string) (o : option A) : io A :=
  match o with Some a => mret a | None => throw (Message e) end.
Definition of_outcome {E A} (e : string) (r : result E A) : io A :=
  match r with Ok a => mret a | Err _ => throw (Message e) | Panic => of_result Panic end.
(** [json.Marshal] and [inspection.WriteAtomic(path, raw, 0o600)]. *)
Definition write_document (path : string) (j : json) : io string :=
  raw ← required "marshal" (marshal j);
  _ ← WriteAtomic path raw 384;
  mret path.

(** [prepareOPA]: the document is [Opa.prepareOPA]'s. *)
Definition prepareOPA (c : Config) : io string :=
  match cfg_Tracing c with
  | None => mret (OPAConfig c)
  | Some otel =>
      raw ← syscall (read_file (OPAConfig c));
      native ← required "invalid OPA configuration (content omitted)" (decode_native raw);
      pd ← of_outcome "tracing"
             (Opa.prepareOPA print_float c (Ok native) (range_resource (Resource otel)) (range_batch (Batch otel)));
      match pd.2 with None => mret pd.1 | Some doc => write_document pd.1 (JObject doc) end
  end.
Definition configurePolicyHost (c : Config) (params : Params) : io (bool * Params) :=
  raw ← syscall (read_file (ConfigFile params));
  plugins ← required "invalid OPA configuration (content omitted)" (decode_plugins raw);
  of_outcome "Policy extension cannot be combined with fixture policies"
    (Opa.configurePolicyHost PluginName DecisionPath c params (Ok plugins)).
Definition prepareEnvoy (c : Config) (policyExtension : bool) : io string :=
  raw ← syscall (read_file (EnvoyConfig c));
  doc ← required "decode" (decode_envoy raw);
  j ← of_outcome "bootstrap" (Envoy.prepareEnvoy guard quote c policyExtension doc);
  write_document (runtime_file c "envoy.json") j.

(** [Run], from the embedded OPA on. *)
Definition serve_files (c : Config) (policies : list string) (lock : nat) (ca : option (Authority * nat)) : staged files :=
  path <~ at_stage AtPrepareOPA (prepareOPA c);;
  host <~ at_stage AtPolicyHost (configurePolicyHost c (runtime_params c path policies));;
  _ <~ (if cfg_ProxyMode c =s= Standalone then at_stage AtPrepareEnvoy (prepareEnvoy c host.1)
        else sret EmptyString);;
  sret {| fl_lock := lock; fl_ca := ca; fl_params := host.2; fl_policy := host.1 |}.
Definition start_files (c : Config) (policies : list string) (now : Z) (e : Entropy) : staged files :=
  _ <~ at_stage AtDirectory (Directory umask (RuntimeDir c) 448);;
  lock <~ at_stage AtLockFile (syscall (open_file link_target (lock_path c)));;
  _ <~ at_stage AtFlock (syscall (flock lock));;
  releasing lock (
    _ <~ at_stage AtGuard (WriteAtomic (RequestGuardPath c) (Source guard quote (cfg_Role c)) 384);;
    _ <~ at_stage AtHTTPGuard (WriteAtomic (runtime_file c "http-guard.lua") (HTTPSource guard quote (cfg_Role c)) 384);;
    if cfg_Role c =s= Workload then
      ca <~ at_stage AtOpenCA (Open umask (StateDir c) (PublicDir c) now e);;
      releasing ca.2 (serve_files c policies lock (Some ca))
    else serve_files c policies lock None).
(** The deferred closes of a daemon that came up. *)
Definition stop_files (f : files) : io unit :=
  _ ← match fl_ca f with Some ca => Close ca.2 | None => mret tt end;
  always (release (fl_lock f)).
End Startup.

(** The host's answers to the file operations of [Run]; the others are [base]'s. *)
Definition io_message (e : io_error) : string :=
  match e with NotExist => "not exist" | Exist => "exist" | Fault => "fault" | Message m => m end.
Definition host_of {A} (r : result (stage * io_error) A) (base : Daemon.host) : Daemon.host :=
  let failed st := match r with
    | Ok _ => None
    | Err (st', e) => if decide (st = st') then Some (io_message e) else None
    | Panic => Some "panic"
    end in
  {| h_directory := failed AtDirectory; h_lock_file := failed AtLockFile;
     h_flock := match failed AtFlock with None => true | Some _ => false end;
     h_guard := failed AtGuard; h_http_guard := failed AtHTTPGuard; h_open_ca := failed AtOpenCA;
     h_lstat_sds := h_lstat_sds base; h_remove_sds := h_remove_sds base; h_listen_sds := h_listen_sds base;
     h_chmod_sds := h_chmod_sds base; h_prepare_opa := failed AtPrepareOPA; h_policy_host := failed AtPolicyHost;
     h_runtime := h_runtime base; h_prepare_envoy := failed AtPrepareEnvoy; h_start_proxy := h_start_proxy base;
     h_cancelled_at_exit := h_cancelled_at_exit base; h_opa_stops_in_time := h_opa_stops_in_time base;
     h_proxy_stops_in_time := h_proxy_stops_in_time base |}.

(** ** Footprints *)
(** [s'] keeps the inodes of [s] and its entries outside [P]. *)
Record evolves (P : string -> Prop) (s s' : fs) : Prop := {
  ev_wf : fs_wf s';
  ev_next : (next s <= next s')%nat;
  ev_dirents : forall q j, ~ P q -> dirents s !! q = Some j -> dirents s' !! q = Some j;
  ev_inodes : forall j, (j < next s)%nat -> inodes s' !! j = inodes s !! j;
}.
Lemma evolves_refl P s : fs_wf s -> evolves P s s.
Proof. by constructor. Qed.
Lemma evolves_trans P s1 s2 s3 : evolves P s1 s2 -> evolves P s2 s3 -> evolves P s1 s3.
Proof. intros [W1 N1 D1 I1] [W2 N2 D2 I2]. constructor; auto; [lia|]. intros j Hj. rewrite I2 by lia. auto. Qed.
Lemma evolves_weaken (P Q : string -> Prop) s s' : (forall q, P q -> Q q) -> evolves P s s' -> evolves Q s s'.
Proof. intros H [W N D I]. constructor; auto. Qed.
Lemma extends_evolves P s s' : extends s s' -> evolves P s s'.
Proof. intros [W N D I]. constructor; auto. Qed.
Lemma evolves_node P s s' q n : fs_wf s -> evolves P s s' -> ~ P q -> node s q = Some n -> node s' q = Some n.
Proof.
  intros [W _] [_ _ D I] Hq. unfold node. destruct (dirents s !! q) as [j|] eqn:E; [|done]. cbn.
  rewrite (D _ _ Hq E). cbn. rewrite I; [done|]. by eapply W.
Qed.
Lemma evolves_read P s s' q d : fs_wf s -> evolves P s s' -> ~ P q -> read_file q s = Ok (d, s) -> read_file q s' = Ok (d, s').
Proof.
  intros Hwf He Hq. unfold read_file. destruct (node s q) as [n|] eqn:E; [|done].
  rewrite (evolves_node _ _ _ _ _ Hwf He Hq E). destruct n as [| |[]|]; congruence.
Qed.
Lemma evolves_dir_ok P s s' path mode : fs_wf s -> evolves P s s' ->
  (forall q, q ∈ prefixes path -> ~ P q) -> ~ P path -> dir_ok s path mode -> dir_ok s' path mode.
Proof.
  intros Hwf He Hp Hpath [H1 H2 (m & H3 & H4)]. constructor; [done| |].
  - intros q Hq. destruct (H2 q Hq) as [m' Hm']. exists m'. by eapply evolves_node; [..|apply Hp|].
  - exists m. split; [by eapply evolves_node|done].
Qed.
Lemma evolves_flocks P s s' l : evolves P s s' -> evolves P s (set_flocks s' l).
Proof. intros [[W1 W2] N D I]. constructor; auto. by constructor. Qed.

(** The entries [WriteAtomic] at [p] touches. *)
Definition writes (p q : string) : Prop := q = p \/ exists n, q = temp_name p n.
Lemma written_evolves p s t s' : fs_wf s -> (exists n, t = temp_name p n) -> written p s t s' -> evolves (writes p) s s'.
Proof.
  intros [W _] [n ->] [W1 W2 W3 W4 W5 W6]. split; [done|lia| |].
  - intros q j Hq Hj. rewrite W5; [done|by contradict Hq; left|by contradict Hq; right; eauto].
  - intros j Hj. apply W3. lia.
Qed.
(** A step that takes no lock and touches [P] only. *)
Definition steps (P : string -> Prop) (s s' : fs) : Prop := evolves P s s' /\ flocks s' = flocks s.
Lemma steps_refl P s : fs_wf s -> steps P s s.
Proof. split; [by apply evolves_refl|done]. Qed.
Lemma steps_trans P s1 s2 s3 : steps P s1 s2 -> steps P s2 s3 -> steps P s1 s3.
Proof. intros [E1 F1] [E2 F2]. split; [by eapply evolves_trans|congruence]. Qed.
Lemma steps_weaken (P Q : string -> Prop) s s' : (forall q, P q -> Q q) -> steps P s s' -> steps Q s s'.
Proof. intros H [E F]. split; [by eapply evolves_weaken|done]. Qed.
Lemma steps_wf P s s' : steps P s s' -> fs_wf s'.
Proof. intros [E _]. apply (ev_wf _ _ _ E). Qed.
Lemma WriteAtomic_wp faulty p data mode s : (forall n, temp_name p n <> p) -> fs_wf s ->
  wp faulty (steps (writes p) s) (WriteAtomic p data mode) (fun r s' => steps (writes p) s s' /\
    (r = Ok tt -> node s' p = Some (Regular data mode true))) s.
Proof.
  intros Htemp Hwf. assert (Hst : forall t s', (exists n, t = temp_name p n) -> written p s t s' -> steps (writes p) s s').
  { intros t s' Ht Hw. split; [by eapply written_evolves|apply (wr_flocks _ _ _ _ Hw)]. }
  eapply wp_mono; [apply (writeAtomic_run faulty p data mode Htemp rename_effect s _ True (fun _ => True)); [done|done| |]|].
  - intros t Ht. by apply rename_ok.
  - intros t s' Ht _ [[Hw _]|[[Hw _] _]]; by eapply Hst.
  - intros r s' (t & Ht & [(-> & e & -> & _)|(_ & Hend)]); [by split; [apply steps_refl|]|].
    assert (Hw : written p s t s') by (destruct Hend as [(_ & [[? _] _] & _)|[(_ & [? _] & _)|([? _] & _)]]; done).
    split; [by eapply Hst|].
    destruct Hend as [(-> & ((_ & Hd & Hi & _) & _) & _)|[(-> & _)|(_ & e & -> & _)]]; try done.
    intros _. unfold node. rewrite Hd. cbn. by rewrite Hi.
Qed.
Lemma evolves_lock_inode lt P s s' p l : fs_wf s -> evolves P s s' -> ~ P p ->
  lock_inode lt s p = Some l -> lock_inode lt s' p = Some l.
Proof.
  intros [W _] [_ _ D J] Hp. unfold lock_inode, file_inode. destruct (dirents s !! p) as [i|] eqn:Ei; [|done].
  cbn. rewrite (D _ _ Hp Ei). cbn. rewrite J; [done|]. by eapply W.
Qed.

(** *** The runtime directory *)
Definition plain (f : string) : bool := normal f && negb (has_prefix f ".gateway-").
Section Runtime.
Context (c : Config) (Hc : valid_config c).

Definition in_runtime (q : string) : Prop := path_dir q = RuntimeDir c.
Lemma valid_paths : clean_path (StateDir c) /\ clean_path (PublicDir c) /\ clean_path (RuntimeDir c).
Proof. pose proof (vc_paths _ Hc) as H. rewrite !Forall_cons in H. tauto. Qed.
Lemma clean_path_abs p : clean_path p -> p = abs_path (elements p) /\ Forall (fun e => normal e = true) (elements p).
Proof. intros (H1 & H2 & _). by apply clean_abs_elements. Qed.
Lemma runtime_abs : RuntimeDir c = abs_path (elements (RuntimeDir c)) /\
  Forall (fun e => normal e = true) (elements (RuntimeDir c)).
Proof. apply clean_path_abs, valid_paths. Qed.
Lemma runtime_file_abs f : normal f = true -> runtime_file c f = abs_path (elements (RuntimeDir c) ++ [f]).
Proof. destruct runtime_abs as [E N]. unfold runtime_file. rewrite E at 1. by apply path_join_abs. Qed.
Lemma temp_runtime f n : normal f = true ->
  temp_name (runtime_file c f) n = abs_path (elements (RuntimeDir c) ++ [".gateway-" +:+ pretty n]).
Proof.
  destruct runtime_abs as [E N]. intros Hf. unfold temp_name. rewrite runtime_file_abs, path_dir_abs by done.
  by rewrite path_join_abs by (done || apply normal_gateway).
Qed.
Lemma writes_inv f q : normal f = true -> writes (runtime_file c f) q ->
  exists g, normal g = true /\ q = abs_path (elements (RuntimeDir c) ++ [g]) /\ (g = f \/ plain g = false).
Proof.
  intros Hf [->|[n ->]].
  - exists f. rewrite runtime_file_abs by done. auto.
  - rewrite temp_runtime by done. eexists. split; [apply normal_gateway|]. split; [done|]. right.
    unfold plain. rewrite normal_gateway. done.
Qed.
Lemma plain_normal f : plain f = true -> normal f = true.
Proof. intros H. by apply andb_true_iff in H as [? _]. Qed.
Lemma apart f g : plain f = true -> normal g = true -> f <> g -> ~ writes (runtime_file c g) (runtime_file c f).
Proof.
  intros Hf Hg Hne (h & Hh & E & Hhg)%writes_inv; [|done]. destruct runtime_abs as [_ N].
  rewrite runtime_file_abs in E by by apply plain_normal.
  apply abs_snoc_inj in E as [_ <-]; [|done..|by apply plain_normal|done]. destruct Hhg; congruence.
Qed.
Lemma temp_apart f n : plain f = true -> temp_name (runtime_file c f) n <> runtime_file c f.
Proof.
  intros Hf E. destruct runtime_abs as [_ N]. pose proof (plain_normal _ Hf) as Hn.
  rewrite temp_runtime, runtime_file_abs in E by done.
  apply abs_snoc_inj in E as [_ E]; [|done..|apply normal_gateway|done]. subst f. unfold plain in Hf.
  by rewrite normal_gateway in Hf.
Qed.
Lemma writes_in_runtime f q : normal f = true -> writes (runtime_file c f) q -> in_runtime q.
Proof.
  intros Hf (g & Hg & -> & _)%writes_inv; [|done]. destruct runtime_abs as [E N]. unfold in_runtime.
  rewrite path_dir_abs by done. by rewrite <- E.
Qed.
Lemma file_in_runtime f : normal f = true -> in_runtime (runtime_file c f).
Proof. intros Hf. apply (writes_in_runtime f); [done|by left]. Qed.
(** A path that is not below the runtime directory. *)
Lemma not_in_runtime l : Forall (fun e => normal e = true) l -> l <> [] -> ~ elements (RuntimeDir c) `prefix_of` l \/
  (length l <= length (elements (RuntimeDir c)))%nat -> ~ in_runtime (abs_path l).
Proof.
  intros Hl Hne H Hin. destruct runtime_abs as [E N].
  destruct (exists_last Hne) as (l' & x & ->). apply Forall_app in Hl as [Hl' [Hx _]%Forall_cons].
  unfold in_runtime in Hin. rewrite path_dir_abs in Hin by done. rewrite E in Hin. apply abs_path_inj in Hin as ->; [|done..].
  destruct H as [H|H]; [apply H; by exists [x]|]. rewrite length_app in H. cbn in H. lia.
Qed.
End Runtime.

(** ** The staged crash logic *)
Definition swp {A} (faulty : bool) (I : fs -> Prop) (m : staged A)
    (Q : result (stage * io_error) A -> fs -> Prop) (s : fs) : Prop :=
  wp faulty I m (fun r s' => exists r', r = Ok r' /\ Q r' s') s.
Section StagedRules.
Context (faulty : bool) (I : fs -> Prop).
Lemma swp_mono {A} (m : staged A) (Q Q' : result (stage * io_error) A -> fs -> Prop) s :
  swp faulty I m Q s -> (forall r s', Q r s' -> Q' r s') -> swp faulty I m Q' s.
Proof. intros H HQ. eapply wp_mono; [exact H|]. intros r s' (r' & -> & Hr). eauto. Qed.
Lemma swp_ret {A} (a : A) (Q : result (stage * io_error) A -> fs -> Prop) s : Q (Ok a) s -> swp faulty I (sret a) Q s.
Proof. intros HQ. apply wp_ret. eauto. Qed.
Lemma swp_at_stage {A} st (m : io A) (Q : result (stage * io_error) A -> fs -> Prop) s :
  wp faulty I m (fun r s' => Q (match r with Ok a => Ok a | Err e => Err (st, e) | Panic => Panic end) s') s ->
  swp faulty I (at_stage st m) Q s.
Proof.
  intros H. apply wp_bind, wp_try. eapply wp_mono; [exact H|]. cbn. intros r s' Hr. apply wp_ret. eauto.
Qed.
Lemma swp_bind {A B} (m : staged A) (f : A -> staged B) (Q : result (stage * io_error) B -> fs -> Prop) s :
  swp faulty I m (fun r s' => match r with
    | Ok a => swp faulty I (f a) Q s' | Err e => Q (Err e) s' | Panic => Q Panic s' end) s ->
  swp faulty I (sbind m f) Q s.
Proof.
  intros H. apply wp_bind. eapply wp_mono; [exact H|]. cbn. intros r s' (r' & -> & Hr).
  destruct r' as [a|e|]; [exact Hr|apply wp_ret; eauto..].
Qed.
Lemma swp_releasing {A} lock (m : staged A) (Q : result (stage * io_error) A -> fs -> Prop) s :
  swp faulty I m (fun r s' => match r with
    | Ok a => Q (Ok a) s' | _ => I (release lock s') /\ Q r (release lock s') end) s ->
  swp faulty I (releasing lock m) Q s.
Proof.
  intros H. apply wp_bind. eapply wp_mono; [exact H|]. cbn. intros r s' (r' & -> & Hr).
  destruct r' as [a|e|]; [apply wp_ret; eauto|..]; destruct Hr as [HI HQ];
    apply wp_bind, wp_always; [done|apply wp_ret; eauto|done|apply wp_ret; eauto].
Qed.
End StagedRules.
Lemma swp_conseq {A} b (I I' : fs -> Prop) (m : staged A) (Q : result (stage * io_error) A -> fs -> Prop) s :
  swp b I m Q s -> (forall s, I s -> I' s) -> swp b I' m Q s.
Proof. apply wp_conseq. Qed.

(** ** What the file operations leave *)
Section Served.
Context `{Signer} `{!Pki} (umask : Z) (link_target : nat -> option nat).
Context (guard : string) (quote : string -> string) (print_float : spec_float -> option string)
  (PluginName DecisionPath : string).
Context (decode_native : string -> option (option (gmap string json)))
  (decode_plugins : string -> option (gmap string json))
  (decode_envoy : string -> option (option (gmap string json)))
  (marshal : json -> option string).
Context (range_resource : gmap string string -> list (string * string))
  (range_batch : gmap string Z -> list (string * Z)).
Context (faulty : bool) (c : Config) (Hc : valid_config c).
Abbreviation prepare_opa := (prepareOPA print_float decode_native marshal range_resource range_batch).
Abbreviation policy_host := (configurePolicyHost PluginName DecisionPath decode_plugins).
Abbreviation prepare_envoy := (prepareEnvoy guard quote decode_envoy marshal).
Abbreviation serve := (serve_files guard quote print_float PluginName DecisionPath decode_native decode_plugins
  decode_envoy marshal range_resource range_batch).

Definition document_at (s : fs) (path : string) (j : json) : Prop :=
  exists raw, marshal j = Some raw /\ node s path = Some (Regular raw 384 true).
(** The content of a file the daemon's own files cannot replace. *)
Definition content (s : fs) (q raw : string) : Prop := ~ in_runtime c q -> read_file q s = Ok (raw, s).
(** OPA's configuration file is the native one or the document with the tracing section. *)
Definition opa_prepared (path : string) (s : fs) : Prop :=
  match cfg_Tracing c with
  | None => path = OPAConfig c
  | Some otel => path = runtime_file c "opa.json" /\ exists raw native tracing,
      content s (OPAConfig c) raw /\ decode_native raw = Some native /\
      tracing_object print_float otel (range_resource (Resource otel)) (range_batch (Batch otel)) = Ok tracing /\
      document_at s path (JObject (<["distributed_tracing" := tracing]> (default ∅ native)))
  end.
(** The policy extension is enabled exactly when that file lists its plugin. *)
Definition host_prepared (policies : list string) (path : string) (host : bool * Params) (s : fs) : Prop :=
  exists raw plugins, (path = runtime_file c "opa.json" \/ ~ in_runtime c path -> read_file path s = Ok (raw, s)) /\
    decode_plugins raw = Some plugins /\
    Opa.configurePolicyHost PluginName DecisionPath c (runtime_params c path policies) (Ok plugins) = Ok host.
Definition envoy_prepared (pe : bool) (s : fs) : Prop :=
  exists raw b j, content s (EnvoyConfig c) raw /\ decode_envoy raw = Some (Some b) /\
    Envoy.prepareEnvoy guard quote c pe (Some b) = Ok j /\ document_at s (runtime_file c "envoy.json") j.

Definition touched (F : list string) (q : string) : Prop := exists f, f ∈ F /\ writes (runtime_file c f) q.
Lemma untouched F f : plain f = true -> forallb plain F = true -> f ∉ F -> ~ touched F (runtime_file c f).
Proof.
  intros Hf HF Hn (g & Hg & Hw). assert (plain g = true).
  { rewrite forallb_forall in HF. by apply HF, list_elem_of_In. }
  revert Hw. apply apart; [done|done|by apply plain_normal|]. intros ->. done.
Qed.
Lemma touched_in_runtime F q : forallb plain F = true -> touched F q -> in_runtime c q.
Proof.
  intros HF (g & Hg & Hw). apply (writes_in_runtime c Hc g); [|done].
  apply plain_normal. rewrite forallb_forall in HF. by apply HF, list_elem_of_In.
Qed.
Lemma untouched_outside F q : forallb plain F = true -> ~ in_runtime c q -> ~ touched F q.
Proof. intros HF Hq Ht. by eapply Hq, touched_in_runtime. Qed.
Lemma document_moves F s s' f j : fs_wf s -> plain f = true -> forallb plain F = true -> f ∉ F -> steps (touched F) s s' ->
  document_at s (runtime_file c f) j -> document_at s' (runtime_file c f) j.
Proof.
  intros Hwf Hf HF Hn [E1 _] (raw & Hm & Hr). exists raw. split; [done|].
  eapply evolves_node; [exact Hwf|exact E1| |done]. by apply untouched.
Qed.

Lemma content_steps F s s' q raw : fs_wf s -> forallb plain F = true -> steps (touched F) s s' ->
  content s q raw -> content s' q raw.
Proof.
  intros Hwf HF [E1 _] Hq Hn. eapply evolves_read; [exact Hwf|exact E1| |by apply Hq]. by apply untouched_outside.
Qed.
Lemma opa_prepared_steps F path s s' : fs_wf s -> forallb plain F = true -> "opa.json" ∉ F -> steps (touched F) s s' ->
  opa_prepared path s -> opa_prepared path s'.
Proof.
  intros Hwf HF Hn Hs. unfold opa_prepared. destruct (cfg_Tracing c) as [otel|]; [|done].
  intros [-> (raw & native & tracing & K1 & K2 & K3 & K4)]. split; [done|]. exists raw, native, tracing.
  split_and!; [by eapply content_steps|done|done|by eapply document_moves].
Qed.
Lemma host_prepared_steps F policies path host s s' : fs_wf s -> forallb plain F = true -> "opa.json" ∉ F ->
  steps (touched F) s s' -> host_prepared policies path host s -> host_prepared policies path host s'.
Proof.
  intros Hwf HF Hn [E1 _] (raw & plugins & K1 & K2). exists raw, plugins. split; [|done]. intros Hp.
  eapply evolves_read; [exact Hwf|exact E1| |by apply K1].
  destruct Hp as [->|Hp]; [by apply untouched|by apply untouched_outside].
Qed.
Lemma touched_one f : forall q, writes (runtime_file c f) q -> touched [f] q.
Proof. intros q Hq. exists f. split; [by left|done]. Qed.
Lemma write_document_wp f j s : plain f = true -> fs_wf s ->
  wp faulty (steps (touched [f]) s) (write_document marshal (runtime_file c f) j) (fun r s' => steps (touched [f]) s s' /\
    (forall path, r = Ok path -> path = runtime_file c f /\ document_at s' path j)) s.
Proof.
  intros Hf Hwf. apply wp_bind. unfold required.
  destruct (marshal j) as [raw|] eqn:Em; [apply wp_ret|apply wp_throw; by split; [apply steps_refl|]].
  apply wp_bind. eapply wp_mono; [eapply wp_conseq|]; [by apply (WriteAtomic_wp faulty _ raw 384 s (fun n => temp_apart c Hc f n Hf))|
    intros s'; apply steps_weaken, touched_one|].
  cbn. intros r s' [Hs Hr]. apply (steps_weaken _ _ _ _ (touched_one f)) in Hs.
  destruct r as [[]|e|]; [|by split..]. apply wp_ret. split; [done|]. intros path [= <-]. split; [done|].
  exists raw. auto.
Qed.

Lemma prepareOPA_wp s : fs_wf s ->
  wp faulty (steps (touched ["opa.json"]) s) (prepare_opa c) (fun r s' => steps (touched ["opa.json"]) s s' /\
    (forall path, r = Ok path -> opa_prepared path s')) s.
Proof.
  intros Hwf. assert (Hrefl : steps (touched ["opa.json"]) s s) by by apply steps_refl.
  unfold prepareOPA, opa_prepared. destruct (cfg_Tracing c) as [otel|] eqn:Et; [|apply wp_ret; split; [done|congruence]].
  apply wp_bind, wp_read_file; [done|done|]. intros raw Hraw.
  apply wp_bind. unfold required. destruct (decode_native raw) as [native|] eqn:Ed; [apply wp_ret|by apply wp_throw].
  apply wp_bind. unfold Opa.prepareOPA. rewrite Et. cbn [mbind result_bind].
  destruct (tracing_object _ _ _ _) as [tracing|e|] eqn:Eo; cbn [mbind result_bind of_outcome];
    [apply wp_ret|by apply wp_throw|by apply wp_of_result]. cbn [fst snd].
  eapply wp_mono; [by apply write_document_wp|]. cbn. intros r s' [Hs Hr]. split; [done|].
  intros path Hp. destruct (Hr path Hp) as [-> Hd]. split; [done|]. exists raw, native, tracing. split; [|done].
  eapply content_steps; [..|exact Hs|by intros _]; done.
Qed.
Lemma policy_host_wp policies path s : fs_wf s ->
  wp faulty (eq s) (policy_host c (runtime_params c path policies)) (fun r s' => s' = s /\
    (forall host, r = Ok host -> host_prepared policies path host s)) s.
Proof.
  intros Hwf. unfold configurePolicyHost, host_prepared. apply wp_bind, wp_read_file; [done|done|]. cbn [ConfigFile runtime_params].
  intros raw Hraw. apply wp_bind. unfold required.
  destruct (decode_plugins raw) as [plugins|] eqn:Ed; [apply wp_ret|by apply wp_throw].
  destruct (Opa.configurePolicyHost _ _ _ _ _) as [host|e|] eqn:Eh; cbn [of_outcome]; [apply wp_ret|by apply wp_throw|by apply wp_of_result].
  split; [done|]. intros h [= <-]. by exists raw, plugins.
Qed.
Lemma prepareEnvoy_wp pe s : fs_wf s ->
  wp faulty (steps (touched ["envoy.json"]) s) (prepare_envoy c pe) (fun r s' => steps (touched ["envoy.json"]) s s' /\
    (forall path, r = Ok path -> envoy_prepared pe s')) s.
Proof.
  intros Hwf. assert (Hrefl : steps (touched ["envoy.json"]) s s) by by apply steps_refl.
  unfold prepareEnvoy, envoy_prepared. apply wp_bind, wp_read_file; [done|done|]. intros raw Hraw.
  apply wp_bind. unfold required. destruct (decode_envoy raw) as [doc|] eqn:Ed; [apply wp_ret|by apply wp_throw].
  apply wp_bind. destruct (Envoy.prepareEnvoy guard quote c pe doc) as [j|e|] eqn:Ee; cbn [of_outcome];
    [apply wp_ret|by apply wp_throw|by apply wp_of_result].
  eapply wp_mono; [by apply write_document_wp|]. cbn. intros r s' [Hs Hr]. split; [done|].
  intros path Hp. destruct (Hr path Hp) as [-> Hd]. destruct doc as [b|]; [|done]. exists raw, b, j. split; [|done].
  eapply content_steps; [..|exact Hs|by intros _]; done.
Qed.

(** The whole of [serve_files]. *)
Definition served (policies : list string) (f : files) (s : fs) : Prop :=
  opa_prepared (ConfigFile (fl_params f)) s /\
  host_prepared policies (ConfigFile (fl_params f)) (fl_policy f, fl_params f) s /\
  (cfg_ProxyMode c = Standalone -> envoy_prepared (fl_policy f) s).
Lemma host_keeps_file params plugins host :
  Opa.configurePolicyHost PluginName DecisionPath c params (Ok plugins) = Ok host -> ConfigFile host.2 = ConfigFile params.
Proof.
  unfold Opa.configurePolicyHost. cbn [mbind result_bind]. destruct (plugins !! PluginName); [|by intros [= <-]].
  rewrite guard_err_Ok. by intros [_ [= <-]].
Qed.
Lemma serve_files_wp policies lock ca s : fs_wf s ->
  swp faulty (steps (touched ["opa.json"; "envoy.json"]) s) (serve c policies lock ca)
    (fun r s' => steps (touched ["opa.json"; "envoy.json"]) s s' /\
      (forall f, r = Ok f -> fl_lock f = lock /\ fl_ca f = ca /\ served policies f s')) s.
Proof.
  intros Hwf. set (W := touched ["opa.json"; "envoy.json"]).
  assert (Hopa : forall q, touched ["opa.json"] q -> W q).
  { intros q (f & Hf%list_elem_of_singleton & Hw). exists f. subst. split; [by left|done]. }
  assert (Henv : forall q, touched ["envoy.json"] q -> W q).
  { intros q (f & Hf%list_elem_of_singleton & Hw). exists f. subst. split; [by right; left|done]. }
  apply swp_bind, swp_at_stage. eapply wp_mono; [eapply wp_conseq; [by apply prepareOPA_wp|intros s'; by apply steps_weaken]|].
  cbn. intros r s1 [S1 Hr1]. apply (steps_weaken _ _ _ _ Hopa) in S1 as K1. assert (W1 := steps_wf _ _ _ S1).
  destruct r as [path|e|]; [|by split..]. specialize (Hr1 path eq_refl).
  apply swp_bind, swp_at_stage. eapply wp_mono; [eapply wp_conseq; [by apply policy_host_wp|by intros s' <-]|].
  cbn. intros r s1' [-> Hr2]. destruct r as [host|e|]; [|by split..]. specialize (Hr2 host eq_refl).
  assert (Hfile : ConfigFile host.2 = path) by (destruct Hr2 as (? & ? & _ & _ & Hh); apply (host_keeps_file _ _ _ Hh)).
  assert (Hn : "opa.json" ∉ ["envoy.json"]) by (by intros ?%list_elem_of_singleton).
  apply swp_bind. destruct (cfg_ProxyMode c =s= Standalone) eqn:Em; bool_hyps.
  - apply swp_at_stage. eapply wp_mono; [eapply wp_conseq; [by apply prepareEnvoy_wp|]|].
    { intros s' Hs'. eapply steps_trans; [exact K1|]. by eapply steps_weaken. }
    cbn. intros r s2 [S2 Hr3]. assert (K2 : steps W s s2) by (eapply steps_trans; [exact K1|by eapply steps_weaken]).
    destruct r as [p|e|]; [|by split..]. apply swp_ret. split; [done|]. intros f [= <-]. split_and!; [done..|].
    unfold served. cbn [fl_params fl_policy]. rewrite Hfile. split_and!.
    + by eapply (opa_prepared_steps ["envoy.json"]).
    + rewrite <- surjective_pairing. by eapply (host_prepared_steps ["envoy.json"]).
    + intros _. by apply (Hr3 p).
  - apply swp_ret, swp_ret. split; [done|]. intros f [= <-]. split_and!; [done..|].
    unfold served. cbn [fl_params fl_policy]. rewrite Hfile, <- surjective_pairing. by split_and!.
Qed.

(** *** Outside the runtime directory *)
Abbreviation rt := (in_runtime c).
Abbreviation sd := (elements (StateDir c)).
Abbreviation pd := (elements (PublicDir c)).
Lemma root_outside : ~ rt (abs_path []).
Proof.
  intros Hin. destruct (valid_paths c Hc) as (_ & _ & (_ & _ & Hne)). apply Hne.
  unfold in_runtime in Hin. rewrite <- Hin. by vm_compute.
Qed.
Lemma below_outside p k f : clean_path p -> disjoint_paths p (RuntimeDir c) -> normal f = true ->
  ~ rt (abs_path (take k (elements p))) /\ ~ rt (abs_path (elements p ++ [f])).
Proof.
  intros Hp Hd Hf. destruct (clean_path_abs p Hp) as [_ N]. split.
  - destruct (decide (take k (elements p) = [])) as [->|Hne]; [apply root_outside|].
    apply not_in_runtime; [done|by apply Forall_take|done|left]. destruct Hd as [_ Hd]. contradict Hd.
    etrans; [exact Hd|]. exists (drop k (elements p)). by rewrite take_drop.
  - apply not_in_runtime; [done|by apply normal_snoc|by destruct (elements p)|left].
    apply (disjoint_below p); [done|]. by exists [f].
Qed.
Lemma dir_outside p q : clean_path p -> disjoint_paths p (RuntimeDir c) -> q ∈ prefixes p \/ q = p -> ~ rt q.
Proof.
  intros Hp Hd Hq. destruct (clean_path_abs p Hp) as [E N].
  assert (exists k, q = abs_path (take k (elements p))) as [k ->].
  { destruct Hq as [Hq| ->]; [apply elem_of_prefixes; [done|by rewrite <- E]|].
    exists (length (elements p)). by rewrite take_ge. }
  by apply (below_outside p k ".lock").
Qed.
Lemma own_prefix_outside q : q ∈ prefixes (RuntimeDir c) \/ q = RuntimeDir c -> ~ rt q.
Proof.
  intros Hq. destruct (runtime_abs c Hc) as [E N].
  assert (exists k, q = abs_path (take k (elements (RuntimeDir c)))) as [k ->].
  { destruct Hq as [Hq| ->]; [apply elem_of_prefixes; [done|by rewrite <- E]|].
    exists (length (elements (RuntimeDir c))). by rewrite take_ge. }
  destruct (decide (take k (elements (RuntimeDir c)) = [])) as [->|Hne]; [apply root_outside|].
  apply not_in_runtime; [done|by apply Forall_take|done|right]. rewrite length_take. lia.
Qed.

(** *** The authority of a workload *)
Record authority (now : Z) (s : fs) (au : Authority) (lock : nat) : Prop := {
  at_state : dir_ok s (StateDir c) 448;
  at_public : dir_ok s (PublicDir c) 493;
  at_lock : dirents s !! lockPath sd = Some lock;
  at_pair : exists raw st, committed_as sd pd now s st raw au;
}.
Lemma state_public_abs : StateDir c = privateDir sd /\ PublicDir c = publicDir pd.
Proof. destruct (valid_paths c Hc) as (V1 & V2 & _). split; by apply clean_path_abs. Qed.
Lemma authority_steps F now s s' au lock : fs_wf s -> forallb plain F = true -> steps (touched F) s s' ->
  authority now s au lock -> authority now s' au lock.
Proof.
  intros Hwf HF [E1 _] [K1 K2 K3 (raw & st & [(m & b0 & Hn & Hm) (crt & data & K5 & K6 & K7)])].
  destruct (valid_paths c Hc) as (V1 & V2 & _).
  assert (Hnot : forall q, ~ rt q -> ~ touched F q) by (intros q Hq; by apply untouched_outside).
  assert (D1 := vc_state_runtime _ Hc). assert (D2 := vc_public_runtime _ Hc).
  destruct (clean_path_abs _ V1) as [_ N1]. destruct (clean_path_abs _ V2) as [_ N2].
  constructor.
  - eapply evolves_dir_ok; [exact Hwf|exact E1|..|done]; intros; apply Hnot, (dir_outside (StateDir c)); auto.
  - eapply evolves_dir_ok; [exact Hwf|exact E1|..|done]; intros; apply Hnot, (dir_outside (PublicDir c)); auto.
  - apply (ev_dirents _ _ _ E1); [|done]. apply Hnot. rewrite lockPath_eq by done. by apply (below_outside _ 0).
  - exists raw, st. constructor.
    + exists m, b0. split; [|done]. eapply evolves_node; [exact Hwf|exact E1| |done].
      apply Hnot. rewrite statePath_eq by done. by apply (below_outside _ 0).
    + exists crt, data. split_and!; [done| |done]. unfold reads. eapply evolves_read; [exact Hwf|exact E1| |done].
      apply Hnot. rewrite publishedPath_eq by done. by apply (below_outside _ 0).
Qed.
Lemma opened_authority now e s s' au lock : opened sd pd now e s s' au lock -> authority now s' au lock.
Proof.
  intros [K1 K2 [K3 _] (raw & st & K4 & _)]. destruct state_public_abs as [E1 E2].
  constructor; [by rewrite E1|by rewrite E2|done|by exists raw, st].
Qed.

(** *** The whole start-up *)
Definition ca_held (ca : option (Authority * nat)) (l l' : gset nat) : Prop :=
  match ca with Some (_, k) => (k ∉ l) /\ l' = {[k]} ∪ l | None => l' = l end.
(** What is on disk and locked when the proxy is started; [s0] is the file system
    the daemon found. *)
Record serving (policies : list string) (now : Z) (s0 : fs) (f : files) (s : fs) : Prop := {
  sv_directory : dir_ok s (RuntimeDir c) 448;
  sv_lock : lock_inode link_target s (lock_path c) = Some (fl_lock f);
  sv_same_lock : forall l, lock_inode link_target s0 (lock_path c) = Some l -> l = fl_lock f;
  sv_unlocked : fl_lock f ∉ flocks s0;
  sv_locks : ca_held (fl_ca f) ({[fl_lock f]} ∪ flocks s0) (flocks s);
  sv_guard : node s (RequestGuardPath c) = Some (Regular (Source guard quote (cfg_Role c)) 384 true);
  sv_http_guard : node s (runtime_file c "http-guard.lua") = Some (Regular (HTTPSource guard quote (cfg_Role c)) 384 true);
  sv_authority : match fl_ca f with
    | Some (au, lock) => cfg_Role c = Workload /\ authority now s au lock
    | None => cfg_Role c <> Workload
    end;
  sv_served : served policies f s;
}.
Definition start_post (policies : list string) (now : Z) (s0 : fs) (r : result (stage * io_error) files) (s : fs) : Prop :=
  evolves rt s0 s /\ match r with Ok f => serving policies now s0 f s | _ => flocks s = flocks s0 end.

Lemma steps_runtime F s0 s s' : forallb plain F = true -> evolves rt s0 s -> steps (touched F) s s' -> evolves rt s0 s'.
Proof.
  intros HF E0 [E1 _]. eapply evolves_trans; [exact E0|]. eapply evolves_weaken; [|exact E1].
  intros q. by apply touched_in_runtime.
Qed.
Lemma open_file_adds p s l s' : fs_wf s -> open_file link_target p s = Ok (l, s') ->
  adds [p] s s' /\ lock_inode link_target s' p = Some l /\
  (forall k, lock_inode link_target s p = Some k -> k = l).
Proof.
  intros Hwf. unfold open_file, lock_inode. destruct (dirents s !! p) as [i|] eqn:Ei.
  - cbn. destruct (file_inode link_target s i) as [j|] eqn:Ej; [|done]. intros [= <- <-]. rewrite Ei. cbn.
    split_and!; [by apply adds_refl|done|]. intros k. congruence.
  - intros [= <- <-]. split_and!; [apply add_node_adds; auto; by left| |done].
    cbn. rewrite lookup_insert_eq. cbn. unfold file_inode. cbn. by rewrite lookup_insert_eq.
Qed.
(** What holds from the lock on, up to the files of the runtime directory in [F]. *)
Record locked (s0 : fs) (lock : nat) (s : fs) : Prop := {
  lk_evolves : evolves rt s0 s;
  lk_directory : dir_ok s (RuntimeDir c) 448;
  lk_lock : lock_inode link_target s (lock_path c) = Some lock;
  lk_same : forall l, lock_inode link_target s0 (lock_path c) = Some l -> l = lock;
  lk_unlocked : lock ∉ flocks s0;
}.
Lemma locked_moves P s0 lock s s' : fs_wf s -> (forall q, P q -> rt q) -> ~ P (lock_path c) -> evolves P s s' ->
  locked s0 lock s -> locked s0 lock s'.
Proof.
  intros Hwf HP Hl E1 [K1 K2 K3 K4 K5]. constructor; auto.
  - eapply evolves_trans; [exact K1|]. by eapply evolves_weaken.
  - eapply evolves_dir_ok; [exact Hwf|exact E1|..|done].
    + intros q Hq Hp. apply HP in Hp. revert Hp. by apply own_prefix_outside; left.
    + intros Hp. apply HP in Hp. revert Hp. by apply own_prefix_outside; right.
  - by eapply evolves_lock_inode.
Qed.
Lemma locked_steps F s0 lock s s' : fs_wf s -> forallb plain F = true -> ".daemon.lock" ∉ F -> steps (touched F) s s' ->
  locked s0 lock s -> locked s0 lock s'.
Proof.
  intros Hwf HF Hn [E1 _]. apply (locked_moves (touched F)); [done| |by apply untouched|done].
  intros q. by apply touched_in_runtime.
Qed.

(** The lock: nothing but directories and the lock file is created before it. *)
Lemma acquire_wp {A} (k : nat -> staged A) (Q : result (stage * io_error) A -> fs -> Prop) s0 : fs_wf s0 ->
  (forall lock s, locked s0 lock s -> flocks s = {[lock]} ∪ flocks s0 -> swp faulty (evolves rt s0) (k lock) Q s) ->
  (forall e s, evolves rt s0 s -> flocks s = flocks s0 -> Q e s \/ exists a, e = Ok a) ->
  swp faulty (evolves rt s0)
    (_ <~ at_stage AtDirectory (Directory umask (RuntimeDir c) 448);;
     lock <~ at_stage AtLockFile (syscall (open_file link_target (lock_path c)));;
     _ <~ at_stage AtFlock (syscall (flock lock));; k lock) Q s0.
Proof.
  intros Hwf Hk HE. assert (HE' : forall e s, evolves rt s0 s -> flocks s = flocks s0 -> (forall a, e <> Ok a) -> Q e s).
  { intros e s K1 K2 K3. destruct (HE e s K1 K2) as [?|[a ->]]; [done|]. by destruct (K3 a). }
  apply swp_bind, swp_at_stage. eapply wp_mono; [eapply wp_conseq; [by apply Directory_wp|]|].
  { intros s Ha. apply extends_evolves, Ha. }
  cbn. intros r s1 (A1 & D1 & _ & Hp). assert (E1 : evolves rt s0 s1) by apply extends_evolves, A1.
  assert (F1 := ad_flocks _ _ _ A1). assert (W1 := ev_wf _ _ _ E1).
  destruct r as [[]|e|]; [|by apply HE'..]. specialize (D1 eq_refl).
  apply swp_bind, swp_at_stage, wp_syscall_quiet; [intros _; by apply HE'|].
  destruct (open_file link_target (lock_path c) s1) as [[lock s2]|e|] eqn:Eo; [|by apply HE'..].
  apply open_file_adds in Eo as (A2 & L2 & L3); [|done].
  assert (E2 : evolves rt s0 s2) by (eapply evolves_trans; [exact E1|]; apply extends_evolves, A2).
  assert (F2 : flocks s2 = flocks s0) by (rewrite (ad_flocks _ _ _ A2); done).
  split; [done|]. apply swp_bind, swp_at_stage, wp_syscall_quiet; [intros _; by apply HE'|].
  unfold flock. case_bool_decide as Hin; [by apply HE'|].
  set (s3 := set_flocks s2 ({[lock]} ∪ flocks s2)).
  assert (E3 : evolves rt s0 s3) by by apply evolves_flocks. split; [done|].
  apply Hk; [|cbn; by rewrite F2]. rewrite F2 in Hin. constructor; [done| |done| |done].
  - assert (dir_ok s2 (RuntimeDir c) 448) as [K1 K2 K3] by (eapply dir_ok_extends; [exact W1|apply A2|done]). by constructor.
  - intros l Hl. apply L3. eapply (evolves_lock_inode _ (fun _ => False)); [exact Hwf|apply extends_evolves, A1|tauto|done].
Qed.

(** A file of the runtime directory with its content. *)
Definition script_at (s : fs) (f raw : string) : Prop := node s (runtime_file c f) = Some (Regular raw 384 true).
Lemma script_steps F s s' f raw : fs_wf s -> plain f = true -> forallb plain F = true -> f ∉ F ->
  steps (touched F) s s' -> script_at s f raw -> script_at s' f raw.
Proof. intros Hwf Hf HF Hn [E1 _]. eapply evolves_node; [exact Hwf|exact E1|]. by apply untouched. Qed.
Lemma write_script_wp f raw s : plain f = true -> fs_wf s ->
  wp faulty (steps (touched [f]) s) (WriteAtomic (runtime_file c f) raw 384) (fun r s' => steps (touched [f]) s s' /\
    (r = Ok tt -> script_at s' f raw)) s.
Proof.
  intros Hf Hwf. eapply wp_mono; [eapply wp_conseq|].
  - by apply (WriteAtomic_wp faulty _ raw 384 s (fun n => temp_apart c Hc f n Hf)).
  - intros s'. apply steps_weaken, touched_one.
  - cbn. intros r s' [Hs Hr]. split; [|done]. by eapply steps_weaken, Hs; apply touched_one.
Qed.
(** The state between the guards and [serve_files], with the CA on a workload. *)
Record guarded (now : Z) (s0 : fs) (lock : nat) (ca : option (Authority * nat)) (s : fs) : Prop := {
  gd_locked : locked s0 lock s;
  gd_flocks : ca_held ca ({[lock]} ∪ flocks s0) (flocks s);
  gd_guard : script_at s "https-guard.lua" (Source guard quote (cfg_Role c));
  gd_http_guard : script_at s "http-guard.lua" (HTTPSource guard quote (cfg_Role c));
  gd_authority : match ca with
    | Some (au, k) => cfg_Role c = Workload /\ authority now s au k
    | None => cfg_Role c <> Workload
    end;
}.
Lemma guarded_wf now s0 lock ca s : guarded now s0 lock ca s -> fs_wf s.
Proof. intros [[E _ _ _ _] _ _ _ _]. apply (ev_wf _ _ _ E). Qed.
Lemma serve_from_guarded policies now s0 lock ca s : guarded now s0 lock ca s ->
  swp faulty (evolves rt s0) (serve c policies lock ca) (fun r s' => evolves rt s0 s' /\ flocks s' = flocks s /\
    (forall f, r = Ok f -> serving policies now s0 f s')) s.
Proof.
  intros G. assert (Hwf := guarded_wf _ _ _ _ _ G). destruct G as [L Hfl Hg Hh Ha].
  set (F := ["opa.json"; "envoy.json"]).
  assert (HI : forall s', steps (touched F) s s' -> evolves rt s0 s').
  { intros s'. by apply steps_runtime; [|apply L]. }
  eapply swp_mono; [eapply swp_conseq; [by apply serve_files_wp|exact HI]|].
  intros r s' [Hs Hr]. split; [by apply HI|]. split; [apply Hs|]. intros f ->.
  destruct (Hr f eq_refl) as (<- & <- & Hsv). assert (Hflocks : flocks s' = flocks s) by apply Hs.
  assert (L' : locked s0 (fl_lock f) s').
  { eapply (locked_steps F); [exact Hwf|done| |exact Hs|done]. unfold F. set_solver. }
  destruct L' as [_ K2 K3 K4 K5]. constructor; try done; [by rewrite Hflocks| | |].
  - eapply (script_steps F); [exact Hwf|done..| |exact Hs|done]. unfold F. set_solver.
  - eapply (script_steps F); [exact Hwf|done..| |exact Hs|done]. unfold F. set_solver.
  - destruct (fl_ca f) as [[au k]|]; [|done]. destruct Ha as [? Ha]. split; [done|]. by eapply (authority_steps F).
Qed.

(** The outcome from the lock on, before its release on an early return. *)
Definition under_lock (policies : list string) (now : Z) (s0 : fs) (lock : nat)
    (r : result (stage * io_error) files) (s : fs) : Prop :=
  evolves rt s0 s /\ match r with Ok f => serving policies now s0 f s | _ => flocks s = {[lock]} ∪ flocks s0 end.
Lemma serve_workload_wp policies now e s0 lock s : cfg_Role c = Workload -> locked s0 lock s ->
  flocks s = {[lock]} ∪ flocks s0 -> script_at s "https-guard.lua" (Source guard quote (cfg_Role c)) ->
  script_at s "http-guard.lua" (HTTPSource guard quote (cfg_Role c)) ->
  swp faulty (evolves rt s0)
    (ca <~ at_stage AtOpenCA (Open umask (StateDir c) (PublicDir c) now e);;
     releasing ca.2 (serve c policies lock (Some ca))) (under_lock policies now s0 lock) s.
Proof.
  intros Hrole L Hfl Hg Hh. assert (E0 := lk_evolves _ _ _ L). assert (Hwf := ev_wf _ _ _ E0).
  destruct (valid_paths c Hc) as (V1 & V2 & _). destruct (clean_path_abs _ V1) as [_ N1]. destruct (clean_path_abs _ V2) as [_ N2].
  destruct (disjoint_paths_sym _ _ (vc_public_state _ Hc)) as [Hsp Hps]. destruct state_public_abs as [Es Ep].
  assert (Hext : forall s', extends s s' -> evolves rt s0 s') by (intros s' Hx; eapply evolves_trans; [exact E0|by apply extends_evolves]).
  apply swp_bind, swp_at_stage. rewrite Es, Ep.
  eapply wp_mono; [eapply wp_conseq; [apply (Open_wp umask faulty sd pd now e N1 N2 Hsp s Hwf)|]|].
  { intros Heq. apply Hsp. by rewrite Heq. }
  { intros s' [Hx _]. by apply Hext. }
  cbn. intros r s' ([Hx _] & Hr & _). destruct r as [[au k]|er|]; [|by split; [apply Hext|rewrite Hr]..].
  destruct Hr as (Ho & Hk & Hfl'). apply opened_authority in Ho.
  assert (Hx' := extends_evolves (fun _ => False) _ _ Hx).
  assert (G : guarded now s0 lock (Some (au, k)) s').
  { rewrite Hfl in Hk, Hfl'. constructor; [|done| | |done].
    - by eapply (locked_moves (fun _ => False)); [exact Hwf|tauto|tauto|..].
    - unfold script_at. eapply evolves_node; [exact Hwf|exact Hx'|tauto|done].
    - unfold script_at. eapply evolves_node; [exact Hwf|exact Hx'|tauto|done]. }
  apply swp_releasing. eapply swp_mono; [by apply (serve_from_guarded policies now s0)|].
  cbn. intros r s2 (K1 & K2 & K3). assert (Hrel : flocks (release k s2) = {[lock]} ∪ flocks s0).
  { cbn. rewrite K2, Hfl', Hfl. rewrite Hfl in Hk. set_solver. }
  destruct r as [f|er|]; [split; [done|by apply K3]|..];
    (split; [by apply evolves_flocks|split; [by apply evolves_flocks|done]]).
Qed.

Lemma start_files_wp policies now e s0 : fs_wf s0 ->
  swp faulty (evolves rt s0)
    (start_files umask link_target guard quote print_float PluginName DecisionPath decode_native decode_plugins
       decode_envoy marshal range_resource range_batch c policies now e) (start_post policies now s0) s0.
Proof.
  intros Hwf. unfold start_files. apply acquire_wp; [done| |].
  2: { intros r s K1 K2. destruct r; [right; eauto|left; by split..]. }
  intros lock s3 L3 F3. assert (Hlock := lk_unlocked _ _ _ L3).
  assert (Hfree : forall s, flocks s = {[lock]} ∪ flocks s0 -> flocks (release lock s) = flocks s0).
  { intros s Hs. cbn. rewrite Hs. set_solver. }
  apply swp_releasing, swp_mono with (Q := under_lock policies now s0 lock).
  2: { intros r s [K1 K2]. destruct r; [done|..]; (split; [by apply evolves_flocks|split; [by apply evolves_flocks|by apply Hfree]]). }
  assert (W3 := ev_wf _ _ _ (lk_evolves _ _ _ L3)).
  assert (Hstep : forall f s s', plain f = true -> f <> ".daemon.lock" -> fs_wf s -> steps (touched [f]) s s' ->
    locked s0 lock s -> flocks s = {[lock]} ∪ flocks s0 -> locked s0 lock s' /\ flocks s' = {[lock]} ∪ flocks s0).
  { intros f s s' Hf Hn Hw Hs HL HF. split; [|by rewrite (proj2 Hs)].
    eapply (locked_steps [f]); [exact Hw| |by intros <-%list_elem_of_singleton|exact Hs|done]. cbn. by rewrite Hf. }
  apply swp_bind, swp_at_stage. change (RequestGuardPath c) with (runtime_file c "https-guard.lua").
  eapply wp_mono; [eapply wp_conseq; [by apply write_script_wp|]|].
  { intros s. by apply steps_runtime; [|apply L3]. }
  cbv beta. intros r s4 [S4 G4]. assert (W4 := steps_wf _ _ _ S4). destruct (Hstep "https-guard.lua" _ _ eq_refl ltac:(done) W3 S4 L3 F3) as [L4 F4].
  destruct r as [[]|er|]; [|split; [apply L4|done]..].
  apply swp_bind, swp_at_stage. eapply wp_mono; [eapply wp_conseq; [by apply write_script_wp|]|].
  { intros s. by apply steps_runtime; [|apply L4]. }
  cbv beta. intros r s5 [S5 G5]. destruct (Hstep "http-guard.lua" _ _ eq_refl ltac:(done) W4 S5 L4 F4) as [L5 F5].
  destruct r as [[]|er|]; [|split; [apply L5|done]..].
  assert (G5' : script_at s5 "https-guard.lua" (Source guard quote (cfg_Role c))).
  { eapply (script_steps ["http-guard.lua"]); [exact W4|done..| |exact S5|by apply G4]. by intros ?%list_elem_of_singleton. }
  specialize (G5 eq_refl).
  destruct (cfg_Role c =s= Workload) eqn:Hrole; bool_hyps; [by apply serve_workload_wp|].
  eapply swp_mono; [apply (serve_from_guarded policies now s0 lock None s5); by constructor|].
  intros r s (K1 & K2 & K3). split; [done|]. destruct r; [by apply K3|by rewrite K2..].
Qed.
End Served.

(** ** Which step is reported *)
(** An early return of [m] is at a stage in [P]. *)
Definition returns_at {A} (P : stage -> Prop) (m : staged A) : Prop :=
  forall w, match (m w).1 with Ok (Err (st, _)) => P st | _ => True end.
Lemma returns_at_ret {A} P (a : A) : returns_at P (sret a).
Proof. intros w. exact I. Qed.
Lemma returns_at_stage {A} (P : stage -> Prop) st (m : io A) : P st -> returns_at P (at_stage st m).
Proof. intros HP w. unfold at_stage, mbind, io_bind, try. destruct (m w) as [[a|e|] w']; cbn; auto. Qed.
Lemma returns_at_bind {A B} P (m : staged A) (f : A -> staged B) :
  returns_at P m -> (forall a, returns_at P (f a)) -> returns_at P (sbind m f).
Proof.
  intros Hm Hf w. specialize (Hm w). unfold sbind, mbind, io_bind. destruct (m w) as [[[a|[st e]|]|e|] w']; cbn in *; auto.
  apply Hf.
Qed.
Lemma returns_at_releasing {A} P lock (m : staged A) : returns_at P m -> returns_at P (releasing lock m).
Proof.
  intros Hm w. specialize (Hm w). unfold releasing, mbind, io_bind. destruct (m w) as [[[a|[st e]|]|e|] w']; cbn in *; auto.
Qed.
(** The steps that only some configurations have. *)
Definition applies (c : Config) (st : stage) : Prop :=
  match st with AtOpenCA => cfg_Role c = Workload | AtPrepareEnvoy => cfg_ProxyMode c = Standalone | _ => True end.

Section Gateway.
Context `{Signer} `{!Pki} (umask : Z) (link_target : nat -> option nat).
Context (guard : string) (quote : string -> string) (print_float : spec_float -> option string)
  (PluginName DecisionPath : string).
Context (decode_native : string -> option (option (gmap string json)))
  (decode_plugins : string -> option (gmap string json))
  (decode_envoy : string -> option (option (gmap string json)))
  (marshal : json -> option string).
Context (range_resource : gmap string string -> list (string * string))
  (range_batch : gmap string Z -> list (string * Z)).
Abbreviation start := (start_files umask link_target guard quote print_float PluginName DecisionPath decode_native
  decode_plugins decode_envoy marshal range_resource range_batch).
Abbreviation is_serving := (serving link_target guard quote print_float PluginName DecisionPath decode_native
  decode_plugins decode_envoy marshal range_resource range_batch).

(** The outcome of the start-up from a world. *)
Definition start_from (c : Config) (policies : list string) (now : Z) (e : Entropy) (w : world)
    : result (stage * io_error) files * world :=
  match start c policies now e w with
  | (Ok r, w') => (r, w')
  | (_, w') => (Panic, w')
  end.

Lemma serve_stages c policies lock ca : returns_at (applies c) (serve_files guard quote print_float PluginName DecisionPath
  decode_native decode_plugins decode_envoy marshal range_resource range_batch c policies lock ca).
Proof.
  unfold serve_files. repeat (apply returns_at_bind; [|intros ?]); try apply returns_at_ret; try by apply returns_at_stage.
  destruct (cfg_ProxyMode c =s= Standalone) eqn:E; bool_hyps; [by apply returns_at_stage|apply returns_at_ret].
Qed.
Lemma start_stages c policies now e : returns_at (applies c) (start c policies now e).
Proof.
  unfold start_files. do 3 (apply returns_at_bind; [by apply returns_at_stage|intros ?]).
  apply returns_at_releasing. do 2 (apply returns_at_bind; [by apply returns_at_stage|intros ?]).
  destruct (cfg_Role c =s= Workload) eqn:E; bool_hyps; [|apply serve_stages].
  apply returns_at_bind; [by apply returns_at_stage|intros ?]. apply returns_at_releasing, serve_stages.
Qed.
(** A run that starts the proxy had every file operation succeed. *)
Lemma started_files c policies now e w base waits evs tr err argv :
  Daemon.Run c (host_of (start_from c policies now e w).1 base) waits evs = Some (tr, err) -> StartProxy argv ∈ tr ->
  valid_config c /\ exists f, (start_from c policies now e w).1 = Ok f.
Proof.
  intros HR Hin. destruct (Run_started _ _ _ _ _ _ _ HR Hin) as (HV & [K1 K2 K3 K4 K5 K6 K7 K8 _] & [K9 _] & _).
  split; [by apply Validate_None|]. pose proof (start_stages c policies now e w) as Hs. unfold start_from in *.
  destruct (start c policies now e w) as [[[f|[st er]|]|er|] w']; cbn in *; try done; [by exists f|exfalso].
  destruct st; cbn in *; try done; [by destruct (K6 Hs)|by specialize (K9 Hs)].
Qed.
Lemma start_from_wp faulty c policies now e w : valid_config c -> fs_wf (fs_of w) -> faulty = true \/ quiet w ->
  let '(r, w') := start_from c policies now e w in
  (evolves (in_runtime c) (fs_of w) (fs_of w') /\
   match r with Ok f => is_serving c policies now (fs_of w) f (fs_of w') | _ => flocks (fs_of w') = flocks (fs_of w) end) /\
  exists new, log w' = new ++ log w /\ Forall (evolves (in_runtime c) (fs_of w)) new.
Proof.
  intros Hc Hwf Hq. pose proof (start_files_wp umask link_target guard quote print_float PluginName DecisionPath decode_native
    decode_plugins decode_envoy marshal range_resource range_batch faulty c Hc policies now e (fs_of w) Hwf w eq_refl Hq) as Hw.
  unfold start_from. destruct (start c policies now e w) as [r w']. destruct Hw as ((r' & -> & Hp) & Hlog & _). by split.
Qed.

(** ** Properties *)
(** C6: The proxy is only ever started on a complete and consistent set of files: whatever
    faults occur, a run that starts it had every file operation succeed, and then
    the private runtime directory is safe, its lock is newly held, both guards hold
    the script of the configured role, on a workload the authority in memory is the
    committed and published one and its lock is held, OPA reads its native
    configuration with at most the tracing section replaced, the policy extension is
    on exactly as that file says, and in standalone mode Envoy reads the rewritten
    bootstrap. *)
Theorem gateway_serving c policies now e w base waits evs tr err argv :
  fs_wf (fs_of w) ->
  Daemon.Run c (host_of (start_from c policies now e w).1 base) waits evs = Some (tr, err) -> StartProxy argv ∈ tr ->
  exists f, (start_from c policies now e w).1 = Ok f /\
    is_serving c policies now (fs_of w) f (fs_of (start_from c policies now e w).2).
Proof.
  intros Hwf HR Hin. destruct (started_files _ _ _ _ _ _ _ _ _ _ _ HR Hin) as (Hc & f & Hf).
  exists f. split; [done|]. pose proof (start_from_wp true c policies now e w Hc Hwf (or_introl eq_refl)) as Hw.
  destruct (start_from c policies now e w) as [r w']. cbn in *. subst r. apply Hw.
Qed.

(** The extension is on exactly when OPA's configuration file lists its plugin. *)
Lemma host_policy c path policies plugins pe params :
  Opa.configurePolicyHost PluginName DecisionPath c (runtime_params c path policies) (Ok plugins) = Ok (pe, params) ->
  pe = true <-> is_Some (plugins !! PluginName).
Proof.
  unfold Opa.configurePolicyHost. cbn [mbind result_bind]. destruct (plugins !! PluginName) eqn:E.
  - rewrite guard_err_Ok. intros [_ [= <- _]]. naive_solver.
  - intros [= <- _]. split; [done|]. by intros [? ?].
Qed.


(** C11: One daemon owns its runtime directory and its CA.  A start-up takes the lock of the
    runtime directory, and on a workload the CA's, only when nobody holds it, so it
    fails while another daemon runs; when it fails, at any step, it has given back
    what it took; and when the daemon that came up stops, the locks are those it
    found. *)
Theorem gateway_owns c policies now e w :
  valid_config c -> fs_wf (fs_of w) ->
  let '(r, w') := start_from c policies now e w in
  match r with
  | Ok f => lock_inode link_target (fs_of w') (lock_path c) = Some (fl_lock f) /\
      (forall l, l ∈ flocks (fs_of w') <->
        l = fl_lock f \/ Some l = option_map snd (fl_ca f) \/ l ∈ flocks (fs_of w)) /\
      flocks (fs_of (stop_files f w').2) = flocks (fs_of w)
  | _ => flocks (fs_of w') = flocks (fs_of w)
  end /\
  (forall l f, lock_inode link_target (fs_of w) (lock_path c) = Some l -> l ∈ flocks (fs_of w) -> r <> Ok f).
Proof.
  intros Hc Hwf. pose proof (start_from_wp true c policies now e w Hc Hwf (or_introl eq_refl)) as Hw.
  destruct (start_from c policies now e w) as [[f|er|] w']; cbn in Hw; [|by split; [apply Hw|]..].
  destruct Hw as ((_ & [_ K1 K2 K3 K4 _ _ _ _]) & _). unfold stop_files, Close, mbind, io_bind, ca_held in *. split.
  - split; [done|]. destruct (fl_ca f) as [[au k]|]; cbn; [destruct K4 as [K4 ->]|rewrite K4]; (split; [|set_solver]);
      intros l; rewrite ?elem_of_union, !elem_of_singleton; naive_solver.
  - intros l f' Hl Hin _. apply K2 in Hl as ->. done.
Qed.

(** C38: The start-up touches nothing of anybody else: at every system call and whatever fails,
    no entry outside the private runtime directory that existed is replaced or
    removed and no existing file is written in place, so the CA state, the published
    certificate and the mounted configuration stay as they are. *)
Theorem gateway_footprint c policies now e w :
  valid_config c -> fs_wf (fs_of w) ->
  let '(_, w') := start_from c policies now e w in
  exists new, log w' = new ++ log w /\ Forall (fun s => evolves (in_runtime c) (fs_of w) s /\
    forall q d, ~ in_runtime c q -> read_file q (fs_of w) = Ok (d, fs_of w) -> read_file q s = Ok (d, s)) (fs_of w' :: new).
Proof.
  intros Hc Hwf. pose proof (start_from_wp true c policies now e w Hc Hwf (or_introl eq_refl)) as Hw.
  destruct (start_from c policies now e w) as [r w']. destruct Hw as ((Hev & _) & new & El & Hf).
  exists new. split; [done|]. apply Forall_cons. assert (Hread : forall s, evolves (in_runtime c) (fs_of w) s ->
    evolves (in_runtime c) (fs_of w) s /\ forall q d, ~ in_runtime c q -> read_file q (fs_of w) = Ok (d, fs_of w) -> read_file q s = Ok (d, s)).
  { intros s Hs. split; [done|]. intros q d Hq. by apply (evolves_read (in_runtime c)). }
  split; [by apply Hread|]. eapply Forall_impl; [exact Hf|]. exact Hread.
Qed.

(** C39: Tracing inputs cannot switch the policy extension.  The host decides on the file that
    OPA will read, which with tracing inputs the daemon has written itself; the
    decision is nevertheless the one the native configuration asks for.  Hypotheses
    on the decoders: the plugin names they find depend only on the decoded document,
    the same for the native file and for what [json.Marshal] writes, and a member
    named [distributed_tracing] does not change them (no case folding turns that
    name into [plugins]). *)
Theorem gateway_policy_native c policies now s0 f s (names_of : gmap string json -> option (gset string)) :
  (forall d out, marshal (JObject d) = Some out -> option_map dom (decode_plugins out) = names_of d) ->
  (forall raw n, decode_native raw = Some n -> option_map dom (decode_plugins raw) = names_of (default ∅ n)) ->
  (forall d t, names_of (<["distributed_tracing" := t]> d) = names_of d) ->
  is_serving c policies now s0 f s -> ~ in_runtime c (OPAConfig c) ->
  exists raw plugins, read_file (OPAConfig c) s = Ok (raw, s) /\ decode_plugins raw = Some plugins /\
    (fl_policy f = true <-> is_Some (plugins !! PluginName)).
Proof.
  intros Hm Hn Ht [_ _ _ _ _ _ _ _ (Hopa & (raw & plugins & Hr & Hd & Hh) & _)] Hout.
  apply host_policy in Hh. unfold opa_prepared in Hopa. destruct (cfg_Tracing c) as [otel|].
  - destruct Hopa as [Hp (nraw & native & tracing & Hc & Hdn & _ & out & Hout2 & Hnode)].
    rewrite Hp in Hr, Hnode. specialize (Hr (or_introl eq_refl)). unfold read_file in Hr. rewrite Hnode in Hr. injection Hr as ->.
    assert (E := Hn _ _ Hdn). rewrite <- (Ht _ tracing), <- (Hm _ _ Hout2), Hd in E.
    destruct (decode_plugins nraw) as [plugins'|] eqn:Ed; [|done]. cbn in E. injection E as E.
    exists nraw, plugins'. split; [by apply Hc|]. split; [done|]. by rewrite Hh, <- !elem_of_dom, E.
  - rewrite Hopa in Hr. exists raw, plugins. auto.
Qed.
End Gateway.

(** ** Witnesses *)
(** A workload in standalone mode with tracing, whose native configuration enables
    the policy extension, started on a machine that has only the two mounted files. *)
Definition demo_config : Config := set_Tracing demo_standalone (Some demo_tracing).
Definition demo_mounted : fs :=
  {| dirents := {["/etc/gateway/opa/workload.yaml" := 0%nat; "/etc/gateway/envoy.yaml" := 1%nat]};
     durable := {["/etc/gateway/opa/workload.yaml" := 0%nat; "/etc/gateway/envoy.yaml" := 1%nat]};
     inodes := {[0%nat := Regular "policy" 420 true; 1%nat := Regular "bootstrap" 420 true]}; next := 2; flocks := ∅ |}.
Lemma demo_mounted_wf : fs_wf demo_mounted.
Proof.
  split; cbn; intros p i H; apply lookup_insert_Some in H as [[_ <-]|[_ H]]; try lia;
    apply lookup_singleton_Some in H as [_ <-]; lia.
Qed.
Definition demo_plugins (policy : bool) : gmap string json := if policy then {["policy" := JNull]} else ∅.
Definition demo_plugins_of (j : option json) : option (gmap string json) :=
  Some (demo_plugins (match j with Some (JObject m) => match m !! "policy" with Some _ => true | None => false end | _ => false end)).
Definition demo_decode_native (raw : string) : option (option (gmap string json)) :=
  Some (if raw =s= "policy" then Some {["plugins" := JObject (demo_plugins true)]} else None).
Definition demo_decode_plugins (raw : string) : option (gmap string json) := Some (demo_plugins (raw =s= "policy")).
Definition demo_marshal (j : json) : option string :=
  Some (match demo_plugins_of (fields j !! "plugins") with
        | Some m => if bool_decide (is_Some (m !! "policy")) then "policy" else "none" | None => "none" end).
Definition demo_start (w : world) : result (stage * io_error) files * world :=
  start_from 18 (fun _ => None) "guard" (fun s => s) (fun _ => Some "100") "policy" "gateway/decision"
    demo_decode_native demo_decode_plugins (fun _ => Some (Some demo_doc)) demo_marshal map_to_list map_to_list
    demo_config [] 0 demo_entropy w.
Definition demo_up : result (stage * io_error) files * world := demo_start (demo_world demo_mounted).
Definition demo_run_trace : list Daemon.action :=
  match Daemon.Run demo_config (host_of demo_up.1 Daemon.demo_host) Daemon.demo_waits Daemon.demo_events with
  | Some (tr, _) => tr | None => [] end.
Lemma demo_gateway_run : Daemon.Run demo_config (host_of demo_up.1 Daemon.demo_host) Daemon.demo_waits Daemon.demo_events =
  Some (demo_run_trace, Some "proxy lost readiness: refused").
Proof. vm_compute. reflexivity. Qed.
Definition demo_envoy_argv : list string :=
  ["/usr/local/bin/envoy"; "-c"; "/run/gateway/private/envoy.json"; "--concurrency"; "1"].
Lemma demo_run_starts : StartProxy demo_envoy_argv ∈ demo_run_trace.
Proof.
  unfold demo_run_trace. apply list_elem_of_In. vm_compute. repeat first [left; reflexivity|right].
Qed.
Lemma demo_config_valid : valid_config demo_config.
Proof. apply Validate_None. vm_compute. reflexivity. Qed.
(** A second daemon on the files of the first, while that runs; and one whose
    twentieth system call fails. *)
Definition demo_second : world := demo_world (fs_of demo_up.2).
Lemma demo_second_wf : fs_wf (fs_of demo_second).
Proof.
  pose proof (start_from_wp 18 (fun _ => None) "guard" (fun s => s) (fun _ => Some "100") "policy" "gateway/decision"
    demo_decode_native demo_decode_plugins (fun _ => Some (Some demo_doc)) demo_marshal map_to_list map_to_list true
    demo_config [] 0 demo_entropy (demo_world demo_mounted) demo_config_valid demo_mounted_wf (or_introl eq_refl)) as Hw.
  unfold demo_second, demo_up, demo_start. destruct (start_from _ _ _ _ _ _ _ _ _ _ _ _ _ _ _ _ _ _) as [r w'].
  destruct Hw as ((He & _) & _). exact (ev_wf _ _ _ He).
Qed.
Definition demo_faulty : world := faulty_world demo_mounted 20.

Abbreviation demo_serving := (serving (fun _ => None) "guard" (fun s => s) (fun _ => Some "100") "policy" "gateway/decision"
  demo_decode_native demo_decode_plugins (fun _ => Some (Some demo_doc)) demo_marshal map_to_list map_to_list).
Lemma gateway_serving_witness :
  exists f, demo_up.1 = Ok f /\ demo_serving demo_config [] 0 demo_mounted f (fs_of demo_up.2).
Proof.
  unfold demo_up, demo_start. apply (gateway_serving 18 (fun _ => None) "guard" (fun s => s) (fun _ => Some "100") "policy" "gateway/decision"
    demo_decode_native demo_decode_plugins (fun _ => Some (Some demo_doc)) demo_marshal map_to_list map_to_list
    demo_config [] 0 demo_entropy (demo_world demo_mounted) Daemon.demo_host Daemon.demo_waits Daemon.demo_events
    demo_run_trace (Some "proxy lost readiness: refused") demo_envoy_argv).
  - exact demo_mounted_wf.
  - fold (demo_start (demo_world demo_mounted)). fold demo_up. exact demo_gateway_run.
  - exact demo_run_starts.
Defined.
Lemma gateway_owns_witness :
  let '(r, w') := demo_start demo_second in
  match r with
  | Ok f => lock_inode (fun _ => None) (fs_of w') (lock_path demo_config) = Some (fl_lock f) /\
      (forall l, l ∈ flocks (fs_of w') <->
        l = fl_lock f \/ Some l = option_map snd (fl_ca f) \/ l ∈ flocks (fs_of demo_second)) /\
      flocks (fs_of (stop_files f w').2) = flocks (fs_of demo_second)
  | _ => flocks (fs_of w') = flocks (fs_of demo_second)
  end /\
  (forall l f, lock_inode (fun _ => None) (fs_of demo_second) (lock_path demo_config) = Some l ->
    l ∈ flocks (fs_of demo_second) -> r <> Ok f).
Proof.
  unfold demo_start. apply (gateway_owns 18 (fun _ => None) "guard" (fun s => s) (fun _ => Some "100") "policy" "gateway/decision"
    demo_decode_native demo_decode_plugins (fun _ => Some (Some demo_doc)) demo_marshal map_to_list map_to_list
    demo_config [] 0 demo_entropy demo_second).
  - exact demo_config_valid.
  - exact demo_second_wf.
Defined.
Lemma gateway_footprint_witness :
  let '(_, w') := demo_start demo_faulty in
  exists new, log w' = new ++ log demo_faulty /\ Forall (fun s => evolves (in_runtime demo_config) (fs_of demo_faulty) s /\
    forall q d, ~ in_runtime demo_config q -> read_file q (fs_of demo_faulty) = Ok (d, fs_of demo_faulty) ->
      read_file q s = Ok (d, s)) (fs_of w' :: new).
Proof.
  unfold demo_start. apply (gateway_footprint 18 (fun _ => None) "guard" (fun s => s) (fun _ => Some "100") "policy" "gateway/decision"
    demo_decode_native demo_decode_plugins (fun _ => Some (Some demo_doc)) demo_marshal map_to_list map_to_list
    demo_config [] 0 demo_entropy demo_faulty).
  - exact demo_config_valid.
  - exact demo_mounted_wf.
Defined.

Definition demo_names_of (d : gmap string json) : option (gset string) := option_map dom (demo_plugins_of (d !! "plugins")).
Lemma demo_marshal_names d out : demo_marshal (JObject d) = Some out ->
  option_map dom (demo_decode_plugins out) = demo_names_of d.
Proof.
  unfold demo_marshal, demo_decode_plugins, demo_names_of, demo_plugins_of. cbn [fields].
  destruct (match d !! "plugins" with Some (JObject m) => _ | _ => false end); intros [= <-]; reflexivity.
Qed.
Lemma demo_native_names raw n : demo_decode_native raw = Some n ->
  option_map dom (demo_decode_plugins raw) = demo_names_of (default ∅ n).
Proof. unfold demo_decode_native, demo_decode_plugins. destruct (raw =s= "policy"); intros [= <-]; reflexivity. Qed.
Lemma demo_names_tracing d t : demo_names_of (<["distributed_tracing" := t]> d) = demo_names_of d.
Proof. unfold demo_names_of. by rewrite lookup_insert_ne. Qed.
Definition demo_files : files := match demo_up.1 with
  | Ok f => f
  | _ => {| fl_lock := 0; fl_ca := None; fl_params := runtime_params demo_config "" []; fl_policy := false |}
  end.
Lemma demo_is_serving : demo_serving demo_config [] 0 demo_mounted demo_files (fs_of demo_up.2).
Proof.
  assert (Hok : demo_up.1 = Ok demo_files) by (vm_compute; reflexivity).
  pose proof (start_from_wp 18 (fun _ => None) "guard" (fun s => s) (fun _ => Some "100") "policy" "gateway/decision"
    demo_decode_native demo_decode_plugins (fun _ => Some (Some demo_doc)) demo_marshal map_to_list map_to_list true
    demo_config [] 0 demo_entropy (demo_world demo_mounted) demo_config_valid demo_mounted_wf (or_introl eq_refl)) as Hw.
  unfold demo_up, demo_start in Hok |- *. destruct (start_from _ _ _ _ _ _ _ _ _ _ _ _ _ _ _ _ _ _) as [r w'].
  cbn [fst snd] in *. rewrite Hok in Hw. apply Hw.
Qed.
Lemma demo_outside : ~ in_runtime demo_config (OPAConfig demo_config).
Proof. unfold in_runtime. vm_compute. discriminate. Qed.
Lemma gateway_policy_native_witness :
  exists raw plugins, read_file (OPAConfig demo_config) (fs_of demo_up.2) = Ok (raw, fs_of demo_up.2) /\
    demo_decode_plugins raw = Some plugins /\ (fl_policy demo_files = true <-> is_Some (plugins !! "policy")).
Proof.
  apply (gateway_policy_native (fun _ => None) "guard" (fun s => s) (fun _ => Some "100") "policy" "gateway/decision"
    demo_decode_native demo_decode_plugins (fun _ => Some (Some demo_doc)) demo_marshal map_to_list map_to_list
    demo_config [] 0 demo_mounted demo_files (fs_of demo_up.2) demo_names_of).
  - exact demo_marshal_names.
  - exact demo_native_names.
  - exact demo_names_tracing.
  - exact demo_is_serving.
  - exact demo_outside.
Defined.
