(* ===== verification/Enrollment.v ===== *)
(** [enrollment/compose.go] and the embedded [enrollment/managed.json]: the
    composition of a business Pod with the Gateway's components.  Kubernetes types
    are records of the fields the code reads or writes; everything else of an
    object is its [rest], which no definition here can change.  The networking
    module's [ExpandPolicy] and [ExpandPod], the kubelet's expansion of variables and
    the environment of the base image are parameters. *)
From S2P Require Import Prelude GoStrings GoPath Tracing Config Json.

(** ** Kubernetes objects *)
Record EnvVar := { e_Name : string; e_Value : string; e_ValueFrom : option json }.
Record VolumeMount := { vm_Name : string; vm_MountPath : string; vm_SubPath : string; vm_ReadOnly : bool; vm_rest : json }.
Record VolumeDevice := { vd_Name : string; vd_rest : json }.
Record SecurityContext := { sc_RunAsUser : option Z; sc_RunAsGroup : option Z; sc_rest : json }.
Record Container := {
  c_Name : string; c_Image : string; c_ImagePullPolicy : string;
  c_Command : list string; c_Args : list string; c_Env : list EnvVar;
  c_VolumeMounts : list VolumeMount; c_VolumeDevices : list VolumeDevice;
  c_SecurityContext : option SecurityContext;
  c_RestartPolicy : option string; c_StartupProbe : option json; c_rest : json }.
Record Projection := { pj_ServiceAccountToken : option json; pj_rest : json }.
Record Volume := { v_Name : string; v_Projected : option (list Projection); v_ConfigMap : option string; v_rest : json }.
Record PodSecurityContext := {
  ps_RunAsUser : option Z; ps_RunAsGroup : option Z; ps_FSGroup : option Z; ps_SupplementalGroups : list Z; ps_rest : json }.
Record PodSpec := {
  s_AutomountServiceAccountToken : option bool; s_Volumes : list Volume;
  s_InitContainers : list Container; s_Containers : list Container;
  s_SecurityContext : option PodSecurityContext; s_rest : json }.
Record Pod := {
  p_Name : string; p_Namespace : string; p_Labels : gmap string string; p_Annotations : gmap string string;
  p_Spec : PodSpec; p_rest : json }.

(** Assignments to fields of a container. *)
Definition set_image (i p : string) (c : Container) : Container := {|
  c_Name := c_Name c; c_Image := i; c_ImagePullPolicy := p; c_Command := c_Command c; c_Args := c_Args c;
  c_Env := c_Env c; c_VolumeMounts := c_VolumeMounts c; c_VolumeDevices := c_VolumeDevices c;
  c_SecurityContext := c_SecurityContext c; c_RestartPolicy := c_RestartPolicy c; c_StartupProbe := c_StartupProbe c;
  c_rest := c_rest c |}.
Definition set_command (v : list string) (c : Container) : Container := {|
  c_Name := c_Name c; c_Image := c_Image c; c_ImagePullPolicy := c_ImagePullPolicy c; c_Command := v; c_Args := c_Args c;
  c_Env := c_Env c; c_VolumeMounts := c_VolumeMounts c; c_VolumeDevices := c_VolumeDevices c;
  c_SecurityContext := c_SecurityContext c; c_RestartPolicy := c_RestartPolicy c; c_StartupProbe := c_StartupProbe c;
  c_rest := c_rest c |}.
Definition set_args (v : list string) (c : Container) : Container := {|
  c_Name := c_Name c; c_Image := c_Image c; c_ImagePullPolicy := c_ImagePullPolicy c; c_Command := c_Command c; c_Args := v;
  c_Env := c_Env c; c_VolumeMounts := c_VolumeMounts c; c_VolumeDevices := c_VolumeDevices c;
  c_SecurityContext := c_SecurityContext c; c_RestartPolicy := c_RestartPolicy c; c_StartupProbe := c_StartupProbe c;
  c_rest := c_rest c |}.
Definition set_env (v : list EnvVar) (c : Container) : Container := {|
  c_Name := c_Name c; c_Image := c_Image c; c_ImagePullPolicy := c_ImagePullPolicy c; c_Command := c_Command c; c_Args := c_Args c;
  c_Env := v; c_VolumeMounts := c_VolumeMounts c; c_VolumeDevices := c_VolumeDevices c;
  c_SecurityContext := c_SecurityContext c; c_RestartPolicy := c_RestartPolicy c; c_StartupProbe := c_StartupProbe c;
  c_rest := c_rest c |}.
Definition add_mount (m : VolumeMount) (c : Container) : Container := {|
  c_Name := c_Name c; c_Image := c_Image c; c_ImagePullPolicy := c_ImagePullPolicy c; c_Command := c_Command c; c_Args := c_Args c;
  c_Env := c_Env c; c_VolumeMounts := c_VolumeMounts c ++ [m]; c_VolumeDevices := c_VolumeDevices c;
  c_SecurityContext := c_SecurityContext c; c_RestartPolicy := c_RestartPolicy c; c_StartupProbe := c_StartupProbe c;
  c_rest := c_rest c |}.
Definition as_regular (c : Container) : Container := {|
  c_Name := c_Name c; c_Image := c_Image c; c_ImagePullPolicy := c_ImagePullPolicy c; c_Command := c_Command c; c_Args := c_Args c;
  c_Env := c_Env c; c_VolumeMounts := c_VolumeMounts c; c_VolumeDevices := c_VolumeDevices c;
  c_SecurityContext := c_SecurityContext c; c_RestartPolicy := None; c_StartupProbe := None;
  c_rest := c_rest c |}.

(** ** [managed.json] *)
Definition managed_mount (n p : string) (ro : bool) : VolumeMount :=
  {| vm_Name := n; vm_MountPath := p; vm_SubPath := ""; vm_ReadOnly := ro; vm_rest := JNull |}.
Definition strings (l : list string) : json := JArray (map JString l).
Definition managed_security (uid : Z) (nonroot : bool) (add : list string) : option SecurityContext :=
  Some {| sc_RunAsUser := Some uid; sc_RunAsGroup := Some uid;
          sc_rest := object [("allowPrivilegeEscalation", JBool false);
            ("capabilities", object (match add with [] => [] | _ => [("add", strings add)] end ++ [("drop", strings ["ALL"])]));
            ("runAsNonRoot", JBool nonroot)] |}.
Definition managed_container (n : string) (cmd : list string) (mounts : list VolumeMount) (sc : option SecurityContext) : Container := {|
  c_Name := n; c_Image := ""; c_ImagePullPolicy := ""; c_Command := cmd; c_Args := []; c_Env := [];
  c_VolumeMounts := mounts; c_VolumeDevices := []; c_SecurityContext := sc; c_RestartPolicy := None;
  c_StartupProbe := None; c_rest := JNull |}.
Definition ready_probe (l : list (string * json)) : json :=
  object (("exec", object [("command", strings ["/usr/local/bin/gateway-daemon"; "ready"])]) ::
          ("periodSeconds", JNumber "2") :: ("timeoutSeconds", JNumber "4") :: l).
Definition prepare_volumes : Container :=
  managed_container "prepare-volumes"
    ["/bin/bash"; "-ec"; "chown 1337:1337 /state /runtime /public /bundle /istio /workload-socket /credential-socket /workload-certs; chmod 0700 /state /runtime /workload-socket /credential-socket /workload-certs; chmod 0755 /public /bundle /istio"]
    [managed_mount "state" "/state" false; managed_mount "runtime" "/runtime" false; managed_mount "public" "/public" false;
     managed_mount "bundle" "/bundle" false; managed_mount "istio-data" "/istio" false;
     managed_mount "workload-socket" "/workload-socket" false; managed_mount "credential-socket" "/credential-socket" false;
     managed_mount "workload-certs" "/workload-certs" false]
    (managed_security 0 false ["CHOWN"; "FOWNER"; "DAC_OVERRIDE"]).
Definition management_init : Container :=
  managed_container "management-init" ["/usr/local/bin/gateway-management-init"] []
    (managed_security 0 false ["NET_ADMIN"; "NET_RAW"]).
Definition istio_proxy : Container := {|
  c_Name := "istio-proxy"; c_Image := ""; c_ImagePullPolicy := ""; c_Command := []; c_Args := []; c_Env := [];
  c_VolumeMounts :=
    [managed_mount "state" "/var/lib/gateway/private" false; managed_mount "runtime" "/run/gateway/private" false;
     managed_mount "public" "/run/gateway/trust" false; managed_mount "istio-data" "/etc/istio/proxy" false;
     managed_mount "workload-socket" "/var/run/secrets/workload-spiffe-uds" false;
     managed_mount "credential-socket" "/var/run/secrets/credential-uds" false;
     managed_mount "workload-certs" "/var/run/secrets/workload-spiffe-credentials" false;
     managed_mount "istio-token" "/var/run/secrets/tokens" true; managed_mount "istio-ca" "/var/run/secrets/istio" true];
  c_VolumeDevices := []; c_SecurityContext := managed_security 1337 true [];
  c_RestartPolicy := Some "Always"; c_StartupProbe := Some (ready_probe [("failureThreshold", JNumber "60")]);
  c_rest := object [("readinessProbe", ready_probe []);
    ("resources", object [("limits", object [("memory", JString "512Mi")]);
                          ("requests", object [("cpu", JString "100m"); ("memory", JString "128Mi")])])] |}.
Definition base_trust : Container :=
  managed_container "base-trust" ["/bin/cp"; "/cacert.pem"; "/bundle/base.pem"] [managed_mount "bundle" "/bundle" false]
    (managed_security 1337 true []).
Definition trust_init : Container :=
  managed_container "trust-init"
    ["/usr/local/bin/gateway-daemon"; "trust-init"; "--base"; "/bundle/base.pem"; "--ca"; "/public/inspection-ca.pem"; "--output"; "/bundle/ca-bundle.pem"]
    [managed_mount "bundle" "/bundle" false; managed_mount "public" "/public" true]
    (managed_security 1337 true []).
Definition empty_dir (n : string) : Volume :=
  {| v_Name := n; v_Projected := None; v_ConfigMap := None; v_rest := object [("emptyDir", object [])] |}.
Definition config_map (n m : string) : Volume :=
  {| v_Name := n; v_Projected := None; v_ConfigMap := Some m; v_rest := JNull |}.
Definition istio_token : Volume := {|
  v_Name := "istio-token"; v_ConfigMap := None; v_rest := JNull;
  v_Projected := Some [{| pj_ServiceAccountToken := Some (object [("audience", JString "istio-ca");
    ("expirationSeconds", JNumber "43200"); ("path", JString "istio-token")]); pj_rest := JNull |}] |}.
Definition managed : PodSpec := {|
  s_AutomountServiceAccountToken := None; s_SecurityContext := None; s_Containers := []; s_rest := JNull;
  s_InitContainers := [prepare_volumes; management_init; istio_proxy; base_trust; trust_init];
  s_Volumes := map empty_dir ["state"; "runtime"; "public"; "bundle"; "istio-data"; "workload-socket"; "credential-socket"; "workload-certs"]
               ++ [config_map "istio-ca" "istio-ca-root-cert"; istio_token] |}.

(** ** [Options] and errors *)
Inductive compose_error (N : Type) :=
| NoBusinessPod | UnsupportedRole (r : string) | MissingInputs | MissingTrust
| OwnedLabel | OwnedAnnotation | TokenAutomount | OwnedVolume (n : string) | TokenProjection (n : string)
| PodIdentity | OwnedContainer (n : string) | ContainerIdentity (n : string) | OwnedMount (n : string) | OwnedDevice (n : string)
| EnvOverride (n : string) | BadTrustMount (n : string) | TrustContainerMissing (n : string) | TrustMountCollision (n : string)
| Networking (e : N).
Arguments NoBusinessPod {N}. Arguments UnsupportedRole {N}. Arguments MissingInputs {N}. Arguments MissingTrust {N}.
Arguments OwnedLabel {N}. Arguments OwnedAnnotation {N}. Arguments TokenAutomount {N}. Arguments OwnedVolume {N}.
Arguments TokenProjection {N}. Arguments PodIdentity {N}. Arguments OwnedContainer {N}. Arguments ContainerIdentity {N}.
Arguments OwnedMount {N}. Arguments OwnedDevice {N}. Arguments EnvOverride {N}. Arguments BadTrustMount {N}.
Arguments TrustContainerMissing {N}. Arguments TrustMountCollision {N}. Arguments Networking {N}.

(** [TrustMounts] lists the entries of the Go map in the order in which the range
    loop visits them, which Go leaves open. *)
Record Options (Network : Type) := {
  o_Role : Role; o_Image : string; o_ImagePullPolicy : string; o_TrustImage : string; o_TrustPath : string;
  o_TrustMounts : list (string * string); o_DiscoveryAddress : string; o_ProxyConfig : string;
  o_ProxyEnv : list EnvVar; o_OriginTrustConfigMap : string; o_PolicyConfigMap : string; o_Network : Network }.
Arguments o_Role {Network}. Arguments o_Image {Network}. Arguments o_ImagePullPolicy {Network}. Arguments o_TrustImage {Network}.
Arguments o_TrustPath {Network}. Arguments o_TrustMounts {Network}. Arguments o_DiscoveryAddress {Network}.
Arguments o_ProxyConfig {Network}. Arguments o_ProxyEnv {Network}. Arguments o_OriginTrustConfigMap {Network}.
Arguments o_PolicyConfigMap {Network}. Arguments o_Network {Network}.
Record TrustedSpec := { t_Volumes : list Volume; t_InitContainers : list Container; t_Containers : list Container;
                        t_NetworkInitContainers : list string }.

Section Compose.
(** The networking module. *)
Context {Network Policy NetError : Type}
        (ExpandPolicy : Network -> result NetError Policy)
        (ExpandPod : Pod -> Network -> TrustedSpec -> result NetError Pod).
#[local] Abbreviation error := (compose_error NetError).
Implicit Types o : Options Network.

Definition cleanPath (p : string) : bool := has_prefix p "/" && negb (p =s= "/") && (clean p =s= p).
Definition reservedID (v : option Z) : bool := match v with Some z => z =? 1337 | None => false end.
Definition mem (n : string) (l : list string) : bool := existsb (String.eqb n) l.

(** *** [protectBusiness] *)
Definition check_volume (reserved : list string) (_ : unit) (v : Volume) : result error unit :=
  if mem (v_Name v) reserved then Err (OwnedVolume (v_Name v))
  else if existsb (fun s => match pj_ServiceAccountToken s with Some _ => true | None => false end) (default [] (v_Projected v))
  then Err (TokenProjection (v_Name v)) else Ok tt.
Definition check_container (reserved names : list string) (_ : unit) (c : Container) : result error unit :=
  if mem (c_Name c) names then Err (OwnedContainer (c_Name c))
  else if match c_SecurityContext c with
          | Some s => reservedID (sc_RunAsUser s) || reservedID (sc_RunAsGroup s) | None => false end
  then Err (ContainerIdentity (c_Name c))
  else match find (fun m => mem (vm_Name m) reserved) (c_VolumeMounts c) with
       | Some m => Err (OwnedMount (vm_Name m))
       | None => match find (fun d => mem (vd_Name d) reserved) (c_VolumeDevices c) with
                 | Some d => Err (OwnedDevice (vd_Name d))
                 | None => Ok tt
                 end
       end.
Definition pod_identity (s : option PodSecurityContext) : bool :=
  match s with
  | Some ps => reservedID (ps_RunAsUser ps) || reservedID (ps_RunAsGroup ps) || reservedID (ps_FSGroup ps)
               || existsb (Z.eqb 1337) (ps_SupplementalGroups ps)
  | None => false
  end.
Definition istio_key (kv : string * string) : bool := contains_str kv.1 "istio.io/".
Definition reserved_volumes (managed : PodSpec) : list string :=
  "origin-trust" :: "gateway-policy" :: map v_Name (s_Volumes managed).
Definition protectBusiness (p : Pod) (managed : PodSpec) : result error unit :=
  let reserved := reserved_volumes managed in
  let names := map c_Name (s_InitContainers managed) in
  if existsb istio_key (map_to_list (p_Labels p)) then Err OwnedLabel
  else if existsb istio_key (map_to_list (p_Annotations p)) then Err OwnedAnnotation
  else if default false (s_AutomountServiceAccountToken (p_Spec p)) then Err TokenAutomount
  else
    _ ← for_each (check_volume reserved) tt (s_Volumes (p_Spec p));
    if pod_identity (s_SecurityContext (p_Spec p)) then Err PodIdentity
    else
      _ ← for_each (check_container reserved names) tt (s_InitContainers (p_Spec p));
      for_each (check_container reserved names) tt (s_Containers (p_Spec p)).

(** *** [proxyEnv] *)
Definition plain (n v : string) : EnvVar := {| e_Name := n; e_Value := v; e_ValueFrom := None |}.
Definition field_ref (n path : string) : EnvVar :=
  {| e_Name := n; e_Value := ""; e_ValueFrom := Some (object [("fieldRef", object [("fieldPath", JString path)])]) |}.
Definition proxyEnv o : list EnvVar :=
  let intercept := if o_Role o =s= Egress then "NONE" else "REDIRECT" in
  [plain EnvRole (o_Role o); plain EnvProxyMode Istio;
   plain "ISTIO_META_WORKLOAD_NAME" (o_Role o); plain "CA_ADDR" (o_DiscoveryAddress o); plain "JWT_POLICY" "third-party-jwt";
   plain "PILOT_CERT_PROVIDER" "istiod"; plain "ISTIO_META_CLUSTER_ID" "Kubernetes"; plain "ISTIO_META_MESH_ID" "cluster.local";
   plain "TRUST_DOMAIN" "cluster.local"; plain "ISTIO_META_INTERCEPTION_MODE" intercept; plain "PROXY_CONFIG" (o_ProxyConfig o)]
  ++ [field_ref "POD_NAME" "metadata.name"; field_ref "POD_NAMESPACE" "metadata.namespace"; field_ref "INSTANCE_IP" "status.podIP";
      field_ref "SERVICE_ACCOUNT" "spec.serviceAccountName"].
(** One turn of the loop over [o.ProxyEnv]; the names of the list so far are [seen]. *)
Definition add_env (env : list EnvVar) (e : EnvVar) : result error (list EnvVar) :=
  if mem (e_Name e) (map e_Name env) || has_prefix (e_Name e) "GATEWAY_" || (e_Name e =s= "OPA_CONFIG") || (e_Name e =s= "ENVOY_CONFIG")
  then Err (EnvOverride (e_Name e)) else Ok (env ++ [e]).

(** *** The managed containers *)
Definition trust_container (n : string) : bool := (n =s= "base-trust") || (n =s= "trust-init").
Definition mount_config (cond : bool) (name path cm : string) (ct : Container * list Volume) : Container * list Volume :=
  if cond then (add_mount (managed_mount name path true) ct.1, ct.2 ++ [config_map name cm]) else ct.
Definition with_volumes (t : TrustedSpec) (v : list Volume) (inits regular : list Container) : TrustedSpec :=
  {| t_Volumes := v; t_InitContainers := t_InitContainers t ++ inits; t_Containers := t_Containers t ++ regular;
     t_NetworkInitContainers := t_NetworkInitContainers t |}.
Definition proxy_container o (t : TrustedSpec) (c : Container) : result error TrustedSpec :=
  let policy := negb (o_PolicyConfigMap o =s= "") in
  let c := if policy then set_args ["--policy"; "/etc/gateway/policy/policy.rego"] c else c in
  let '(c, vols) := mount_config policy "gateway-policy" "/etc/gateway/policy" (o_PolicyConfigMap o) (c, t_Volumes t) in
  env ← for_each add_env (proxyEnv o) (o_ProxyEnv o);
  let '(c, vols) := mount_config (negb (o_OriginTrustConfigMap o =s= "")) "origin-trust" "/etc/gateway/origin" (o_OriginTrustConfigMap o) (set_env env c, vols) in
  if o_Role o =s= Egress then Ok (with_volumes t vols [] [as_regular c]) else Ok (with_volumes t vols [c] []).
Definition managed_item o (t : TrustedSpec) (c : Container) : result error TrustedSpec :=
  let c := set_image (o_Image o) (if o_ImagePullPolicy o =s= "" then "IfNotPresent" else o_ImagePullPolicy o) c in
  c ← (if c_Name c =s= "base-trust" then
         match c_Command c with
         | x :: _ :: r => Ok (set_command (x :: o_TrustPath o :: r) (set_image (o_TrustImage o) (c_ImagePullPolicy c) c))
         | _ => Panic
         end
       else Ok c);
  if (o_Role o =s= Egress) && trust_container (c_Name c) then Ok t
  else if c_Name c =s= "istio-proxy" then proxy_container o t c
  else Ok (with_volumes t (t_Volumes t) [c] []).

(** *** [TrustMounts] *)
Fixpoint update_first (f : Container -> bool) (g : Container -> result error Container) (l : list Container) : option (result error (list Container)) :=
  match l with
  | [] => None
  | c :: l => if f c then Some (c ← g c; Ok (c :: l))
              else option_map (fun r => l ← r; Ok (c :: l)) (update_first f g l)
  end.
Definition bundle_mount (path : string) : VolumeMount :=
  {| vm_Name := "bundle"; vm_MountPath := path; vm_SubPath := BundleFile; vm_ReadOnly := true; vm_rest := JNull |}.
Definition trust_mount o (cs : list Container) (nm : string * string) : result error (list Container) :=
  let '(name, mount) := nm in
  if negb (o_Role o =s= Workload) || negb (cleanPath mount) then Err (BadTrustMount name)
  else match update_first (fun c => c_Name c =s= name)
               (fun c => if existsb (fun m => vm_MountPath m =s= mount) (c_VolumeMounts c) then Err (TrustMountCollision name)
                         else Ok (add_mount (bundle_mount mount) c)) cs with
       | None => Err (TrustContainerMissing name)
       | Some r => r
       end.

(** *** [ComposePod] *)
Definition quoted (s : string) : string := String "034"%char (s +:+ String "034"%char EmptyString).
Definition sidecar_status : string :=
  "{" +:+ quoted "initContainers" +:+ ":[" +:+ quoted "istio-proxy" +:+ "]," +:+ quoted "containers" +:+ ":[],"
  +:+ quoted "volumes" +:+ ":[]," +:+ quoted "imagePullSecrets" +:+ ":[]," +:+ quoted "revision" +:+ ":" +:+ quoted "default" +:+ "}".
Definition annotate o (a : gmap string string) : gmap string string :=
  let a := <["sidecar.istio.io/inject" := "false"]> a in
  if o_Role o =s= Workload then
    <["traffic.sidecar.istio.io/includeOutboundIPRanges" := "*"]>
    (<["traffic.sidecar.istio.io/includeInboundPorts" := ""]>
    (<["sidecar.istio.io/status" := sidecar_status]>
    (delete "sidecar.istio.io/inject" a)))
  else a.
(** What is handed to the networking module. *)
Definition compose_local o (business : Pod) : result error (Pod * TrustedSpec) :=
  _ ← protectBusiness business managed;
  let spec := p_Spec business in
  t ← for_each (managed_item o) {| t_Volumes := s_Volumes managed; t_InitContainers := []; t_Containers := [];
                                   t_NetworkInitContainers := ["management-init"] |} (s_InitContainers managed);
  cs ← for_each (trust_mount o) (s_Containers spec) (o_TrustMounts o);
  Ok ({| p_Name := p_Name business; p_Namespace := p_Namespace business;
         p_Labels := p_Labels business; p_Annotations := annotate o (p_Annotations business); p_rest := p_rest business;
         p_Spec := {| s_AutomountServiceAccountToken := Some false;
                      s_Volumes := s_Volumes spec ++ t_Volumes t;
                      s_InitContainers := t_InitContainers t ++ s_InitContainers spec;
                      s_Containers := cs ++ t_Containers t;
                      s_SecurityContext := s_SecurityContext spec; s_rest := s_rest spec |} |}, t).
Definition networking {A} (r : result NetError A) : result error A :=
  match r with Ok a => Ok a | Err e => Err (Networking e) | Panic => Panic end.
Definition ComposePod (business : option Pod) o : result error (Pod * Policy) :=
  match business with
  | None => Err NoBusinessPod
  | Some business =>
      if negb (o_Role o =s= Workload) && negb (o_Role o =s= Egress) then Err (UnsupportedRole (o_Role o))
      else if (o_Image o =s= "") || (o_DiscoveryAddress o =s= "") || (o_ProxyConfig o =s= "") then Err MissingInputs
      else if (o_Role o =s= Workload) && ((o_TrustImage o =s= "") || negb (cleanPath (o_TrustPath o))) then Err MissingTrust
      else
        '(p, trusted) ← compose_local o business;
        policy ← networking (ExpandPolicy (o_Network o));
        p ← networking (ExpandPod p (o_Network o) trusted);
        Ok (p, policy)
  end.
End Compose.

(** ** What an accepted business Pod is *)
Lemma mem_spec n l : mem n l = true <-> n ∈ l.
Proof.
  unfold mem. rewrite existsb_exists. setoid_rewrite String.eqb_eq.
  rewrite list_elem_of_In. naive_solver.
Qed.
Lemma mem_false n l : mem n l = false <-> n ∉ l.
Proof. rewrite <- not_true_iff_false. by rewrite mem_spec. Qed.
Lemma find_None {A} (f : A -> bool) l : find f l = None <-> Forall (fun x => f x = false) l.
Proof.
  induction l as [|x l IH]; cbn; [by rewrite Forall_nil|].
  rewrite Forall_cons, <- IH. destruct (f x); naive_solver.
Qed.
Lemma existsb_false {A} (f : A -> bool) l : existsb f l = false <-> Forall (fun x => f x = false) l.
Proof. induction l as [|x l IH]; cbn; [by rewrite Forall_nil|]. by rewrite Forall_cons, <- IH, orb_false_iff. Qed.
Lemma for_each_unit {E A} (f : unit -> A -> result E unit) l :
  for_each f tt l = Ok tt <-> Forall (fun x => f tt x = Ok tt) l.
Proof.
  induction l as [|x l IH]; cbn; [by rewrite Forall_nil|].
  rewrite Forall_cons, <- IH. destruct (f tt x) as [[]| |]; naive_solver.
Qed.
(** Go maps: the range loop visits the entries in any order, which does not matter
    to a success when the turns for two different keys commute. *)
Lemma for_each_perm {E A S K} (f : S -> A -> result E S) (key : A -> K) :
  (forall x y s s1 s2, key x <> key y -> f s x = Ok s1 -> f s1 y = Ok s2 ->
     exists s1', f s y = Ok s1' /\ f s1' x = Ok s2) ->
  forall l l', l ≡ₚ l' -> NoDup (map key l) -> forall s s', for_each f s l = Ok s' -> for_each f s l' = Ok s'.
Proof.
  intros Hf l l' HP. induction HP as [|x l l' HP IH|x y l|l l1 l2 HP1 IH1 HP2 IH2]; intros Hn s s' H; cbn in *; [done| | |].
  - destruct (f s x) as [s1| |]; [|done..]. apply NoDup_cons in Hn as [_ Hn]. eauto.
  - destruct (f s y) as [s1| |] eqn:Hy; [|done..]. destruct (f s1 x) as [s2| |] eqn:Hx; [|done..].
    apply NoDup_cons in Hn as [Hn _]. destruct (Hf y x s s1 s2) as (s1' & -> & ->); auto.
    intros He. apply Hn. rewrite He. by left.
  - apply IH2; [|by apply IH1]. by rewrite <- HP1.
Qed.

Definition gateway_volumes : list string := reserved_volumes managed.
Definition gateway_names : list string := map c_Name (s_InitContainers managed).
Definition other_id (v : option Z) : Prop := v <> Some 1337.
(** A container that touches nothing of the Gateway's. *)
Record foreign_container (c : Container) : Prop := {
  fc_name : c_Name c ∉ gateway_names;
  fc_ids : forall s, c_SecurityContext c = Some s -> other_id (sc_RunAsUser s) /\ other_id (sc_RunAsGroup s);
  fc_mounts : Forall (fun m => vm_Name m ∉ gateway_volumes) (c_VolumeMounts c);
  fc_devices : Forall (fun d => vd_Name d ∉ gateway_volumes) (c_VolumeDevices c);
}.
Record foreign_volume (v : Volume) : Prop := {
  fv_name : v_Name v ∉ gateway_volumes;
  fv_token : forall l s, v_Projected v = Some l -> s ∈ l -> pj_ServiceAccountToken s = None;
}.
Record foreign_pod (p : Pod) : Prop := {
  fp_labels : forall k v, p_Labels p !! k = Some v -> contains_str k "istio.io/" = false;
  fp_annotations : forall k v, p_Annotations p !! k = Some v -> contains_str k "istio.io/" = false;
  fp_token : s_AutomountServiceAccountToken (p_Spec p) <> Some true;
  fp_volumes : Forall foreign_volume (s_Volumes (p_Spec p));
  fp_ids : forall s, s_SecurityContext (p_Spec p) = Some s ->
    other_id (ps_RunAsUser s) /\ other_id (ps_RunAsGroup s) /\ other_id (ps_FSGroup s) /\ 1337 ∉ ps_SupplementalGroups s;
  fp_containers : Forall foreign_container (s_InitContainers (p_Spec p) ++ s_Containers (p_Spec p));
}.

Lemma reservedID_false v : reservedID v = false <-> other_id v.
Proof. unfold other_id. destruct v as [z|]; cbn; [rewrite Z.eqb_neq|]; naive_solver. Qed.
Lemma check_volume_Ok {N} v : check_volume (NetError := N) gateway_volumes tt v = Ok tt <-> foreign_volume v.
Proof.
  unfold check_volume. destruct (mem _ _) eqn:Hm.
  - split; [done|]. intros [Hn _]. by apply mem_spec in Hm.
  - apply mem_false in Hm. destruct (existsb _ _) eqn:He.
    + split; [done|]. intros [_ Ht]. apply existsb_exists in He as (s & Hs & Hx).
      destruct (v_Projected v) as [l|]; [|done]. cbn in Hs. rewrite <- list_elem_of_In in Hs.
      by rewrite (Ht l s) in Hx.
    + split; [|done]. intros _. split; [done|]. intros l s Hl Hs. rewrite Hl in He. cbn in He.
      apply existsb_false in He. rewrite list.Forall_forall in He. specialize (He s Hs).
      by destruct (pj_ServiceAccountToken s).
Qed.
Lemma check_container_Ok {N} c :
  check_container (NetError := N) gateway_volumes gateway_names tt c = Ok tt <-> foreign_container c.
Proof.
  unfold check_container. destruct (mem _ _) eqn:Hm.
  { split; [done|]. intros [Hn _ _ _]. by apply mem_spec in Hm. }
  apply mem_false in Hm.
  destruct (match c_SecurityContext c with Some s => _ | None => _ end) eqn:Hs.
  { split; [done|]. intros [_ Hi _ _]. destruct (c_SecurityContext c) as [s|]; [|done].
    destruct (Hi s eq_refl) as [?%reservedID_false ?%reservedID_false]. by destruct (reservedID _), (reservedID _). }
  destruct (find (fun m => mem (vm_Name m) _) _) as [m|] eqn:Hf.
  { split; [done|]. intros [_ _ H _]. apply find_some in Hf as [Hin Hr]. apply mem_spec in Hr.
    rewrite list.Forall_forall in H. rewrite <- list_elem_of_In in Hin. by destruct (H m Hin). }
  destruct (find (fun d => mem (vd_Name d) _) _) as [d|] eqn:Hd.
  { split; [done|]. intros [_ _ _ H]. apply find_some in Hd as [Hin Hr]. apply mem_spec in Hr.
    rewrite list.Forall_forall in H. rewrite <- list_elem_of_In in Hin. by destruct (H d Hin). }
  apply find_None in Hf, Hd. split; [|done]. intros _. constructor; [done| | |].
  - intros s Es. rewrite Es, orb_false_iff, !reservedID_false in Hs. done.
  - eapply Forall_impl; [exact Hf|]. intros m Hm'. by apply mem_false.
  - eapply Forall_impl; [exact Hd|]. intros m Hm'. by apply mem_false.
Qed.
Lemma istio_keys_false (m : gmap string string) :
  existsb istio_key (map_to_list m) = false <-> forall k v, m !! k = Some v -> contains_str k "istio.io/" = false.
Proof.
  rewrite existsb_false, list.Forall_forall. split.
  - intros H k v Hk. by apply (H (k, v)), elem_of_map_to_list.
  - intros H [k v] Hk%elem_of_map_to_list. by apply (H k v).
Qed.
Lemma pod_identity_false s :
  pod_identity s = false <-> forall ps, s = Some ps ->
    other_id (ps_RunAsUser ps) /\ other_id (ps_RunAsGroup ps) /\ other_id (ps_FSGroup ps) /\ 1337 ∉ ps_SupplementalGroups ps.
Proof.
  destruct s as [ps|]; cbn; [|by split; [intros|]]. rewrite !orb_false_iff, !reservedID_false, existsb_false.
  rewrite list.Forall_forall. setoid_rewrite Z.eqb_neq. naive_solver.
Qed.
Lemma protectBusiness_Ok {N} p : protectBusiness (NetError := N) p managed = Ok tt <-> foreign_pod p.
Proof.
  unfold protectBusiness. fold gateway_volumes gateway_names.
  destruct (existsb istio_key (map_to_list (p_Labels p))) eqn:Hl.
  { split; [done|]. intros [H _ _ _ _ _]. apply istio_keys_false in H. congruence. }
  destruct (existsb istio_key (map_to_list (p_Annotations p))) eqn:Ha.
  { split; [done|]. intros [_ H _ _ _ _]. apply istio_keys_false in H. congruence. }
  rewrite istio_keys_false in Hl, Ha.
  destruct (default false _) eqn:Ht.
  { split; [done|]. intros [_ _ H _ _ _]. by destruct (s_AutomountServiceAccountToken (p_Spec p)) as [[]|]. }
  rewrite bind_Ok. split.
  - intros ([] & Hv & H). apply for_each_unit in Hv.
    destruct (pod_identity _) eqn:Hi; [done|]. apply bind_Ok in H as ([] & H1 & H2).
    rewrite for_each_unit in H1, H2. constructor; auto.
    + by destruct (s_AutomountServiceAccountToken (p_Spec p)) as [[]|].
    + eapply Forall_impl; [exact Hv|]. by intros v Hx%check_volume_Ok.
    + by apply pod_identity_false.
    + apply Forall_app; split; (eapply Forall_impl; [eassumption|]); by intros c Hx%check_container_Ok.
  - intros [_ _ _ Hv Hi [H1 H2]%Forall_app]. exists tt. rewrite for_each_unit. split.
    + eapply Forall_impl; [exact Hv|]. intros v Hx; by apply check_volume_Ok.
    + rewrite (proj2 (pod_identity_false _) Hi). apply bind_Ok. exists tt. rewrite !for_each_unit.
      split; (eapply Forall_impl; [eassumption|]); intros c Hx; by apply check_container_Ok.
Qed.

(** ** Trust mounts *)
Section TrustMounts.
Context {N : Type}.
Local Abbreviation err := (compose_error N).

Lemma update_first_Ok f (g : Container -> result err Container) l l' :
  update_first f g l = Some (Ok l') <->
  exists l1 c c' l2, l = l1 ++ c :: l2 /\ Forall (fun c => f c = false) l1 /\ f c = true /\ g c = Ok c' /\ l' = l1 ++ c' :: l2.
Proof.
  revert l'. induction l as [|c l IH]; intros l'; cbn.
  - split; [done|]. by intros ([|] & ? & ? & ? & ? & _).
  - destruct (f c) eqn:Hc.
    + split.
      * intros [= H]. apply bind_Ok in H as (c' & Hg & [= <-]). exists [], c, c', l. repeat split; auto.
      * intros ([|x l1] & d & c' & l2 & Heq & H1 & H2 & Hg & ->); cbn in Heq; simplify_eq; cbn; [by rewrite Hg|].
        rewrite Forall_cons in H1. destruct H1 as [H1 _]. congruence.
    + split.
      * intros H. destruct (update_first f g l) as [r|]; [|done]. cbn in H. injection H as H.
        apply bind_Ok in H as (m & -> & [= <-]). destruct (proj1 (IH m) eq_refl) as (l1 & d & c' & l2 & -> & H1 & H2 & Hg & ->).
        exists (c :: l1), d, c', l2. rewrite Forall_cons. auto.
      * intros ([|x l1] & d & c' & l2 & Heq & H1 & H2 & Hg & ->); cbn in Heq; simplify_eq; [congruence|].
        rewrite Forall_cons in H1. rewrite (proj2 (IH (l1 ++ c' :: l2))); [done|]. exists l1, d, c', l2. tauto.
Qed.

Lemma update_first_comm f1 f2 (g1 g2 : Container -> result err Container) :
  (forall c c', g1 c = Ok c' -> f1 c' = f1 c /\ f2 c' = f2 c) ->
  (forall c c', g2 c = Ok c' -> f1 c' = f1 c /\ f2 c' = f2 c) ->
  (forall c, f1 c = true -> f2 c = false) ->
  forall l l1 l2, update_first f1 g1 l = Some (Ok l1) -> update_first f2 g2 l1 = Some (Ok l2) ->
  exists l1', update_first f2 g2 l = Some (Ok l1') /\ update_first f1 g1 l1' = Some (Ok l2).
Proof.
  intros Hg1 Hg2 Hd. induction l as [|c l IH]; intros l1 l2 H1 H2; cbn in *; [done|].
  destruct (f1 c) eqn:E1.
  - injection H1 as H1. apply bind_Ok in H1 as (c' & Hc & [= <-]). cbn in H2.
    destruct (Hg1 _ _ Hc) as [_ Hf2]. rewrite Hf2, (Hd c E1) in H2. rewrite (Hd c E1).
    destruct (update_first f2 g2 l) as [r|]; [|done]. cbn in H2 |- *. injection H2 as H2.
    apply bind_Ok in H2 as (m & -> & [= <-]). exists (c :: m). cbn. by rewrite E1, Hc.
  - destruct (update_first f1 g1 l) as [r|] eqn:Hu; [|done]. cbn in H1. injection H1 as H1.
    apply bind_Ok in H1 as (m & -> & [= <-]). cbn in H2. destruct (f2 c) eqn:E2.
    + injection H2 as H2. apply bind_Ok in H2 as (c' & Hc & [= <-]). rewrite Hc. exists (c' :: l). cbn.
      destruct (Hg2 _ _ Hc) as [Hf1 _]. by rewrite Hf1, E1, Hu.
    + destruct (update_first f2 g2 m) as [r|] eqn:Hu2; [|done]. cbn in H2. injection H2 as H2.
      apply bind_Ok in H2 as (m2 & -> & [= <-]). destruct (IH m m2 eq_refl Hu2) as (m' & -> & Hm').
      exists (c :: m'). cbn. by rewrite E1, Hm'.
Qed.

Context {Network : Type} (o : Options Network).
Local Abbreviation trust := (trust_mount (NetError := N) o).

Lemma trust_mount_Ok cs n p cs' :
  trust cs (n, p) = Ok cs' <->
  o_Role o = Workload /\ cleanPath p = true /\
  exists l1 c l2, cs = l1 ++ c :: l2 /\ Forall (fun c => c_Name c <> n) l1 /\ c_Name c = n
    /\ (p ∉ map vm_MountPath (c_VolumeMounts c)) /\ cs' = l1 ++ add_mount (bundle_mount p) c :: l2.
Proof.
  unfold trust_mount. destruct (o_Role o =s= Workload) eqn:HR; cbn; bool_hyps; [|naive_solver].
  destruct (cleanPath p) eqn:Hp; cbn; [|naive_solver].
  destruct (update_first _ _ cs) as [r|] eqn:Hu.
  - split.
    + intros ->. apply update_first_Ok in Hu as (l1 & c & c' & l2 & -> & H1 & H2 & Hg & ->).
      split_and!; [done..|]. destruct (existsb _ _) eqn:He; [done|]. injection Hg as <-. exists l1, c, l2.
      apply existsb_false in He. rewrite list.Forall_forall in He. bool_hyps. split_and!; [done| |done| |done].
      * eapply Forall_impl; [exact H1|]. intros x. apply String.eqb_neq.
      * rewrite list_elem_of_fmap. intros (m & -> & Hm). specialize (He m Hm). cbn in He. by rewrite String.eqb_refl in He.
    + intros (_ & _ & l1 & c & l2 & -> & H1 & Hn & Hc & ->).
      assert (Hu' : Some r = Some (Ok (l1 ++ add_mount (bundle_mount p) c :: l2))); [|by injection Hu'].
      rewrite <- Hu. apply update_first_Ok. exists l1, c. eexists _, l2. split_and!; [done| |by apply String.eqb_eq| |done].
      * eapply Forall_impl; [exact H1|]. intros x. apply String.eqb_neq.
      * destruct (existsb _ _) eqn:He; [|done]. apply existsb_exists in He as (m & Hm & He%String.eqb_eq).
        destruct Hc. rewrite <- He. apply list_elem_of_fmap. exists m. by rewrite list_elem_of_In.
  - split; [done|]. intros (_ & _ & l1 & c & l2 & -> & H1 & Hn & Hc & ->).
    exfalso. revert Hu. clear -H1 Hn. induction l1 as [|x l1 IH]; cbn.
    + by rewrite (proj2 (String.eqb_eq _ _) Hn).
    + rewrite Forall_cons in H1. destruct H1 as [Hx H1]. rewrite (proj2 (String.eqb_neq _ _) Hx).
      destruct (update_first _ _ _); [done|]. by intros _; apply IH.
Qed.

(** The turns for two containers commute. *)
Lemma trust_mount_comm x y cs cs1 cs2 : x.1 <> y.1 ->
  trust cs x = Ok cs1 -> trust cs1 y = Ok cs2 -> exists cs1', trust cs y = Ok cs1' /\ trust cs1' x = Ok cs2.
Proof.
  destruct x as [n p], y as [n' p']; cbn. intros Hne. unfold trust_mount.
  destruct (o_Role o =s= Workload); cbn; [|done]. destruct (cleanPath p), (cleanPath p'); cbn; try done.
  destruct (update_first _ _ cs) as [r1|] eqn:H1; [|done]. intros ->.
  destruct (update_first _ _ cs1) as [r2|] eqn:H2; [|done]. intros ->.
  edestruct (update_first_comm (fun c => c_Name c =s= n) (fun c => c_Name c =s= n')) as (cs1' & Ha & Hb);
    [| | |exact H1|exact H2|].
  - intros c c'; cbn. case_match; [done|]. by intros [= <-].
  - intros c c'; cbn. case_match; [done|]. by intros [= <-].
  - intros c Hc%String.eqb_eq. apply String.eqb_neq. congruence.
  - rewrite Ha. exists cs1'. by rewrite Hb.
Qed.

(** A business container with the bundle mounted at the paths [ps]. *)
Definition with_bundle (ps : list string) (c : Container) : Container :=
  foldl (fun c p => add_mount (bundle_mount p) c) c ps.
Record mounted (tms : list (string * string)) (c c' : Container) : Prop := {
  mt_paths : exists ps, c' = with_bundle ps c /\ Forall (fun p => (c_Name c, p) ∈ tms /\ cleanPath p = true) ps;
  mt_fresh : NoDup (map vm_MountPath (c_VolumeMounts c)) -> NoDup (map vm_MountPath (c_VolumeMounts c'));
}.
Lemma with_bundle_name ps c : c_Name (with_bundle ps c) = c_Name c.
Proof. unfold with_bundle. revert c; induction ps as [|p ps IH]; intros c; cbn; [done|]. by rewrite IH. Qed.
Lemma with_bundle_mounts ps c : c_VolumeMounts (with_bundle ps c) = c_VolumeMounts c ++ map bundle_mount ps.
Proof.
  unfold with_bundle. revert c; induction ps as [|p ps IH]; intros c; cbn; [by rewrite app_nil_r|].
  rewrite IH. cbn. by rewrite <- app_assoc.
Qed.
Lemma mounted_name tms c c' : mounted tms c c' -> c_Name c' = c_Name c.
Proof. intros [(ps & -> & _) _]. apply with_bundle_name. Qed.
Lemma mounted_refl tms c : mounted tms c c.
Proof. split; [|done]. exists []. by split. Qed.
Lemma mounted_add tms n p c c' : mounted tms c c' -> c_Name c' = n -> cleanPath p = true ->
  p ∉ map vm_MountPath (c_VolumeMounts c') -> mounted (tms ++ [(n, p)]) c (add_mount (bundle_mount p) c').
Proof.
  intros [(ps & -> & Hps) Hf] Hn Hp Hin. rewrite with_bundle_name in Hn. split.
  - exists (ps ++ [p]). split; [unfold with_bundle; by rewrite foldl_app|]. apply Forall_app. split.
    + eapply Forall_impl; [exact Hps|]. intros q [H1 H2]. split; [|done]. apply elem_of_app. by left.
    + repeat constructor; [|done]. subst. apply elem_of_app. right. by left.
  - intros H. cbn. rewrite map_app. apply NoDup_app. split_and!; [by apply Hf| |apply NoDup_singleton].
    intros q Hq. cbn. intros ->%list_elem_of_singleton. done.
Qed.
Lemma mounted_mono tms x c c' : mounted tms c c' -> mounted (tms ++ [x]) c c'.
Proof.
  intros [(ps & -> & Hps) Hf]. split; [|done]. exists ps. split; [done|].
  eapply Forall_impl; [exact Hps|]. intros q [H1 H2]. split; [|done]. apply elem_of_app. by left.
Qed.
Lemma trust_mount_mounted tms cs cs1 cs2 x :
  Forall2 (mounted tms) cs cs1 -> trust cs1 x = Ok cs2 -> Forall2 (mounted (tms ++ [x])) cs cs2.
Proof.
  destruct x as [n p]. intros H (HR & Hp & l1 & c & l2 & -> & _ & Hn & Hc & ->)%trust_mount_Ok.
  apply Forall2_app_inv_r in H as (k1 & k2 & H1 & H2 & ->). apply Forall2_cons_inv_r in H2 as (d & k3 & Hd & H2 & ->).
  apply Forall2_app; [|constructor]; [|by apply mounted_add|]; (eapply Forall2_impl; [eassumption|]);
    intros; by apply mounted_mono.
Qed.
Definition has_bundle (cs : list Container) (x : string * string) : Prop :=
  exists c, c ∈ cs /\ c_Name c = x.1 /\ bundle_mount x.2 ∈ c_VolumeMounts c.
Lemma trust_mount_keeps cs cs' x y : has_bundle cs y -> trust cs x = Ok cs' -> has_bundle cs' y.
Proof.
  destruct x as [n p]. intros (d & Hd & Hn & Hb) (HR & Hp & l1 & c & l2 & -> & _ & _ & _ & ->)%trust_mount_Ok.
  rewrite elem_of_app, elem_of_cons in Hd. destruct Hd as [Hd|[->|Hd]].
  - exists d. rewrite elem_of_app. auto.
  - exists (add_mount (bundle_mount p) c). rewrite elem_of_app, elem_of_cons. split_and!; [auto|done|].
    cbn. rewrite elem_of_app. by left.
  - exists d. rewrite elem_of_app, elem_of_cons. auto.
Qed.
Lemma trust_mount_adds cs cs' x : trust cs x = Ok cs' -> has_bundle cs' x.
Proof.
  destruct x as [n p]. intros (HR & Hp & l1 & c & l2 & -> & _ & Hn & _ & ->)%trust_mount_Ok.
  exists (add_mount (bundle_mount p) c). rewrite elem_of_app, elem_of_cons. split_and!; [auto|done|].
  cbn. rewrite elem_of_app. right. by left.
Qed.
(** All of the mounts, whatever the order of the map. *)
Lemma trust_mounts_Ok cs cs' tms : for_each trust cs tms = Ok cs' ->
  Forall2 (mounted tms) cs cs' /\ Forall (has_bundle cs') tms.
Proof.
  intros H. apply (for_each_inv trust (fun tms cs' => Forall2 (mounted tms) cs cs' /\ Forall (has_bundle cs') tms) tms [] cs cs'); [| |done].
  - split; [|done]. clear. induction cs; constructor; auto using mounted_refl.
  - intros d x s1 s2 [H1 H2] _ Hx. split; [by eapply trust_mount_mounted|].
    apply Forall_app. split; [|by constructor; [eapply trust_mount_adds|]].
    eapply Forall_impl; [exact H2|]. intros y Hy. by eapply trust_mount_keeps.
Qed.
End TrustMounts.

(** ** The Gateway's own containers *)
Section Gateway.
Context {N Network : Type} (o : Options Network).
Local Abbreviation err := (compose_error N).

(** Environment variables a caller may add. *)
Definition caller_env (e : EnvVar) : Prop :=
  has_prefix (e_Name e) "GATEWAY_" = false /\ e_Name e <> "OPA_CONFIG" /\ e_Name e <> "ENVOY_CONFIG".
Lemma add_envs_Ok l env env' : for_each (add_env (NetError := N)) env l = Ok env' ->
  env' = env ++ l /\ Forall caller_env l /\ (NoDup (map e_Name env) -> NoDup (map e_Name env')).
Proof.
  intros H. apply (for_each_inv (add_env (NetError := N)) (fun l env' => env' = env ++ l /\ Forall caller_env l
    /\ (NoDup (map e_Name env) -> NoDup (map e_Name env'))) l [] env env'); [|clear|done].
  - by rewrite app_nil_r.
  - intros d e s1 s2 (-> & Hd & Hn) _ He. unfold add_env in He.
    destruct (mem _ _) eqn:Hm; [done|]. destruct (has_prefix _ _) eqn:Hp; [done|].
    destruct (e_Name e =s= "OPA_CONFIG") eqn:Ho; [done|]. destruct (e_Name e =s= "ENVOY_CONFIG") eqn:Hc; [done|].
    injection He as <-. bool_hyps. apply mem_false in Hm. split_and!; [by rewrite <- app_assoc| |].
    + apply Forall_app. split; [done|]. by repeat constructor.
    + intros Hnd. rewrite map_app. apply NoDup_app. split_and!; [by apply Hn| |apply NoDup_singleton].
      intros x Hx. cbn. intros ->%list_elem_of_singleton. done.
Qed.

Definition pull_policy : string := if o_ImagePullPolicy o =s= "" then "IfNotPresent" else o_ImagePullPolicy o.
Definition gateway (c : Container) : Container := set_image (o_Image o) pull_policy c.
Definition when {A} (b : bool) (a : A) : list A := if b then [a] else [].
Definition has_policy : bool := negb (o_PolicyConfigMap o =s= "").
Definition has_origin : bool := negb (o_OriginTrustConfigMap o =s= "").
(** The composed proxy, with the environment [env]. *)
Definition composed_proxy (env : list EnvVar) : Container := {|
  c_Name := "istio-proxy"; c_Image := o_Image o; c_ImagePullPolicy := pull_policy; c_Command := [];
  c_Args := if has_policy then ["--policy"; "/etc/gateway/policy/policy.rego"] else [];
  c_Env := env;
  c_VolumeMounts := c_VolumeMounts istio_proxy ++ when has_policy (managed_mount "gateway-policy" "/etc/gateway/policy" true)
                    ++ when has_origin (managed_mount "origin-trust" "/etc/gateway/origin" true);
  c_VolumeDevices := []; c_SecurityContext := c_SecurityContext istio_proxy;
  c_RestartPolicy := c_RestartPolicy istio_proxy; c_StartupProbe := c_StartupProbe istio_proxy; c_rest := c_rest istio_proxy |}.
Definition composed_trust : Container :=
  set_command ["/bin/cp"; o_TrustPath o; "/bundle/base.pem"] (set_image (o_TrustImage o) pull_policy base_trust).
Definition composed_volumes : list Volume :=
  s_Volumes managed ++ when has_policy (config_map "gateway-policy" (o_PolicyConfigMap o))
  ++ when has_origin (config_map "origin-trust" (o_OriginTrustConfigMap o)).
Definition composed_spec (env : list EnvVar) : TrustedSpec :=
  {| t_Volumes := composed_volumes; t_NetworkInitContainers := ["management-init"];
     t_InitContainers := [gateway prepare_volumes; gateway management_init]
       ++ (if o_Role o =s= Egress then [] else [composed_proxy env; composed_trust; gateway trust_init]);
     t_Containers := if o_Role o =s= Egress then [as_regular (composed_proxy env)] else [] |}.

Local Abbreviation item := (managed_item (NetError := N) o).
Lemma item_plain t c : c_Name c = "prepare-volumes" \/ c_Name c = "management-init" ->
  item t c = Ok (with_volumes t (t_Volumes t) [gateway c] []).
Proof. destruct c; cbn. intros [-> | ->]; unfold managed_item; cbn; by destruct (o_Role o =s= Egress). Qed.
Lemma item_base_trust t :
  item t base_trust = Ok (if o_Role o =s= Egress then t else with_volumes t (t_Volumes t) [composed_trust] []).
Proof. unfold managed_item. cbn. by destruct (o_Role o =s= Egress). Qed.
Lemma item_trust_init t :
  item t trust_init = Ok (if o_Role o =s= Egress then t else with_volumes t (t_Volumes t) [gateway trust_init] []).
Proof. unfold managed_item. cbn. by destruct (o_Role o =s= Egress). Qed.
Lemma item_proxy t : item t istio_proxy =
  env ← for_each (add_env (NetError := N)) (proxyEnv o) (o_ProxyEnv o);
  Ok (with_volumes t ((t_Volumes t ++ when has_policy (config_map "gateway-policy" (o_PolicyConfigMap o)))
                      ++ when has_origin (config_map "origin-trust" (o_OriginTrustConfigMap o)))
        (if o_Role o =s= Egress then [] else [composed_proxy env])
        (if o_Role o =s= Egress then [as_regular (composed_proxy env)] else [])).
Proof.
  unfold managed_item, proxy_container, mount_config, composed_proxy, has_policy, has_origin. cbn.
  destruct (for_each add_env _ _) as [env| |];
    destruct (o_PolicyConfigMap o =s= ""), (o_OriginTrustConfigMap o =s= ""), (o_Role o =s= Egress); cbn; rewrite ?app_nil_r; reflexivity.
Qed.
Lemma managed_items_Ok t :
  for_each item {| t_Volumes := s_Volumes managed; t_InitContainers := []; t_Containers := [];
    t_NetworkInitContainers := ["management-init"] |} (s_InitContainers managed) = Ok t <->
  exists env, for_each (add_env (NetError := N)) (proxyEnv o) (o_ProxyEnv o) = Ok env /\ t = composed_spec env.
Proof.
  unfold managed at 2. cbn [for_each s_InitContainers].
  rewrite !item_plain by auto. rewrite item_proxy.
  destruct (for_each add_env _ _) as [env| |]; cbn [mbind result_bind]; [|naive_solver..].
  rewrite item_base_trust, item_trust_init. unfold composed_spec, composed_volumes, with_volumes.
  destruct (o_Role o =s= Egress); cbn [t_InitContainers t_Containers t_Volumes t_NetworkInitContainers];
    rewrite <- ?app_assoc; naive_solver.
Qed.
End Gateway.

(** The variables the daemon's configuration is read from, but for the role, the
    proxy mode and OpenTelemetry's. *)
Definition daemon_variables : list string :=
  [EnvIdentityProvider; EnvOPAConfig; EnvEnvoyConfig; EnvStateDir; EnvPublicDir; EnvRuntimeDir].
(** The [ENV] lines of [image/Dockerfile]. *)
Definition image_variables : list (string * string) :=
  [("ISTIO_BOOTSTRAP_OVERRIDE", "/etc/gateway/envoy-limits.json");
   ("PROXY_CONFIG", "{" +:+ quoted "proxyMetadata" +:+ ":{" +:+ quoted "ISTIO_META_GLOBAL_DOWNSTREAM_MAX_CONNECTIONS"
      +:+ ":" +:+ quoted "64" +:+ "}}");
   (EnvRole, Workload); (EnvProxyMode, Istio)].

(** ** Properties *)
Section Properties.
Context {Network Policy NetError : Type}
        (ExpandPolicy : Network -> result NetError Policy)
        (ExpandPod : Pod -> Network -> TrustedSpec -> result NetError Pod).
Local Abbreviation compose := (ComposePod ExpandPolicy ExpandPod).
Implicit Types o : Options Network.

(** What a composition hands to the networking module, with the proxy environment
    [env] and the business containers [cs]. *)
Definition composed_pod o (b : Pod) (env : list EnvVar) (cs : list Container) : Pod := {|
  p_Name := p_Name b; p_Namespace := p_Namespace b; p_Labels := p_Labels b; p_Annotations := annotate o (p_Annotations b); p_rest := p_rest b;
  p_Spec := {| s_AutomountServiceAccountToken := Some false;
    s_Volumes := s_Volumes (p_Spec b) ++ composed_volumes o;
    s_InitContainers := t_InitContainers (composed_spec o env) ++ s_InitContainers (p_Spec b);
    s_Containers := cs ++ t_Containers (composed_spec o env);
    s_SecurityContext := s_SecurityContext (p_Spec b); s_rest := s_rest (p_Spec b) |} |}.
Definition inputs_ok o : Prop :=
  (o_Role o = Workload \/ o_Role o = Egress) /\ o_Image o <> EmptyString /\ o_DiscoveryAddress o <> EmptyString
  /\ o_ProxyConfig o <> EmptyString /\ (o_Role o = Workload -> o_TrustImage o <> EmptyString /\ cleanPath (o_TrustPath o) = true).
Definition env_ok o (env : list EnvVar) : Prop := for_each (add_env (NetError := NetError)) (proxyEnv o) (o_ProxyEnv o) = Ok env.
Definition trust_ok o (b : Pod) (cs : list Container) : Prop :=
  for_each (trust_mount (NetError := NetError) o) (s_Containers (p_Spec b)) (o_TrustMounts o) = Ok cs.

Lemma compose_local_Ok o b q t :
  compose_local (NetError := NetError) o b = Ok (q, t) <->
  foreign_pod b /\ exists env cs, env_ok o env /\ trust_ok o b cs /\ q = composed_pod o b env cs /\ t = composed_spec o env.
Proof.
  unfold compose_local, env_ok, trust_ok. rewrite bind_Ok. split.
  - intros ([] & Hp & H). apply protectBusiness_Ok in Hp. split; [done|].
    apply bind_Ok in H as (t' & Ht & H). apply bind_Ok in H as (cs & Hcs & [= <- <-]).
    apply managed_items_Ok in Ht as (env & He & ->). exists env, cs. done.
  - intros (Hp & env & cs & He & Hcs & -> & ->). exists tt. split; [by apply protectBusiness_Ok|].
    rewrite (proj2 (managed_items_Ok (N := NetError) o (composed_spec o env))) by eauto. cbn. by rewrite Hcs.
Qed.
Lemma networking_Ok {A} (r : result NetError A) a : networking r = Ok a <-> r = Ok a.
Proof. destruct r; cbn; naive_solver. Qed.
Lemma eqb_empty s : (s =s= "") = false <-> s <> EmptyString.
Proof. apply String.eqb_neq. Qed.
Lemma compose_Ok o b p pol :
  compose (Some b) o = Ok (p, pol) <->
  inputs_ok o /\ foreign_pod b /\ exists env cs, env_ok o env /\ trust_ok o b cs
    /\ ExpandPolicy (o_Network o) = Ok pol
    /\ ExpandPod (composed_pod o b env cs) (o_Network o) (composed_spec o env) = Ok p.
Proof.
  unfold ComposePod, inputs_ok.
  destruct (_ && _) eqn:HR in |- *; [split; [done|]; intros [[HR' _] _]; apply eqb_or in HR'; congruence|].
  apply eqb_or in HR. rewrite <- !eqb_empty.
  destruct (o_Image o =s= ""); cbn [orb]; [naive_solver|].
  destruct (o_DiscoveryAddress o =s= ""); cbn [orb]; [naive_solver|].
  destruct (o_ProxyConfig o =s= ""); cbn [orb]; [naive_solver|].
  destruct ((o_Role o =s= Workload) && _) eqn:HW.
  { split; [done|]. intros ((_ & _ & _ & _ & H) & _). apply andb_prop in HW as [HW%String.eqb_eq Hx].
    destruct (H HW) as [H1 H2]. by rewrite H1, H2 in Hx. }
  assert (Ht : o_Role o = Workload -> (o_TrustImage o =s= "") = false /\ cleanPath (o_TrustPath o) = true).
  { intros HR'. rewrite HR' in HW. cbn in HW. apply orb_false_iff in HW as [? ?%negb_false_iff]. done. }
  rewrite bind_Ok. split.
  - intros ([q t] & Hl & H). apply compose_local_Ok in Hl as (Hf & env & cs & He & Hc & -> & ->).
    apply bind_Ok in H as (pol' & HP & H). apply bind_Ok in H as (p' & HE & [= <- <-]).
    apply networking_Ok in HP, HE. split; [done|]. split; [done|]. by exists env, cs.
  - intros (_ & Hf & env & cs & He & Hc & HP & HE). eexists (_, _). split; [apply compose_local_Ok; eauto 10|].
    cbn. by rewrite HP, HE.
Qed.

(** A business container of a composed Pod: the only Gateway volume it may see is the
    merged trust bundle, one file of it, read-only, where the caller asked for it. *)
Record business_container o (c : Container) : Prop := {
  bc_name : c_Name c ∉ gateway_names;
  bc_ids : forall s, c_SecurityContext c = Some s -> other_id (sc_RunAsUser s) /\ other_id (sc_RunAsGroup s);
  bc_devices : Forall (fun d => vd_Name d ∉ gateway_volumes) (c_VolumeDevices c);
  bc_mounts : forall m, m ∈ c_VolumeMounts c -> vm_Name m ∈ gateway_volumes ->
    exists path, m = bundle_mount path /\ (c_Name c, path) ∈ o_TrustMounts o;
}.
Lemma with_bundle_keeps ps c :
  c_SecurityContext (with_bundle ps c) = c_SecurityContext c /\ c_VolumeDevices (with_bundle ps c) = c_VolumeDevices c.
Proof. unfold with_bundle. revert c; induction ps as [|x ps IH]; intros c; cbn; [done|]. apply (IH (add_mount _ c)). Qed.
Lemma foreign_mounted o c c' : foreign_container c -> mounted (o_TrustMounts o) c c' -> business_container o c'.
Proof.
  intros [Hn Hi Hm Hd] [(ps & -> & Hps) _]. destruct (with_bundle_keeps ps c) as [Es Ed].
  constructor; rewrite ?with_bundle_name, ?Es, ?Ed; auto.
  intros m. rewrite with_bundle_mounts, elem_of_app, list_elem_of_fmap. intros [H|(path & -> & Hp)] Hg.
  - rewrite list.Forall_forall in Hm. by destruct (Hm m H).
  - exists path. split; [done|]. rewrite list.Forall_forall in Hps. by apply Hps.
Qed.
Lemma foreign_business o c : foreign_container c -> business_container o c.
Proof. intros H. apply (foreign_mounted o c c H). apply mounted_refl. Qed.
Lemma composed_containers o b env cs c : foreign_pod b -> trust_ok o b cs ->
  c ∈ s_InitContainers (p_Spec (composed_pod o b env cs)) ++ s_Containers (p_Spec (composed_pod o b env cs)) ->
  c ∈ t_InitContainers (composed_spec o env) ++ t_Containers (composed_spec o env) \/ business_container o c.
Proof.
  intros [_ _ _ _ _ Hf] Hc%trust_mounts_Ok. destruct Hc as [Hc _]. apply Forall_app in Hf as [Hi Hr].
  cbn [composed_pod p_Spec s_InitContainers s_Containers]. rewrite !elem_of_app.
  rewrite list.Forall_forall in Hi. intros [[H|H]|[H|H]]; auto.
  - right. apply foreign_business. auto.
  - right. rewrite list.Forall_forall in Hr. apply list_elem_of_lookup in H as [i H].
    destruct (Forall2_lookup_r _ _ _ _ _ Hc H) as (d & Hd & Hm).
    eapply foreign_mounted; [apply Hr|exact Hm]. by eapply list_elem_of_lookup_2.
Qed.
Definition private_volumes : list string := ["state"; "runtime"; "istio-token"; "gateway-policy"; "origin-trust"].
Definition mounts_private (c : Container) : bool :=
  existsb (fun m => mem (vm_Name m) private_volumes) (c_VolumeMounts c).
Definition gateway_private (c : Container) : bool :=
  mem (c_Name c) ["prepare-volumes"; "istio-proxy"]
  && (negb (existsb (fun m => vm_Name m =s= "istio-token") (c_VolumeMounts c)) || (c_Name c =s= "istio-proxy"))
  || negb (mounts_private c).
Lemma composed_gateway_private o env :
  Forall (fun c => gateway_private c = true) (t_InitContainers (composed_spec o env) ++ t_Containers (composed_spec o env)).
Proof.
  unfold composed_spec, composed_proxy. cbn [t_InitContainers t_Containers].
  destruct (o_Role o =s= Egress), (has_policy o), (has_origin o); cbn [app]; repeat constructor; vm_compute; reflexivity.
Qed.
Lemma business_not_private o c : business_container o c -> mounts_private c = false.
Proof.
  intros [_ _ _ Hm]. apply existsb_false, list.Forall_forall. intros m Hin. apply mem_false. intros Hp.
  destruct (Hm m Hin) as (path & -> & _).
  - apply mem_spec. apply mem_spec in Hp. revert Hp. unfold mem, private_volumes. cbn [existsb].
    rewrite !orb_true_iff, !String.eqb_eq. intros Hp.
    repeat (destruct Hp as [-> | Hp]; [vm_compute; reflexivity|]). done.
  - by apply mem_spec in Hp.
Qed.
Lemma composed_tokens o b env cs v l s : foreign_pod b -> v ∈ s_Volumes (p_Spec (composed_pod o b env cs)) ->
  v_Projected v = Some l -> s ∈ l -> pj_ServiceAccountToken s <> None -> v = istio_token.
Proof.
  intros [_ _ _ Hv _ _] Hin Hl Hs Ht. cbn in Hin. rewrite elem_of_app in Hin. destruct Hin as [Hin|Hin].
  - rewrite list.Forall_forall in Hv. destruct (Hv v Hin) as [_ Hx]. by destruct (Ht (Hx l s Hl Hs)).
  - assert (Hall : Forall (fun v => v_Projected v = None \/ v = istio_token) (composed_volumes o)).
    { unfold composed_volumes. apply Forall_app. split; [cbn; repeat (apply Forall_cons; split; [by auto|]); by constructor|].
      destruct (has_policy o), (has_origin o); cbn; repeat (apply Forall_cons; split; [by auto|]); by constructor. }
    rewrite list.Forall_forall in Hall. destruct (Hall v Hin); congruence.
Qed.

(** The identity a container runs with: its own security context, then the Pod's. *)
Definition effective_user (s : PodSpec) (c : Container) : option Z :=
  match c_SecurityContext c ≫= sc_RunAsUser with Some u => Some u | None => s_SecurityContext s ≫= ps_RunAsUser end.
Definition effective_group (s : PodSpec) (c : Container) : option Z :=
  match c_SecurityContext c ≫= sc_RunAsGroup with Some g => Some g | None => s_SecurityContext s ≫= ps_RunAsGroup end.
Record own_identity (s : PodSpec) (c : Container) : Prop := {
  oi_user : other_id (effective_user s c);
  oi_group : other_id (effective_group s c);
  oi_fs_group : other_id (s_SecurityContext s ≫= ps_FSGroup);
  oi_supplemental : 1337 ∉ default [] (ps_SupplementalGroups <$> s_SecurityContext s);
}.
Lemma foreign_identity o b s c : foreign_pod b -> s_SecurityContext s = s_SecurityContext (p_Spec b) ->
  business_container o c -> own_identity s c.
Proof.
  intros [_ _ _ _ Hp _] Es [_ Hc _ _]. rewrite <- Es in Hp. unfold effective_user, effective_group.
  destruct (s_SecurityContext s) as [ps|] eqn:Ep; [destruct (Hp ps eq_refl) as (U & G & F & L)|];
    (destruct (c_SecurityContext c) as [sc|] eqn:Ec; [destruct (Hc sc eq_refl) as [U' G']|]);
    constructor; unfold effective_user, effective_group; rewrite ?Ec, ?Ep; cbn; try done; try by apply not_elem_of_nil.
  all: by first [destruct (sc_RunAsUser sc); done|destruct (sc_RunAsGroup sc); done].
Qed.

(** C16: Isolation of the Gateway's secrets and identity.  Whatever the business Pod was, in the Pod given to
    the networking module every container is one of the Gateway's own or a business
    container that has another name, runs neither as UID nor as GID 1337, whether by its
    own security context or by the Pod's, and with neither as its file-system or a
    supplemental group, maps no Gateway device, and sees of the Gateway's volumes at most the read-only bundle file where
    the caller asked for it; the volumes with the CA key, the sockets, the policy, the
    origin trust and the identity token are mounted by no container but the proxy (and,
    but for the token, the volume preparation), no volume but the
    proxy's own projects a service account token, and automount is off. *)
Theorem compose_isolates o b p pol :
  compose (Some b) o = Ok (p, pol) ->
  exists q t, compose_local (NetError := NetError) o b = Ok (q, t) /\ ExpandPod q (o_Network o) t = Ok p
  /\ s_AutomountServiceAccountToken (p_Spec q) = Some false
  /\ (forall c, c ∈ s_InitContainers (p_Spec q) ++ s_Containers (p_Spec q) ->
        c ∈ t_InitContainers t ++ t_Containers t \/ business_container o c /\ own_identity (p_Spec q) c)
  /\ (forall c m, c ∈ s_InitContainers (p_Spec q) ++ s_Containers (p_Spec q) -> m ∈ c_VolumeMounts c ->
        vm_Name m ∈ private_volumes ->
        c_Name c = "istio-proxy" \/ c_Name c = "prepare-volumes" /\ vm_Name m <> "istio-token")
  /\ (forall v l s, v ∈ s_Volumes (p_Spec q) -> v_Projected v = Some l -> s ∈ l ->
        pj_ServiceAccountToken s <> None -> v = istio_token).
Proof.
  intros (_ & Hf & env & cs & He & Hc & _ & HE)%compose_Ok.
  exists (composed_pod o b env cs), (composed_spec o env). split_and!; [apply compose_local_Ok; eauto 10|done|done| | |].
  - intros c [Hg|Hb]%(composed_containers _ _ _ _ _ Hf Hc); [by left|right]. split; [done|].
    by eapply foreign_identity.
  - intros c m Hin Hm Hp. destruct (composed_containers _ _ _ _ _ Hf Hc Hin) as [Hg|Hb].
    + pose proof (composed_gateway_private o env) as Ha. rewrite list.Forall_forall in Ha. specialize (Ha c Hg).
      assert (Hpr : mounts_private c = true).
      { apply existsb_exists. exists m. rewrite <- list_elem_of_In. split; [done|by apply mem_spec]. }
      unfold gateway_private in Ha. rewrite Hpr, orb_false_r in Ha. apply andb_prop in Ha as [Hn Ht].
      apply orb_prop in Ht as [Ht|Ht%String.eqb_eq]; [|by left].
      apply negb_true_iff, existsb_false in Ht. rewrite list.Forall_forall in Ht.
      specialize (Ht m Hm). apply String.eqb_neq in Ht.
      apply mem_spec in Hn. rewrite !elem_of_cons in Hn. destruct Hn as [->|[->|Hn]]; [by right|by left|].
      by apply not_elem_of_nil in Hn.
    + apply business_not_private, existsb_false in Hb. rewrite list.Forall_forall in Hb.
      specialize (Hb m Hm). by apply mem_false in Hb.
  - intros v l s. by apply composed_tokens.
Qed.

Lemma composed_volume_names o : NoDup (map v_Name (composed_volumes o)) /\
  forall n, n ∈ map v_Name (composed_volumes o) -> n ∈ gateway_volumes.
Proof.
  unfold composed_volumes. destruct (has_policy o), (has_origin o); cbn; (split;
    [apply (bool_decide_unpack _); vm_compute; exact I|]; intros n Hn; apply mem_spec;
     repeat (apply elem_of_cons in Hn as [->|Hn]; [vm_compute; reflexivity|]); by apply not_elem_of_nil in Hn).
Qed.

Lemma annotate_other o a k : contains_str k "istio.io/" = false -> annotate o a !! k = a !! k.
Proof.
  intros Hk. assert (Hne : forall k', contains_str k' "istio.io/" = true -> k' <> k) by congruence.
  unfold annotate. destruct (o_Role o =s= Workload); rewrite ?lookup_insert_ne, ?lookup_delete_ne, ?lookup_insert_ne
    by (apply Hne; vm_compute; reflexivity); done.
Qed.

(** C29: The shape of an accepted composition.  Gateway's init containers run before the
    business ones and in start-up order: volumes, management network, and on a
    workload the native proxy sidecar and the two trust steps; an egress Pod runs the
    proxy as its last regular container instead.  The business init containers and
    volumes are kept unchanged and in place, business containers keep their
    place, and differ from the submitted ones only by the requested trust mounts, all
    of which are there and collide with no mount of theirs; the Gateway's volumes
    follow, and unique volume names stay unique.  The name, the labels, the annotations but for
    Istio's own, the Pod's security context and everything else of the Pod are kept. *)
Theorem compose_shape o b p pol :
  compose (Some b) o = Ok (p, pol) ->
  exists q t cs env, compose_local (NetError := NetError) o b = Ok (q, t) /\ ExpandPod q (o_Network o) t = Ok p /\ ExpandPolicy (o_Network o) = Ok pol
  /\ s_InitContainers (p_Spec q) = t_InitContainers t ++ s_InitContainers (p_Spec b)
  /\ map c_Name (t_InitContainers t) =
       (if o_Role o =s= Workload then ["prepare-volumes"; "management-init"; "istio-proxy"; "base-trust"; "trust-init"]
        else ["prepare-volumes"; "management-init"])
  /\ s_Volumes (p_Spec q) = s_Volumes (p_Spec b) ++ composed_volumes o
  /\ s_SecurityContext (p_Spec q) = s_SecurityContext (p_Spec b) /\ s_rest (p_Spec q) = s_rest (p_Spec b)
  /\ p_Name q = p_Name b /\ p_Namespace q = p_Namespace b /\ p_Labels q = p_Labels b /\ p_rest q = p_rest b
  /\ (forall k, contains_str k "istio.io/" = false -> p_Annotations q !! k = p_Annotations b !! k)
  /\ s_Containers (p_Spec q) = cs ++ (if o_Role o =s= Workload then [] else [as_regular (composed_proxy o env)])
  /\ Forall2 (mounted (o_TrustMounts o)) (s_Containers (p_Spec b)) cs
  /\ Forall (has_bundle cs) (o_TrustMounts o)
  /\ (NoDup (map v_Name (s_Volumes (p_Spec b))) -> NoDup (map v_Name (s_Volumes (p_Spec q)))).
Proof.
  intros ((HR & _) & Hf & env & cs & He & Hc & HP & HE)%compose_Ok.
  assert (Hl := proj2 (compose_local_Ok o b _ _) (conj Hf (ex_intro _ env (ex_intro _ cs (conj He (conj Hc (conj eq_refl eq_refl))))))).
  apply trust_mounts_Ok in Hc as [H1 H2].
  assert (HE' : (o_Role o =s= Egress) = negb (o_Role o =s= Workload)) by (destruct HR as [-> | ->]; reflexivity).
  exists (composed_pod o b env cs), (composed_spec o env), cs, env. split_and!; try done.
  - cbn. rewrite HE'. by destruct (o_Role o =s= Workload).
  - intros k Hk. by apply annotate_other.
  - cbn. rewrite HE'. by destruct (o_Role o =s= Workload).
  - intros Hn. cbn. destruct (composed_volume_names o) as [Hd Hg]. rewrite map_app. apply NoDup_app. split_and!; [done| |done].
    intros n Hb Hc. apply Hg in Hc. apply list_elem_of_fmap in Hb as (v & -> & Hv).
    destruct Hf as [_ _ _ Hf _ _]. rewrite list.Forall_forall in Hf. by destruct (Hf v Hv).
Qed.

(** [o] with its trust mounts visited in another order. *)
Definition reordered o (tms : list (string * string)) : Options Network := {|
  o_Role := o_Role o; o_Image := o_Image o; o_ImagePullPolicy := o_ImagePullPolicy o; o_TrustImage := o_TrustImage o;
  o_TrustPath := o_TrustPath o; o_TrustMounts := tms; o_DiscoveryAddress := o_DiscoveryAddress o;
  o_ProxyConfig := o_ProxyConfig o; o_ProxyEnv := o_ProxyEnv o; o_OriginTrustConfigMap := o_OriginTrustConfigMap o;
  o_PolicyConfigMap := o_PolicyConfigMap o; o_Network := o_Network o |}.
(** A composition does not depend on the order in which Go visits the trust-mount map:
    if it succeeds for one order it succeeds, with the same Pod and policy, for
    every other. *)
Theorem compose_deterministic o b tms r :
  compose (Some b) o = Ok r -> o_TrustMounts o ≡ₚ tms -> NoDup (map fst (o_TrustMounts o)) ->
  compose (Some b) (reordered o tms) = Ok r.
Proof.
  destruct r as [p pol]. intros (Hi & Hf & env & cs & He & Hc & HP & HE)%compose_Ok Hperm Hn.
  apply compose_Ok. split; [done|]. split; [done|]. exists env, cs. split_and!; [done| |done..].
  unfold trust_ok in *. cbn. eapply (for_each_perm _ fst); [|exact Hperm|done|exact Hc].
  intros x y s s1 s2 Hxy Hx Hy. by apply (trust_mount_comm o x y s s1 s2).
Qed.

(** ** The daemon in the composed Pod *)
(** What the kubelet gives a variable ([None]: it leaves it out).  A plain value
    without a dollar sign is given as it is; others may hold references to
    variables, which are expanded. *)
Context (resolve : EnvVar -> option string)
  (resolve_plain : forall e, e_ValueFrom e = None -> contains_str (e_Value e) "$" = false -> resolve e = Some (e_Value e)).
(** The environment of the image: its own [ENV] lines, then the base image's, which
    knows nothing of the daemon's variables. *)
Context (base_env : env) (base_foreign : forall n, n ∈ daemon_variables -> base_env n = None).
Definition image_env : env := fun n =>
  match list_to_map (M := gmap string string) image_variables !! n with Some v => Some v | None => base_env n end.
Definition find_env (vars : list EnvVar) (n : string) : option EnvVar := find (fun e => e_Name e =s= n) vars.
Definition lookup_env (vars : list EnvVar) : env := fun n =>
  match find_env vars n ≫= resolve with Some v => Some v | None => image_env n end.
Lemma find_env_app l1 l2 n :
  find_env (l1 ++ l2) n = match find_env l1 n with Some v => Some v | None => find_env l2 n end.
Proof. unfold find_env. induction l1 as [|e l1 IH]; cbn; [done|]. by destruct (e_Name e =s= n). Qed.
Lemma find_caller l n : Forall caller_env l ->
  has_prefix n "GATEWAY_" = true \/ n = "OPA_CONFIG" \/ n = "ENVOY_CONFIG" -> find_env l n = None.
Proof.
  intros Hl Hn. unfold find_env. induction Hl as [|e l [He1 [He2 He3]] Hl IH]; cbn; [done|].
  destruct (e_Name e =s= n) eqn:E; [|done]. apply String.eqb_eq in E. subst n. exfalso. destruct Hn as [Hn|[Hn|Hn]]; congruence.
Qed.

(** C30: The daemon inside the composed Pod runs as composed.  Whatever variables the caller
    adds and however the kubelet expands them, over the image's environment, no name is defined twice, and if the daemon's configuration loads from the proxy's environment it
    has the composed role, Istio mode, the role's policy configuration and the
    default directories, and those are where the managed volumes are mounted. *)
Theorem composed_daemon_config ul up pf o b p pol c :
  compose (Some b) o = Ok (p, pol) ->
  Load ul up pf (lookup_env (proxyEnv o ++ o_ProxyEnv o)) = Ok c ->
  (exists q t, compose_local (NetError := NetError) o b = Ok (q, t) /\ ExpandPod q (o_Network o) t = Ok p /\
     if o_Role o =s= Workload then composed_proxy o (proxyEnv o ++ o_ProxyEnv o) ∈ s_InitContainers (p_Spec q)
     else as_regular (composed_proxy o (proxyEnv o ++ o_ProxyEnv o)) ∈ s_Containers (p_Spec q))
  /\ NoDup (map e_Name (proxyEnv o ++ o_ProxyEnv o))
  /\ cfg_Role c = o_Role o /\ cfg_ProxyMode c = Istio /\ EnvoyConfig c = EmptyString
  /\ OPAConfig c = "/etc/gateway/opa/" +:+ o_Role o +:+ ".yaml"
  /\ forall name dir, (name, dir) ∈ [("state", StateDir c); ("runtime", RuntimeDir c); ("public", PublicDir c)] ->
     managed_mount name dir false ∈ c_VolumeMounts (composed_proxy o (proxyEnv o ++ o_ProxyEnv o)).
Proof.
  intros ((Hrole & _) & Hf & env & cs & He & Hc & _ & HE)%compose_Ok HL.
  assert (Hl := proj2 (compose_local_Ok o b _ _) (conj Hf (ex_intro _ env (ex_intro _ cs (conj He (conj Hc (conj eq_refl eq_refl))))))).
  apply add_envs_Ok in He as (-> & Hcaller & Hnd).
  apply Load_Ok in HL as (_ & _ & tr & _ & -> & _).
  assert (Hnone : forall n, n ∈ daemon_variables -> lookup_env (proxyEnv o ++ o_ProxyEnv o) n = None).
  { intros n Hn. unfold lookup_env. rewrite find_env_app. pose proof (base_foreign n Hn) as Hb.
    repeat (apply elem_of_cons in Hn as [->|Hn]; [cbn; rewrite find_caller by (done || (vm_compute; auto)); exact Hb|]).
    by apply not_elem_of_nil in Hn. }
  unfold resolved, env_or. cbn [cfg_Role cfg_ProxyMode EnvoyConfig OPAConfig StateDir RuntimeDir PublicDir].
  rewrite (Hnone EnvOPAConfig), (Hnone EnvEnvoyConfig), (Hnone EnvStateDir), (Hnone EnvPublicDir), (Hnone EnvRuntimeDir)
    by (apply mem_spec; vm_compute; reflexivity).
  assert (HR : lookup_env (proxyEnv o ++ o_ProxyEnv o) EnvRole = Some (o_Role o))
    by (unfold lookup_env; replace (find_env _ _) with (Some (plain EnvRole (o_Role o))) by reflexivity;
        cbn [mbind option_bind]; rewrite resolve_plain by (done || (by destruct Hrole as [-> | ->])); done).
  assert (HM : lookup_env (proxyEnv o ++ o_ProxyEnv o) EnvProxyMode = Some Istio)
    by (unfold lookup_env; replace (find_env _ _) with (Some (plain EnvProxyMode Istio)) by reflexivity;
        cbn [mbind option_bind]; by rewrite resolve_plain).
  rewrite HR, HM. split_and!; try done.
  - eexists _, _. split; [exact Hl|]. split; [exact HE|]. cbn [composed_pod p_Spec s_InitContainers s_Containers composed_spec t_InitContainers t_Containers].
    assert (HE' : (o_Role o =s= Egress) = negb (o_Role o =s= Workload)) by (destruct Hrole as [-> | ->]; reflexivity).
    rewrite HE'. destruct (o_Role o =s= Workload); cbn [negb app]; rewrite ?elem_of_app, !elem_of_cons; auto 10.
  - apply Hnd. apply (bool_decide_unpack _). vm_compute. exact I.
  - intros name dir Hin. cbn [default] in Hin. unfold composed_proxy. cbn [c_VolumeMounts]. apply elem_of_app. left.
    repeat (apply elem_of_cons in Hin as [[= -> ->]|Hin]; [cbn; rewrite !elem_of_cons; auto 10|]). by apply not_elem_of_nil in Hin.
Qed.
End Properties.

(** ** Witnesses *)
Definition demo_app : Container := {|
  c_Name := "app"; c_Image := "app:trusted"; c_ImagePullPolicy := EmptyString; c_Command := []; c_Args := []; c_Env := [];
  c_VolumeMounts := []; c_VolumeDevices := [];
  c_SecurityContext := Some {| sc_RunAsUser := Some 1000; sc_RunAsGroup := Some 1000; sc_rest := JNull |};
  c_RestartPolicy := None; c_StartupProbe := None; c_rest := JNull |}.
Definition demo_pod : Pod := {|
  p_Name := "workload"; p_Namespace := "gateway-test"; p_Labels := ∅; p_Annotations := ∅; p_rest := JNull;
  p_Spec := {| s_AutomountServiceAccountToken := None; s_Volumes := []; s_InitContainers := []; s_Containers := [demo_app; set_args ["worker"] (managed_container "worker" [] [] None)];
               s_SecurityContext := None; s_rest := JNull |} |}.
Definition demo_options : Options unit := {|
  o_Role := Workload; o_Image := "gateway:trusted"; o_ImagePullPolicy := EmptyString; o_TrustImage := "app:trusted";
  o_TrustPath := "/etc/ssl/certs/ca-certificates.crt";
  o_TrustMounts := [("app", "/etc/ssl/certs/ca-certificates.crt"); ("worker", "/etc/ssl/cert.pem")];
  o_DiscoveryAddress := "istiod.mesh.svc:15012"; o_ProxyConfig := "{}"; o_ProxyEnv := [plain "ISTIO_META_NETWORK" "demo"; plain "HOST_ALIAS" "$(POD_NAME)"];
  o_OriginTrustConfigMap := EmptyString; o_PolicyConfigMap := "policy"; o_Network := tt |}.
(** A networking module that binds the Pod and changes nothing else. *)
Definition demo_expand (p : Pod) (_ : unit) (_ : TrustedSpec) : result string Pod :=
  Ok {| p_Name := p_Name p; p_Namespace := p_Namespace p; p_Labels := <["binding" := "resolved"]> (p_Labels p); p_Annotations := p_Annotations p; p_Spec := p_Spec p; p_rest := p_rest p |}.
Definition demo_policy (_ : unit) : result string unit := Ok tt.
Definition demo_composed : Pod :=
  match ComposePod demo_policy demo_expand (Some demo_pod) demo_options with Ok (p, _) => p | _ => demo_pod end.
Lemma demo_compose : ComposePod demo_policy demo_expand (Some demo_pod) demo_options = Ok (demo_composed, tt).
Proof. vm_compute. reflexivity. Qed.

Lemma compose_isolates_witness : exists q t, compose_local (NetError := string) demo_options demo_pod = Ok (q, t) /\ demo_expand q tt t = Ok demo_composed
  /\ s_AutomountServiceAccountToken (p_Spec q) = Some false
  /\ (forall c, c ∈ s_InitContainers (p_Spec q) ++ s_Containers (p_Spec q) ->
        c ∈ t_InitContainers t ++ t_Containers t \/ business_container demo_options c /\ own_identity (p_Spec q) c)
  /\ (forall c m, c ∈ s_InitContainers (p_Spec q) ++ s_Containers (p_Spec q) -> m ∈ c_VolumeMounts c ->
        vm_Name m ∈ private_volumes ->
        c_Name c = "istio-proxy" \/ c_Name c = "prepare-volumes" /\ vm_Name m <> "istio-token")
  /\ (forall v l s, v ∈ s_Volumes (p_Spec q) -> v_Projected v = Some l -> s ∈ l ->
        pj_ServiceAccountToken s <> None -> v = istio_token).
Proof. exact (compose_isolates demo_policy demo_expand demo_options demo_pod demo_composed tt demo_compose). Defined.
Lemma compose_shape_witness : exists q t cs env, compose_local (NetError := string) demo_options demo_pod = Ok (q, t) /\ demo_expand q tt t = Ok demo_composed /\ demo_policy tt = Ok tt
  /\ s_InitContainers (p_Spec q) = t_InitContainers t ++ s_InitContainers (p_Spec demo_pod)
  /\ map c_Name (t_InitContainers t) =
       (if o_Role demo_options =s= Workload then ["prepare-volumes"; "management-init"; "istio-proxy"; "base-trust"; "trust-init"]
        else ["prepare-volumes"; "management-init"])
  /\ s_Volumes (p_Spec q) = s_Volumes (p_Spec demo_pod) ++ composed_volumes demo_options
  /\ s_SecurityContext (p_Spec q) = s_SecurityContext (p_Spec demo_pod) /\ s_rest (p_Spec q) = s_rest (p_Spec demo_pod)
  /\ p_Name q = p_Name demo_pod /\ p_Namespace q = p_Namespace demo_pod /\ p_Labels q = p_Labels demo_pod /\ p_rest q = p_rest demo_pod
  /\ (forall k, contains_str k "istio.io/" = false -> p_Annotations q !! k = p_Annotations demo_pod !! k)
  /\ s_Containers (p_Spec q) = cs ++ (if o_Role demo_options =s= Workload then [] else [as_regular (composed_proxy demo_options env)])
  /\ Forall2 (mounted (o_TrustMounts demo_options)) (s_Containers (p_Spec demo_pod)) cs
  /\ Forall (has_bundle cs) (o_TrustMounts demo_options)
  /\ (NoDup (map v_Name (s_Volumes (p_Spec demo_pod))) -> NoDup (map v_Name (s_Volumes (p_Spec q)))).
Proof. exact (compose_shape demo_policy demo_expand demo_options demo_pod demo_composed tt demo_compose). Defined.
Lemma compose_deterministic_witness :
  ComposePod demo_policy demo_expand (Some demo_pod)
    (reordered demo_options [("worker", "/etc/ssl/cert.pem"); ("app", "/etc/ssl/certs/ca-certificates.crt")]) = Ok (demo_composed, tt).
Proof.
  apply (compose_deterministic demo_policy demo_expand demo_options demo_pod _ _ demo_compose).
  - apply Permutation_swap.
  - apply (bool_decide_unpack _). vm_compute. exact I.
Defined.
(** A kubelet that knows one variable to expand and one kind of reference. *)
Definition demo_resolve (e : EnvVar) : option string :=
  match e_ValueFrom e with
  | None => Some (if e_Value e =s= "$(POD_NAME)" then "workload-0" else e_Value e)
  | Some _ => Some "resolved"
  end.
Lemma demo_resolve_plain e : e_ValueFrom e = None -> contains_str (e_Value e) "$" = false -> demo_resolve e = Some (e_Value e).
Proof. unfold demo_resolve. intros ->. destruct (String.eqb_spec (e_Value e) "$(POD_NAME)") as [->|]; [by vm_compute|done]. Qed.
Definition demo_vars := proxyEnv demo_options ++ o_ProxyEnv demo_options.
Lemma composed_daemon_config_witness :
  (exists q t, compose_local (NetError := string) demo_options demo_pod = Ok (q, t) /\ demo_expand q tt t = Ok demo_composed /\
     if o_Role demo_options =s= Workload then composed_proxy demo_options demo_vars ∈ s_InitContainers (p_Spec q)
     else as_regular (composed_proxy demo_options demo_vars) ∈ s_Containers (p_Spec q))
  /\ NoDup (map e_Name demo_vars)
  /\ cfg_Role Defaults = o_Role demo_options /\ cfg_ProxyMode Defaults = Istio /\ EnvoyConfig Defaults = EmptyString
  /\ OPAConfig Defaults = "/etc/gateway/opa/" +:+ o_Role demo_options +:+ ".yaml"
  /\ forall name dir, (name, dir) ∈ [("state", StateDir Defaults); ("runtime", RuntimeDir Defaults); ("public", PublicDir Defaults)] ->
     managed_mount name dir false ∈ c_VolumeMounts (composed_proxy demo_options demo_vars).
Proof.
  apply (composed_daemon_config demo_policy demo_expand demo_resolve demo_resolve_plain (fun _ => None) (fun _ _ => eq_refl) (fun r => r) (fun _ => None) (fun _ => None)
    demo_options demo_pod demo_composed tt Defaults demo_compose).
  vm_compute. reflexivity.
Defined.
