(* ===== verification/Main.v ===== *)
(** [cmd/gateway-daemon/main.go]: the daemon binary's command line.  [run] decides
    which of the program's entry points runs and with which inputs; [trust-init]
    parses its flags as the standard library's [flag] package does, and publishes
    the merged trust bundle. *)
From S2P Require Import Prelude GoStrings GoPath Tracing Config Leaf Fs Ca Json Enrollment.

(** ** The standard library's [flag.FlagSet.Parse], for string flags *)
Inductive flag_error := BadSyntax (s : string) | Help | NotDefined (name : string) | NeedsArgument (name : string).
(** [s] after its dashes, when it is a flag: [None] stops the parsing; the empty
    name is the terminator "--". *)
Definition flag_name (s : string) : option string :=
  match s with
  | String "-" (String "-" r) => Some r
  | String "-" (String c r) => Some (String c r)
  | _ => None
  end.
Definition bad_name (name : string) : bool := has_prefix name "-" || has_prefix name "=".
Fixpoint parse_flags (formal : list string) (values : gmap string string) (args : list string)
    : result flag_error (gmap string string * list string) :=
  match args with
  | [] => Ok (values, [])
  | s :: rest =>
      match flag_name s with
      | None => Ok (values, args)
      | Some EmptyString => Ok (values, rest)
      | Some name =>
          if bad_name name then Err (BadSyntax s) else
          let '(name, given) := match cut "=" name with Some (n, v) => (n, Some v) | None => (name, None) end in
          if negb (mem name formal)
          then Err (if (name =s= "help") || (name =s= "h") then Help else NotDefined name)
          else match given, rest with
               | Some v, _ => parse_flags formal (<[name := v]> values) rest
               | None, v :: rest => parse_flags formal (<[name := v]> values) rest
               | None, [] => Err (NeedsArgument name)
               end
      end
  end.

(** ** [trustInit] *)
Definition trust_flags : list string := ["base"; "ca"; "output"].
Definition flag_value (values : gmap string string) (name : string) : string := default EmptyString (values !! name).
Section TrustInit.
Context `{Pki}.
Definition trustInit (args : list string) : io unit :=
  match parse_flags trust_flags ∅ args with
  | Err _ => throw (Message "flag")
  | Panic => of_result Panic
  | Ok (values, rest) =>
      let base := flag_value values "base" in
      let ca := flag_value values "ca" in
      let output := flag_value values "output" in
      io_guard (match rest with [] => false | _ => true end || (base =s= "") || (ca =s= "") || (output =s= ""))
        (Message "trust-init requires --base, --ca and --output")
        (basePEM ← syscall (read_file base);
         caPEM ← syscall (read_file ca);
         match Bundle basePEM caPEM with
         | Ok bundle => WriteAtomic output bundle 420
         | Err _ => throw (Message "bundle")
         | Panic => of_result Panic
         end)
  end.
End TrustInit.

(** ** [run] *)
Inductive invocation :=
| TrustInit (args : list string)
| Ready (c : Config)
| Run (c : Config) (policies : list string)
| ConfigFailed (e : config_error)
| UsageFailed.
(** The loop over the start-up arguments. *)
Fixpoint parse_policies (args : list string) : option (list string) :=
  match args with
  | [] => Some []
  | a :: rest =>
      if negb (a =s= "--policy") then None
      else match rest with
           | [] => None
           | p :: rest => option_map (cons p) (parse_policies rest)
           end
  end.
(** [run] ends in a call of one entry point; [None] is a panic of [Load]. *)
Definition run (load : result (Config * config_error) Config) (args : list string) : option invocation :=
  match args with
  | a :: rest =>
      if a =s= "trust-init" then Some (TrustInit rest) else
      match load with
      | Err (_, e) => Some (ConfigFailed e)
      | Panic => None
      | Ok c =>
          if match rest with [] => a =s= "ready" | _ => false end then Some (Ready c)
          else match parse_policies args with Some ps => Some (Run c ps) | None => Some UsageFailed end
      end
  | [] =>
      match load with
      | Err (_, e) => Some (ConfigFailed e)
      | Panic => None
      | Ok c => Some (Run c [])
      end
  end.

(** ** Properties *)
Lemma parse_policies_Some n args ps : (length args <= n)%nat ->
  parse_policies args = Some ps <-> args = ps ≫= fun p => ["--policy"; p].
Proof.
  revert args ps. induction n as [|n IH]; intros [|a [|p rest]] ps Hn; cbn in Hn |- *; try lia.
  - destruct ps; cbn; naive_solver.
  - destruct ps; cbn; naive_solver.
  - split; [by case_match|]. by destruct ps.
  - destruct (a =s= "--policy") eqn:E; bool_hyps; cbn.
    + subst. destruct ps as [|q ps]; cbn.
      * destruct (parse_policies rest); cbn; naive_solver.
      * split.
        -- destruct (parse_policies rest) as [l|] eqn:El; [|done]. intros [= -> ->]. apply IH in El; [|lia]. by rewrite El.
        -- intros [= -> Hr]. apply IH in Hr; [|lia]. by rewrite Hr.
    + split; [done|]. destruct ps; cbn; naive_solver.
Qed.

(** The arguments of a daemon start are exactly a sequence of "--policy path" pairs, and the
    daemon then gets those paths in their order; any other argument list that is not one of the two
    subcommands is refused, so no argument reaches the embedded OPA. *)
Theorem run_policies_exact c args ps :
  run (Ok c) args = Some (Run c ps) <-> args = ps ≫= fun p => ["--policy"; p].
Proof.
  unfold run. destruct args as [|a rest].
  - destruct ps; cbn; naive_solver.
  - rewrite <- (parse_policies_Some (length (a :: rest)) (a :: rest) ps) by done.
    destruct (a =s= "trust-init") eqn:Et; bool_hyps; [subst; naive_solver|].
    destruct (match rest with [] => a =s= "ready" | _ => false end) eqn:Er.
    + destruct rest; [|done]. bool_hyps. subst. naive_solver.
    + destruct (parse_policies (a :: rest)); naive_solver.
Qed.

(** The command lines the enrollment gives the composed containers are the ones this binary accepts:
    the proxy container starts the daemon with the configured policy and nothing
    else, the trust container's command is a trust-init whose flags name the copy
    the base-trust container makes, the CA certificate in the published directory
    and the bundle file that the application mounts. *)
Theorem composed_command_lines {Network} (o : Options Network) vars load c :
  load = Ok c ->
  run load (c_Args (composed_proxy o vars)) = Some (Run c (if has_policy o then ["/etc/gateway/policy/policy.rego"] else []))
  /\ exists values, run load (tail (c_Command trust_init)) = Some (TrustInit (drop 2 (c_Command trust_init)))
     /\ parse_flags trust_flags ∅ (drop 2 (c_Command trust_init)) = Ok (values, [])
     /\ c_Command (composed_trust o) = ["/bin/cp"; o_TrustPath o; flag_value values "base"]
     /\ flag_value values "ca" = path_join "/public" CACertificateFile
     /\ flag_value values "output" = path_join "/bundle" BundleFile
     /\ managed_mount "public" "/public" true ∈ c_VolumeMounts trust_init
     /\ managed_mount "bundle" "/bundle" false ∈ c_VolumeMounts trust_init
     /\ managed_mount "bundle" "/bundle" false ∈ c_VolumeMounts (composed_trust o).
Proof.
  intros ->. split.
  - unfold composed_proxy. cbn [c_Args]. by destruct (has_policy o).
  - eexists. split; [reflexivity|]. split; [vm_compute; reflexivity|].
    split_and!; try (vm_compute; reflexivity); cbn; rewrite ?elem_of_cons; auto.
Qed.

(** ** The trust bundle *)
Section TrustInit.
Context `{Pki} (args : list string) (w : world).
(** The bundle that the flags and the files ask for. *)
Definition requested_bundle (output bundle : string) : Prop :=
  exists values b c, parse_flags trust_flags ∅ args = Ok (values, [])
  /\ read_file (flag_value values "base") (fs_of w) = Ok (b, fs_of w)
  /\ read_file (flag_value values "ca") (fs_of w) = Ok (c, fs_of w)
  /\ flag_value values "output" = output /\ output <> EmptyString /\ Bundle b c = Ok bundle.
(** What a crash of [s] may find at [output]. *)
Definition old_or_bundle (output : string) (old : option string) (s : fs) : Prop :=
  forall x, possible s output x -> x = old \/ exists d, x = Some d /\ requested_bundle output d.
Definition bundle_post (output : string) (old : option string) (r : result io_error unit) (s : fs) : Prop :=
  old_or_bundle output old s /\
  (r = Ok tt -> exists d b, requested_bundle output d /\ settled s output (Some d) /\ node s output = Some (Regular d 420 b)).

Lemma trustInit_wp output old :
  (forall n, temp_name output n <> output) -> fs_wf (fs_of w) -> settled (fs_of w) output old ->
  (forall values rest, parse_flags trust_flags ∅ args = Ok (values, rest) -> flag_value values "output" = output) ->
  wp true (old_or_bundle output old) (trustInit args) (bundle_post output old) (fs_of w).
Proof.
  intros Htemp Hwf Hset Hout.
  assert (Hold : old_or_bundle output old (fs_of w)) by (intros x Hx; left; by eapply settled_possible).
  assert (Herr : forall r, r <> Ok tt -> bundle_post output old r (fs_of w)) by done.
  unfold trustInit. destruct (parse_flags trust_flags ∅ args) as [[values rest]|e|] eqn:Ef;
    [|apply wp_throw, Herr; done|apply wp_of_result, Herr; done].
  specialize (Hout values rest eq_refl). apply wp_guard; [intros _; by apply Herr|]. intros Hg.
  rewrite !orb_false_iff, !String.eqb_neq in Hg. destruct Hg as (((Hrest & Hb) & Hc) & Ho). destruct rest; [|done].
  apply wp_bind, wp_read_file; [done|intros e; by apply Herr|]. intros b Eb.
  apply wp_bind, wp_read_file; [done|intros e; by apply Herr|].
  intros ca Ec. destruct (Bundle b ca) as [d|e|] eqn:EB; [|apply wp_throw, Herr; done|apply wp_of_result, Herr; done].
  rewrite Hout in *.
  assert (Hreq : requested_bundle output d) by (exists values, b, ca; done).
  eapply wp_conseq.
  - eapply wp_mono; [apply (writeAtomic_wp true output d 420 old Htemp rename_effect (fs_of w) True (fun _ => True) Hwf Hset I)|].
    + intros t Ht. by apply rename_ok.
    + intros r s (Hon & Hr & _). split.
      * intros x Hx. destruct (on_possible _ _ _ _ _ _ Hon x Hx); eauto.
      * intros Hok. destruct (Hr Hok) as (Hs & i & Hi & Hn). exists d, true. split_and!; [done|done|].
        unfold node. by rewrite Hi.
  - intros s Hon x Hx. destruct (on_possible _ _ _ _ _ _ Hon x Hx); eauto.
Qed.
End TrustInit.

(** C31: A trust-init run publishes exactly the requested bundle or changes nothing: interrupted
    anywhere, with any faults and losing what was not synced, a crash finds at the
    output path the old content or the complete merge of the base store and the
    inspection CA that the flags name; success means that merge is durable and
    readable by the application. *)
Theorem trust_init_publishes `{Pki} args w output old :
  (forall n, temp_name output n <> output) -> fs_wf (fs_of w) -> settled (fs_of w) output old ->
  (forall values rest, parse_flags trust_flags ∅ args = Ok (values, rest) -> flag_value values "output" = output) ->
  let '(r, w') := trustInit args w in
  (exists new, log w' = new ++ log w /\ Forall (old_or_bundle args w output old) (fs_of w' :: new)) /\
  (r = Ok tt -> exists d b, requested_bundle args w output d /\ settled (fs_of w') output (Some d)
     /\ node (fs_of w') output = Some (Regular d 420 b)).
Proof.
  intros Htemp Hwf Hset Hout.
  pose proof (trustInit_wp args w output old Htemp Hwf Hset Hout w eq_refl (or_introl eq_refl)) as Hw.
  destruct (trustInit args w) as [r w']. destruct Hw as ((Hon & Hr) & (new & El & Hf) & _).
  split; [|done]. exists new. split; [done|]. by constructor.
Qed.

(** ** Witnesses *)
Definition demo_args : list string := ["--base"; "/bundle/base.pem"; "--ca=/public/inspection-ca.pem"; "--output"; "/run/ca.pem"].
Definition demo_trust_fs : fs :=
  {| dirents := {["/run/ca.pem" := 0%nat; "/bundle/base.pem" := 1%nat; "/public/inspection-ca.pem" := 2%nat]};
     durable := {["/run/ca.pem" := 0%nat; "/bundle/base.pem" := 1%nat; "/public/inspection-ca.pem" := 2%nat]};
     inodes := {[0%nat := Regular "old" 420 true; 1%nat := Regular "-----BEGIN CERTIFICATE-----A;" 420 true;
                 2%nat := Regular "-----BEGIN CERTIFICATE-----C;" 420 true]}; next := 3; flocks := ∅ |}.
Lemma demo_trust_wf : fs_wf demo_trust_fs.
Proof.
  split; cbn; intros p i Hp; repeat (apply lookup_insert_Some in Hp as [[_ <-]|[_ Hp]]; [lia|]);
    apply lookup_singleton_Some in Hp as [_ <-]; lia.
Qed.
Example demo_trust_result :
  node (fs_of (trustInit demo_args (demo_world demo_trust_fs)).2) "/run/ca.pem"
  = Some (Regular "-----BEGIN CERTIFICATE-----A;-----BEGIN CERTIFICATE-----C;" 420 true).
Proof. vm_compute. reflexivity. Qed.
Lemma trust_init_publishes_witness :
  let '(r, w') := trustInit demo_args (demo_world demo_trust_fs) in
  (exists new, log w' = new ++ [] /\ Forall (old_or_bundle demo_args (demo_world demo_trust_fs) "/run/ca.pem" (Some "old")) (fs_of w' :: new)) /\
  (r = Ok tt -> exists d b, requested_bundle demo_args (demo_world demo_trust_fs) "/run/ca.pem" d /\ settled (fs_of w') "/run/ca.pem" (Some d)
     /\ node (fs_of w') "/run/ca.pem" = Some (Regular d 420 b)).
Proof.
  apply (trust_init_publishes demo_args (demo_world demo_trust_fs) "/run/ca.pem" (Some "old")).
  - exact demo_temp.
  - exact demo_trust_wf.
  - split; [reflexivity|]. exists 420. reflexivity.
  - intros values rest. replace (parse_flags trust_flags ∅ demo_args) with
      (Ok (E := flag_error) (list_to_map [("output", "/run/ca.pem"); ("ca", "/public/inspection-ca.pem"); ("base", "/bundle/base.pem")] : gmap string string, @nil string))
      by (vm_compute; reflexivity).
    intros [= <- <-]. reflexivity.
Defined.
Lemma composed_command_lines_witness :
  let o := demo_options in let load := Ok Defaults in
  run load (c_Args (composed_proxy o demo_vars)) = Some (Run Defaults (if has_policy o then ["/etc/gateway/policy/policy.rego"] else []))
  /\ exists values, run load (tail (c_Command trust_init)) = Some (TrustInit (drop 2 (c_Command trust_init)))
     /\ parse_flags trust_flags ∅ (drop 2 (c_Command trust_init)) = Ok (values, [])
     /\ c_Command (composed_trust o) = ["/bin/cp"; o_TrustPath o; flag_value values "base"]
     /\ flag_value values "ca" = path_join "/public" CACertificateFile
     /\ flag_value values "output" = path_join "/bundle" BundleFile
     /\ managed_mount "public" "/public" true ∈ c_VolumeMounts trust_init
     /\ managed_mount "bundle" "/bundle" false ∈ c_VolumeMounts trust_init
     /\ managed_mount "bundle" "/bundle" false ∈ c_VolumeMounts (composed_trust o).
Proof. apply (composed_command_lines demo_options demo_vars (Ok Defaults) Defaults). reflexivity. Defined.
