(* ===== verification/Fixture.v ===== *)
(** [cmd/gateway-e2e-compose]: the static trusted consumer of the enrollment
    boundary.  It composes the two fixture roles, stages their shared policy
    artifacts and emits every policy before any workload.  The YAML and JSON
    decoders and encoder, protobuf, digests, the policy bundle format and the policy
    module's JSON are parameters; documents are decoded values. *)
From stdpp Require Import pretty.
From S2P Require Import Prelude GoStrings GoPath Tracing Config Json Enrollment Main.

(** ** The policy module's types *)
Inductive MatchType := DomainSuffix | Exact.
Record HostMatcher := { hm_Type : MatchType; hm_Value : string }.
Record HTTPMatch := { http_Methods : list string; http_Paths : list string }.
Record GRPCMatch := { grpc_Service : string; grpc_Methods : list string }.
Record Match := { m_Hosts : list HostMatcher; m_HTTP : option HTTPMatch; m_GRPC : option GRPCMatch }.
Inductive Source := Header | Query | Payload | GRPCMetadata.
Inductive Operator := In_ | NotIn | Exists.
Record Requirement := {
  r_Source : Source; r_Name : option string; r_Pointer : option string; r_Operator : Operator; r_Values : list string }.
Record ArtifactRef := { URL : string; Digest : string }.
Inductive Format := FormatJSON | FormatProtobuf.
Record Decoder := { d_Format : Format; d_DescriptorSet : option ArtifactRef }.
Record Constraint := { k_Name : string; k_Match : Match; k_Decode : option Decoder; k_Require : list Requirement }.
Record Policy := { HostDenylist : list HostMatcher; RequestConstraints : list Constraint }.
Record DescriptorFile := { df_URL : string; df_Digest : string; df_Path : string }.
Record ExtensionConfig := { x_Role : string; x_Descriptors : list DescriptorFile; x_AllowedPeers : list string }.

(** ** [sharedPolicy] *)
Definition named_requirement (s : Source) (n : string) (op : Operator) (vs : list string) : Requirement :=
  {| r_Source := s; r_Name := Some n; r_Pointer := None; r_Operator := op; r_Values := vs |}.
Definition payload_requirement (p : string) (op : Operator) (vs : list string) : Requirement :=
  {| r_Source := Payload; r_Name := None; r_Pointer := Some p; r_Operator := op; r_Values := vs |}.
(** The two nested loops. *)
Definition selection (source : Source) : list Requirement :=
  let name n := match source with Header => "x-" +:+ n | _ => n end in
  [named_requirement source (name "in") In_ ["good"; EmptyString];
   named_requirement source (name "not") NotIn ["bad"];
   named_requirement source (name "exists") Exists []].
Definition selectRequirements : list Requirement :=
  ([Header; Query] ≫= selection)
  ++ [payload_requirement "/model" In_ ["good"; EmptyString]; payload_requirement "/blocked" NotIn ["bad"];
      payload_requirement "/items/0/a~1b~0" Exists []; payload_requirement "/" Exists []].
Definition policy_hosts : list HostMatcher := [{| hm_Type := DomainSuffix; hm_Value := "gateway-origin.svc.cluster.local" |}].
Definition policy_values (role : Role) : list string := if role =s= Egress then ["safe"] else ["safe"; "egress-deny"].
Definition policy_deny (role : Role) : HostMatcher :=
  if role =s= Egress then {| hm_Type := DomainSuffix; hm_Value := "blocked-egress.gateway-origin.svc.cluster.local" |}
  else {| hm_Type := Exact; hm_Value := "blocked-workload.gateway-origin.svc.cluster.local" |}.
Definition httpMatch (path : string) : Match :=
  {| m_Hosts := policy_hosts; m_HTTP := Some {| http_Methods := ["POST"]; http_Paths := [path] |}; m_GRPC := None |}.
Definition rpc_match (method : string) : Match :=
  {| m_Hosts := policy_hosts; m_HTTP := None;
     m_GRPC := Some {| grpc_Service := "grpc.health.v1.Health"; grpc_Methods := [method] |} |}.
Definition json_decoder : option Decoder := Some {| d_Format := FormatJSON; d_DescriptorSet := None |}.
Definition protobuf_decoder (r : ArtifactRef) : option Decoder :=
  Some {| d_Format := FormatProtobuf; d_DescriptorSet := Some r |}.
(** The last loop; [refs[i]] is out of range for a missing artifact. *)
Fixpoint view_constraints (role : Role) (i : N) (pointers : list string) (refs : list ArtifactRef) : result string (list Constraint) :=
  match pointers, refs with
  | [], _ => Ok []
  | _ :: _, [] => Panic
  | pointer :: pointers, r :: refs =>
      rest ← view_constraints role (i + 1) pointers refs;
      Ok ({| k_Name := "rpc-view-" +:+ pretty i; k_Match := rpc_match "Check"; k_Decode := protobuf_decoder r;
             k_Require := [payload_requirement pointer In_ (policy_values role); payload_requirement pointer NotIn ["blocked"];
                           payload_requirement pointer Exists []] |} :: rest)
  end.
Definition sharedPolicy (role : Role) (refs : list ArtifactRef) : result string Policy :=
  match refs with
  | [] => Panic
  | first :: _ =>
      views ← view_constraints role 0 ["/service"; "/alias"] refs;
      Ok {| HostDenylist := [policy_deny role];
            RequestConstraints :=
              [{| k_Name := "http-body"; k_Match := httpMatch "/body"; k_Decode := json_decoder;
                  k_Require := [payload_requirement "/action" In_ (policy_values role)] |};
               {| k_Name := "http-selections"; k_Match := httpMatch "/select"; k_Decode := json_decoder; k_Require := selectRequirements |};
               {| k_Name := "rpc-metadata"; k_Match := rpc_match "Check"; k_Decode := None;
                  k_Require := [named_requirement GRPCMetadata "x-role" In_ ["reader"; EmptyString];
                                named_requirement GRPCMetadata "x-not" NotIn ["bad"]; named_requirement GRPCMetadata "x-exists" Exists []] |};
               {| k_Name := "rpc-http-carrier"; k_Match := httpMatch "/grpc.health.v1.Health/Check"; k_Decode := None;
                  k_Require := [named_requirement Header "x-carrier" NotIn ["blocked"]] |};
               {| k_Name := "rpc-stream"; k_Match := rpc_match "Watch"; k_Decode := protobuf_decoder first;
                  k_Require := [payload_requirement "/service" Exists []] |}] ++ views |}
  end.

(** ** [sharedArtifacts] *)
Definition sharedDirectory : string := "/etc/gateway/shared".
Record ConfigMap := { cm_Name : string; cm_Namespace : string; cm_Data : gmap string json; cm_BinaryData : gmap string string }.

Section Artifacts.
(** [proto.Marshal] of a view of the descriptor set; [sha256] in hex; the bundle
    builder; the JSON of the two policy module types; the plugin's names. *)
Context (marshal_view : string -> option string) (sha256 : string -> string)
        (BuildExecution : Policy -> string -> option string)
        (config_json : ExtensionConfig -> json) (policy_json : Policy -> json)
        (PluginName DecisionPath : string).

Definition or_fail {A} (e : string) (a : option A) : result string A := match a with Some a => Ok a | None => Err e end.
(** One turn of the loop over the views: the artifacts and their bytes so far. *)
Definition view_artifact (acc : list (ArtifactRef * DescriptorFile) * gmap string string) (view : string)
    : result string (list (ArtifactRef * DescriptorFile) * gmap string string) :=
  raw ← or_fail "marshal" (marshal_view view);
  let name := view +:+ ".pb" in
  let ref := {| URL := "https://fixture.example/" +:+ name; Digest := "sha256:" +:+ sha256 raw |} in
  Ok (acc.1 ++ [(ref, {| df_URL := URL ref; df_Digest := Digest ref; df_Path := sharedDirectory +:+ "/" +:+ name |})],
      <[name := raw]> acc.2).
Definition opa_document (role : Role) (cfg : ExtensionConfig) : json :=
  object [("plugins", object [(PluginName, config_json cfg);
             ("envoy_ext_authz_grpc", object [("path", JString DecisionPath); ("skip-request-body-parse", JBool true)])]);
          ("services", object [("fixture", object [("url", JString "http://policy-publisher.gateway-test.svc:8085")])]);
          ("bundles", object [("workload", object [("service", JString "fixture"); ("resource", JString ("bundles/" +:+ role));
             ("polling", object [("min_delay_seconds", JNumber "1"); ("max_delay_seconds", JNumber "1")])])]);
          ("status", object [("console", JBool true)])].
Definition sharedArtifacts (role : Role) : result string ConfigMap :=
  '(views, binary) ← for_each view_artifact ([], ∅) ["service"; "alias"];
  let cfg := {| x_Role := role; x_Descriptors := map snd views;
                x_AllowedPeers := if role =s= Egress then ["spiffe://cluster.local/ns/gateway-test/sa/workload"] else [] |} in
  policy ← sharedPolicy role (map fst views);
  archive ← or_fail "bundle" (BuildExecution policy ("fixture-" +:+ role));
  Ok {| cm_Name := role +:+ "-shared"; cm_Namespace := "gateway-test";
        cm_Data := <["policy.json" := policy_json policy]> {["opa.json" := opa_document role cfg]};
        cm_BinaryData := <["workload.tar.gz" := archive]> binary |}.
End Artifacts.

(** ** [attachShared] *)
Definition attach_container (c : Container) : Container :=
  if negb (c_Name c =s= "istio-proxy") then c
  else add_mount (managed_mount "gateway-shared" sharedDirectory true)
         (set_env (c_Env c ++ [plain EnvOPAConfig (sharedDirectory +:+ "/opa.json")]) (set_args [] c)).
Definition attachShared (p : Pod) (cm : ConfigMap) : Pod :=
  let s := p_Spec p in
  {| p_Name := p_Name p; p_Namespace := p_Namespace p; p_Labels := p_Labels p; p_Annotations := p_Annotations p;
     p_rest := p_rest p; p_Spec := {| s_AutomountServiceAccountToken := s_AutomountServiceAccountToken s;
       s_Volumes := s_Volumes s ++ [config_map "gateway-shared" (cm_Name cm)];
       s_InitContainers := map attach_container (s_InitContainers s);
       s_Containers := map attach_container (s_Containers s);
       s_SecurityContext := s_SecurityContext s; s_rest := s_rest s |} |}.

(** ** [compose] *)
Record identity := { i_Kind : string; i_Name : string; i_Namespace : string }.
(** A Deployment is its Pod template and everything else. *)
Record Deployment := { template : Pod; dp_rest : json }.
Inductive artifact (Spec : Type) :=
| NetworkPolicy (name namespace : string) (spec : Spec)
| Shared (cm : ConfigMap)
| Verbatim (item : json)
| ComposedPod (p : Pod)
| ComposedDeployment (d : Deployment).
Arguments NetworkPolicy {Spec}. Arguments Shared {Spec}. Arguments Verbatim {Spec}.
Arguments ComposedPod {Spec}. Arguments ComposedDeployment {Spec}.

Section Compose.
Context {Network Spec NetError : Type}
        (ExpandPolicy : Network -> result NetError Spec) (ExpandPod : Pod -> Network -> TrustedSpec -> result NetError Pod)
        (artifacts : Role -> result string ConfigMap)
        (decode_list : string -> option (list json)) (decode_options : string -> option (gmap string (Options Network)))
        (decode_identity : json -> option identity)
        (decode_pod : json -> option Pod) (decode_deployment : json -> option Deployment)
        (yaml_Marshal : list (artifact Spec) -> option string).
Inductive fixture_error :=
| Undecodable | Unencodable | MissingOrDuplicate (name : string) | ComposeFailed (name : string) (e : compose_error NetError)
| ArtifactsFailed (e : string) | RolesMissing.

(** The state of the loop over the items. *)
Record progress := { policies : list (artifact Spec); resources : list (artifact Spec); seen : gset string }.
(** The business Pod of a Deployment: its template under the Deployment's name. *)
Definition business_of (id : identity) (p : Pod) : Pod :=
  {| p_Name := i_Name id; p_Namespace := i_Namespace id; p_Labels := p_Labels p; p_Annotations := p_Annotations p;
     p_Spec := p_Spec p; p_rest := p_rest p |}.
(** The template with the Spec, labels and annotations of the composed Pod. *)
Definition put_back (d : Deployment) (p : Pod) : Deployment :=
  {| template := {| p_Name := p_Name (template d); p_Namespace := p_Namespace (template d);
                    p_Labels := p_Labels p; p_Annotations := p_Annotations p; p_Spec := p_Spec p;
                    p_rest := p_rest (template d) |}; dp_rest := dp_rest d |}.
(** What the [switch] selects: the business Pod of the item, and how its composition
    is put back. *)
Definition select (item : json) : result fixture_error (option (Pod * (Pod -> artifact Spec))) :=
  match decode_identity item with
  | None => Err Undecodable
  | Some id =>
      if (i_Kind id =s= "Pod") && (i_Name id =s= "workload") then
        match decode_pod item with
        | None => Err Undecodable
        | Some p => Ok (Some (p, ComposedPod))
        end
      else if (i_Kind id =s= "Deployment") && (i_Name id =s= "egress") then
        match decode_deployment item with
        | None => Err Undecodable
        | Some d => Ok (Some (business_of id (template d), fun p => ComposedDeployment (put_back d p)))
        end
      else Ok None
  end.
Definition compose_item (options : gmap string (Options Network)) (s : progress) (item : json) : result fixture_error progress :=
  r ← select item;
  match r with
  | None => Ok {| policies := policies s; resources := resources s ++ [Verbatim item]; seen := seen s |}
  | Some (business, rebuild) =>
      let name := p_Name business in
      match options !! name with
      | None => Err (MissingOrDuplicate name)
      | Some o =>
          if bool_decide (name ∈ seen s) then Err (MissingOrDuplicate name) else
          match ComposePod ExpandPolicy ExpandPod (Some business) o with
          | Panic => Panic
          | Err e => Err (ComposeFailed name e)
          | Ok (pod, spec) =>
              match artifacts (o_Role o) with
              | Panic => Panic
              | Err e => Err (ArtifactsFailed e)
              | Ok shared =>
                  Ok {| policies := policies s ++ [NetworkPolicy ("gateway-" +:+ name) (p_Namespace business) spec; Shared shared];
                        resources := resources s ++ [rebuild (attachShared pod shared)];
                        seen := {[name]} ∪ seen s |}
              end
          end
      end
  end.
Definition compose_list (options : gmap string (Options Network)) (items : list json)
    : result fixture_error (list (artifact Spec)) :=
  s ← for_each (compose_item options) {| policies := []; resources := []; seen := ∅ |} items;
  if bool_decide ("workload" ∈ seen s) && bool_decide ("egress" ∈ seen s)
  then Ok (policies s ++ resources s) else Err RolesMissing.
Definition required {A} (e : fixture_error) (a : option A) : result fixture_error A :=
  match a with Some a => Ok a | None => Err e end.
Definition compose (raw opts : string) : result fixture_error string :=
  items ← required Undecodable (decode_list raw);
  options ← required Undecodable (decode_options opts);
  out ← compose_list options items;
  required Unencodable (yaml_Marshal out).
End Compose.

(** ** What a composition emits *)
Section Exact.
Context {Network Spec NetError : Type}
        (ExpandPolicy : Network -> result NetError Spec) (ExpandPod : Pod -> Network -> TrustedSpec -> result NetError Pod)
        (artifacts : Role -> result string ConfigMap)
        (decode_list : string -> option (list json)) (decode_options : string -> option (gmap string (Options Network)))
        (decode_identity : json -> option identity)
        (decode_pod : json -> option Pod) (decode_deployment : json -> option Deployment)
        (yaml_Marshal : list (artifact Spec) -> option string).
Local Abbreviation sel := (select (Spec := Spec) (NetError := NetError) decode_identity decode_pod decode_deployment).
Local Abbreviation cmp := (compose ExpandPolicy ExpandPod artifacts decode_list decode_options decode_identity decode_pod
  decode_deployment yaml_Marshal).
Local Abbreviation cmp_list := (compose_list ExpandPolicy ExpandPod artifacts decode_identity decode_pod decode_deployment).
Local Abbreviation step := (compose_item ExpandPolicy ExpandPod artifacts decode_identity decode_pod decode_deployment).
Implicit Types options : gmap string (Options Network).

(** The two fixture roles and everything else. *)
Inductive selected (item : json) : option (Pod * (Pod -> artifact Spec)) -> Prop :=
| SelectPod id p :
    decode_identity item = Some id -> i_Kind id = "Pod" -> i_Name id = "workload" -> decode_pod item = Some p ->
    selected item (Some (p, ComposedPod))
| SelectDeployment id d :
    decode_identity item = Some id -> i_Kind id = "Deployment" -> i_Name id = "egress" -> decode_deployment item = Some d ->
    selected item (Some ({| p_Name := "egress"; p_Namespace := i_Namespace id; p_Labels := p_Labels (template d);
      p_Annotations := p_Annotations (template d); p_Spec := p_Spec (template d); p_rest := p_rest (template d) |},
      fun p => ComposedDeployment (put_back d p)))
| SelectNone id :
    decode_identity item = Some id -> ~ (i_Kind id = "Pod" /\ i_Name id = "workload") ->
    ~ (i_Kind id = "Deployment" /\ i_Name id = "egress") -> selected item None.
Lemma select_Ok item r : sel item = Ok r <-> selected item r.
Proof.
  assert (Hb : forall a b c d, (a =s= b) && (c =s= d) = true <-> a = b /\ c = d)
    by (intros; by rewrite andb_true_iff, !String.eqb_eq).
  unfold select. split.
  - destruct (decode_identity item) as [id|] eqn:Hid; [|done].
    destruct ((i_Kind id =s= "Pod") && _) eqn:E1.
    { apply Hb in E1 as [? ?]. destruct (decode_pod item) as [p|] eqn:Hp; [|done]. intros [= <-]. by eapply SelectPod. }
    destruct ((i_Kind id =s= "Deployment") && _) eqn:E2.
    { apply Hb in E2 as [? ?]. destruct (decode_deployment item) as [d|] eqn:Hd; [|done]. intros [= <-].
      unfold business_of. replace (i_Name id) with "egress". by eapply SelectDeployment. }
    intros [= <-]. apply not_true_iff_false in E1, E2. rewrite Hb in E1, E2. by eapply SelectNone.
  - intros [id p Hid H1 H2 Hp|id d Hid H1 H2 Hd|id Hid H1 H2]; rewrite Hid.
    + by rewrite H1, H2, Hp.
    + rewrite H1, H2, Hd. unfold business_of. by rewrite H2.
    + rewrite <- Hb, not_true_iff_false in H1, H2. by rewrite H1, H2.
Qed.

(** The policies and the resource one item becomes. *)
Inductive emitted options (item : json) : list (artifact Spec) * artifact Spec -> Prop :=
| EmitVerbatim : selected item None -> emitted options item ([], Verbatim item)
| EmitComposed b rebuild o pod spec shared :
    selected item (Some (b, rebuild)) -> options !! p_Name b = Some o ->
    ComposePod ExpandPolicy ExpandPod (Some b) o = Ok (pod, spec) -> artifacts (o_Role o) = Ok shared ->
    emitted options item ([NetworkPolicy ("gateway-" +:+ p_Name b) (p_Namespace b) spec; Shared shared],
                          rebuild (attachShared pod shared)).
(** The name an item is composed under. *)
Definition composed_name (item : json) : list string :=
  match sel item with Ok (Some (b, _)) => [p_Name b] | _ => [] end.

Lemma compose_item_Ok options s item s' :
  step options s item = Ok s' <->
  exists e, emitted options item e
    /\ policies s' = policies s ++ e.1 /\ resources s' = resources s ++ [e.2]
    /\ seen s' = list_to_set (composed_name item) ∪ seen s
    /\ Forall (fun n => n ∉ seen s) (composed_name item).
Proof.
  unfold compose_item, composed_name. destruct s as [ps rs sn], s' as [ps' rs' sn']. cbn [policies resources seen].
  destruct (sel item) as [[[b rebuild]|]|err|] eqn:Hsel; cbn [mbind result_bind].
  - split.
    + destruct (options !! p_Name b) as [o|] eqn:Ho; [|done].
      case_bool_decide as Hs; [done|]. destruct (ComposePod _ _ _ _) as [[pod spec]| |] eqn:Hc; [|done..].
      destruct (artifacts (o_Role o)) as [shared| |] eqn:Ha; [|done..]. intros [= <- <- <-].
      eexists. split; [by eapply EmitComposed; [apply select_Ok|..]|]. cbn. split_and!; [done|done|set_solver|by repeat constructor].
    + intros (e & He & -> & -> & -> & Hn). inversion He as [|b' rb o pod spec shared Hs Ho Hc Ha]; subst.
      { apply select_Ok in H. congruence. }
      apply select_Ok in Hs. rewrite Hsel in Hs. injection Hs as <- <-. rewrite Ho.
      apply Forall_cons in Hn as [Hn _]. rewrite bool_decide_false by done. rewrite Hc, Ha.
      do 2 f_equal. set_solver.
  - split.
    + intros [= <- <- <-]. exists ([], Verbatim item). split; [by constructor; apply select_Ok|]. cbn.
      split_and!; [by rewrite app_nil_r|done|set_solver|constructor].
    + intros (e & He & -> & -> & -> & Hn). inversion He as [|b rb o pod spec shared Hs]; subst; [|apply select_Ok in Hs; congruence]. cbn.
      do 2 f_equal; [by rewrite app_nil_r|set_solver].
  - split; [done|]. intros (e & He & _). inversion He; subst; by edestruct select_Ok as [_ Hx]; rewrite Hx in Hsel.
  - split; [done|]. intros (e & He & _). inversion He; subst; by edestruct select_Ok as [_ Hx]; rewrite Hx in Hsel.
Qed.
Lemma compose_items_Ok options items : forall s s',
  for_each (step options) s items = Ok s' <->
  exists es, Forall2 (emitted options) items es
    /\ policies s' = policies s ++ (es ≫= fst) /\ resources s' = resources s ++ map snd es
    /\ seen s' = list_to_set (items ≫= composed_name) ∪ seen s
    /\ NoDup (items ≫= composed_name) /\ Forall (fun n => n ∉ seen s) (items ≫= composed_name).
Proof.
  induction items as [|item items IH]; intros s s'; cbn [for_each].
  - split.
    + intros [= <-]. exists []. cbn. rewrite !app_nil_r. split_and!; [constructor|done|done|set_solver|constructor|constructor].
    + intros (es & He & Hp & Hr & Hs & _). apply Forall2_nil_inv_l in He as ->. cbn in *.
      rewrite app_nil_r in Hp, Hr. destruct s as [ps rs sn], s' as [ps' rs' sn']; cbn in *. subst. do 2 f_equal. set_solver.
  - split.
    + destruct (step options s item) as [s1|e|] eqn:H1; [|done..]. intros H2.
      apply compose_item_Ok in H1 as (e & He & Hp & Hr & Hs & Hn). apply IH in H2 as (es & Hes & Hp2 & Hr2 & Hs2 & Hd & Hn2).
      exists (e :: es). rewrite !bind_cons. cbn [map]. split_and!.
      * by constructor.
      * by rewrite Hp2, Hp, <- app_assoc.
      * by rewrite Hr2, Hr, <- app_assoc.
      * rewrite Hs2, Hs, list_to_set_app_L. set_solver.
      * apply NoDup_app. split_and!; [|intros n Hn1 Hn2'|done].
        -- unfold composed_name. case_match; [|apply NoDup_nil_2..]. case_match; [|apply NoDup_nil_2]. repeat case_match. apply NoDup_singleton.
        -- rewrite list.Forall_forall in Hn2. apply (Hn2 n Hn2'). rewrite Hs. set_solver.
      * apply Forall_app. split; [done|]. eapply Forall_impl; [exact Hn2|]. intros n Hn1. rewrite Hs in Hn1. set_solver.
    + intros (es & He & Hp & Hr & Hs & Hd & Hn). apply Forall2_cons_inv_l in He as (e & es' & He & Hes & ->).
      rewrite !bind_cons in *. cbn [map] in *. apply NoDup_app in Hd as (Hd1 & Hd2 & Hd). apply Forall_app in Hn as [Hn1 Hn2].
      set (s1 := {| policies := policies s ++ e.1; resources := resources s ++ [e.2];
                    seen := list_to_set (composed_name item) ∪ seen s |}).
      assert (H1 : step options s item = Ok s1) by (apply compose_item_Ok; exists e; done).
      rewrite H1. apply IH. exists es'. cbn. split_and!; [done| | | |done|].
      * by rewrite Hp, <- app_assoc.
      * by rewrite Hr, <- app_assoc.
      * rewrite Hs, list_to_set_app_L. set_solver.
      * rewrite list.Forall_forall in Hn2 |- *. intros n Hn. specialize (Hn2 n Hn). specialize (Hd2 n). set_solver.
Qed.

Lemma compose_list_Ok options items out :
  cmp_list options items = Ok out <->
  exists es, Forall2 (emitted options) items es /\ out = (es ≫= fst) ++ map snd es
    /\ NoDup (items ≫= composed_name) /\ "workload" ∈ items ≫= composed_name /\ "egress" ∈ items ≫= composed_name.
Proof.
  unfold compose_list. rewrite bind_Ok. split.
  - intros (s & Hs & H). apply compose_items_Ok in Hs as (es & He & Hp & Hr & Hs & Hd & _). cbn in Hp, Hr, Hs.
    destruct (bool_decide _ && bool_decide _) eqn:Hb; [|done]. injection H as <-.
    apply andb_prop in Hb as [Hb1%bool_decide_eq_true Hb2%bool_decide_eq_true]. rewrite Hs in Hb1, Hb2.
    exists es. rewrite Hp, Hr. split_and!; [done|done|done|set_solver|set_solver].
  - intros (es & He & -> & Hd & Hw & Hg).
    exists {| policies := es ≫= fst; resources := map snd es; seen := list_to_set (items ≫= composed_name) ∪ ∅ |}.
    split.
    + apply compose_items_Ok. exists es. cbn. split_and!; try done. apply list.Forall_forall. set_solver.
    + cbn [seen policies resources]. rewrite !bool_decide_true by set_solver. done.
Qed.
Lemma required_Ok {A} e (a : option A) x : required (NetError := NetError) e a = Ok x <-> a = Some x.
Proof. destruct a; cbn; naive_solver. Qed.

(** C36: The command emits exactly the composition of its input, and every policy before any
    resource: it succeeds exactly when both files decode, each item is passed through or
    is a fixture role with trusted options that composes, under the name and namespace of
    the Pod or of the Deployment, each role is composed at most once and
    both are, and the result encodes; the output is then the network policies and shared
    artifacts of the composed items followed by one resource per item in input order,
    the composed ones with the shared inputs attached. *)
Theorem compose_exact raw opts out :
  cmp raw opts = Ok out <->
  exists items options es, decode_list raw = Some items /\ decode_options opts = Some options
    /\ Forall2 (emitted options) items es
    /\ NoDup (items ≫= composed_name) /\ "workload" ∈ items ≫= composed_name /\ "egress" ∈ items ≫= composed_name
    /\ yaml_Marshal ((es ≫= fst) ++ map snd es) = Some out.
Proof.
  unfold compose. rewrite bind_Ok. setoid_rewrite bind_Ok. setoid_rewrite bind_Ok. setoid_rewrite required_Ok.
  setoid_rewrite compose_list_Ok. split.
  - intros (items & Hi & options & Ho & l & (es & He & -> & Hn & Hw & Hg) & Hy). by exists items, options, es.
  - intros (items & options & es & Hi & Ho & He & Hn & Hw & Hg & Hy). exists items. split; [done|]. exists options. split; [done|].
    eexists. split; [|exact Hy]. by exists es.
Qed.
End Exact.

(** ** The shared inputs *)
Section Shared.
Context (marshal_view : string -> option string) (sha256 : string -> string)
        (BuildExecution : Policy -> string -> option string)
        (config_json : ExtensionConfig -> json) (policy_json : Policy -> json)
        (PluginName DecisionPath : string).
Local Abbreviation shared := (sharedArtifacts marshal_view sha256 BuildExecution config_json policy_json PluginName DecisionPath).

(** The artifact and the staged file of a view with content [raw]. *)
Definition view_ref (view raw : string) : ArtifactRef :=
  {| URL := "https://fixture.example/" +:+ (view +:+ ".pb"); Digest := "sha256:" +:+ sha256 raw |}.
Definition view_file (view raw : string) : DescriptorFile :=
  {| df_URL := URL (view_ref view raw); df_Digest := Digest (view_ref view raw); df_Path := sharedDirectory +:+ "/" +:+ (view +:+ ".pb") |}.
Definition shared_config (role : Role) (r1 r2 : string) : ExtensionConfig :=
  {| x_Role := role; x_Descriptors := [view_file "service" r1; view_file "alias" r2];
     x_AllowedPeers := if role =s= Egress then ["spiffe://cluster.local/ns/gateway-test/sa/workload"] else [] |}.
Lemma sharedPolicy_refs role r1 r2 : exists policy, sharedPolicy role [r1; r2] = Ok policy /\
  forall k d r, k ∈ RequestConstraints policy -> k_Decode k = Some d -> d_DescriptorSet d = Some r -> r ∈ [r1; r2].
Proof.
  eexists. split; [reflexivity|]. intros k d r Hk Hd Hr. cbn [RequestConstraints app] in Hk.
  repeat (apply elem_of_cons in Hk as [->|Hk];
    [cbn in Hd; try discriminate Hd; injection Hd as <-; cbn in Hr; try discriminate Hr; injection Hr as <-; set_solver|]).
  by apply not_elem_of_nil in Hk.
Qed.
#[local] Arguments sharedPolicy : simpl never.
Lemma shared_cases role :
  match shared role with
  | Panic => False
  | Err _ => True
  | Ok cm => exists r1 r2 policy archive,
      marshal_view "service" = Some r1 /\ marshal_view "alias" = Some r2
      /\ sharedPolicy role [view_ref "service" r1; view_ref "alias" r2] = Ok policy
      /\ BuildExecution policy ("fixture-" +:+ role) = Some archive
      /\ cm = {| cm_Name := role +:+ "-shared"; cm_Namespace := "gateway-test";
                 cm_Data := <["policy.json" := policy_json policy]>
                              {["opa.json" := opa_document config_json PluginName DecisionPath role (shared_config role r1 r2)]};
                 cm_BinaryData := <["workload.tar.gz" := archive]> (<["alias.pb" := r2]> {["service.pb" := r1]}) |}
  end.
Proof.
  unfold sharedArtifacts. cbn [for_each]. unfold view_artifact. destruct (marshal_view "service") as [r1|]; cbn; [|done].
  destruct (marshal_view "alias") as [r2|]; cbn; [|done].
  destruct (sharedPolicy_refs role (view_ref "service" r1) (view_ref "alias" r2)) as (policy & Hp & _).
  match goal with |- context [sharedPolicy role ?l] => change (sharedPolicy role l) with (sharedPolicy role [view_ref "service" r1; view_ref "alias" r2]) end.
  rewrite Hp. cbn. destruct (BuildExecution policy _) as [archive|] eqn:Hb; cbn; [|done].
  exists r1, r2, policy, archive. done.
Qed.

(** The staged policy inputs of a role are consistent, and preparing them never indexes past the
    artifacts: the runtime input names the role and exactly files of the same config
    map, each with the digest of its content; every descriptor set the policy refers to is one of them; and the
    bundle in the map is the one built from the policy in the map. *)
Theorem shared_inputs_consistent role :
  shared role <> Panic /\ forall cm, shared role = Ok cm ->
  exists cfg policy archive,
    cm_Data cm !! "opa.json" = Some (opa_document config_json PluginName DecisionPath role cfg) /\ x_Role cfg = role
    /\ cm_Data cm !! "policy.json" = Some (policy_json policy)
    /\ cm_BinaryData cm !! "workload.tar.gz" = Some archive /\ BuildExecution policy ("fixture-" +:+ role) = Some archive
    /\ (forall d, d ∈ x_Descriptors cfg -> exists name raw, df_Path d = sharedDirectory +:+ "/" +:+ name
         /\ cm_BinaryData cm !! name = Some raw /\ df_Digest d = "sha256:" +:+ sha256 raw)
    /\ (forall k d r, k ∈ RequestConstraints policy -> k_Decode k = Some d -> d_DescriptorSet d = Some r ->
         exists f, f ∈ x_Descriptors cfg /\ df_URL f = URL r /\ df_Digest f = Digest r).
Proof.
  pose proof (shared_cases role) as H. split; [intros E; by rewrite E in H|]. intros cm Hcm. rewrite Hcm in H.
  destruct H as (r1 & r2 & policy & archive & _ & _ & Hp & Hb & ->).
  exists (shared_config role r1 r2), policy, archive. cbn [cm_Data cm_BinaryData x_Role shared_config]. split_and!.
  - by rewrite lookup_insert_ne, lookup_singleton_eq by done.
  - done.
  - by rewrite lookup_insert_eq.
  - by rewrite lookup_insert_eq.
  - done.
  - intros d Hd. apply elem_of_cons in Hd as [->|Hd]; [exists "service.pb", r1|apply elem_of_cons in Hd as [->|Hd]; [exists "alias.pb", r2|by apply not_elem_of_nil in Hd]].
    + split; [done|]. by rewrite !lookup_insert_ne, lookup_singleton_eq by done.
    + split; [done|]. by rewrite lookup_insert_ne, lookup_insert_eq by done.
  - intros k d r Hk Hd Hr. destruct (sharedPolicy_refs role (view_ref "service" r1) (view_ref "alias" r2)) as (policy' & Hp' & Hrefs).
    rewrite Hp in Hp'. injection Hp' as <-. specialize (Hrefs k d r Hk Hd Hr).
    apply elem_of_cons in Hrefs as [->|Hrefs]; [|apply elem_of_cons in Hrefs as [->|Hrefs]; [|by apply not_elem_of_nil in Hrefs]].
    + exists (view_file "service" r1). split; [apply elem_of_cons; by left|done].
    + exists (view_file "alias" r2). split; [apply elem_of_cons; right; apply elem_of_cons; by left|done].
Qed.
End Shared.

(** ** The proxy with the shared inputs *)
Section Attached.
Context (resolve : EnvVar -> option string)
  (resolve_plain : forall e, e_ValueFrom e = None -> contains_str (e_Value e) "$" = false -> resolve e = Some (e_Value e))
  (base_env : env).
Lemma attach_mounts c m : m ∈ c_VolumeMounts (attach_container c) ->
  m ∈ c_VolumeMounts c \/ c_Name c = "istio-proxy" /\ m = managed_mount "gateway-shared" sharedDirectory true.
Proof.
  unfold attach_container. destruct (c_Name c =s= "istio-proxy") eqn:E; bool_hyps; cbn; [|by left].
  rewrite elem_of_app, list_elem_of_singleton. tauto.
Qed.
Lemma attach_other c : c_Name c <> "istio-proxy" -> attach_container c = c.
Proof. intros H. unfold attach_container. by rewrite (proj2 (String.eqb_neq _ _) H). Qed.

(** Attaching the shared inputs reaches the proxy alone, and it is what its daemon then runs
    with: a container that is not the proxy is unchanged, no other container gets
    the mount, and the attached composed proxy is started without policy arguments
    and, whatever the caller added to its environment, loads the staged runtime
    input from the mounted directory with its composed role. *)
Theorem attached_inputs_private ul up pf {Network} (o : Options Network) p cm c :
  Forall caller_env (o_ProxyEnv o) -> contains_str (o_Role o) "$" = false ->
  let attached := attach_container (composed_proxy o (proxyEnv o ++ o_ProxyEnv o)) in
  Load ul up pf (lookup_env resolve base_env (c_Env attached)) = Ok c ->
  (forall x, c_Name x <> "istio-proxy" -> attach_container x = x)
  /\ (forall x m, x ∈ s_InitContainers (p_Spec (attachShared p cm)) ++ s_Containers (p_Spec (attachShared p cm)) ->
       m ∈ c_VolumeMounts x -> vm_Name m = "gateway-shared" ->
       (exists y, y ∈ s_InitContainers (p_Spec p) ++ s_Containers (p_Spec p) /\ m ∈ c_VolumeMounts y)
       \/ c_Name x = "istio-proxy" /\ vm_ReadOnly m = true)
  /\ run (Ok c) (c_Args attached) = Some (Run c [])
  /\ cfg_Role c = o_Role o /\ OPAConfig c = sharedDirectory +:+ "/opa.json"
  /\ managed_mount "gateway-shared" sharedDirectory true ∈ c_VolumeMounts attached.
Proof.
  intros Hc Hrole attached HL. split; [exact attach_other|]. split.
  - intros x m Hx Hm _. cbn [attachShared p_Spec s_InitContainers s_Containers] in Hx.
    rewrite <- map_app in Hx. apply list_elem_of_fmap in Hx as (y & -> & Hy).
    apply attach_mounts in Hm as [Hm|[Hn ->]]; [by left; exists y|]. right. split; [|done].
    unfold attach_container. by destruct (negb _).
  - apply Load_Ok in HL as (_ & _ & tr & _ & -> & _). unfold resolved, env_or. cbn [cfg_Role OPAConfig].
    assert (HR : lookup_env resolve base_env (c_Env attached) EnvRole = Some (o_Role o))
      by (unfold lookup_env; replace (find_env _ _) with (Some (plain EnvRole (o_Role o))) by reflexivity;
          cbn [mbind option_bind]; by rewrite resolve_plain).
    assert (HO : lookup_env resolve base_env (c_Env attached) EnvOPAConfig = Some (sharedDirectory +:+ "/opa.json")).
    { change (c_Env attached) with ((proxyEnv o ++ o_ProxyEnv o) ++ [plain EnvOPAConfig (sharedDirectory +:+ "/opa.json")]).
      unfold lookup_env. rewrite !find_env_app, (find_caller (o_ProxyEnv o) EnvOPAConfig) by auto.
      replace (find_env (proxyEnv o) _) with (@None EnvVar) by reflexivity.
      replace (find_env [_] _) with (Some (plain EnvOPAConfig (sharedDirectory +:+ "/opa.json"))) by reflexivity.
      cbn [mbind option_bind]. by rewrite resolve_plain. }
    rewrite HR, HO. split_and!; [reflexivity|reflexivity|reflexivity|].
    change (c_VolumeMounts attached) with (c_VolumeMounts (composed_proxy o (proxyEnv o ++ o_ProxyEnv o))
      ++ [managed_mount "gateway-shared" sharedDirectory true]).
    apply elem_of_app. right. apply list_elem_of_singleton. done.
Qed.
End Attached.

(** ** Witnesses *)
Lemma attached_inputs_private_witness :
  let attached := attach_container (composed_proxy demo_options (proxyEnv demo_options ++ o_ProxyEnv demo_options)) in
  let c := set_OPAConfig Defaults "/etc/gateway/shared/opa.json" in
  let cm := {| cm_Name := "workload-shared"; cm_Namespace := "gateway-test"; cm_Data := ∅; cm_BinaryData := ∅ |} in
  (forall x, c_Name x <> "istio-proxy" -> attach_container x = x)
  /\ (forall x m, x ∈ s_InitContainers (p_Spec (attachShared demo_composed cm)) ++ s_Containers (p_Spec (attachShared demo_composed cm)) ->
       m ∈ c_VolumeMounts x -> vm_Name m = "gateway-shared" ->
       (exists y, y ∈ s_InitContainers (p_Spec demo_composed) ++ s_Containers (p_Spec demo_composed) /\ m ∈ c_VolumeMounts y)
       \/ c_Name x = "istio-proxy" /\ vm_ReadOnly m = true)
  /\ run (Ok c) (c_Args attached) = Some (Run c [])
  /\ cfg_Role c = o_Role demo_options /\ OPAConfig c = sharedDirectory +:+ "/opa.json"
  /\ managed_mount "gateway-shared" sharedDirectory true ∈ c_VolumeMounts attached.
Proof.
  apply (attached_inputs_private demo_resolve demo_resolve_plain (fun _ => None) (fun r => r) (fun _ => None) (fun _ => None) demo_options).
  - repeat constructor; discriminate.
  - vm_compute. reflexivity.
  - vm_compute. reflexivity.
Defined.
