(* ===== verification/Environment.v ===== *)
(** [test/e2e/environment/environment.go] and the mode switch of
    [cmd/gateway-e2e/main.go]: who owns the acceptance cluster.  Phases are shell
    scripts, so a phase is a parameter that may fail and change the state
    directory in any way; the model keeps the two files ownership depends on, the
    environment record and the node receipt, and a trace of the phases, each with
    the files it started from. *)
From S2P Require Import Prelude GoStrings GoPath Tracing Fs Leaf Ca Json Enrollment Main.

(** [Config]. *)
Record EnvConfig := { Root : string; Cluster : string; Kubeconfig : string; Image : string; StateDir : string; Artifacts : string }.
#[export] Instance EnvConfig_eq_dec : EqDecision EnvConfig.
Proof. solve_decision. Defined.
(** [environment.json]: a whole record, or something that does not decode. *)
Inductive content := Saved (c : EnvConfig) | Garbage.
Inductive stat := Missing | Present | StatFails.
Record files := { record : option content; node : stat }.
Inductive step := Phase (name : string) | Tests.
#[export] Instance step_eq_dec : EqDecision step.
Proof. solve_decision. Defined.
Record env := { env_files : files; trace : list (step * files) }.
(** An error is its joined messages, nil when there are none. *)
Definition error := list string.
Definition error_of (e : option string) : error := match e with Some m => [m] | None => [] end.
(** The answers of the file system to the calls on the record; [None] is success. *)
Record host := {
  h_mkdir_state : option string; h_mkdir_artifacts : option string; h_stat_record_fails : bool;
  h_create : option string; h_write : option string; h_close : option string;
  h_read : option string; h_remove : option string }.

Section Environment.
Context (script : string -> files -> option string * files) (tests : files -> error * files) (h : host) (c : EnvConfig).

Definition set_record (r : option content) (s : env) : env :=
  {| env_files := {| record := r; node := node (env_files s) |}; trace := trace s |}.
Definition perform (p : step) (s : env) (f : files) : env := {| env_files := f; trace := trace s ++ [(p, env_files s)] |}.
(** [e.operation]. *)
Definition operation (name : string) (s : env) : error * env :=
  let '(e, f) := script name (env_files s) in (error_of e, perform (Phase name) s f).
Definition run_tests (s : env) : error * env := let '(e, f) := tests (env_files s) in (e, perform Tests s f).

Definition Diagnostics (s : env) : error * env := operation "diagnostics" s.
(** [os.Remove] of the record; the boolean is [errors.Is(err, os.ErrNotExist)]. *)
Definition remove_record (s : env) : option (string * bool) * env :=
  match record (env_files s), h_remove h with
  | None, _ => (Some ("not exist", true), s)
  | Some _, Some m => (Some (m, false), s)
  | Some _, None => (None, set_record None s)
  end.
Definition Down (s : env) : error * env :=
  match node (env_files s) with
  | Missing =>
      match remove_record s with
      | (Some (_, true), s) => ([], s)
      | (Some (m, false), s) => ([m], s)
      | (None, s) => ([], s)
      end
  | _ =>
      match operation "cluster-down" s with
      | ([], s) => let '(e, s) := remove_record s in (error_of (option_map fst e), s)
      | (e, s) => (e, s)
      end
  end.

Definition setup_phases : list string := ["cluster-up"; "foundation-install"; "image-load"; "mesh-install"; "fixtures-deploy"].
Fixpoint run_phases (ps : list string) (s : env) : error * env :=
  match ps with
  | [] => ([], s)
  | p :: ps => match operation p s with ([], s) => run_phases ps s | (e, s) => (e, s) end
  end.
(** The deferred call of [Up]. *)
Definition abandon (err : error) (s : env) : error * env :=
  let '(err, s) := match node (env_files s) with
                   | Present => let '(e, s) := Diagnostics s in (err ++ e, s)
                   | _ => (err, s)
                   end in
  let '(e, s) := Down s in (err ++ e, s).
Definition Up (s : env) : error * env :=
  match h_mkdir_state h, h_mkdir_artifacts h with
  | Some m, _ => ([m], s)
  | None, Some m => ([m], s)
  | None, None =>
      if h_stat_record_fails h || match record (env_files s) with Some _ => true | None => false end
      then (["environment already retained; use test or down"], s)
      else match node (env_files s) with
           | Missing =>
               match h_create h with
               | Some m => ([m], s)
               | None =>
                   match h_write h, h_close h with
                   | Some m, _ => ([m], set_record (Some Garbage) s)
                   | None, Some m => ([m], set_record (Some (Saved c)) s)
                   | None, None =>
                       match run_phases setup_phases (set_record (Some (Saved c)) s) with
                       | ([], s) => ([], s)
                       | (err, s) => abandon err s
                       end
                   end
               end
           | _ => (["existing node ownership receipt; refusing setup takeover"], s)
           end
  end.
Definition Reuse (s : env) : error * env :=
  match record (env_files s), h_read h with
  | None, _ => (["not exist"], s)
  | Some _, Some m => ([m], s)
  | Some Garbage, None => (["invalid record"], s)
  | Some (Saved saved), None =>
      if decide (saved = c) then operation "verify" s else (["retained environment inputs do not match"], s)
  end.
Definition Run (reuse : bool) (s : env) : error * env :=
  if reuse then
    match Reuse s with
    | ([], s) => let '(err, s) := run_tests s in let '(e, s) := Diagnostics s in (err ++ e, s)
    | (err, s) => (err, s)
    end
  else
    match Up s with
    | ([], s) => let '(err, s) := run_tests s in
                 let '(e1, s) := Diagnostics s in let '(e2, s) := Down s in (err ++ e1 ++ e2, s)
    | (err, s) => (err, s)
    end.
(** The mode switch of the command. *)
Definition run_mode (mode : string) (s : env) : error * env :=
  if String.eqb mode "run" then Run false s
  else if String.eqb mode "up" then Up s
  else if String.eqb mode "test" then Run true s
  else if String.eqb mode "down" then Down s
  else (["mode must be run, up, test, or down"], s).



End Environment.

(** ** The command [gateway-e2e] *)
Definition e2e_defaults : gmap string string :=
  list_to_map [("mode", "run"); ("root", "."); ("cluster", "gateway-e2e-local"); ("image", "egress-gateway:e2e");
               ("artifacts", ".e2e/artifacts"); ("state", ".e2e/state"); ("tags", EmptyString)].
Definition e2e_flags : list string := ["mode"; "root"; "cluster"; "image"; "artifacts"; "state"; "tags"].
(** [filepath.Abs] in the working directory. *)
Definition abs (cwd p : string) : string := if is_abs p then clean p else path_join cwd p.
(** The mode, configuration and tag filter of a command line. *)
Definition e2e_config (cwd : string) (args : list string) : result error (string * EnvConfig * string) :=
  match parse_flags e2e_flags e2e_defaults args with
  | Panic => Panic
  | Err _ => Err ["flag"]
  | Ok (values, rest) =>
      match rest with
      | _ :: _ => Err ["unexpected arguments"]
      | [] =>
          let get := flag_value values in
          let state := abs cwd (get "state") in
          Ok (get "mode", {| Root := abs cwd (get "root"); Cluster := get "cluster"; Image := get "image";
                             Artifacts := abs cwd (get "artifacts"); StateDir := state;
                             Kubeconfig := path_join state "kubeconfig" |}, get "tags")
      end
  end.
Definition e2e_main (script : EnvConfig -> string -> files -> option string * files)
    (suite : EnvConfig -> string -> files -> error * files) (h : host) (cwd : string) (args : list string) (s : env)
    : result error unit * env :=
  match e2e_config cwd args with
  | Panic => (Panic, s)
  | Err e => (Err e, s)
  | Ok (mode, c, tags) =>
      let '(e, s) := run_mode (script c) (suite c tags) h c mode s in
      (match e with [] => Ok tt | _ => Err e end, s)
  end.
Example e2e_default_config : e2e_config "/repo" ["--mode=test"; "-tags"; "@network"] =
  Ok ("test", {| Root := "/repo"; Cluster := "gateway-e2e-local"; Image := "egress-gateway:e2e";
                 Artifacts := "/repo/.e2e/artifacts"; StateDir := "/repo/.e2e/state"; Kubeconfig := "/repo/.e2e/state/kubeconfig" |}, "@network").
Proof. vm_compute. reflexivity. Qed.

(** ** Witness: a whole run on a fresh state directory *)
Definition demo_script (name : string) (f : files) : option string * files :=
  if String.eqb name "cluster-up" then (None, {| record := record f; node := Present |})
  else if String.eqb name "cluster-down" then (None, {| record := record f; node := Missing |}) else (None, f).
Definition demo_tests (f : files) : error * files := (["scenario failed"], f).
Definition demo_host : host := {| h_mkdir_state := None; h_mkdir_artifacts := None; h_stat_record_fails := false;
  h_create := None; h_write := None; h_close := None; h_read := None; h_remove := None |}.
Definition demo_env_config : EnvConfig := {| Root := "/repo"; Cluster := "gateway-e2e-local"; Kubeconfig := "/state/kubeconfig";
  Image := "egress-gateway:e2e"; StateDir := "/state"; Artifacts := "/artifacts" |}.
Definition demo_env : env := {| env_files := {| record := None; node := Missing |}; trace := [] |}.
Definition demo_result : error * env := Run demo_script demo_tests demo_host demo_env_config false demo_env.
Example demo_steps : map fst (trace demo_result.2)
  = map Phase setup_phases ++ [Tests; Phase "diagnostics"; Phase "cluster-down"].
Proof. vm_compute. reflexivity. Qed.
